(* ===== verification/_CoqProject ===== *)
-Q . S2P
Prelude.v
Monad.v
Cpu.v
Ram.v
Flags.v
Exception.v
Timing.v
Ea.v
OpsMove.v
OpsCommon.v
Exec.v
OpsArith.v
OpsLogic.v
ShiftSpec.v
OpsBit.v
OpsBcd.v
OpsBranch.v
OpsCtrl.v
Frames.v
Calls.v
Movem.v
Decode.v
Step.v
Serialize.v
Safety.v
Run.v
Copy.v
Traps.v
Outcome.v
ArithSpec.v
Clock.v
Blind.v
Interrupts.v
Machine.v
