(* ===== verification/Prelude.v ===== *)
(** * A verification development for the MC68000 emulator go-chip-m68k

    The program is a Go package that emulates a Motorola 68000.  An embedding
    program supplies a [Bus], creates a [CPU], and calls [Step] or [StepCycles]
    in a loop; the other exported methods raise interrupts, add cycles, reset
    the processor, set its registers and save or restore its state.  A step
    takes a pending interrupt, fetches a word at PC and calls the closure that
    a table of 65536 entries holds for it; the closures are built when the
    package is loaded, by registration functions that specialise an
    instruction to its addressing mode and register.

    ** Parts and files

    Each definition that models code keeps the name of the Go function.

    - Prelude.v: Go's integer types as [Z] with the wrap-around written out
      ([u8] to [u64], [s8] to [s64]), the tactic [wordlia], lemmas on words,
      bits and lists.  Monad.v: state passing with panics.  A Go method of
      [*CPU] is a function [CPU B -> option (A * CPU B)]; [None] is a run-time
      panic (an index out of range, a nil closure, a division by zero).
    - Cpu.v (cpu.go, size.go): the records [Registers] and [CPU], the class
      [Bus], bus accesses with the alignment check and the 24-bit mask, fetch,
      stack, [Reset], [SetState], [setSR], [setCCR].  Flags.v (flags.go): the
      flag setters and the sixteen conditions.  Exception.v (exception.go,
      interrupt.go): exceptions and interrupts.
    - Timing.v (timing.go) and Ea.v (ea.go, ea_inline.go): addressing modes,
      both as the general [resolveEA] and as the specialised closures.
    - OpsMove.v, OpsArith.v, OpsLogic.v, OpsBit.v, OpsBcd.v, OpsBranch.v,
      OpsCtrl.v (ops_*.go): every instruction handler.  OpsCommon.v holds the
      lines the handlers repeat.
    - Decode.v (decode.go and the register functions of ops_*.go): the opcode
      table, filled as the package does it.  A closure is represented by the
      function that made it and its arguments; [run] turns it into the
      closure's behaviour.  [decode] is a reference decoder by bit fields.
    - Step.v (cpu.go): [execute], [executeNext], [Step], [StepCycles].
      Serialize.v (serialize.go): [Serialize] and [Deserialize] on bytes.

    The other files hold specifications and proofs.

    - Ram.v: [BusMemory], the contract of a bus that is memory in a region,
      and a flat 16 MB instance of it on which the model is evaluated.
    - Exec.v: symbolic execution of instructions.  Run.v: [Step] on code that
      is in memory, and sequences of steps.
    - ShiftSpec.v, ArithSpec.v, Frames.v, Traps.v, Calls.v, Movem.v, Copy.v:
      functional theorems, from one operation to a program.
    - Safety.v, Outcome.v, Blind.v, Clock.v, Interrupts.v, Machine.v: theorems
      about all instruction words and all call sequences.

    ** What the theorems show

    Safety.  From a well-formed state ([WF]: every field is in the range of its
    Go type) no step panics and every step leaves a well-formed state
    (Safety.v); no word or long access at an odd address and no address above
    24 bits ever reaches the bus; [New] returns, and in every state reachable
    by calls of the exported methods every further call returns (Machine.v).
    The bus is arbitrary: it is only assumed to return values of its Go result
    type.

    Decoding.  All 65536 entries of the table are those of the reference
    decoder, and the order in which Go runs the registrations is irrelevant
    (Decode.v).  The specialised addressing closures agree with the general
    resolver, and the precomputed cycle counts with the tables (Ea.v,
    Timing.v).

    Instructions.  Flags are stated about integers: carry is leaving the
    unsigned range, overflow leaving the signed range, and after a comparison
    each condition is the order it is named after (Flags.v).  Arithmetic,
    division with its error cases and multi-word addition (ArithSpec.v),
    shifts and rotates for every count (ShiftSpec.v), decimal arithmetic of any
    length (OpsBcd.v), MOVEM (Movem.v), calls and stack frames (Calls.v).

    Exceptions.  The frame, the mode change and the vector of exceptions and
    interrupts, that RTE undoes them, and that a faulting instruction is
    reported with its own address (Frames.v, Traps.v).  [outcome] (Outcome.v)
    is an abstract description of an instruction which every handler refines;
    from it follow that user code cannot change the system state except by an
    exception, and that SR keeps its unimplemented bits zero when callers pass
    documented arguments and restore regular images (Machine.v).  No
    instruction reads the pending request, the owed cycles or the clock
    (Blind.v): a masked request cannot be observed, an accepted one acts
    between two instructions, and STOP waits for one (Interrupts.v).

    Time.  A step of a processor that keeps running takes 4 to 214 cycles, the
    number it reports; a loop over [StepCycles] ends, pays exactly its budget,
    and leaves the same state as the same loop cut into slices, except that a
    processor halted on the way may owe other cycles (Clock.v).

    Whole programs.  A copy loop executed from memory copies its block and
    nothing else, in a known number of instructions and cycles (Copy.v).

    State images.  [Deserialize] of what [Serialize] wrote restores the state,
    and every buffer is either restored or refused unchanged (Serialize.v).

    ** Bounds and fuel

    The model of the package has no fuel: the loops of the source (registers of
    MOVEM, shift counts up to 63, the registration loops) are recursions over
    their ranges.  Only [drive] (Clock.v), the loop of an embedding program, is
    given fuel; one more than its budget is enough, since each call consumes at
    least one cycle.  The cycle counter wraps at 64 bits as in the source.

    ** Not modelled

    Log output and the [String] method of sizes, which no state depends on.
    The methods [Halted], [Cycles], [Deficit] and [Registers] only return
    fields.  The pointer that [RequestInterrupt] or [SetIPL] is given for a
    vector is read when it is passed, not when the interrupt is taken: callers
    are assumed not to change the byte in between.  Buses are outside the
    package; they do not call methods of the processor during an access, and
    the theorems that need memory assume [BusMemory]. *)

From Stdlib Require Export ZArith Lia Bool.
From stdpp Require Export base list numbers gmap.

#[global] Open Scope Z_scope.

(** ** Go's fixed-width integers

    A value of type [uintN] is a [Z] in range; a conversion or an operation
    that can leave the range is followed by the wrap-around written out. *)

Definition u8 (x : Z) : Z := x mod 0x100.
Definition u16 (x : Z) : Z := x mod 0x10000.
Definition u32 (x : Z) : Z := x mod 0x100000000.
Definition u64 (x : Z) : Z := x mod 0x10000000000000000.

Definition s8 (x : Z) : Z := (x + 0x80) mod 0x100 - 0x80.
Definition s16 (x : Z) : Z := (x + 0x8000) mod 0x10000 - 0x8000.
Definition s32 (x : Z) : Z := (x + 0x80000000) mod 0x100000000 - 0x80000000.
Definition s64 (x : Z) : Z :=
  (x + 0x8000000000000000) mod 0x10000000000000000 - 0x8000000000000000.

Definition is_u8 (x : Z) : Prop := 0 <= x < 0x100.
Definition is_u16 (x : Z) : Prop := 0 <= x < 0x10000.
Definition is_u32 (x : Z) : Prop := 0 <= x < 0x100000000.
Definition is_u64 (x : Z) : Prop := 0 <= x < 0x10000000000000000.

(** Shifts of a [uint32] by an unsigned count: Go gives 0 once the count
    reaches the width. *)
Definition shl32 (x n : Z) : Z := if 32 <=? n then 0 else u32 (Z.shiftl x n).
Definition shr32 (x n : Z) : Z := if 32 <=? n then 0 else Z.shiftr x n.

(** Go's [^x] on a [uint32]. *)
Definition not32 (x : Z) : Z := Z.ldiff 0xFFFFFFFF x.

(** Go's [x & f != 0]. *)
Definition tstb (x f : Z) : bool := negb (Z.land x f =? 0).

(** ** Tactics *)

(** [lia] after turning [mod] and [/] into their defining equations. *)
Ltac zlia := Z.to_euclidean_division_equations; lia.

(** Unfold the range predicates and the wrap functions, then [zlia]. *)
Ltac wordlia :=
  unfold is_u8, is_u16, is_u32, is_u64, u8, u16, u32, u64, s8, s16, s32, s64 in *;
  zlia.

(** Succeeds on a term without local variables. *)
Ltac is_closed x :=
  is_ground x; let _ := constr:(ltac:(clear; exact x) : Z) in idtac.

(** The range of a closed term, by evaluating it. *)
Ltac ground_range x :=
  is_closed x;
  let v := eval vm_compute in x in
  change x with v; unfold is_u8, is_u16, is_u32; lia.

(** Case analysis on the scrutinee of an [if]. *)
Ltac case_if :=
  match goal with
  | |- context [if ?b then _ else _] => destruct b eqn:?
  end.

(** Case analysis on the integer comparisons of the goal, innermost first. *)
Ltac atomic_cmp a b :=
  lazymatch constr:(a + b) with
  | context [if _ then _ else _] => fail
  | _ => idtac
  end.

Ltac cmp_cases :=
  repeat match goal with
  | |- context [?a <? ?b] => atomic_cmp a b; destruct (Z.ltb_spec a b)
  | |- context [?a <=? ?b] => atomic_cmp a b; destruct (Z.leb_spec a b)
  | |- context [?a =? ?b] => atomic_cmp a b; destruct (Z.eqb_spec a b)
  end; simpl.

(** Enumerate a bounded integer variable. *)
Ltac enum_upto x n :=
  let rec go k :=
    lazymatch k with
    | O => exfalso; lia
    | S ?k' =>
        let v := eval vm_compute in (Z.of_nat n - Z.of_nat k) in
        destruct (Z.eq_dec x v) as [->|?]; [|go k']
    end in
  go n.

(** ** Ranges *)

Create HintDb word.

Lemma u8_range x : is_u8 (u8 x).
Proof. wordlia. Qed.

Lemma u16_range x : is_u16 (u16 x).
Proof. wordlia. Qed.

Lemma u32_range x : is_u32 (u32 x).
Proof. wordlia. Qed.

Lemma u64_range x : is_u64 (u64 x).
Proof. wordlia. Qed.

Lemma u8_small x : is_u8 x -> u8 x = x.
Proof. wordlia. Qed.

Lemma u16_small x : is_u16 x -> u16 x = x.
Proof. wordlia. Qed.

Lemma s64_small x : - 0x8000000000000000 <= x < 0x8000000000000000 -> s64 x = x.
Proof. wordlia. Qed.

Lemma u32_small x : is_u32 x -> u32 x = x.
Proof. wordlia. Qed.

Lemma u64_small x : is_u64 x -> u64 x = x.
Proof. wordlia. Qed.

Lemma is_u8_u16 x : is_u8 x -> is_u16 x.
Proof. wordlia. Qed.

Lemma is_u16_u32 x : is_u16 x -> is_u32 x.
Proof. wordlia. Qed.

Lemma is_u8_u32 x : is_u8 x -> is_u32 x.
Proof. wordlia. Qed.

(** The bits of a value below [2^n] above position [n] are clear, and
    conversely; every bitwise closure lemma below goes through it. *)
Lemma below_pow2_bits n x :
  0 <= n -> 0 <= x -> (forall i, n <= i -> Z.testbit x i = false) -> x < 2 ^ n.
Proof.
  intros Hn Hx Hb. destruct (Z.eq_dec x 0) as [->|Hnz]; [lia|].
  apply Z.log2_lt_pow2; [lia|].
  destruct (Z_lt_le_dec (Z.log2 x) n) as [|Hle]; [done|].
  specialize (Hb _ Hle). rewrite Z.bit_log2 in Hb by lia. done.
Qed.

Lemma testbit_high n x i : 0 <= x < 2 ^ n -> n <= i -> Z.testbit x i = false.
Proof.
  intros [H0 H1] Hi. destruct (Z.eq_dec x 0) as [->|]; [apply Z.bits_0|].
  apply Z.bits_above_log2; [lia|].
  enough (Z.log2 x < n) by lia. apply Z.log2_lt_pow2; lia.
Qed.

Lemma land_below n x y : 0 <= n -> 0 <= x < 2 ^ n -> 0 <= Z.land x y < 2 ^ n.
Proof.
  intros Hn Hx. assert (0 <= Z.land x y) by (apply Z.land_nonneg; lia).
  split; [done|]. apply below_pow2_bits; [done..|]. intros i Hi.
  by rewrite Z.land_spec, (testbit_high n x).
Qed.

Lemma lor_below n x y : 0 <= n -> 0 <= x < 2 ^ n -> 0 <= y < 2 ^ n -> 0 <= Z.lor x y < 2 ^ n.
Proof.
  intros Hn Hx Hy. assert (0 <= Z.lor x y) by (apply Z.lor_nonneg; lia).
  split; [done|]. apply below_pow2_bits; [done..|]. intros i Hi.
  by rewrite Z.lor_spec, (testbit_high n x), (testbit_high n y).
Qed.

Lemma lxor_below n x y : 0 <= n -> 0 <= x < 2 ^ n -> 0 <= y < 2 ^ n -> 0 <= Z.lxor x y < 2 ^ n.
Proof.
  intros Hn Hx Hy. assert (0 <= Z.lxor x y) by (apply Z.lxor_nonneg; lia).
  split; [done|]. apply below_pow2_bits; [done..|]. intros i Hi.
  by rewrite Z.lxor_spec, (testbit_high n x), (testbit_high n y).
Qed.

Lemma ldiff_below n x y : 0 <= n -> 0 <= x < 2 ^ n -> 0 <= Z.ldiff x y < 2 ^ n.
Proof.
  intros Hn Hx. assert (0 <= Z.ldiff x y) by (apply Z.ldiff_nonneg; lia).
  split; [done|]. apply below_pow2_bits; [done..|]. intros i Hi.
  by rewrite Z.ldiff_spec, (testbit_high n x).
Qed.

Lemma shiftr_below n x k : 0 <= n -> 0 <= k -> 0 <= x < 2 ^ n -> 0 <= Z.shiftr x k < 2 ^ n.
Proof.
  intros Hn Hk Hx. rewrite Z.shiftr_div_pow2 by done.
  assert (0 < 2 ^ k) by (apply Z.pow_pos_nonneg; lia).
  split; [apply Z.div_pos; lia|].
  apply Z.div_lt_upper_bound; [lia|]. nia.
Qed.

(** Instantiate a closure lemma at a literal width. *)
Ltac range_by lem n :=
  intros; unfold is_u8, is_u16, is_u32 in *;
  let v := eval vm_compute in (2 ^ n) in
  change v with (2 ^ n) in *; apply (lem n); lia.

Lemma is_u32_land_l x y : is_u32 x -> is_u32 (Z.land x y).
Proof. range_by land_below 32. Qed.

Lemma is_u32_land_r x y : is_u32 y -> is_u32 (Z.land x y).
Proof. rewrite Z.land_comm. apply is_u32_land_l. Qed.

Lemma is_u32_lor x y : is_u32 x -> is_u32 y -> is_u32 (Z.lor x y).
Proof. range_by lor_below 32. Qed.

Lemma is_u32_lxor x y : is_u32 x -> is_u32 y -> is_u32 (Z.lxor x y).
Proof. range_by lxor_below 32. Qed.

Lemma is_u32_ldiff x y : is_u32 x -> is_u32 (Z.ldiff x y).
Proof. range_by ldiff_below 32. Qed.

Lemma is_u32_shiftr x k : 0 <= k -> is_u32 x -> is_u32 (Z.shiftr x k).
Proof. range_by shiftr_below 32. Qed.

Lemma is_u32_not32 x : is_u32 (not32 x).
Proof. apply is_u32_ldiff. wordlia. Qed.

Lemma is_u32_shl32 x n : is_u32 (shl32 x n).
Proof. unfold shl32. case_if; [wordlia | apply u32_range]. Qed.

Lemma is_u32_shr32 x n : 0 <= n -> is_u32 x -> is_u32 (shr32 x n).
Proof. unfold shr32. intros. case_if; [wordlia | by apply is_u32_shiftr]. Qed.

Lemma is_u16_land_l x y : is_u16 x -> is_u16 (Z.land x y).
Proof. range_by land_below 16. Qed.

Lemma is_u16_land_r x y : is_u16 y -> is_u16 (Z.land x y).
Proof. rewrite Z.land_comm. apply is_u16_land_l. Qed.

Lemma is_u16_lor x y : is_u16 x -> is_u16 y -> is_u16 (Z.lor x y).
Proof. range_by lor_below 16. Qed.

Lemma is_u16_lxor x y : is_u16 x -> is_u16 y -> is_u16 (Z.lxor x y).
Proof. range_by lxor_below 16. Qed.

Lemma is_u16_ldiff x y : is_u16 x -> is_u16 (Z.ldiff x y).
Proof. range_by ldiff_below 16. Qed.

Lemma is_u16_shiftr x k : 0 <= k -> is_u16 x -> is_u16 (Z.shiftr x k).
Proof. range_by shiftr_below 16. Qed.

Lemma is_u8_land_l x y : is_u8 x -> is_u8 (Z.land x y).
Proof. range_by land_below 8. Qed.

Lemma is_u8_land_r x y : is_u8 y -> is_u8 (Z.land x y).
Proof. rewrite Z.land_comm. apply is_u8_land_l. Qed.

Lemma is_u8_lor x y : is_u8 x -> is_u8 y -> is_u8 (Z.lor x y).
Proof. range_by lor_below 8. Qed.

Lemma is_u8_lxor x y : is_u8 x -> is_u8 y -> is_u8 (Z.lxor x y).
Proof. range_by lxor_below 8. Qed.

Lemma is_u32_u8 x : is_u32 (u8 x).
Proof. wordlia. Qed.

Lemma is_u32_u16 x : is_u32 (u16 x).
Proof. wordlia. Qed.

Lemma is_u16_u8 x : is_u16 (u8 x).
Proof. wordlia. Qed.

Lemma is_u32_nonneg x : is_u32 x -> 0 <= x.
Proof. by intros []. Qed.

Lemma is_u16_nonneg x : is_u16 x -> 0 <= x.
Proof. by intros []. Qed.

Lemma is_u8_nonneg x : is_u8 x -> 0 <= x.
Proof. by intros []. Qed.

(** Ranges of the development's own functions, used at the leaves of [urange]. *)
Create HintDb wordleaf.

(** [urange] proves that a word expression is in range, following its syntax;
    [unonneg] proves that it is not negative. *)
Ltac urange :=
  first
  [ assumption
  | lazymatch goal with
    | |- _ (if ?b then _ else _) => destruct b; urange
    | |- is_u32 (u32 _) => apply u32_range
    | |- is_u32 (u16 _) => apply is_u32_u16
    | |- is_u32 (u8 _) => apply is_u32_u8
    | |- is_u32 (Z.lor _ _) => apply is_u32_lor; urange
    | |- is_u32 (Z.lxor _ _) => apply is_u32_lxor; urange
    | |- is_u32 (Z.ldiff _ _) => apply is_u32_ldiff; urange
    | |- is_u32 (Z.land _ _) =>
        first [ apply is_u32_land_l; urange | apply is_u32_land_r; urange ]
    | |- is_u32 (Z.shiftr _ _) => apply is_u32_shiftr; [lia | urange]
    | |- is_u32 (not32 _) => apply is_u32_not32
    | |- is_u32 (shl32 _ _) => apply is_u32_shl32
    | |- is_u32 (shr32 _ _) => apply is_u32_shr32; [unonneg | urange]
    | |- is_u32 ?x =>
        first [ apply is_u16_u32; assumption | apply is_u8_u32; assumption
              | solve [auto 2 with wordleaf nocore] | ground_range x ]
    | |- is_u16 (u16 _) => apply u16_range
    | |- is_u16 (u8 _) => apply is_u16_u8
    | |- is_u16 (Z.lor _ _) => apply is_u16_lor; urange
    | |- is_u16 (Z.lxor _ _) => apply is_u16_lxor; urange
    | |- is_u16 (Z.ldiff _ _) => apply is_u16_ldiff; urange
    | |- is_u16 (Z.land _ _) =>
        first [ apply is_u16_land_l; urange | apply is_u16_land_r; urange ]
    | |- is_u16 (Z.shiftr _ _) => apply is_u16_shiftr; [lia | urange]
    | |- is_u16 ?x => first [ apply is_u8_u16; assumption | ground_range x ]
    | |- is_u8 (u8 _) => apply u8_range
    | |- is_u8 (Z.lor _ _) => apply is_u8_lor; urange
    | |- is_u8 (Z.lxor _ _) => apply is_u8_lxor; urange
    | |- is_u8 (Z.land _ _) =>
        first [ apply is_u8_land_l; urange | apply is_u8_land_r; urange ]
    | |- is_u8 ?x => ground_range x
    end ]
with unonneg :=
  first [ lia
        | match goal with |- 0 <= ?x => ground_range x end
        | apply is_u32_nonneg; urange ].

(** ** Single bits *)

Lemma tstb_pow2 x k : 0 <= k -> tstb x (2 ^ k) = Z.testbit x k.
Proof.
  intros Hk. unfold tstb. destruct (Z.eqb_spec (Z.land x (2 ^ k)) 0) as [E|E]; simpl.
  - assert (Z.testbit (Z.land x (2 ^ k)) k = false) as Hb by (rewrite E; apply Z.bits_0).
    rewrite Z.land_spec, Z.pow2_bits_true, andb_true_r in Hb by done. by rewrite Hb.
  - destruct (Z.testbit x k) eqn:Hx; [done|]. destruct E.
    apply Z.bits_inj_0. intros i. rewrite Z.land_spec.
    destruct (Z.eq_dec k i) as [->|Hne]; [by rewrite Hx|].
    rewrite Z.pow2_bits_false by done. apply andb_false_r.
Qed.

Lemma testbit_top n x : 0 <= n -> 0 <= x < 2 ^ (n + 1) -> Z.testbit x n = (2 ^ n <=? x).
Proof.
  intros Hn Hx. rewrite Z.pow_add_r in Hx by lia. change (2 ^ 1) with 2 in Hx.
  assert (0 < 2 ^ n) by (apply Z.pow_pos_nonneg; lia).
  rewrite Z.testbit_eqb by done.
  destruct (Z.leb_spec (2 ^ n) x).
  - replace (x / 2 ^ n) with 1; [done|]. apply Z.div_unique with (x - 2 ^ n); lia.
  - by rewrite Z.div_small by lia.
Qed.

(** A bit above the magnitude of a wrapped difference is its sign. *)
Lemma tstb_sign k t :
  0 <= k < 32 -> - 2 ^ k <= t < 2 ^ k -> tstb (u32 t) (2 ^ k) = (t <? 0).
Proof.
  intros Hk Ht. rewrite tstb_pow2 by lia. unfold u32. change 0x100000000 with (2 ^ 32).
  rewrite Z.mod_pow2_bits_low by lia. rewrite Z.testbit_eqb by lia.
  assert (0 < 2 ^ k) by (apply Z.pow_pos_nonneg; lia).
  destruct (Z.ltb_spec t 0).
  - replace (t / 2 ^ k) with (-1); [done|]. apply Z.div_unique with (t + 2 ^ k); lia.
  - by rewrite Z.div_small by lia.
Qed.

(** Putting a field above another is addition. *)
Lemma lor_shiftl_add n a b : 0 <= n -> 0 <= b < 2 ^ n -> Z.lor (Z.shiftl a n) b = a * 2 ^ n + b.
Proof.
  intros Hn Hb. rewrite <- Z.shiftl_mul_pow2, Z.add_nocarry_lor; [done| |done].
  apply Z.bits_inj_0. intros i. rewrite Z.land_spec.
  destruct (Z_lt_le_dec i n).
  - by rewrite Z.shiftl_spec_low.
  - rewrite (testbit_high n b i) by lia. apply andb_false_r.
Qed.

(** The last bit decides parity: the code's alignment test [addr & 1]. *)
Lemma tstb_1 x : tstb x 1 = Z.odd x.
Proof. change 1 with (2 ^ 0). rewrite tstb_pow2 by lia. apply Z.bit0_odd. Qed.

Lemma tstb_false x f : tstb x f = false <-> Z.land x f = 0.
Proof. unfold tstb. destruct (Z.eqb_spec (Z.land x f) 0); naive_solver. Qed.

Lemma ldiff_lor a b f : Z.ldiff (Z.lor a b) f = Z.lor (Z.ldiff a f) (Z.ldiff b f).
Proof.
  apply Z.bits_inj'. intros i Hi. rewrite Z.lor_spec, !Z.ldiff_spec, Z.lor_spec.
  by destruct (Z.testbit a i), (Z.testbit b i), (Z.testbit f i).
Qed.

(** ** Masks as remainders *)

Lemma land_mask n x : 0 <= n -> Z.land x (2 ^ n - 1) = x mod 2 ^ n.
Proof.
  intros. rewrite <- Z.land_ones by done. f_equal. rewrite Z.ones_equiv. lia.
Qed.

Lemma land_FF x : Z.land x 0xFF = x mod 0x100.
Proof. by apply (land_mask 8). Qed.

Lemma land_FFFF x : Z.land x 0xFFFF = x mod 0x10000.
Proof. by apply (land_mask 16). Qed.

Lemma land_FFFFFF x : Z.land x 0xFFFFFF = x mod 0x1000000.
Proof. by apply (land_mask 24). Qed.

Lemma land_FFFFFFFF x : Z.land x 0xFFFFFFFF = x mod 0x100000000.
Proof. by apply (land_mask 32). Qed.

(** Replacing the low [n] bits of a register. *)
Lemma set_low n D x :
  0 <= n <= 32 -> is_u32 D -> 0 <= x < 2 ^ n ->
  Z.lor (Z.land D (Z.shiftl (Z.ones (32 - n)) n)) x = D - D mod 2 ^ n + x.
Proof.
  intros Hn HD Hx. unfold is_u32 in HD.
  replace (Z.land D _) with (Z.shiftl (Z.shiftr D n) n).
  - rewrite lor_shiftl_add, Z.shiftr_div_pow2 by lia.
    pose proof (Z.div_mod D (2 ^ n) ltac:(lia)). lia.
  - apply Z.bits_inj'. intros i Hi. rewrite Z.land_spec, !Z.shiftl_spec by done.
    destruct (Z_lt_le_dec i n).
    { rewrite !(Z.testbit_neg_r _ (i - n)) by lia. by rewrite andb_false_r. }
    rewrite Z.shiftr_spec, Z.testbit_ones_nonneg by lia.
    replace (i - n + n) with i by lia. destruct (Z.ltb_spec (i - n) (32 - n)).
    + by rewrite andb_true_r.
    + rewrite andb_false_r. apply (testbit_high 32); lia.
Qed.

Lemma land_7 x : Z.land x 7 = x mod 8.
Proof. by apply (land_mask 3). Qed.

Lemma land_7_range x : 0 <= Z.land x 7 < 8.
Proof. rewrite land_7. zlia. Qed.

Lemma u8_land_7_range x : 0 <= u8 (Z.land x 7) < 8.
Proof. rewrite land_7. wordlia. Qed.

(** The index of a register: a literal, a hypothesis or a masked field. *)
Ltac reg_index :=
  first [ lia | apply land_7_range | apply u8_land_7_range ].

#[export] Hint Extern 0 (is_u8 _) => urange : word.
#[export] Hint Extern 0 (is_u16 _) => urange : word.
#[export] Hint Extern 0 (is_u32 _) => urange : word.
#[export] Hint Extern 0 (0 <= _ < 8) => reg_index : word.

(** ** Arrays

    A Go array is a list; an index outside it is a run-time panic, [None]. *)

Definition arr_get (l : list Z) (i : Z) : option Z :=
  if i <? 0 then None else l !! Z.to_nat i.

Definition arr_set (l : list Z) (i v : Z) : option (list Z) :=
  if (i <? 0) || (Z.of_nat (length l) <=? i) then None
  else Some (<[Z.to_nat i := v]> l).

Lemma arr_get_in l i :
  0 <= i < Z.of_nat (length l) -> exists v, arr_get l i = Some v /\ v ∈ l.
Proof.
  intros Hi. unfold arr_get. destruct (Z.ltb_spec i 0); [lia|].
  destruct (lookup_lt_is_Some_2 l (Z.to_nat i)) as [v Hv]; [lia|].
  exists v. split; [done|]. by eapply list_elem_of_lookup_2.
Qed.

Lemma arr_set_in l i v :
  0 <= i < Z.of_nat (length l) -> arr_set l i v = Some (<[Z.to_nat i := v]> l).
Proof.
  intros Hi. unfold arr_set.
  destruct (Z.ltb_spec i 0); [lia|]. destruct (Z.leb_spec (Z.of_nat (length l)) i); [lia|]. done.
Qed.

Lemma arr_get_set l i j v l' :
  arr_set l i v = Some l' -> arr_get l' j = if i =? j then Some v else arr_get l j.
Proof.
  unfold arr_set, arr_get. intros Hs.
  destruct (Z.ltb_spec i 0) as [|Hi0]; [done|].
  destruct (Z.leb_spec (Z.of_nat (length l)) i) as [|Hi1]; [done|].
  simpl in Hs. injection Hs as <-.
  destruct (Z.ltb_spec j 0), (Z.eqb_spec i j); try lia; [done|subst|].
  - apply list_lookup_insert_eq. lia.
  - apply list_lookup_insert_ne. lia.
Qed.

Lemma Forall_insert_Z (P : Z -> Prop) l (i : nat) v :
  Forall P l -> P v -> Forall P (<[i := v]> l).
Proof. intros. by apply Forall_insert. Qed.

(** Lists of consecutive integers: the index sets of the code's [for] loops. *)
Fixpoint zrange_from (a : Z) (n : nat) : list Z :=
  match n with
  | O => []
  | S n => a :: zrange_from (a + 1) n
  end.

Definition zrange (a b : Z) : list Z := zrange_from a (Z.to_nat (b - a)).

Lemma elem_of_zrange_from a n x :
  x ∈ zrange_from a n <-> a <= x < a + Z.of_nat n.
Proof.
  revert a. induction n as [|n IH]; intros a; simpl.
  - rewrite elem_of_nil. lia.
  - rewrite elem_of_cons, IH. lia.
Qed.

Lemma elem_of_zrange a b x : x ∈ zrange a b <-> a <= x < b.
Proof. unfold zrange. rewrite elem_of_zrange_from. lia. Qed.

(** The number a list of digits stands for, least significant first. *)
Fixpoint num (base : Z) (ds : list Z) : Z :=
  match ds with
  | [] => 0
  | d :: ds => d + base * num base ds
  end.
