(* ===== verification/Monad.v ===== *)
(** * State passing with Go run-time panics

    Every method of the emulator takes [c *CPU], mutates it and returns a
    value; it can in principle panic (an index outside an array, a call of a
    nil closure, a division by zero).  [M S A] is a function from a state to
    the returned value and the new state, or [None] for a panic.

    [wp m Q s] is the weakest precondition in the total sense: [m] run on [s]
    does not panic and its result satisfies [Q].  [Pres] is the derived notion
    used for whole-program invariants: an invariant [I] is kept, the states
    before and after are related by [R], and the value returned satisfies [V]. *)

From S2P Require Import Prelude.

Definition M (S A : Type) : Type := S -> option (A * S).

Definition ret {S A} (a : A) : M S A := fun s => Some (a, s).

Definition bind {S A B} (m : M S A) (k : A -> M S B) : M S B :=
  fun s => match m s with Some (a, s') => k a s' | None => None end.

Definition panic {S A} : M S A := fun _ => None.

Definition get {S} : M S S := fun s => Some (s, s).

Definition put {S} (s : S) : M S unit := fun _ => Some (tt, s).

Definition gets {S A} (f : S -> A) : M S A := fun s => Some (f s, s).

Definition modify {S} (f : S -> S) : M S unit := fun s => Some (tt, f s).

(** A read of an array element and a call of a possibly nil closure. *)
Definition index {S} (l : list Z) (i : Z) : M S Z :=
  match arr_get l i with Some v => ret v | None => panic end.

Definition of_option {S A} (o : option A) : M S A :=
  match o with Some a => ret a | None => panic end.

Definition when {S} (b : bool) (m : M S unit) : M S unit :=
  if b then m else ret tt.

(** [for _, x := range l { acc = body(acc, x) }] *)
Fixpoint foldM {S A X} (body : A -> X -> M S A) (l : list X) (acc : A) : M S A :=
  match l with
  | [] => ret acc
  | x :: l => bind (body acc x) (fun acc => foldM body l acc)
  end.

(** Run a two-operand step over a list of operand pairs, collecting the results:
    a multi-word operation as a sequence of single-word instructions. *)
Fixpoint chain {S} (f : Z -> Z -> M S Z) (ps : list (Z * Z)) : M S (list Z) :=
  match ps with
  | [] => ret []
  | p :: ps => bind (f (fst p) (snd p)) (fun r => bind (chain f ps) (fun rs => ret (r :: rs)))
  end.

Declare Scope m68k_scope.
Delimit Scope m68k_scope with m68k.
#[global] Open Scope m68k_scope.

Notation "x <- m ;; k" := (bind m (fun x => k))
  (at level 100, m at next level, k at level 200, right associativity) : m68k_scope.
Notation "m ;; k" := (bind m (fun _ => k))
  (at level 100, k at level 200, right associativity) : m68k_scope.

(** ** Weakest preconditions *)

Definition wp {S A} (m : M S A) (Q : A -> S -> Prop) (s : S) : Prop :=
  match m s with Some (a, s') => Q a s' | None => False end.

Section wp_rules.
Context {S : Type}.

Lemma wp_ret {A} (a : A) Q (s : S) : Q a s -> wp (ret a) Q s.
Proof. done. Qed.

Lemma wp_bind {A B} (m : M S A) (k : A -> M S B) Q s :
  wp m (fun a s' => wp (k a) Q s') s -> wp (bind m k) Q s.
Proof. unfold wp, bind. by destruct (m s) as [[a s']|]. Qed.

Lemma wp_gets {A} (f : S -> A) Q s : Q (f s) s -> wp (gets f) Q s.
Proof. done. Qed.

Lemma wp_get Q (s : S) : Q s s -> wp get Q s.
Proof. done. Qed.

Lemma wp_modify f Q (s : S) : Q tt (f s) -> wp (modify f) Q s.
Proof. done. Qed.

Lemma wp_mono {A} (m : M S A) (P Q : A -> S -> Prop) s :
  wp m P s -> (forall a s', P a s' -> Q a s') -> wp m Q s.
Proof. unfold wp. destruct (m s) as [[a s']|]; auto. Qed.

Lemma wp_conj {A} (m : M S A) (P Q : A -> S -> Prop) s :
  wp m P s -> wp m Q s -> wp m (fun a s' => P a s' /\ Q a s') s.
Proof. unfold wp. destruct (m s) as [[a s']|]; auto. Qed.

Lemma wp_elim {A} (m : M S A) Q s :
  wp m Q s -> exists a s', m s = Some (a, s') /\ Q a s'.
Proof. unfold wp. destruct (m s) as [[a s']|]; [eauto|done]. Qed.

Lemma wp_intro {A} (m : M S A) (Q : A -> S -> Prop) s a s' :
  m s = Some (a, s') -> Q a s' -> wp m Q s.
Proof. unfold wp. by intros ->. Qed.

Lemma bind_Some {A B} (m : M S A) (k : A -> M S B) s r :
  bind m k s = Some r <-> exists a s', m s = Some (a, s') /\ k a s' = Some r.
Proof.
  unfold bind. destruct (m s) as [[a s']|]; [|by split; [|intros (? & ? & ? & ?)]].
  split; [eauto|]. by intros (? & ? & [= <- <-] & ?).
Qed.

Lemma bind_eval {A B} (m : M S A) (k : A -> M S B) s a s' :
  m s = Some (a, s') -> bind m k s = k a s'.
Proof. unfold bind. by intros ->. Qed.

Lemma bind_assoc {A B C} (m : M S A) (k : A -> M S B) (h : B -> M S C) s :
  bind (bind m k) h s = bind m (fun a => bind (k a) h) s.
Proof. unfold bind. by destruct (m s) as [[a s']|]. Qed.

Lemma bind_ret {A B} (a : A) (k : A -> M S B) s : bind (ret a) k s = k a s.
Proof. done. Qed.

Lemma bind_ret_r {A} (m : M S A) s : bind m ret s = m s.
Proof. unfold bind, ret. by destruct (m s) as [[]|]. Qed.

(** Two computations that agree on every state, continued alike, agree. *)
Lemma bind_ext {A B} (m m' : M S A) (k k' : A -> M S B) s :
  m s = m' s -> (forall a s', m s = Some (a, s') -> k a s' = k' a s') ->
  bind m k s = bind m' k' s.
Proof. unfold bind. intros <- Hk. destruct (m s) as [[a s']|]; auto. Qed.
End wp_rules.

(** ** Invariant-preserving computations *)

Section pres.
Context {S : Type} (I : S -> Prop) (R : S -> S -> Prop).
Context {HRrefl : Reflexive R} {HRtrans : Transitive R}.

Definition Pres {A} (V : A -> Prop) (m : M S A) : Prop :=
  forall s, I s -> wp m (fun a s' => I s' /\ R s s' /\ V a) s.

Lemma pres_ret {A} (V : A -> Prop) a : V a -> Pres V (ret a).
Proof. by intros ? s ?. Qed.

Lemma pres_bind {A B} (V : A -> Prop) (W : B -> Prop) (m : M S A) (k : A -> M S B) :
  Pres V m -> (forall a, V a -> Pres W (k a)) -> Pres W (bind m k).
Proof.
  intros Hm Hk s Hs. apply wp_bind. eapply wp_mono; [by apply Hm|].
  intros a s' (Hs' & HR & Ha). eapply wp_mono; [by apply Hk|].
  intros b s'' (Hs'' & HR' & Hb). eauto.
Qed.

Lemma pres_weaken {A} (V W : A -> Prop) (m : M S A) :
  Pres V m -> (forall a, V a -> W a) -> Pres W m.
Proof.
  intros Hm HVW s Hs. eapply wp_mono; [by apply Hm|].
  intros a s' (? & ? & ?). auto.
Qed.

Lemma pres_if {A} (V : A -> Prop) (b : bool) (m m' : M S A) :
  Pres V m -> Pres V m' -> Pres V (if b then m else m').
Proof. by destruct b. Qed.

Lemma pres_foldM {A X} (V : A -> Prop) (P : X -> Prop) (body : A -> X -> M S A) l acc :
  Forall P l -> V acc ->
  (forall a x, V a -> P x -> Pres V (body a x)) -> Pres V (foldM body l acc).
Proof.
  intros Hl Hacc Hb. revert acc Hacc. induction Hl as [|x l Hx Hl IH]; intros acc Hacc; simpl.
  - by apply pres_ret.
  - eapply pres_bind; [by apply Hb|]. intros a Ha. by apply IH.
Qed.
End pres.
