(* ===== verification/Cpu.v ===== *)
(** * The processor state and its primitive accesses (cpu.go, size.go)

    The [CPU] record, the [Bus] interface it talks to, and the methods of
    cpu.go that every instruction is built from: bus accesses with their
    alignment check and 24-bit mask, instruction fetch, stack pushes and pops,
    and the status-register writers.  [Step] and [StepCycles] are in Step.v.

    [log.Printf] calls only produce diagnostics and are left out.  The
    [pendingVec *uint8] pointer is an [option Z]: the byte it points to is
    taken at the time it is stored. *)

From S2P Require Import Prelude Monad.

(** ** size.go *)

(** [type size int]: the code uses 1, 2 and 4, and 0 as the invalid size; a
    size is a [Z] here so that the default branches stay reachable. *)
Definition sizeByte : Z := 1.
Definition sizeWord : Z := 2.
Definition sizeLong : Z := 4.

Definition Mask (s : Z) : Z :=
  if s =? sizeByte then 0xFF
  else if s =? sizeWord then 0xFFFF
  else if s =? sizeLong then 0xFFFFFFFF
  else 0.

Definition MSB (s : Z) : Z :=
  if s =? sizeByte then 0x80
  else if s =? sizeWord then 0x8000
  else if s =? sizeLong then 0x80000000
  else 0.

Definition Bits (s : Z) : Z := u32 (u32 s * 8).

Lemma Mask_range sz : is_u32 (Mask sz).
Proof. unfold Mask. repeat case_if; urange. Qed.

Lemma MSB_range sz : is_u32 (MSB sz).
Proof. unfold MSB. repeat case_if; urange. Qed.

#[export] Hint Resolve Mask_range MSB_range : wordleaf.

(** ** The bus

    [Bus] is the interface the embedding program implements: it is a
    parameter.  A method may change the bus (a device register can react to a
    read), so each returns the bus after the access.  It is assumed not to call
    methods of the processor during the access: a device that raises an
    interrupt does so between two steps. *)

Class Bus (B : Type) : Type := {
  Read8 : Z -> B -> Z * B;
  Read16 : Z -> B -> Z * B;
  Read32 : Z -> B -> Z * B;
  Write8 : Z -> Z -> B -> B;
  Write16 : Z -> Z -> B -> B;
  Write32 : Z -> Z -> B -> B;
  BusReset : B -> B
}.

(** What Go's result types [uint8], [uint16] and [uint32] say of the reads. *)
Class BusTyped (B : Type) `{!Bus B} : Prop := {
  Read8_range : forall a b, is_u8 (fst (Read8 a b));
  Read16_range : forall a b, is_u16 (fst (Read16 a b));
  Read32_range : forall a b, is_u32 (fst (Read32 a b))
}.

(** ** The state *)

Record Registers : Type := mkRegisters {
  rD : list Z;
  rA : list Z;
  rPC : Z;
  rSR : Z;
  rUSP : Z;
  rSSP : Z;
  rIR : Z
}.

Record CPU (B : Type) : Type := mkCPU {
  reg : Registers;
  bus : B;
  cycles : Z;
  ir : Z;
  stopped : bool;
  halted : bool;
  prevPC : Z;
  pendingIPL : Z;
  pendingVec : option Z;
  deficit : Z
}.
Arguments mkCPU {B} _ _ _ _ _ _ _ _ _ _.
Arguments reg {B} _.
Arguments bus {B} _.
Arguments cycles {B} _.
Arguments ir {B} _.
Arguments stopped {B} _.
Arguments halted {B} _.
Arguments prevPC {B} _.
Arguments pendingIPL {B} _.
Arguments pendingVec {B} _.
Arguments deficit {B} _.

(** Field updates of [Registers] and [CPU]. *)
Definition with_D (v : list Z) (r : Registers) : Registers :=
  mkRegisters v (rA r) (rPC r) (rSR r) (rUSP r) (rSSP r) (rIR r).
Definition with_A (v : list Z) (r : Registers) : Registers :=
  mkRegisters (rD r) v (rPC r) (rSR r) (rUSP r) (rSSP r) (rIR r).
Definition with_PC (v : Z) (r : Registers) : Registers :=
  mkRegisters (rD r) (rA r) v (rSR r) (rUSP r) (rSSP r) (rIR r).
Definition with_SR (v : Z) (r : Registers) : Registers :=
  mkRegisters (rD r) (rA r) (rPC r) v (rUSP r) (rSSP r) (rIR r).
Definition with_USP (v : Z) (r : Registers) : Registers :=
  mkRegisters (rD r) (rA r) (rPC r) (rSR r) v (rSSP r) (rIR r).
Definition with_SSP (v : Z) (r : Registers) : Registers :=
  mkRegisters (rD r) (rA r) (rPC r) (rSR r) (rUSP r) v (rIR r).
Definition with_IR (v : Z) (r : Registers) : Registers :=
  mkRegisters (rD r) (rA r) (rPC r) (rSR r) (rUSP r) (rSSP r) v.

Section updates.
Context {B : Type}.
Implicit Types c : CPU B.

Definition on_reg (f : Registers -> Registers) c : CPU B :=
  mkCPU (f (reg c)) (bus c) (cycles c) (ir c) (stopped c) (halted c) (prevPC c)
    (pendingIPL c) (pendingVec c) (deficit c).
Definition with_bus (v : B) c : CPU B :=
  mkCPU (reg c) v (cycles c) (ir c) (stopped c) (halted c) (prevPC c)
    (pendingIPL c) (pendingVec c) (deficit c).
Definition with_cycles (v : Z) c : CPU B :=
  mkCPU (reg c) (bus c) v (ir c) (stopped c) (halted c) (prevPC c)
    (pendingIPL c) (pendingVec c) (deficit c).
Definition with_ir (v : Z) c : CPU B :=
  mkCPU (reg c) (bus c) (cycles c) v (stopped c) (halted c) (prevPC c)
    (pendingIPL c) (pendingVec c) (deficit c).
Definition with_stopped (v : bool) c : CPU B :=
  mkCPU (reg c) (bus c) (cycles c) (ir c) v (halted c) (prevPC c)
    (pendingIPL c) (pendingVec c) (deficit c).
Definition with_halted (v : bool) c : CPU B :=
  mkCPU (reg c) (bus c) (cycles c) (ir c) (stopped c) v (prevPC c)
    (pendingIPL c) (pendingVec c) (deficit c).
Definition with_prevPC (v : Z) c : CPU B :=
  mkCPU (reg c) (bus c) (cycles c) (ir c) (stopped c) (halted c) v
    (pendingIPL c) (pendingVec c) (deficit c).
Definition with_pending (l : Z) (v : option Z) c : CPU B :=
  mkCPU (reg c) (bus c) (cycles c) (ir c) (stopped c) (halted c) (prevPC c)
    l v (deficit c).
Definition with_deficit (v : Z) c : CPU B :=
  mkCPU (reg c) (bus c) (cycles c) (ir c) (stopped c) (halted c) (prevPC c)
    (pendingIPL c) (pendingVec c) v.
End updates.

(** ** Status register flag bits (flags.go) *)

Definition flagC : Z := 0x0001.
Definition flagV : Z := 0x0002.
Definition flagZ : Z := 0x0004.
Definition flagN : Z := 0x0008.
Definition flagX : Z := 0x0010.
Definition flagS : Z := 0x2000.
Definition flagT : Z := 0x8000.

(** ** Field accesses as computations *)

Section access.
Context {B : Type}.

(** [opFunc] of decode.go: the signature of an instruction handler. *)
Definition opFunc : Type := M (CPU B) unit.

Definition getD (i : Z) : M (CPU B) Z := c <- get ;; index (rD (reg c)) i.

Definition setD (i v : Z) : M (CPU B) unit :=
  c <- get ;; l <- of_option (arr_set (rD (reg c)) i v) ;;
  modify (on_reg (with_D l)).

Definition getA (i : Z) : M (CPU B) Z := c <- get ;; index (rA (reg c)) i.

Definition setA (i v : Z) : M (CPU B) unit :=
  c <- get ;; l <- of_option (arr_set (rA (reg c)) i v) ;;
  modify (on_reg (with_A l)).

Definition getPC : M (CPU B) Z := gets (fun c => rPC (reg c)).
Definition setPC (v : Z) : M (CPU B) unit := modify (on_reg (with_PC v)).
Definition getSR : M (CPU B) Z := gets (fun c => rSR (reg c)).
Definition putSR (v : Z) : M (CPU B) unit := modify (on_reg (with_SR v)).
Definition getUSP : M (CPU B) Z := gets (fun c => rUSP (reg c)).
Definition setUSP (v : Z) : M (CPU B) unit := modify (on_reg (with_USP v)).
Definition getSSP : M (CPU B) Z := gets (fun c => rSSP (reg c)).
Definition setSSP (v : Z) : M (CPU B) unit := modify (on_reg (with_SSP v)).
Definition getir : M (CPU B) Z := gets ir.
Definition setHalted (v : bool) : M (CPU B) unit := modify (with_halted v).
Definition setStopped (v : bool) : M (CPU B) unit := modify (with_stopped v).

(** [c.reg.SR &^= f] and [c.reg.SR |= f] *)
Definition clrSR (f : Z) : M (CPU B) unit :=
  sr <- getSR ;; putSR (Z.ldiff sr f).
Definition orSR (f : Z) : M (CPU B) unit :=
  sr <- getSR ;; putSR (Z.lor sr f).

(** [c.cycles += n] on a [uint64]; also the exported [AddCycles]. *)
Definition AddCycles (n : Z) : M (CPU B) unit :=
  modify (fun c => with_cycles (u64 (cycles c + n)) c).
End access.
Arguments opFunc : clear implicits.

(** ** Bus accesses, fetch and stack (cpu.go) *)

Section primitives.
Context {B : Type} `{!Bus B}.

(** A bus read: the value read, with the bus the device leaves behind. *)
Definition busRead (rd : Z -> B -> Z * B) (addr : Z) : M (CPU B) Z :=
  c <- get ;;
  let '(v, b) := rd addr (bus c) in
  modify (with_bus b) ;; ret v.

Definition busWrite (wr : Z -> Z -> B -> B) (addr val : Z) : M (CPU B) unit :=
  modify (fun c => with_bus (wr addr val (bus c)) c).

Definition readBus (sz addr : Z) : M (CPU B) Z :=
  h <- gets halted ;;
  if (h : bool) then ret 0
  else if negb (sz =? sizeByte) && tstb addr 1 then setHalted true ;; ret 0
  else
    let addr := Z.land addr 0xFFFFFF in
    if sz =? sizeByte then busRead Read8 addr
    else if sz =? sizeWord then busRead Read16 addr
    else if sz =? sizeLong then busRead Read32 addr
    else ret 0.

Definition writeBus (sz addr val : Z) : M (CPU B) unit :=
  h <- gets halted ;;
  if (h : bool) then ret tt
  else if negb (sz =? sizeByte) && tstb addr 1 then setHalted true
  else
    let addr := Z.land addr 0xFFFFFF in
    let val := Z.land val (Mask sz) in
    if sz =? sizeByte then busWrite Write8 addr (u8 val)
    else if sz =? sizeWord then busWrite Write16 addr (u16 val)
    else if sz =? sizeLong then busWrite Write32 addr val
    else ret tt.

Definition fetchPC : M (CPU B) Z :=
  pc <- getPC ;;
  val <- readBus sizeWord pc ;;
  pc <- getPC ;;
  setPC (u32 (pc + 2)) ;;
  ret (u16 val).

Definition fetchPCLong : M (CPU B) Z :=
  hi <- fetchPC ;;
  lo <- fetchPC ;;
  ret (Z.lor (u32 (Z.shiftl hi 16)) lo).

Definition pushWord (val : Z) : M (CPU B) unit :=
  a <- getA 7 ;; setA 7 (u32 (a - 2)) ;;
  a <- getA 7 ;; writeBus sizeWord a val.

Definition pushLong (val : Z) : M (CPU B) unit :=
  a <- getA 7 ;; setA 7 (u32 (a - 4)) ;;
  a <- getA 7 ;; writeBus sizeLong a val.

Definition popWord : M (CPU B) Z :=
  a <- getA 7 ;; val <- readBus sizeWord a ;;
  a <- getA 7 ;; setA 7 (u32 (a + 2)) ;;
  ret (u16 val).

Definition popLong : M (CPU B) Z :=
  a <- getA 7 ;; val <- readBus sizeLong a ;;
  a <- getA 7 ;; setA 7 (u32 (a + 4)) ;;
  ret val.

Definition supervisor : M (CPU B) bool :=
  sr <- getSR ;; ret (tstb sr flagS).

Definition setSR (sr : Z) : M (CPU B) unit :=
  old <- getSR ;;
  let oldS := Z.land old flagS in
  let newS := Z.land sr flagS in
  (if negb (oldS =? 0) && (newS =? 0) then
     a <- getA 7 ;; setSSP a ;;
     usp <- getUSP ;; setA 7 usp
   else if (oldS =? 0) && negb (newS =? 0) then
     a <- getA 7 ;; setUSP a ;;
     ssp <- getSSP ;; setA 7 ssp
   else ret tt) ;;
  putSR (Z.land sr 0xA71F).

Definition setCCR (ccr : Z) : M (CPU B) unit :=
  sr <- getSR ;;
  putSR (Z.lor (Z.land sr 0xFF00) (Z.land ccr 0x1F)).

(** ** Reset, state transfer and interrupt requests (cpu.go) *)

Definition Reset : M (CPU B) unit :=
  modify (on_reg (fun _ =>
    mkRegisters (replicate 8 0) (replicate 8 0) 0 0x2700 0 0 0)) ;;
  setStopped false ;;
  setHalted false ;;
  modify (with_cycles 0) ;;
  modify (with_deficit 0) ;;
  modify (with_pending 0 None) ;;
  ssp <- busRead Read32 0 ;;
  setA 7 ssp ;;
  setSSP ssp ;;
  pc <- busRead Read32 4 ;;
  setPC pc.

(** [&CPU{bus: bus}]: every other field at Go's zero value. *)
Definition zeroCPU (b : B) : CPU B :=
  mkCPU (mkRegisters (replicate 8 0) (replicate 8 0) 0 0 0 0 0)
    b 0 0 false false 0 0 None 0.

Definition New (b : B) : option (CPU B) := snd <$> Reset (zeroCPU b).

Definition SetState (regs : Registers) : M (CPU B) unit :=
  modify (on_reg (with_D (rD regs))) ;;
  putSR (rSR regs) ;;
  setUSP (rUSP regs) ;;
  setSSP (rSSP regs) ;;
  setPC (rPC regs) ;;
  setStopped false ;;
  setHalted false ;;
  modify (with_cycles 0) ;;
  modify (with_deficit 0) ;;
  modify (with_pending 0 None) ;;
  foldM (fun _ i => v <- index (rA regs) i ;; setA i v) (zrange 0 7) tt ;;
  (if tstb (rSR regs) flagS then setA 7 (rSSP regs) else setA 7 (rUSP regs)).

Definition RequestInterrupt (level : Z) (vector : option Z) : M (CPU B) unit :=
  p <- gets pendingIPL ;;
  if p <? level then modify (with_pending level vector) else ret tt.

Definition SetIPL (level : Z) (vector : option Z) : M (CPU B) unit :=
  modify (with_pending level vector).
End primitives.

(** ** Well-formed states

    Every field is in the range of its Go type and the register files have
    eight entries. *)
Record WF {B} (c : CPU B) : Prop := mkWF {
  wf_D_length : length (rD (reg c)) = 8%nat;
  wf_D : Forall is_u32 (rD (reg c));
  wf_A_length : length (rA (reg c)) = 8%nat;
  wf_A : Forall is_u32 (rA (reg c));
  wf_PC : is_u32 (rPC (reg c));
  wf_SR : is_u16 (rSR (reg c));
  wf_USP : is_u32 (rUSP (reg c));
  wf_SSP : is_u32 (rSSP (reg c));
  wf_IR : is_u16 (rIR (reg c));
  wf_cycles : is_u64 (cycles c);
  wf_ir : is_u16 (ir c);
  wf_prevPC : is_u32 (prevPC c);
  wf_IPL : is_u8 (pendingIPL c);
  wf_vec : forall v, pendingVec c = Some v -> is_u8 v;
  wf_deficit : s64 (deficit c) = deficit c
}.
