(* ===== verification/Ram.v ===== *)
(** * Memory behind the bus

    [BusMemory] is the contract of a bus that is plain memory in a region: a
    big-endian byte store, as the README's example bus and the test bus are.
    Theorems about programs that push and pop, or store and load, are proved
    against it.  [Ram] is a concrete instance (a flat 16 MB memory), used to
    evaluate the model on concrete inputs and to show that the laws can hold. *)

From S2P Require Import Prelude Monad Cpu.

(** [region a] says that the byte at [a] is memory; [peek] is its contents. *)
Class BusMemory (B : Type) `{!Bus B} (region : Z -> Prop) : Type := {
  peek : B -> Z -> Z;
  peek_range : forall b a, is_u8 (peek b a);
  Read8_peek : forall b a, region a -> Read8 a b = (peek b a, b);
  Read16_peek : forall b a, region a -> region (a + 1) ->
    Read16 a b = (peek b a * 0x100 + peek b (a + 1), b);
  Read32_peek : forall b a,
    region a -> region (a + 1) -> region (a + 2) -> region (a + 3) ->
    Read32 a b = (peek b a * 0x1000000 + peek b (a + 1) * 0x10000 +
                  peek b (a + 2) * 0x100 + peek b (a + 3), b);
  peek_Write8 : forall b a v x, region a -> is_u8 v ->
    peek (Write8 a v b) x = if x =? a then v else peek b x;
  peek_Write16 : forall b a v x, region a -> region (a + 1) -> is_u16 v ->
    peek (Write16 a v b) x =
      if x =? a then v / 0x100 else if x =? a + 1 then v mod 0x100 else peek b x;
  peek_Write32 : forall b a v x,
    region a -> region (a + 1) -> region (a + 2) -> region (a + 3) -> is_u32 v ->
    peek (Write32 a v b) x =
      if x =? a then v / 0x1000000
      else if x =? a + 1 then v / 0x10000 mod 0x100
      else if x =? a + 2 then v / 0x100 mod 0x100
      else if x =? a + 3 then v mod 0x100
      else peek b x
}.

(** ** A flat memory *)

Record Ram : Type := mkRam { cells : gmap Z Z }.

Definition ram_get (m : Ram) (a : Z) : Z := u8 (default 0 (cells m !! a)).
Definition ram_set (a v : Z) (m : Ram) : Ram := mkRam (<[a := v]> (cells m)).

#[export] Instance Ram_Bus : Bus Ram := {
  Read8 a m := (ram_get m a, m);
  Read16 a m := (ram_get m a * 0x100 + ram_get m (a + 1), m);
  Read32 a m := (ram_get m a * 0x1000000 + ram_get m (a + 1) * 0x10000 +
                 ram_get m (a + 2) * 0x100 + ram_get m (a + 3), m);
  Write8 a v m := ram_set a v m;
  Write16 a v m := ram_set a (v / 0x100) (ram_set (a + 1) (v mod 0x100) m);
  Write32 a v m :=
    ram_set a (v / 0x1000000) (ram_set (a + 1) (v / 0x10000 mod 0x100)
      (ram_set (a + 2) (v / 0x100 mod 0x100) (ram_set (a + 3) (v mod 0x100) m)));
  BusReset m := m
}.

Lemma ram_get_range m a : is_u8 (ram_get m a).
Proof. apply u8_range. Qed.

Lemma ram_get_set m a v x :
  is_u8 v -> ram_get (ram_set a v m) x = if x =? a then v else ram_get m x.
Proof.
  intros Hv. unfold ram_get, ram_set. simpl. rewrite lookup_insert.
  destruct (Z.eqb_spec x a) as [->|Hne].
  - rewrite decide_True by done. simpl. by apply u8_small.
  - by rewrite decide_False by congruence.
Qed.

#[export] Instance Ram_Typed : BusTyped Ram.
Proof.
  constructor; intros a m; simpl.
  - apply ram_get_range.
  - pose proof (ram_get_range m a). pose proof (ram_get_range m (a + 1)).
    unfold is_u8, is_u16 in *. lia.
  - pose proof (ram_get_range m a). pose proof (ram_get_range m (a + 1)).
    pose proof (ram_get_range m (a + 2)). pose proof (ram_get_range m (a + 3)).
    unfold is_u8, is_u32 in *. lia.
Qed.

#[export] Instance Ram_Memory : BusMemory Ram (fun _ => True).
Proof.
  refine {| peek := ram_get |}; try done.
  - apply ram_get_range.
  - intros b a v x _ Hv. simpl. by apply ram_get_set.
  - intros b a v x _ _ Hv. unfold is_u16 in Hv. simpl.
    rewrite !ram_get_set by (unfold is_u8; zlia). done.
  - intros b a v x _ _ _ _ Hv. unfold is_u32 in Hv. simpl.
    rewrite !ram_get_set by (unfold is_u8; zlia). done.
Defined.

(** A memory image from (address, bytes) pieces. *)
Fixpoint poke (a : Z) (bs : list Z) (m : Ram) : Ram :=
  match bs with
  | [] => m
  | v :: bs => poke (a + 1) bs (ram_set a v m)
  end.

Definition ram0 : Ram := mkRam ∅.

(** A processor in the given mode with eight zero data registers, running at
    [pc] with the supervisor stack at [ssp]: the shape of the test fixtures. *)
Definition cpuAt (pc sr usp ssp : Z) (m : Ram) : CPU Ram :=
  mkCPU (mkRegisters (replicate 8 0) (replicate 7 0 ++ [if tstb sr flagS then ssp else usp])
           pc sr usp ssp 0)
    m 0 0 false false 0 0 None 0.

Lemma cpuAt_WF pc sr usp ssp m :
  is_u32 pc -> is_u16 sr -> is_u32 usp -> is_u32 ssp -> WF (cpuAt pc sr usp ssp m).
Proof.
  intros. constructor; simpl; try done; try (by wordlia).
  - repeat (constructor; [wordlia|]). constructor.
  - repeat (constructor; [wordlia|]). constructor; [by destruct (tstb sr flagS)|constructor].
Qed.
