(* ===== verification/Flags.v ===== *)
(** * Condition codes (flags.go)

    The flag setters and the condition test, and what they mean: the carry,
    overflow, zero and negative flags as statements about integers. *)

From S2P Require Import Prelude Monad Cpu.

Section flags.
Context {B : Type}.

Definition setFlagsAdd (src dst result sz : Z) : M (CPU B) unit :=
  let msb := MSB sz in
  let mask := Mask sz in
  let r := Z.land result mask in
  let s := Z.land src mask in
  let d := Z.land dst mask in
  clrSR (Z.lor (Z.lor (Z.lor (Z.lor flagX flagN) flagZ) flagV) flagC) ;;
  when (r =? 0) (orSR flagZ) ;;
  when (tstb r msb) (orSR flagN) ;;
  when (tstb (Z.land (Z.lxor s r) (Z.lxor d r)) msb) (orSR flagV) ;;
  when (tstb result (u32 (Z.shiftl msb 1)) ||
        ((sz =? sizeLong) &&
         tstb (Z.lor (Z.land s d) (Z.ldiff (Z.lor s d) r)) msb))
    (orSR (Z.lor flagC flagX)).

Definition setFlagsSub (src dst result sz : Z) : M (CPU B) unit :=
  let msb := MSB sz in
  let mask := Mask sz in
  let r := Z.land result mask in
  let s := Z.land src mask in
  let d := Z.land dst mask in
  clrSR (Z.lor (Z.lor (Z.lor (Z.lor flagX flagN) flagZ) flagV) flagC) ;;
  when (r =? 0) (orSR flagZ) ;;
  when (tstb r msb) (orSR flagN) ;;
  when (tstb (Z.land (Z.lxor s d) (Z.lxor r d)) msb) (orSR flagV) ;;
  when (tstb (Z.lor (Z.lor (Z.ldiff s d) (Z.ldiff r d)) (Z.land s r)) msb)
    (orSR (Z.lor flagC flagX)).

Definition setFlagsCmp (src dst result sz : Z) : M (CPU B) unit :=
  let msb := MSB sz in
  let mask := Mask sz in
  let r := Z.land result mask in
  let s := Z.land src mask in
  let d := Z.land dst mask in
  clrSR (Z.lor (Z.lor (Z.lor flagN flagZ) flagV) flagC) ;;
  when (r =? 0) (orSR flagZ) ;;
  when (tstb r msb) (orSR flagN) ;;
  when (tstb (Z.land (Z.lxor s d) (Z.lxor r d)) msb) (orSR flagV) ;;
  when (tstb (Z.lor (Z.lor (Z.ldiff s d) (Z.ldiff r d)) (Z.land s r)) msb)
    (orSR flagC).

Definition setFlagsLogical (result sz : Z) : M (CPU B) unit :=
  clrSR (Z.lor (Z.lor (Z.lor flagN flagZ) flagV) flagC) ;;
  when (Z.land result (Mask sz) =? 0) (orSR flagZ) ;;
  when (tstb result (MSB sz)) (orSR flagN).

(** [testCondition] as a function of the status register. *)
Definition condition (sr cc : Z) : bool :=
  let n := tstb sr flagN in
  let v := tstb sr flagV in
  let z := tstb sr flagZ in
  match cc with
  | 0 => true
  | 1 => false
  | 2 => negb (tstb sr (Z.lor flagC flagZ))
  | 3 => tstb sr (Z.lor flagC flagZ)
  | 4 => negb (tstb sr flagC)
  | 5 => tstb sr flagC
  | 6 => negb (tstb sr flagZ)
  | 7 => tstb sr flagZ
  | 8 => negb (tstb sr flagV)
  | 9 => tstb sr flagV
  | 10 => negb (tstb sr flagN)
  | 11 => tstb sr flagN
  | 12 => eqb n v
  | 13 => negb (eqb n v)
  | 14 => eqb n v && negb z
  | 15 => z || negb (eqb n v)
  | _ => false
  end.

Definition testCondition (cc : Z) : M (CPU B) bool :=
  sr <- getSR ;; ret (condition sr cc).
End flags.

(** ** Operands of a size *)

Definition valid_size (sz : Z) : Prop := sz = sizeByte \/ sz = sizeWord \/ sz = sizeLong.

(** [Modulus sz] is [2^(Bits sz)]; an operand of size [sz] lies below it. *)
Definition Modulus (sz : Z) : Z := 2 * MSB sz.
Definition is_sz (sz v : Z) : Prop := 0 <= v < Modulus sz.

(** The two's-complement reading of an operand. *)
Definition signed (sz v : Z) : Z := if MSB sz <=? v then v - Modulus sz else v.

Definition in_signed (sz t : Z) : bool := (- MSB sz <=? t) && (t <? MSB sz).

(** The five condition codes as the low bits of SR. *)
Definition ccr (x n z v c : bool) : Z :=
  16 * Z.b2z x + 8 * Z.b2z n + 4 * Z.b2z z + 2 * Z.b2z v + Z.b2z c.

Lemma MSB_pos sz : valid_size sz -> 0 < MSB sz.
Proof. intros [->|[->| ->]]; done. Qed.

Lemma MSB_pow2 sz : valid_size sz -> MSB sz = 2 ^ (Bits sz - 1).
Proof. intros [->|[->| ->]]; done. Qed.

Lemma Modulus_pow2 sz : valid_size sz -> Modulus sz = 2 ^ Bits sz.
Proof. intros [->|[->| ->]]; done. Qed.

Lemma Bits_pos sz : valid_size sz -> 0 < Bits sz.
Proof. intros [->|[->| ->]]; done. Qed.

Lemma land_Mask sz v : valid_size sz -> Z.land v (Mask sz) = v mod Modulus sz.
Proof.
  intros [->|[->| ->]]; [apply land_FF|apply land_FFFF|apply land_FFFFFFFF].
Qed.

Lemma land_Mask_small sz v : valid_size sz -> is_sz sz v -> Z.land v (Mask sz) = v.
Proof. intros Hsz Hv. rewrite land_Mask by done. by apply Z.mod_small. Qed.

(** Wrapping at 32 bits first does not change the operand. *)
Lemma land_Mask_u32 sz v : valid_size sz -> Z.land (u32 v) (Mask sz) = v mod Modulus sz.
Proof.
  intros Hsz. rewrite land_Mask by done. unfold u32.
  destruct Hsz as [->|[->| ->]]; unfold Modulus, MSB, sizeByte, sizeWord, sizeLong; simpl; zlia.
Qed.

Lemma is_sz_mod sz v : valid_size sz -> is_sz sz (v mod Modulus sz).
Proof. intros Hsz. apply Z.mod_pos_bound. pose proof (MSB_pos sz Hsz). unfold Modulus. lia. Qed.

Lemma is_sz_u32 sz v : valid_size sz -> is_sz sz v -> is_u32 v.
Proof.
  intros [->|[->| ->]]; unfold is_sz, is_u32, Modulus, MSB, sizeByte, sizeWord, sizeLong;
    simpl; lia.
Qed.

(** A test of the sign bit reads bit [Bits sz - 1]. *)
Lemma tstb_MSB_bit sz v : valid_size sz -> tstb v (MSB sz) = Z.testbit v (Bits sz - 1).
Proof.
  intros Hsz. pose proof (Bits_pos sz Hsz). rewrite MSB_pow2 by done. apply tstb_pow2. lia.
Qed.

Lemma testbit_MSB sz v :
  valid_size sz -> is_sz sz v -> Z.testbit v (Bits sz - 1) = (MSB sz <=? v).
Proof.
  intros Hsz Hv. pose proof (Bits_pos sz Hsz). unfold is_sz in Hv.
  rewrite Modulus_pow2 in Hv by done. rewrite MSB_pow2 by done.
  apply testbit_top; [lia|]. by rewrite Z.sub_add.
Qed.

(** A sum or difference of two operands and a carry, reduced: one correction. *)
Lemma mod_once sz t :
  valid_size sz -> - Modulus sz <= t < 2 * Modulus sz ->
  t mod Modulus sz =
    if t <? 0 then t + Modulus sz else if Modulus sz <=? t then t - Modulus sz else t.
Proof.
  intros Hsz Ht. pose proof (MSB_pos sz Hsz). unfold Modulus in *.
  destruct (Z.ltb_spec t 0), (Z.leb_spec (2 * MSB sz) t); try lia; symmetry.
  - apply Z.mod_unique with (-1); lia.
  - apply Z.mod_unique with 1; lia.
  - symmetry. apply Z.mod_small. lia.
Qed.

(** The [when ... orSR] sequences of the setters assemble [ccr]. *)
Lemma assemble_XNZVC sr z n v c :
  (let sr := Z.ldiff sr 0x1F in
   let sr := if z : bool then Z.lor sr flagZ else sr in
   let sr := if n : bool then Z.lor sr flagN else sr in
   let sr := if v : bool then Z.lor sr flagV else sr in
   if c : bool then Z.lor sr (Z.lor flagC flagX) else sr) =
  Z.lor (Z.ldiff sr 0x1F) (ccr c n z v c).
Proof.
  destruct z, n, v, c; simpl; rewrite <- ?Z.lor_assoc; try done; by rewrite Z.lor_0_r.
Qed.

Lemma assemble_NZVC sr z n v c :
  (let sr := Z.ldiff sr 0xF in
   let sr := if z : bool then Z.lor sr flagZ else sr in
   let sr := if n : bool then Z.lor sr flagN else sr in
   let sr := if v : bool then Z.lor sr flagV else sr in
   if c : bool then Z.lor sr flagC else sr) =
  Z.lor (Z.ldiff sr 0xF) (ccr false n z v c).
Proof.
  destruct z, n, v, c; simpl; rewrite <- ?Z.lor_assoc; try done; by rewrite Z.lor_0_r.
Qed.

Section spec.
Context {B : Type}.
Implicit Types c : CPU B.

Lemma clrSR_run f c : clrSR f c = Some (tt, on_reg (with_SR (Z.ldiff (rSR (reg c)) f)) c).
Proof. done. Qed.

Lemma orSR_run f c : orSR f c = Some (tt, on_reg (with_SR (Z.lor (rSR (reg c)) f)) c).
Proof. done. Qed.

Lemma when_orSR_run (b : bool) f c :
  when b (orSR f) c =
  Some (tt, on_reg (with_SR (if b then Z.lor (rSR (reg c)) f else rSR (reg c))) c).
Proof. destruct b; [done|]. by destruct c as [[]]. Qed.

Lemma when_clrSR_run (b : bool) f c :
  when b (clrSR f) c =
  Some (tt, on_reg (with_SR (if b then Z.ldiff (rSR (reg c)) f else rSR (reg c))) c).
Proof. destruct b; [done|]. by destruct c as [[]]. Qed.

(** The setters in closed form: the new SR from the four tests they make. *)
Lemma setFlagsAdd_run src dst result sz c :
  setFlagsAdd src dst result sz c =
  let r := Z.land result (Mask sz) in
  let s := Z.land src (Mask sz) in
  let d := Z.land dst (Mask sz) in
  let carry := tstb result (u32 (Z.shiftl (MSB sz) 1)) ||
               ((sz =? sizeLong) &&
                tstb (Z.lor (Z.land s d) (Z.ldiff (Z.lor s d) r)) (MSB sz)) in
  Some (tt, on_reg (with_SR (Z.lor (Z.ldiff (rSR (reg c)) 0x1F)
    (ccr carry (tstb r (MSB sz)) (r =? 0)
       (tstb (Z.land (Z.lxor s r) (Z.lxor d r)) (MSB sz)) carry))) c).
Proof.
  unfold setFlagsAdd. rewrite (bind_eval _ _ _ _ _ (clrSR_run _ _)).
  repeat rewrite (bind_eval _ _ _ _ _ (when_orSR_run _ _ _)).
  rewrite when_orSR_run. cbv zeta. by rewrite <- assemble_XNZVC.
Qed.

Lemma setFlagsSub_run src dst result sz c :
  setFlagsSub src dst result sz c =
  let r := Z.land result (Mask sz) in
  let s := Z.land src (Mask sz) in
  let d := Z.land dst (Mask sz) in
  let borrow := tstb (Z.lor (Z.lor (Z.ldiff s d) (Z.ldiff r d)) (Z.land s r)) (MSB sz) in
  Some (tt, on_reg (with_SR (Z.lor (Z.ldiff (rSR (reg c)) 0x1F)
    (ccr borrow (tstb r (MSB sz)) (r =? 0)
       (tstb (Z.land (Z.lxor s d) (Z.lxor r d)) (MSB sz)) borrow))) c).
Proof.
  unfold setFlagsSub. rewrite (bind_eval _ _ _ _ _ (clrSR_run _ _)).
  repeat rewrite (bind_eval _ _ _ _ _ (when_orSR_run _ _ _)).
  rewrite when_orSR_run. cbv zeta. by rewrite <- assemble_XNZVC.
Qed.

Lemma setFlagsCmp_run src dst result sz c :
  setFlagsCmp src dst result sz c =
  let r := Z.land result (Mask sz) in
  let s := Z.land src (Mask sz) in
  let d := Z.land dst (Mask sz) in
  let borrow := tstb (Z.lor (Z.lor (Z.ldiff s d) (Z.ldiff r d)) (Z.land s r)) (MSB sz) in
  Some (tt, on_reg (with_SR (Z.lor (Z.ldiff (rSR (reg c)) 0xF)
    (ccr false (tstb r (MSB sz)) (r =? 0)
       (tstb (Z.land (Z.lxor s d) (Z.lxor r d)) (MSB sz)) borrow))) c).
Proof.
  unfold setFlagsCmp. rewrite (bind_eval _ _ _ _ _ (clrSR_run _ _)).
  repeat rewrite (bind_eval _ _ _ _ _ (when_orSR_run _ _ _)).
  rewrite when_orSR_run. cbv zeta. by rewrite <- assemble_NZVC.
Qed.

Lemma setFlagsLogical_run result sz c :
  setFlagsLogical result sz c =
  Some (tt, on_reg (with_SR (Z.lor (Z.ldiff (rSR (reg c)) 0xF)
    (ccr false (tstb result (MSB sz)) (Z.land result (Mask sz) =? 0) false false))) c).
Proof.
  unfold setFlagsLogical. rewrite (bind_eval _ _ _ _ _ (clrSR_run _ _)).
  rewrite (bind_eval _ _ _ _ _ (when_orSR_run _ _ _)). rewrite when_orSR_run.
  by rewrite <- assemble_NZVC.
Qed.
End spec.

(** ** The bit tricks as integer facts *)

Lemma carry_bit_meaning sz s d x :
  valid_size sz -> is_sz sz s -> is_sz sz d -> 0 <= x <= 1 ->
  tstb (u32 (s + d + x)) (u32 (Z.shiftl (MSB sz) 1)) ||
    ((sz =? sizeLong) &&
     tstb (Z.lor (Z.land s d) (Z.ldiff (Z.lor s d) ((s + d + x) mod Modulus sz))) (MSB sz)) =
  (Modulus sz <=? s + d + x).
Proof.
  intros Hsz Hs Hd Hx. destruct (decide (sz = sizeLong)) as [->|Hl].
  - assert (tstb (u32 (s + d + x)) (u32 (Z.shiftl (MSB sizeLong) 1)) = false) as ->
      by (unfold tstb; simpl; by rewrite Z.land_0_r).
    simpl (false || _). rewrite tstb_MSB_bit, Z.lor_spec, Z.land_spec, Z.ldiff_spec, Z.lor_spec by done.
    rewrite !testbit_MSB by (done || by apply is_sz_mod).
    rewrite mod_once by (unfold is_sz in *; done || lia).
    pose proof (MSB_pos sizeLong Hsz). unfold is_sz, Modulus in *.
    cmp_cases; lia.
  - assert (u32 (Z.shiftl (MSB sz) 1) = 2 ^ Bits sz) as ->
      by (destruct Hsz as [->|[->| ->]]; done).
    pose proof (Bits_pos sz Hsz). rewrite tstb_pow2 by lia.
    destruct (Z.eqb_spec sz sizeLong); [done|]. rewrite orb_false_r.
    assert (is_u32 (s + d + x)).
    { unfold is_sz, Modulus in *. destruct Hsz as [->|[->| ->]]; [..|congruence];
        unfold is_u32, MSB, sizeByte, sizeWord in *; simpl in *; lia. }
    unfold is_sz in *. rewrite Modulus_pow2 in * by done.
    assert (0 <= s + d + x < 2 ^ (Bits sz + 1)) by (rewrite Z.pow_add_r by lia; lia).
    rewrite u32_small by done. apply testbit_top; lia.
Qed.

Lemma add_overflow_meaning sz s d x :
  valid_size sz -> is_sz sz s -> is_sz sz d -> 0 <= x <= 1 ->
  let r := (s + d + x) mod Modulus sz in
  tstb (Z.land (Z.lxor s r) (Z.lxor d r)) (MSB sz) =
  negb (in_signed sz (signed sz s + signed sz d + x)).
Proof.
  intros Hsz Hs Hd Hx r.
  rewrite tstb_MSB_bit, Z.land_spec, !Z.lxor_spec by done. subst r.
  rewrite !testbit_MSB by (done || by apply is_sz_mod).
  unfold in_signed, signed. rewrite mod_once by (unfold is_sz in *; done || lia).
  pose proof (MSB_pos sz Hsz). unfold is_sz, Modulus in *.
  cmp_cases; lia.
Qed.

Lemma borrow_bit_meaning sz s d x :
  valid_size sz -> is_sz sz s -> is_sz sz d -> 0 <= x <= 1 ->
  let r := (d - s - x) mod Modulus sz in
  tstb (Z.lor (Z.lor (Z.ldiff s d) (Z.ldiff r d)) (Z.land s r)) (MSB sz) = (d <? s + x).
Proof.
  intros Hsz Hs Hd Hx r.
  rewrite tstb_MSB_bit, !Z.lor_spec, Z.land_spec, !Z.ldiff_spec by done. subst r.
  rewrite !testbit_MSB by (done || by apply is_sz_mod).
  rewrite mod_once by (unfold is_sz in *; done || lia).
  pose proof (MSB_pos sz Hsz). unfold is_sz, Modulus in *. cmp_cases; lia.
Qed.

Lemma sub_overflow_meaning sz s d x :
  valid_size sz -> is_sz sz s -> is_sz sz d -> 0 <= x <= 1 ->
  let r := (d - s - x) mod Modulus sz in
  tstb (Z.land (Z.lxor s d) (Z.lxor r d)) (MSB sz) =
  negb (in_signed sz (signed sz d - signed sz s - x)).
Proof.
  intros Hsz Hs Hd Hx r.
  rewrite tstb_MSB_bit, Z.land_spec, !Z.lxor_spec by done. subst r.
  rewrite !testbit_MSB by (done || by apply is_sz_mod).
  unfold in_signed, signed. rewrite mod_once by (unfold is_sz in *; done || lia).
  pose proof (MSB_pos sz Hsz). unfold is_sz, Modulus in *. cmp_cases; lia.
Qed.

(** N as a comparison. *)
Lemma tstb_MSB sz v : valid_size sz -> is_sz sz v -> tstb v (MSB sz) = (signed sz v <? 0).
Proof.
  intros Hsz Hv. rewrite tstb_MSB_bit, testbit_MSB by done.
  pose proof (MSB_pos sz Hsz). unfold signed, is_sz, Modulus in *. cmp_cases; lia.
Qed.

(** ** The setters on the operands the instructions give them *)

(** The condition codes of [s + d + x]. *)
Definition addCCR (sz s d x : Z) : Z :=
  let r := (s + d + x) mod Modulus sz in
  let carry := Modulus sz <=? s + d + x in
  ccr carry (signed sz r <? 0) (r =? 0)
    (negb (in_signed sz (signed sz s + signed sz d + x))) carry.

(** The condition codes of [d - s - x]. *)
Definition subCCR (sz s d x : Z) : Z :=
  let r := (d - s - x) mod Modulus sz in
  let borrow := d <? s + x in
  ccr borrow (signed sz r <? 0) (r =? 0)
    (negb (in_signed sz (signed sz d - signed sz s - x))) borrow.

(** What a comparison of [d] with [s] says, by condition code. *)
Definition relation (sz cc s d : Z) : bool :=
  match cc with
  | 0 => true
  | 1 => false
  | 2 => s <? d
  | 3 => d <=? s
  | 4 => s <=? d
  | 5 => d <? s
  | 6 => negb (d =? s)
  | 7 => d =? s
  | 8 => in_signed sz (signed sz d - signed sz s)
  | 9 => negb (in_signed sz (signed sz d - signed sz s))
  | 10 => 0 <=? signed sz ((d - s) mod Modulus sz)
  | 11 => signed sz ((d - s) mod Modulus sz) <? 0
  | 12 => signed sz s <=? signed sz d
  | 13 => signed sz d <? signed sz s
  | 14 => signed sz s <? signed sz d
  | 15 => signed sz d <=? signed sz s
  | _ => false
  end.

Lemma ccr_range x n z v c : 0 <= ccr x n z v c < 2 ^ 5.
Proof. unfold ccr. destruct x, n, z, v, c; simpl; lia. Qed.

(** Reading the flags back. *)
Lemma flag_reads sr x n z v c :
  let sr' := Z.lor (Z.ldiff sr 0x1F) (ccr x n z v c) in
  tstb sr' flagX = x /\ tstb sr' flagN = n /\ tstb sr' flagZ = z /\
  tstb sr' flagV = v /\ tstb sr' flagC = c /\ Z.ldiff sr' 0x1F = Z.ldiff sr 0x1F.
Proof.
  cbv zeta. repeat split;
    [ change flagX with (2 ^ 4) | change flagN with (2 ^ 3) | change flagZ with (2 ^ 2)
    | change flagV with (2 ^ 1) | change flagC with (2 ^ 0) | ];
    [rewrite tstb_pow2, Z.lor_spec, Z.ldiff_spec by lia; destruct x, n, z, v, c;
       simpl; by rewrite ?andb_false_r ..|].
  apply Z.bits_inj'. intros i Hi.
  rewrite !Z.ldiff_spec, Z.lor_spec, Z.ldiff_spec.
  destruct (Z.testbit 0x1F i) eqn:E; rewrite ?andb_false_r, ?andb_true_r; [done|].
  replace (Z.testbit (ccr x n z v c) i) with false; [by rewrite orb_false_r|].
  assert (5 <= i) by (destruct (Z_lt_le_dec i 5); [|done]; by enum_upto i 5%nat).
  symmetry. apply (testbit_high 5); [apply ccr_range|done].
Qed.

(** The five flags of a status register. *)
Definition XNZVC (sr : Z) : bool * bool * bool * bool * bool :=
  (tstb sr flagX, tstb sr flagN, tstb sr flagZ, tstb sr flagV, tstb sr flagC).

Lemma XNZVC_ccr sr x n z v c :
  XNZVC (Z.lor (Z.ldiff sr 0x1F) (ccr x n z v c)) = (x, n, z, v, c) /\
  Z.ldiff (Z.lor (Z.ldiff sr 0x1F) (ccr x n z v c)) 0x1F = Z.ldiff sr 0x1F.
Proof.
  destruct (flag_reads sr x n z v c) as (Ex & En & Ez & Ev & Ec & Er).
  unfold XNZVC. by rewrite Ex, En, Ez, Ev, Ec, Er.
Qed.

(** Clearing four flags and keeping X is a rewrite of all five. *)
Lemma keep_X sr n z v c :
  Z.lor (Z.ldiff sr 0xF) (ccr false n z v c) =
  Z.lor (Z.ldiff sr 0x1F) (ccr (tstb sr flagX) n z v c).
Proof.
  change flagX with (2 ^ 4). rewrite tstb_pow2 by lia.
  apply Z.bits_inj'. intros i Hi. rewrite !Z.lor_spec, !Z.ldiff_spec.
  destruct (Z_lt_le_dec i 5) as [Hi5|Hi5].
  - enum_upto i 5%nat; destruct n, z, v, c, (Z.testbit sr 4); simpl;
      by rewrite ?andb_true_r, ?andb_false_r, ?orb_false_r.
  - rewrite !(testbit_high 5 (ccr _ _ _ _ _)) by (apply ccr_range || done).
    by rewrite (testbit_high 5 0xF i), (testbit_high 5 0x1F i) by lia.
Qed.

(** Any SR is its system part with its own flags. *)
Lemma split_flags sr :
  sr = Z.lor (Z.ldiff sr 0x1F)
         (ccr (tstb sr flagX) (tstb sr flagN) (tstb sr flagZ) (tstb sr flagV) (tstb sr flagC)).
Proof.
  change flagX with (2 ^ 4). change flagN with (2 ^ 3). change flagZ with (2 ^ 2).
  change flagV with (2 ^ 1). change flagC with (2 ^ 0). rewrite !tstb_pow2 by lia.
  apply Z.bits_inj'. intros i Hi. rewrite Z.lor_spec, Z.ldiff_spec.
  destruct (Z_lt_le_dec i 5) as [Hi5|Hi5].
  - enum_upto i 5%nat; destruct (Z.testbit sr 0), (Z.testbit sr 1), (Z.testbit sr 2),
      (Z.testbit sr 3), (Z.testbit sr 4); done.
  - rewrite !(testbit_high 5 (ccr _ _ _ _ _)) by (apply ccr_range || done).
    rewrite (testbit_high 5 0x1F i) by lia. by rewrite andb_true_r, orb_false_r.
Qed.

(** Setting and clearing one of the five flags on an assembled SR. *)
Definition flag_set (f : Z) (b : bool) (x n z v c : bool) : Z :=
  ccr (if tstb f flagX then b else x) (if tstb f flagN then b else n)
      (if tstb f flagZ then b else z) (if tstb f flagV then b else v)
      (if tstb f flagC then b else c).

Lemma lor_flag sr f x n z v c :
  0 <= f < 32 ->
  Z.lor (Z.lor (Z.ldiff sr 0x1F) (ccr x n z v c)) f =
  Z.lor (Z.ldiff sr 0x1F) (flag_set f true x n z v c).
Proof.
  intros Hf. rewrite <- Z.lor_assoc. f_equal.
  enum_upto f 32%nat; destruct x, n, z, v, c; reflexivity.
Qed.

Lemma ldiff_flag sr f x n z v c :
  0 <= f < 32 ->
  Z.ldiff (Z.lor (Z.ldiff sr 0x1F) (ccr x n z v c)) f =
  Z.lor (Z.ldiff sr 0x1F) (flag_set f false x n z v c).
Proof.
  intros Hf. rewrite ldiff_lor.
  assert (Z.ldiff (Z.ldiff sr 0x1F) f = Z.ldiff sr 0x1F) as ->.
  { apply Z.bits_inj'. intros i Hi. rewrite !Z.ldiff_spec.
    destruct (Z_lt_le_dec i 5) as [Hi5|Hi5]; [by enum_upto i 5%nat; rewrite !andb_false_r|].
    rewrite (testbit_high 5 f i) by lia. apply andb_true_r. }
  f_equal. enum_upto f 32%nat; destruct x, n, z, v, c; reflexivity.
Qed.

Section setters.
Context {B : Type}.
Implicit Types c : CPU B.

Lemma setFlagsAdd_spec sz s d x c :
  valid_size sz -> is_sz sz s -> is_sz sz d -> 0 <= x <= 1 ->
  setFlagsAdd s d (u32 (s + d + x)) sz c =
  Some (tt, on_reg (with_SR (Z.lor (Z.ldiff (rSR (reg c)) 0x1F) (addCCR sz s d x))) c).
Proof.
  intros Hsz Hs Hd Hx. rewrite setFlagsAdd_run. cbv zeta.
  rewrite land_Mask_u32, !land_Mask_small by done.
  rewrite carry_bit_meaning, add_overflow_meaning by done.
  rewrite (tstb_MSB sz (_ mod _)) by (done || by apply is_sz_mod). done.
Qed.

Lemma setFlagsSub_spec sz s d x c :
  valid_size sz -> is_sz sz s -> is_sz sz d -> 0 <= x <= 1 ->
  setFlagsSub s d (u32 (d - s - x)) sz c =
  Some (tt, on_reg (with_SR (Z.lor (Z.ldiff (rSR (reg c)) 0x1F) (subCCR sz s d x))) c).
Proof.
  intros Hsz Hs Hd Hx. rewrite setFlagsSub_run. cbv zeta.
  rewrite land_Mask_u32, !land_Mask_small by done.
  rewrite borrow_bit_meaning, sub_overflow_meaning by done.
  rewrite (tstb_MSB sz (_ mod _)) by (done || by apply is_sz_mod). done.
Qed.

Lemma setFlagsCmp_spec sz s d c :
  valid_size sz -> is_sz sz s -> is_sz sz d ->
  setFlagsCmp s d (u32 (d - s)) sz c =
  Some (tt, on_reg (with_SR (Z.lor (Z.ldiff (rSR (reg c)) 0x1F)
    (ccr (tstb (rSR (reg c)) flagX) (relation sz 11 s d) (relation sz 7 s d)
       (relation sz 9 s d) (relation sz 5 s d)))) c).
Proof.
  intros Hsz Hs Hd. rewrite setFlagsCmp_run. cbv zeta.
  replace (d - s) with (d - s - 0) by lia.
  rewrite land_Mask_u32, !land_Mask_small by done.
  rewrite borrow_bit_meaning, sub_overflow_meaning by (done || lia).
  rewrite (tstb_MSB sz (_ mod _)) by (done || by apply is_sz_mod).
  rewrite keep_X. unfold relation. rewrite !Z.sub_0_r, Z.add_0_r.
  replace ((d - s) mod Modulus sz =? 0) with (d =? s); [done|].
  rewrite mod_once by (unfold is_sz in *; done || lia).
  pose proof (MSB_pos sz Hsz). unfold is_sz, Modulus in *. cmp_cases; lia.
Qed.

Lemma setFlagsLogical_spec sz r c :
  valid_size sz -> is_sz sz r ->
  setFlagsLogical r sz c =
  Some (tt, on_reg (with_SR (Z.lor (Z.ldiff (rSR (reg c)) 0x1F)
    (ccr (tstb (rSR (reg c)) flagX) (signed sz r <? 0) (r =? 0) false false))) c).
Proof.
  intros Hsz Hr. rewrite setFlagsLogical_run, keep_X, land_Mask_small by done.
  by rewrite tstb_MSB.
Qed.
End setters.

(** The condition test on assembled flags. *)
Lemma condition_ccr sr x n z v c cc :
  condition (Z.lor (Z.ldiff sr 0x1F) (ccr x n z v c)) cc = condition (ccr x n z v c) cc.
Proof.
  pose proof (flag_reads sr x n z v c) as (_ & En & Ez & Ev & Ec & _).
  pose proof (flag_reads 0 x n z v c) as (_ & Fn & Fz & Fv & Fc & _).
  rewrite Z.ldiff_0_l, Z.lor_0_l in *.
  assert (forall y, tstb y (Z.lor flagC flagZ) = tstb y flagC || tstb y flagZ) as Hor.
  { intros y. unfold tstb. rewrite Z.land_lor_distr_r.
    destruct (Z.eqb_spec (Z.land y flagC) 0) as [->|H1]; [done|].
    destruct (Z.eqb_spec (Z.lor (Z.land y flagC) (Z.land y flagZ)) 0) as [E|]; [|done].
    apply Z.lor_eq_0_iff in E. by destruct E. }
  unfold condition. by rewrite !Hor, En, Ez, Ev, Ec, Fn, Fz, Fv, Fc.
Qed.

(** Signed comparison is N xor V. *)
Lemma relation_signed sz s d :
  valid_size sz -> is_sz sz s -> is_sz sz d ->
  xorb (relation sz 11 s d) (relation sz 9 s d) = relation sz 13 s d.
Proof.
  intros Hsz Hs Hd. pose proof (MSB_pos sz Hsz) as Hmsb.
  unfold relation, in_signed, signed. rewrite mod_once by (unfold is_sz in *; done || lia).
  unfold is_sz, Modulus in *. cmp_cases; done || lia.
Qed.

Lemma relation_eq sz s d :
  is_sz sz s -> is_sz sz d -> relation sz 7 s d = (signed sz d =? signed sz s).
Proof. unfold relation, signed, is_sz, Modulus. intros. cmp_cases; lia. Qed.

Lemma relation_conditions sz s d x cc :
  valid_size sz -> is_sz sz s -> is_sz sz d -> 0 <= cc < 16 ->
  condition (ccr x (relation sz 11 s d) (relation sz 7 s d)
    (relation sz 9 s d) (relation sz 5 s d)) cc = relation sz cc s d.
Proof.
  intros Hsz Hs Hd Hcc.
  pose proof (relation_signed sz s d Hsz Hs Hd) as Hlt.
  pose proof (relation_eq sz s d Hs Hd) as Heq.
  pose proof (flag_reads 0 x (relation sz 11 s d) (relation sz 7 s d)
    (relation sz 9 s d) (relation sz 5 s d)) as (_ & En & Ez & Ev & Ec & _).
  rewrite Z.ldiff_0_l, Z.lor_0_l in *.
  assert (forall c z, tstb (ccr x (relation sz 11 s d) z (relation sz 9 s d) c)
    (Z.lor flagC flagZ) = c || z) as Hor
    by (intros c z; destruct x, c, z, (relation sz 11 s d), (relation sz 9 s d); done).
  unfold condition. rewrite Hor, En, Ez, Ev, Ec.
  assert (eqb (relation sz 11 s d) (relation sz 9 s d) = negb (relation sz 13 s d)) as ->
    by (rewrite <- Hlt; by destruct (relation sz 11 s d), (relation sz 9 s d)).
  clear - Heq Hcc. enum_upto cc 16%nat; simpl in *; rewrite ?Heq; try done; try lia;
    by rewrite negb_involutive.
Qed.

Ltac read_flags :=
  match goal with
  | |- context [Z.lor (Z.ldiff ?sr 0x1F) (ccr ?x ?n ?z ?v ?c)] =>
      let Ex := fresh in let En := fresh in let Ez := fresh in
      let Ev := fresh in let Ec := fresh in let Er := fresh in
      destruct (flag_reads sr x n z v c) as (Ex & En & Ez & Ev & Ec & Er);
      rewrite ?Ex, ?En, ?Ez, ?Ev, ?Ec, ?Er
  end.

(** ** Properties *)

Section properties.
Context {B : Type}.

(** C21: the flags of an addition.  For operands of any size and an incoming
    extend bit, [setFlagsAdd] sets C and X exactly when the unsigned sum
    reaches [2^Bits], V exactly when the signed sum leaves the signed range,
    N and Z by the truncated result, and leaves the rest of SR alone. *)
Theorem setFlagsAdd_correct sz s d x (c : CPU B) :
  valid_size sz -> is_sz sz s -> is_sz sz d -> 0 <= x <= 1 ->
  exists sr,
    setFlagsAdd s d (u32 (s + d + x)) sz c = Some (tt, on_reg (with_SR sr) c) /\
    tstb sr flagC = (2 ^ Bits sz <=? s + d + x) /\
    tstb sr flagX = (2 ^ Bits sz <=? s + d + x) /\
    tstb sr flagV = negb (in_signed sz (signed sz s + signed sz d + x)) /\
    tstb sr flagN = (signed sz ((s + d + x) mod 2 ^ Bits sz) <? 0) /\
    tstb sr flagZ = ((s + d + x) mod 2 ^ Bits sz =? 0) /\
    Z.ldiff sr 0x1F = Z.ldiff (rSR (reg c)) 0x1F.
Proof.
  intros Hsz Hs Hd Hx. eexists. split; [by apply setFlagsAdd_spec|].
  rewrite <- Modulus_pow2 by done.
  unfold addCCR. cbv zeta. by read_flags.
Qed.

(** C22: the flags of a subtraction [d - s - x]: C and X are the borrow, V the
    signed overflow, N and Z by the truncated difference. *)
Theorem setFlagsSub_correct sz s d x (c : CPU B) :
  valid_size sz -> is_sz sz s -> is_sz sz d -> 0 <= x <= 1 ->
  exists sr,
    setFlagsSub s d (u32 (d - s - x)) sz c = Some (tt, on_reg (with_SR sr) c) /\
    tstb sr flagC = (d <? s + x) /\
    tstb sr flagX = (d <? s + x) /\
    tstb sr flagV = negb (in_signed sz (signed sz d - signed sz s - x)) /\
    tstb sr flagN = (signed sz ((d - s - x) mod 2 ^ Bits sz) <? 0) /\
    tstb sr flagZ = ((d - s - x) mod 2 ^ Bits sz =? 0) /\
    Z.ldiff sr 0x1F = Z.ldiff (rSR (reg c)) 0x1F.
Proof.
  intros Hsz Hs Hd Hx. eexists. split; [by apply setFlagsSub_spec|].
  rewrite <- Modulus_pow2 by done. unfold subCCR. cbv zeta. by read_flags.
Qed.

(** C23: a comparison followed by a condition test decides the order of the
    operands.  After [setFlagsCmp] on [d - s], [testCondition cc] is the
    unsigned relation for HI, LS, CC and CS, equality for EQ and NE, and the
    signed relation for GE, LT, GT and LE; X is not changed. *)
Theorem compare_then_test sz s d cc (c : CPU B) :
  valid_size sz -> is_sz sz s -> is_sz sz d -> 0 <= cc < 16 ->
  exists c',
    setFlagsCmp s d (u32 (d - s)) sz c = Some (tt, c') /\
    testCondition cc c' = Some (relation sz cc s d, c') /\
    tstb (rSR (reg c')) flagX = tstb (rSR (reg c)) flagX /\
    Z.ldiff (rSR (reg c')) 0x1F = Z.ldiff (rSR (reg c)) 0x1F.
Proof.
  intros Hsz Hs Hd Hcc. eexists. split; [by apply setFlagsCmp_spec|].
  split; [|simpl; by read_flags].
  unfold testCondition, getSR, gets, bind, ret.
  cbn [reg on_reg with_SR rSR]. by rewrite condition_ccr, relation_conditions.
Qed.
End properties.

Lemma setFlagsAdd_correct_witness :
  exists sr, setFlagsAdd 0xFF 0x01 0x101 sizeByte (zeroCPU tt) =
      Some (tt, on_reg (with_SR sr) (zeroCPU tt)) /\
    tstb sr flagC = true /\ tstb sr flagV = false.
Proof.
  destruct (setFlagsAdd_correct sizeByte 0xFF 0x01 1 (zeroCPU tt))
    as (sr & E & HC & _ & HV & _); [by left|done|done|done|].
  exists sr. split; [exact E|]. rewrite HC, HV. done.
Defined.

Lemma setFlagsSub_correct_witness :
  exists sr, setFlagsSub 0x8000 0x7FFF 0xFFFFFFFF sizeWord (zeroCPU tt) =
      Some (tt, on_reg (with_SR sr) (zeroCPU tt)) /\
    tstb sr flagC = true /\ tstb sr flagV = true.
Proof.
  destruct (setFlagsSub_correct sizeWord 0x8000 0x7FFF 0 (zeroCPU tt))
    as (sr & E & HC & _ & HV & _); [by right; left|done|done|done|].
  exists sr. split; [exact E|]. rewrite HC, HV. done.
Defined.

Lemma compare_then_test_witness :
  exists c' : CPU unit, testCondition 13 c' = Some (true, c').
Proof.
  destruct (compare_then_test sizeLong 1 0xFFFFFFFF 13 (zeroCPU tt))
    as (c' & _ & Ht & _); [by right; right|done|done|done|].
  by exists c'.
Defined.
