(* ===== verification/Exception.v ===== *)
(** * Exceptions and interrupts (exception.go, interrupt.go) *)

From S2P Require Import Prelude Monad Cpu.

Definition vecBusError : Z := 2.
Definition vecAddressError : Z := 3.
Definition vecIllegalInstruction : Z := 4.
Definition vecDivideByZero : Z := 5.
Definition vecCHK : Z := 6.
Definition vecTRAPV : Z := 7.
Definition vecPrivilegeViolation : Z := 8.
Definition vecTrace : Z := 9.
Definition vecLineA : Z := 10.
Definition vecLineF : Z := 11.
Definition vecUninitialized : Z := 15.
Definition vecSpuriousInterrupt : Z := 24.
Definition vecTrap0 : Z := 32.

Section exceptions.
Context {B : Type} `{!Bus B}.

(** The vectors whose frame holds the address of the faulting instruction. *)
Definition faultVector (vector : Z) : bool :=
  (vector =? vecIllegalInstruction) || (vector =? vecPrivilegeViolation) ||
  (vector =? vecLineA) || (vector =? vecLineF).

(** [if c.reg.SR&flagS == 0 { USP = A7; A7 = SSP }] and the new SR: the part
    [exception] and [processInterrupt] share. *)
Definition enterSupervisor : M (CPU B) unit :=
  sr <- getSR ;;
  (if Z.land sr flagS =? 0 then
     a <- getA 7 ;; setUSP a ;;
     ssp <- getSSP ;; setA 7 ssp
   else ret tt) ;;
  sr <- getSR ;;
  putSR (Z.ldiff (Z.lor sr flagS) flagT).

Definition exception (vector : Z) : M (CPU B) unit :=
  pc <- getPC ;;
  ppc <- gets prevPC ;;
  let pushPC := if faultVector vector then ppc else pc in
  oldSR <- getSR ;;
  enterSupervisor ;;
  pushLong pushPC ;;
  pushWord oldSR ;;
  addr <- readBus sizeLong (u32 (u32 vector * 4)) ;;
  if addr =? 0 then
    addr <- readBus sizeLong (vecUninitialized * 4) ;;
    if addr =? 0 then setHalted true
    else setPC addr ;; AddCycles 34
  else setPC addr ;; AddCycles 34.

Definition processInterrupt : M (CPU B) unit :=
  level <- gets pendingIPL ;;
  vec <- gets pendingVec ;;
  modify (with_pending 0 None) ;;
  oldSR <- getSR ;;
  enterSupervisor ;;
  sr <- getSR ;;
  putSR (Z.lor (Z.land sr 0xF8FF) (u16 (Z.shiftl level 8))) ;;
  pc <- getPC ;;
  pushLong pc ;;
  pushWord oldSR ;;
  let vectorNum := match vec with Some v => v | None => u8 (24 + level) end in
  addr <- readBus sizeLong (u32 (vectorNum * 4)) ;;
  addr <- (if addr =? 0 then readBus sizeLong (vecSpuriousInterrupt * 4) else ret addr) ;;
  setPC addr ;;
  setStopped false ;;
  AddCycles 44.

Definition checkInterrupt : M (CPU B) unit :=
  p <- gets pendingIPL ;;
  if p =? 0 then ret tt
  else
    sr <- getSR ;;
    let mask := u8 (Z.land (Z.shiftr sr 8) 7) in
    if (mask <? p) || (p =? 7) then processInterrupt else ret tt.
End exceptions.
