(* ===== verification/Timing.v ===== *)
(** * Effective-address timing (timing.go, ea_inline.go)

    Two tables are written twice in the source: [eaFetchCycles] and
    [eaWriteCycles] (timing.go) at execution time, [eaFetchConst] and
    [eaWriteConst] (ea_inline.go) precomputed into the instruction closures. *)

From S2P Require Import Prelude Monad Cpu.

Definition eaFetchCycles (mode reg sz : Z) : Z :=
  let base :=
    match mode with
    | 0 | 1 => 0
    | 2 | 3 => 4
    | 4 => 6
    | 5 => 8
    | 6 => 10
    | 7 => match reg with
           | 0 => 8
           | 1 => 12
           | 2 => 8
           | 3 => 10
           | 4 => 4
           | _ => 0
           end
    | _ => 0
    end in
  if (sz =? sizeLong) && (0 <? base) then u64 (base + 4) else base.

Definition eaWriteCycles (mode reg sz : Z) : Z :=
  let base :=
    match mode with
    | 0 | 1 => 0
    | 2 | 3 | 4 => 4
    | 5 => 8
    | 6 => 10
    | 7 => match reg with
           | 0 => 8
           | 1 => 12
           | _ => 0
           end
    | _ => 0
    end in
  if (sz =? sizeLong) && (0 <? base) then u64 (base + 4) else base.

(** (base, longExtra) *)
Definition eaFetchConst (mode reg : Z) : Z * Z :=
  match mode with
  | 0 | 1 => (0, 0)
  | 2 | 3 => (4, 4)
  | 4 => (6, 4)
  | 5 => (8, 4)
  | 6 => (10, 4)
  | 7 => match reg with
         | 0 => (8, 4)
         | 1 => (12, 4)
         | 2 => (8, 4)
         | 3 => (10, 4)
         | 4 => (4, 4)
         | _ => (0, 0)
         end
  | _ => (0, 0)
  end.

Definition eaWriteConst (mode reg : Z) : Z * Z :=
  match mode with
  | 0 | 1 => (0, 0)
  | 2 | 3 | 4 => (4, 4)
  | 5 => (8, 4)
  | 6 => (10, 4)
  | 7 => match reg with
         | 0 => (8, 4)
         | 1 => (12, 4)
         | _ => (0, 0)
         end
  | _ => (0, 0)
  end.

(** The cost a closure charges: [base], and [longExtra] when the size is long. *)
Definition constCycles (k : Z * Z) (sz : Z) : Z :=
  fst k + (if sz =? sizeLong then snd k else 0).
