(* ===== verification/Ea.v ===== *)
(** * Effective addresses (ea.go, ea_inline.go)

    [resolveEA] is the general decoder; [makeEARead] and [makeEAMemAddr] are
    the specialised closures the opcode table is filled with.  A nil closure
    is [None], and calling it a panic. *)

From S2P Require Import Prelude Monad Cpu Ram Flags Exception Timing.

(** The [ea] struct: [mode] is one of the four categories. *)
Inductive eaMode : Type := eaDataReg | eaAddrReg | eaMemory | eaImmediate.

Record ea : Type := mkEa {
  ea_mode : eaMode;
  ea_reg : Z;
  ea_addr : Z;
  ea_imm : Z
}.

Section ea.
Context {B : Type} `{!Bus B}.

Definition ea_read (e : ea) (sz : Z) : M (CPU B) Z :=
  match ea_mode e with
  | eaDataReg => v <- getD (ea_reg e) ;; ret (Z.land v (Mask sz))
  | eaAddrReg => v <- getA (ea_reg e) ;; ret (Z.land v (Mask sz))
  | eaMemory => readBus sz (ea_addr e)
  | eaImmediate => ret (Z.land (ea_imm e) (Mask sz))
  end.

Definition ea_write (e : ea) (sz val : Z) : M (CPU B) unit :=
  match ea_mode e with
  | eaDataReg =>
      let mask := Mask sz in
      v <- getD (ea_reg e) ;;
      setD (ea_reg e) (Z.lor (Z.land v (not32 mask)) (Z.land val mask))
  | eaAddrReg => setA (ea_reg e) val
  | eaMemory => writeBus sz (ea_addr e) val
  | eaImmediate => ret tt
  end.

Definition ea_address (e : ea) : Z := ea_addr e.

Definition calcIndex (base ext : Z) : M (CPU B) Z :=
  let disp := s8 (Z.land ext 0xFF) in
  let xn := Z.land (Z.shiftr ext 12) 7 in
  idx <- (if tstb ext 0x8000 then v <- getA xn ;; ret (s32 v)
          else v <- getD xn ;; ret (s32 v)) ;;
  let idx := if Z.land ext 0x0800 =? 0 then s16 idx else idx in
  ret (u32 (s32 (s32 (s32 base + idx) + disp))).

(** The step of (An)+ and -(An): the stack pointer stays word-aligned. *)
Definition stepSize (reg sz : Z) : Z :=
  if (reg =? 7) && (sz =? sizeByte) then 2 else u32 sz.

Definition resolveEA (mode reg sz : Z) : M (CPU B) ea :=
  let mem addr := mkEa eaMemory 0 addr 0 in
  let invalid := exception vecIllegalInstruction ;; ret (mkEa eaDataReg 0 0 0) in
  match mode with
  | 0 => ret (mkEa eaDataReg reg 0 0)
  | 1 => ret (mkEa eaAddrReg reg 0 0)
  | 2 => a <- getA reg ;; ret (mem a)
  | 3 => addr <- getA reg ;;
         let inc := stepSize reg sz in
         a <- getA reg ;; setA reg (u32 (a + inc)) ;;
         ret (mem addr)
  | 4 => let dec := stepSize reg sz in
         a <- getA reg ;; setA reg (u32 (a - dec)) ;;
         a <- getA reg ;; ret (mem a)
  | 5 => w <- fetchPC ;;
         let disp := s16 w in
         a <- getA reg ;; ret (mem (u32 (s32 (s32 a + disp))))
  | 6 => ext <- fetchPC ;;
         a <- getA reg ;; x <- calcIndex a ext ;; ret (mem x)
  | 7 =>
      match reg with
      | 0 => w <- fetchPC ;; ret (mem (u32 (s16 w)))
      | 1 => a <- fetchPCLong ;; ret (mem a)
      | 2 => pc <- getPC ;;
             w <- fetchPC ;;
             ret (mem (u32 (s32 (s32 pc + s16 w))))
      | 3 => pc <- getPC ;;
             ext <- fetchPC ;;
             x <- calcIndex pc ext ;; ret (mem x)
      | 4 =>
          if sz =? sizeByte then
            v <- fetchPC ;; ret (mkEa eaImmediate 0 0 (Z.land v 0xFF))
          else if sz =? sizeWord then
            v <- fetchPC ;; ret (mkEa eaImmediate 0 0 v)
          else if sz =? sizeLong then
            v <- fetchPCLong ;; ret (mkEa eaImmediate 0 0 v)
          else invalid
      | _ => invalid
      end
  | _ => invalid
  end.

(** ** Specialised closures (ea_inline.go) *)

Definition eaReadFunc : Type := Z -> M (CPU B) Z.
Definition eaAddrFunc : Type := Z -> M (CPU B) Z.

Definition makeEARead (mode reg : Z) : option eaReadFunc :=
  match mode with
  | 0 => Some (fun sz => v <- getD reg ;; ret (Z.land v (Mask sz)))
  | 1 => Some (fun sz => v <- getA reg ;; ret (Z.land v (Mask sz)))
  | 2 => Some (fun sz => a <- getA reg ;; readBus sz a)
  | 3 =>
      if reg =? 7 then
        Some (fun sz =>
          addr <- getA 7 ;;
          let inc := if sz =? sizeByte then 2 else u32 sz in
          a <- getA 7 ;; setA 7 (u32 (a + inc)) ;;
          readBus sz addr)
      else
        Some (fun sz =>
          addr <- getA reg ;;
          a <- getA reg ;; setA reg (u32 (a + u32 sz)) ;;
          readBus sz addr)
  | 4 =>
      if reg =? 7 then
        Some (fun sz =>
          let dec := if sz =? sizeByte then 2 else u32 sz in
          a <- getA 7 ;; setA 7 (u32 (a - dec)) ;;
          a <- getA 7 ;; readBus sz a)
      else
        Some (fun sz =>
          a <- getA reg ;; setA reg (u32 (a - u32 sz)) ;;
          a <- getA reg ;; readBus sz a)
  | 5 => Some (fun sz =>
          w <- fetchPC ;;
          let disp := s16 w in
          a <- getA reg ;; readBus sz (u32 (s32 (s32 a + disp))))
  | 6 => Some (fun sz =>
          ext <- fetchPC ;;
          a <- getA reg ;; x <- calcIndex a ext ;; readBus sz x)
  | 7 =>
      match reg with
      | 0 => Some (fun sz => w <- fetchPC ;; readBus sz (u32 (s16 w)))
      | 1 => Some (fun sz => a <- fetchPCLong ;; readBus sz a)
      | 2 => Some (fun sz =>
              pc <- getPC ;;
              w <- fetchPC ;;
              readBus sz (u32 (s32 (s32 pc + s16 w))))
      | 3 => Some (fun sz =>
              pc <- getPC ;;
              ext <- fetchPC ;;
              x <- calcIndex pc ext ;; readBus sz x)
      | 4 => Some (fun sz =>
              if sz =? sizeLong then fetchPCLong
              else w <- fetchPC ;; ret (Z.land w (Mask sz)))
      | _ => None
      end
  | _ => None
  end.

Definition makeEAMemAddr (mode reg : Z) : option eaAddrFunc :=
  match mode with
  | 2 => Some (fun _ => getA reg)
  | 3 =>
      if reg =? 7 then
        Some (fun sz =>
          addr <- getA 7 ;;
          let inc := if sz =? sizeByte then 2 else u32 sz in
          a <- getA 7 ;; setA 7 (u32 (a + inc)) ;;
          ret addr)
      else
        Some (fun sz =>
          addr <- getA reg ;;
          a <- getA reg ;; setA reg (u32 (a + u32 sz)) ;;
          ret addr)
  | 4 =>
      if reg =? 7 then
        Some (fun sz =>
          let dec := if sz =? sizeByte then 2 else u32 sz in
          a <- getA 7 ;; setA 7 (u32 (a - dec)) ;;
          getA 7)
      else
        Some (fun sz =>
          a <- getA reg ;; setA reg (u32 (a - u32 sz)) ;;
          getA reg)
  | 5 => Some (fun _ =>
          w <- fetchPC ;;
          let disp := s16 w in
          a <- getA reg ;; ret (u32 (s32 (s32 a + disp))))
  | 6 => Some (fun _ =>
          ext <- fetchPC ;;
          a <- getA reg ;; calcIndex a ext)
  | 7 =>
      match reg with
      | 0 => Some (fun _ => w <- fetchPC ;; ret (u32 (s16 w)))
      | 1 => Some (fun _ => fetchPCLong)
      | 2 => Some (fun _ =>
              pc <- getPC ;;
              w <- fetchPC ;;
              ret (u32 (s32 (s32 pc + s16 w))))
      | 3 => Some (fun _ =>
              pc <- getPC ;;
              ext <- fetchPC ;;
              calcIndex pc ext)
      | _ => None
      end
  | _ => None
  end.

(** A call of a closure obtained from one of the two: nil panics. *)
Definition call (f : option (Z -> M (CPU B) Z)) (sz : Z) : M (CPU B) Z :=
  match f with Some g => g sz | None => panic end.
End ea.

(** ** The closures are the general decoder, specialised

    Step through two computations that make the same calls. *)
Ltac same_calls :=
  repeat first
    [ reflexivity
    | rewrite bind_assoc
    | apply bind_ext; [reflexivity | intros] ].

Section specialisation.
Context {B : Type} `{!Bus B}.

Lemma fetchPC_u16 (c c' : CPU B) w : fetchPC c = Some (w, c') -> is_u16 w.
Proof.
  unfold fetchPC. intros H. repeat (apply bind_Some in H as (? & ? & _ & H)).
  injection H as <- _. apply u16_range.
Qed.

Lemma fetchPCLong_u32 (c c' : CPU B) w : fetchPCLong c = Some (w, c') -> is_u32 w.
Proof.
  unfold fetchPCLong. intros H. apply bind_Some in H as (hi & ? & _ & H).
  apply bind_Some in H as (lo & ? & Hlo & H). injection H as <- _.
  apply fetchPC_u16 in Hlo. urange.
Qed.

(** C30: the specialised operand readers are the general addressing code.  For
    every mode and register that has a closure and every operand size,
    [makeEARead] does what [resolveEA] followed by [ea.read] does: the same
    value, the same register, PC, bus and cycle effects, in every state. *)
Theorem makeEARead_resolveEA mode reg sz f (c : CPU B) :
  0 <= mode < 8 -> 0 <= reg < 8 -> valid_size sz ->
  makeEARead mode reg = Some f ->
  f sz c = (e <- resolveEA mode reg sz ;; ea_read e sz) c.
Proof.
  intros Hmode Hreg Hsz Hf. enum_upto mode 8%nat; simpl in Hf.
  all: try (injection Hf as <-; simpl; same_calls).
  - destruct (Z.eqb_spec reg 7) as [->|Hne]; injection Hf as <-; simpl; unfold stepSize;
      rewrite ?(proj2 (Z.eqb_neq reg 7) Hne); same_calls.
  - destruct (Z.eqb_spec reg 7) as [->|Hne]; injection Hf as <-; simpl; unfold stepSize;
      rewrite ?(proj2 (Z.eqb_neq reg 7) Hne); same_calls.
  - enum_upto reg 8%nat; simplify_eq/=; try same_calls.
    destruct Hsz as [->|[->| ->]]; simpl.
    + rewrite bind_assoc. apply bind_ext; [done|]. intros w c' _.
      unfold bind, ea_read, ret. simpl. change (Mask sizeByte) with 0xFF.
      by rewrite <- Z.land_assoc.
    + same_calls.
    + rewrite bind_assoc, <- bind_ret_r. apply bind_ext; [done|]. intros v c' Hv.
      unfold bind, ea_read, ret. simpl. rewrite (land_Mask_small sizeLong); [done|by right; right|].
      by apply (fetchPCLong_u32 _ _ _ Hv).
Qed.

(** Likewise [makeEAMemAddr] computes the address [resolveEA] resolves,
    with the same effects. *)
Theorem makeEAMemAddr_resolveEA mode reg sz f (c : CPU B) :
  0 <= mode < 8 -> 0 <= reg < 8 ->
  makeEAMemAddr mode reg = Some f ->
  f sz c = (e <- resolveEA mode reg sz ;; ret (ea_address e)) c.
Proof.
  intros Hmode Hreg Hf. enum_upto mode 8%nat; simpl in Hf; try done.
  - injection Hf as <-. simpl. rewrite bind_assoc, <- bind_ret_r. same_calls.
  - destruct (Z.eqb_spec reg 7) as [->|Hne]; injection Hf as <-; simpl; unfold stepSize;
      rewrite ?(proj2 (Z.eqb_neq reg 7) Hne); same_calls.
  - destruct (Z.eqb_spec reg 7) as [->|Hne]; injection Hf as <-; simpl; unfold stepSize;
      rewrite ?(proj2 (Z.eqb_neq reg 7) Hne); same_calls;
      rewrite <- bind_ret_r; same_calls.
  - injection Hf as <-. simpl. same_calls.
  - injection Hf as <-. simpl. same_calls. rewrite <- bind_ret_r. same_calls.
  - enum_upto reg 8%nat; simplify_eq/=; try same_calls; rewrite <- bind_ret_r; same_calls.
Qed.
End specialisation.

(** The two timing tables agree: the base and long surcharge a closure
    precomputes are the fetch and write times of timing.go, for every mode,
    register and operand size. *)
Theorem timing_tables_agree mode reg sz :
  0 <= mode < 8 -> 0 <= reg < 8 -> valid_size sz ->
  constCycles (eaFetchConst mode reg) sz = eaFetchCycles mode reg sz /\
  constCycles (eaWriteConst mode reg) sz = eaWriteCycles mode reg sz.
Proof.
  intros Hmode Hreg Hsz.
  enum_upto mode 8%nat; enum_upto reg 8%nat; by destruct Hsz as [->|[->| ->]].
Qed.

Lemma makeEARead_resolveEA_witness :
  exists f, makeEARead 3 7 = Some f /\
    f sizeByte (cpuAt 0x1000 0x2700 0 0x8000 ram0) =
    (e <- resolveEA 3 7 sizeByte ;; ea_read e sizeByte) (cpuAt 0x1000 0x2700 0 0x8000 ram0).
Proof.
  eexists. split; [reflexivity|].
  apply (makeEARead_resolveEA 3 7 sizeByte); [lia|lia|by left|reflexivity].
Defined.

Lemma makeEAMemAddr_resolveEA_witness :
  exists f, makeEAMemAddr 6 2 = Some f /\
    f sizeLong (cpuAt 0x1000 0x2700 0 0x8000 ram0) =
    (e <- resolveEA 6 2 sizeLong ;; ret (ea_address e)) (cpuAt 0x1000 0x2700 0 0x8000 ram0).
Proof.
  eexists. split; [reflexivity|].
  apply (makeEAMemAddr_resolveEA 6 2 sizeLong); [lia|lia|reflexivity].
Defined.

Lemma timing_tables_agree_witness :
  constCycles (eaFetchConst 7 1) sizeLong = 16 /\ eaFetchCycles 7 1 sizeLong = 16.
Proof.
  destruct (timing_tables_agree 7 1 sizeLong) as [H _]; [lia|lia|by right; right|].
  split; [reflexivity|]. rewrite <- H. reflexivity.
Defined.
