(* ===== verification/OpsMove.v ===== *)
(** * Data movement (ops_move.go)

    MOVE, MOVEA, MOVEQ, MOVEP, LEA, PEA, MOVEM, EXG and SWAP. *)

From S2P Require Import Prelude Monad Cpu Flags Exception Timing Ea.

(** [moveSizeMap]: 01 = byte, 10 = long, 11 = word. *)
Definition moveSizeMap : list Z := [0; sizeByte; sizeLong; sizeWord].

Section move.
Context {B : Type} `{!Bus B}.

(** [moveSizeMap[(c.ir>>12)&3]] *)
Definition moveSize : M (CPU B) Z :=
  ir <- getir ;; index moveSizeMap (Z.land (Z.shiftr ir 12) 3).

Definition makeMOVE (srcMode srcReg dstMode dstReg : Z) : opFunc B :=
  let read := makeEARead srcMode srcReg in
  let '(srcBase, srcLong) := eaFetchConst srcMode srcReg in
  let '(dstBase, dstLong) := eaWriteConst dstMode dstReg in
  if dstMode =? 0 then
    sz <- moveSize ;;
    val <- call read sz ;;
    let mask := Mask sz in
    d <- getD dstReg ;;
    setD dstReg (Z.lor (Z.land d (not32 mask)) (Z.land val mask)) ;;
    setFlagsLogical val sz ;;
    AddCycles (4 + srcBase + dstBase) ;;
    when (sz =? sizeLong) (AddCycles (srcLong + dstLong))
  else
    let dstAddr := makeEAMemAddr dstMode dstReg in
    sz <- moveSize ;;
    val <- call read sz ;;
    a <- call dstAddr sz ;;
    writeBus sz a val ;;
    setFlagsLogical val sz ;;
    AddCycles (4 + srcBase + dstBase) ;;
    when (sz =? sizeLong) (AddCycles (srcLong + dstLong)).

Definition makeMOVEA (an srcMode srcReg : Z) : opFunc B :=
  let read := makeEARead srcMode srcReg in
  let '(eaBase, eaLong) := eaFetchConst srcMode srcReg in
  sz <- moveSize ;;
  val <- call read sz ;;
  let val := if sz =? sizeWord then u32 (s16 val) else val in
  setA an val ;;
  AddCycles (4 + eaBase) ;;
  when (sz =? sizeLong) (AddCycles eaLong).

Definition opMOVEQ : opFunc B :=
  ir <- getir ;;
  let dn := Z.land (Z.shiftr ir 9) 7 in
  let data := s8 (Z.land ir 0xFF) in
  setD dn (u32 data) ;;
  v <- getD dn ;;
  setFlagsLogical v sizeLong ;;
  AddCycles 4.

(** The cycle switch shared in shape by LEA, PEA, JMP and JSR: a cost for
    (An), d16(An), d8(An,Xn), abs.W / d16(PC), abs.L and d8(PC,Xn). *)
Definition controlCycles (mode reg c2 c5 c6 c70 c71 c73 : Z) : Z :=
  match mode with
  | 2 => c2
  | 5 => c5
  | 6 => c6
  | 7 => match reg with
         | 0 | 2 => c70
         | 1 => c71
         | 3 => c73
         | _ => 0
         end
  | _ => 0
  end.

Definition makeLEA (an srcMode srcReg : Z) : opFunc B :=
  let addr := makeEAMemAddr srcMode srcReg in
  let cycles := controlCycles srcMode srcReg 4 8 12 8 12 12 in
  a <- call addr sizeLong ;;
  setA an a ;;
  AddCycles cycles.

Definition makePEA (srcMode srcReg : Z) : opFunc B :=
  let addr := makeEAMemAddr srcMode srcReg in
  let cycles := controlCycles srcMode srcReg 12 16 20 16 20 20 in
  a <- call addr sizeLong ;;
  pushLong a ;;
  AddCycles cycles.

(** ** MOVEM *)

(** Register [ri] of the list D0..D7, A0..A7. *)
Definition getReg16 (ri : Z) : M (CPU B) Z :=
  if ri <? 8 then getD ri else getA (ri - 8).

Definition setReg16 (ri v : Z) : M (CPU B) unit :=
  if ri <? 8 then setD ri v else setA (ri - 8) v.

(** -(An): bit 0 = A7, ..., bit 15 = D0; the address runs downwards. *)
Definition movemStorePredec (sz mask addr : Z) : M (CPU B) Z :=
  foldM (fun addr i =>
    if tstb mask (Z.shiftl 1 i) then
      let addr := u32 (addr - u32 sz) in
      let ri := 15 - i in
      v <- getReg16 ri ;; writeBus sz addr v ;; ret addr
    else ret addr) (zrange 0 16) addr.

Definition movemStore (sz mask addr : Z) : M (CPU B) Z :=
  foldM (fun addr i =>
    if tstb mask (Z.shiftl 1 i) then
      v <- getReg16 i ;; writeBus sz addr v ;; ret (u32 (addr + u32 sz))
    else ret addr) (zrange 0 16) addr.

Definition movemLoad (sz mask addr : Z) : M (CPU B) Z :=
  foldM (fun addr i =>
    if tstb mask (Z.shiftl 1 i) then
      val <- readBus sz addr ;;
      let val := if sz =? sizeWord then u32 (s16 val) else val in
      setReg16 i val ;; ret (u32 (addr + u32 sz))
    else ret addr) (zrange 0 16) addr.

(** [bits.OnesCount16] *)
Definition OnesCount16 (x : Z) : Z :=
  Z.of_nat (length (filter (fun i => Z.testbit x i = true) (zrange 0 16))).

Definition movemBase (dir mode reg : Z) : Z :=
  if dir =? 0 then
    match mode with
    | 2 | 4 => 8
    | 5 => 12
    | 6 => 14
    | 7 => match reg with 0 => 12 | 1 => 16 | _ => 0 end
    | _ => 0
    end
  else
    match mode with
    | 2 | 3 => 12
    | 5 => 16
    | 6 => 18
    | 7 => match reg with 0 => 16 | 1 => 20 | 2 => 16 | 3 => 18 | _ => 0 end
    | _ => 0
    end.

Definition opMOVEM : opFunc B :=
  ir <- getir ;;
  let dir := Z.land (Z.shiftr ir 10) 1 in
  let szBit := Z.land (Z.shiftr ir 6) 1 in
  let mode := u8 (Z.land (Z.shiftr ir 3) 7) in
  let reg := u8 (Z.land ir 7) in
  let sz := if negb (szBit =? 0) then sizeLong else sizeWord in
  mask <- fetchPC ;;
  (if dir =? 0 then
     if mode =? 4 then
       addr <- getA reg ;;
       addr <- movemStorePredec sz mask addr ;;
       setA reg addr
     else
       src <- resolveEA mode reg sz ;;
       movemStore sz mask (ea_address src) ;; ret tt
   else
     if mode =? 3 then
       addr <- getA reg ;;
       addr <- movemLoad sz mask addr ;;
       setA reg addr
     else
       src <- resolveEA mode reg sz ;;
       movemLoad sz mask (ea_address src) ;; ret tt) ;;
  let n := OnesCount16 mask in
  let perReg := if sz =? sizeLong then 8 else 4 in
  AddCycles (movemBase dir mode reg + n * perReg).

(** ** EXG, SWAP, MOVEP *)

Definition opEXG : opFunc B :=
  ir <- getir ;;
  let rx := Z.land (Z.shiftr ir 9) 7 in
  let ry := Z.land ir 7 in
  let opmode := Z.land (Z.shiftr ir 3) 0x1F in
  (match opmode with
   | 0x08 => y <- getD ry ;; x <- getD rx ;; setD rx y ;; setD ry x
   | 0x09 => y <- getA ry ;; x <- getA rx ;; setA rx y ;; setA ry x
   | 0x11 => y <- getA ry ;; x <- getD rx ;; setD rx y ;; setA ry x
   | _ => ret tt
   end) ;;
  AddCycles 6.

Definition opSWAP : opFunc B :=
  ir <- getir ;;
  let dn := Z.land ir 7 in
  val <- getD dn ;;
  setD dn (Z.lor (Z.land (Z.shiftr val 16) 0xFFFF)
                 (u32 (Z.shiftl (Z.land val 0xFFFF) 16))) ;;
  v <- getD dn ;;
  setFlagsLogical v sizeLong ;;
  AddCycles 4.

Definition opMOVEP : opFunc B :=
  ir <- getir ;;
  let dn := Z.land (Z.shiftr ir 9) 7 in
  let an := Z.land ir 7 in
  let opmode := Z.land (Z.shiftr ir 6) 7 in
  w <- fetchPC ;;
  let disp := s16 w in
  a <- getA an ;;
  let addr := u32 (s32 (s32 a + disp)) in
  match opmode with
  | 4 =>
      b0 <- readBus sizeByte addr ;;
      b1 <- readBus sizeByte (u32 (addr + 2)) ;;
      let val := Z.lor (u32 (Z.shiftl b0 8)) b1 in
      d <- getD dn ;;
      setD dn (Z.lor (Z.land d 0xFFFF0000) (Z.land val 0xFFFF)) ;;
      AddCycles 16
  | 5 =>
      b0 <- readBus sizeByte addr ;;
      b1 <- readBus sizeByte (u32 (addr + 2)) ;;
      b2 <- readBus sizeByte (u32 (addr + 4)) ;;
      b3 <- readBus sizeByte (u32 (addr + 6)) ;;
      setD dn (Z.lor (Z.lor (Z.lor (u32 (Z.shiftl b0 24)) (u32 (Z.shiftl b1 16)))
                 (u32 (Z.shiftl b2 8))) b3) ;;
      AddCycles 24
  | 6 =>
      val <- getD dn ;;
      writeBus sizeByte addr (Z.land (Z.shiftr val 8) 0xFF) ;;
      writeBus sizeByte (u32 (addr + 2)) (Z.land val 0xFF) ;;
      AddCycles 16
  | 7 =>
      val <- getD dn ;;
      writeBus sizeByte addr (Z.land (Z.shiftr val 24) 0xFF) ;;
      writeBus sizeByte (u32 (addr + 2)) (Z.land (Z.shiftr val 16) 0xFF) ;;
      writeBus sizeByte (u32 (addr + 4)) (Z.land (Z.shiftr val 8) 0xFF) ;;
      writeBus sizeByte (u32 (addr + 6)) (Z.land val 0xFF) ;;
      AddCycles 24
  | _ => ret tt
  end.
End move.
