(* ===== verification/OpsCommon.v ===== *)
(** * Idioms shared by the instruction handlers

    [sizeEncoding] of ops_arith.go, and the few lines the handlers of
    ops_arith.go and ops_logic.go repeat verbatim: the masked write of a data
    register, the fetch of an immediate operand, the extend bit as an integer
    and the long/short cycle charge. *)

From S2P Require Import Prelude Monad Cpu Flags Exception Timing Ea.

Definition sizeEncoding (bits : Z) : Z :=
  match bits with
  | 0 => sizeByte
  | 1 => sizeWord
  | 2 => sizeLong
  | _ => 0
  end.

(** [isMem := mode >= 2 && !(mode == 7 && reg == 4)] *)
Definition isMem (mode reg : Z) : bool :=
  (2 <=? mode) && negb ((mode =? 7) && (reg =? 4)).

Section common.
Context {B : Type} `{!Bus B}.

(** [sizeEncoding((c.ir >> 6) & 3)] *)
Definition irSize : M (CPU B) Z :=
  ir <- getir ;; ret (sizeEncoding (Z.land (Z.shiftr ir 6) 3)).

(** [sizeEncoding(((c.ir >> 6) & 7) - 4)] *)
Definition irSizeHi : M (CPU B) Z :=
  ir <- getir ;; ret (sizeEncoding (u16 (Z.land (Z.shiftr ir 6) 7 - 4))).

(** [sz := sizeWord; if (c.ir>>6)&7 == 7 { sz = sizeLong }] *)
Definition irSizeAddr : M (CPU B) Z :=
  ir <- getir ;;
  ret (if Z.land (Z.shiftr ir 6) 7 =? 7 then sizeLong else sizeWord).

(** [c.reg.D[r] & sz.Mask()] *)
Definition loadD (r sz : Z) : M (CPU B) Z :=
  d <- getD r ;; ret (Z.land d (Mask sz)).

(** [c.reg.D[r] = (c.reg.D[r] & ^mask) | (result & mask)] *)
Definition storeD (r sz result : Z) : M (CPU B) unit :=
  let mask := Mask sz in
  d <- getD r ;;
  setD r (Z.lor (Z.land d (not32 mask)) (Z.land result mask)).

(** The immediate operand: two words for a long, else one word masked. *)
Definition fetchImm (sz : Z) : M (CPU B) Z :=
  if sz =? sizeLong then fetchPCLong
  else w <- fetchPC ;; ret (Z.land w (Mask sz)).

(** [x := uint32(0); if c.reg.SR&flagX != 0 { x = 1 }] *)
Definition extendBit : M (CPU B) Z :=
  sr <- getSR ;; ret (if tstb sr flagX then 1 else 0).

(** [if sz == sizeLong { c.cycles += long } else { c.cycles += short }] *)
Definition chargeSize (sz long short : Z) : M (CPU B) unit :=
  if sz =? sizeLong then AddCycles long else AddCycles short.

(** [if sz != sizeLong { 4+eaBase } else if isMem { 6+... } else { 8+... }] *)
Definition chargeToReg (sz eaBase eaLong : Z) (mem : bool) : M (CPU B) unit :=
  if negb (sz =? sizeLong) then AddCycles (4 + eaBase)
  else if mem then AddCycles (6 + eaBase + eaLong)
  else AddCycles (8 + eaBase + eaLong).

(** The Z flag of ADDX, SUBX and NEGX: [result&mask == 0] restores the old Z. *)
Definition keepZ (result sz oldZ : Z) : M (CPU B) unit :=
  when (Z.land result (Mask sz) =? 0)
    (sr <- getSR ;; putSR (Z.lor (Z.ldiff sr flagZ) oldZ)).
End common.
