(* ===== verification/Exec.v ===== *)
(** * Evaluating instructions symbolically

    Equations for the primitive accesses on a state whose fields are known,
    and for bus accesses that fall into memory; the hint database [exec] holds
    them, and the tactic [exec] steps through an instruction with them. *)

From S2P Require Import Prelude Monad Cpu Ram Flags Exception Timing Ea OpsCommon.

(** ** Registers *)

Section registers.
Context {B : Type}.
Implicit Types c : CPU B.

(** The register files have their eight entries. *)
Definition sized c : Prop := length (rD (reg c)) = 8%nat /\ length (rA (reg c)) = 8%nat.

Definition dreg c (i : Z) : Z := default 0 (rD (reg c) !! Z.to_nat i).
Definition areg c (i : Z) : Z := default 0 (rA (reg c) !! Z.to_nat i).

Definition put_D (i v : Z) c : CPU B := on_reg (with_D (<[Z.to_nat i := v]> (rD (reg c)))) c.
Definition put_A (i v : Z) c : CPU B := on_reg (with_A (<[Z.to_nat i := v]> (rA (reg c)))) c.

Lemma getD_run c i : sized c -> 0 <= i < 8 -> getD i c = Some (dreg c i, c).
Proof.
  intros [H _] Hi. unfold getD, get, bind, index, arr_get, dreg.
  destruct (Z.ltb_spec i 0); [lia|].
  by destruct (lookup_lt_is_Some_2 (rD (reg c)) (Z.to_nat i)) as [v ->]; [lia|].
Qed.

Lemma getA_run c i : sized c -> 0 <= i < 8 -> getA i c = Some (areg c i, c).
Proof.
  intros [_ H] Hi. unfold getA, get, bind, index, arr_get, areg.
  destruct (Z.ltb_spec i 0); [lia|].
  by destruct (lookup_lt_is_Some_2 (rA (reg c)) (Z.to_nat i)) as [v ->]; [lia|].
Qed.

Lemma setD_run c i v : sized c -> 0 <= i < 8 -> setD i v c = Some (tt, put_D i v c).
Proof.
  intros [H _] Hi. unfold setD, get, bind. rewrite arr_set_in by (rewrite H; lia). done.
Qed.

Lemma setA_run c i v : sized c -> 0 <= i < 8 -> setA i v c = Some (tt, put_A i v c).
Proof.
  intros [_ H] Hi. unfold setA, get, bind. rewrite arr_set_in by (rewrite H; lia). done.
Qed.

Lemma sized_put_D c i v : sized c -> sized (put_D i v c).
Proof. intros [? ?]. split; simpl; [by rewrite length_insert|done]. Qed.

Lemma sized_put_A c i v : sized c -> sized (put_A i v c).
Proof. intros [? ?]. split; simpl; [done|by rewrite length_insert]. Qed.

Lemma dreg_put_D c i j v :
  sized c -> 0 <= i < 8 -> 0 <= j < 8 -> dreg (put_D i v c) j = if i =? j then v else dreg c j.
Proof.
  intros [H _] Hi Hj. unfold dreg, put_D. simpl. destruct (Z.eqb_spec i j) as [->|Hne].
  - by rewrite list_lookup_insert_eq by lia.
  - by rewrite list_lookup_insert_ne by lia.
Qed.

Lemma areg_put_A c i j v :
  sized c -> 0 <= i < 8 -> 0 <= j < 8 -> areg (put_A i v c) j = if i =? j then v else areg c j.
Proof.
  intros [_ H] Hi Hj. unfold areg, put_A. simpl. destruct (Z.eqb_spec i j) as [->|Hne].
  - by rewrite list_lookup_insert_eq by lia.
  - by rewrite list_lookup_insert_ne by lia.
Qed.

(** Updates of other fields do not change the registers. *)
Lemma dreg_put_A c i j v : dreg (put_A i v c) j = dreg c j.
Proof. done. Qed.
Lemma areg_put_D c i j v : areg (put_D i v c) j = areg c j.
Proof. done. Qed.
Lemma areg_with_SR c v i : areg (on_reg (with_SR v) c) i = areg c i.
Proof. done. Qed.
Lemma areg_with_PC c v i : areg (on_reg (with_PC v) c) i = areg c i.
Proof. done. Qed.
Lemma areg_with_USP c v i : areg (on_reg (with_USP v) c) i = areg c i.
Proof. done. Qed.
Lemma areg_with_SSP c v i : areg (on_reg (with_SSP v) c) i = areg c i.
Proof. done. Qed.
Lemma areg_with_bus c v i : areg (with_bus v c) i = areg c i.
Proof. done. Qed.
Lemma areg_with_cycles c v i : areg (with_cycles v c) i = areg c i.
Proof. done. Qed.
Lemma areg_with_stopped c v i : areg (with_stopped v c) i = areg c i.
Proof. done. Qed.
Lemma areg_with_pending c l v i : areg (with_pending l v c) i = areg c i.
Proof. done. Qed.
Lemma dreg_with_SR c v i : dreg (on_reg (with_SR v) c) i = dreg c i.
Proof. done. Qed.
Lemma dreg_with_cycles c v i : dreg (with_cycles v c) i = dreg c i.
Proof. done. Qed.

Lemma WF_sized c : WF c -> sized c.
Proof. intros []. done. Qed.

Lemma WF_dreg c i : WF c -> is_u32 (dreg c i).
Proof.
  intros Hwf. unfold dreg. destruct (rD (reg c) !! Z.to_nat i) as [v|] eqn:E; [|simpl; wordlia].
  by apply (Forall_lookup_1 _ _ _ _ (wf_D c Hwf) E).
Qed.

Lemma WF_areg c i : WF c -> is_u32 (areg c i).
Proof.
  intros Hwf. unfold areg. destruct (rA (reg c) !! Z.to_nat i) as [v|] eqn:E; [|simpl; wordlia].
  by apply (Forall_lookup_1 _ _ _ _ (wf_A c Hwf) E).
Qed.
End registers.

Create Rewrite HintDb regs.
#[export] Hint Rewrite @dreg_put_A @areg_put_D @areg_with_SR @areg_with_PC @areg_with_USP
  @areg_with_SSP @areg_with_bus @areg_with_cycles @areg_with_stopped @areg_with_pending
  @dreg_with_SR @dreg_with_cycles : regs.

(** ** Memory *)

Section memory.
Context {B : Type} `{!Bus B} {region : Z -> Prop} {HM : BusMemory B region}.
Implicit Types c : CPU B.

(** The [sz] bytes from [a] (as the 24-bit bus sees it) are memory, and a word
    or long is aligned. *)
Definition accessible (sz a : Z) : Prop :=
  (sz = sizeByte \/ Z.odd a = false) /\
  forall i, 0 <= i < sz -> region (Z.land a 0xFFFFFF + i).

(** The big-endian number stored there. *)
Definition mem (sz : Z) (b : B) (a : Z) : Z :=
  let a := Z.land a 0xFFFFFF in
  if sz =? sizeByte then peek b a
  else if sz =? sizeWord then peek b a * 0x100 + peek b (a + 1)
  else peek b a * 0x1000000 + peek b (a + 1) * 0x10000 + peek b (a + 2) * 0x100 + peek b (a + 3).

Definition store (sz a v : Z) (b : B) : B :=
  let a := Z.land a 0xFFFFFF in
  if sz =? sizeByte then Write8 a v b
  else if sz =? sizeWord then Write16 a v b
  else Write32 a v b.

Lemma with_bus_same c : with_bus (bus c) c = c.
Proof. by destruct c. Qed.

Lemma readBus_mem sz a c :
  halted c = false -> valid_size sz -> accessible sz a ->
  readBus sz a c = Some (mem sz (bus c) a, c).
Proof.
  intros Hh Hsz [Hal Hreg]. unfold readBus, gets, bind at 1. rewrite Hh.
  assert (negb (sz =? sizeByte) && tstb a 1 = false) as ->.
  { rewrite tstb_1. destruct Hal as [->| ->]; [done|apply andb_false_r]. }
  destruct Hsz as [->|[->| ->]]; unfold busRead, get, bind, modify, ret, mem; simpl.
  - rewrite Read8_peek by (rewrite <- (Z.add_0_r (Z.land _ _)); apply Hreg; done).
    by rewrite with_bus_same.
  - rewrite Read16_peek by first [apply (Hreg 1); done | rewrite <- (Z.add_0_r (Z.land _ _)); apply Hreg; done].
    by rewrite with_bus_same.
  - rewrite Read32_peek by first [apply (Hreg 1); done | apply (Hreg 2); done | apply (Hreg 3); done
      | rewrite <- (Z.add_0_r (Z.land _ _)); apply Hreg; done].
    by rewrite with_bus_same.
Qed.

Lemma writeBus_mem sz a v c :
  halted c = false -> valid_size sz -> accessible sz a -> is_sz sz v ->
  writeBus sz a v c = Some (tt, with_bus (store sz a v (bus c)) c).
Proof.
  intros Hh Hsz [Hal _] Hv. unfold writeBus, gets, bind at 1. rewrite Hh.
  assert (negb (sz =? sizeByte) && tstb a 1 = false) as ->.
  { rewrite tstb_1. destruct Hal as [->| ->]; [done|apply andb_false_r]. }
  rewrite land_Mask_small by done.
  destruct Hsz as [->|[->| ->]]; unfold busWrite, modify, store; simpl.
  - by rewrite u8_small.
  - by rewrite u16_small.
  - done.
Qed.

(** A write is read back, and does not disturb bytes outside it. *)
Lemma peek_store sz a v b x :
  valid_size sz -> accessible sz a -> is_sz sz v ->
  (x < Z.land a 0xFFFFFF \/ Z.land a 0xFFFFFF + sz <= x) -> peek (store sz a v b) x = peek b x.
Proof.
  intros Hsz [_ Hreg] Hv Hx.
  pose proof (Hreg 0) as H0. rewrite Z.add_0_r in H0.
  destruct Hsz as [->|[->| ->]]; unfold store, sizeByte, sizeWord, sizeLong in *; simpl in *.
  - rewrite peek_Write8 by (done || apply H0; done). cmp_cases; lia || done.
  - rewrite peek_Write16 by first [done | apply H0; done | apply (Hreg 1); done].
    cmp_cases; lia || done.
  - rewrite peek_Write32 by first [done | apply H0; done | apply (Hreg 1); done
      | apply (Hreg 2); done | apply (Hreg 3); done].
    cmp_cases; lia || done.
Qed.

Lemma mem_store_same sz a v b :
  valid_size sz -> accessible sz a -> is_sz sz v -> mem sz (store sz a v b) a = v.
Proof.
  intros Hsz [_ Hreg] Hv. pose proof (Hreg 0) as H0. rewrite Z.add_0_r in H0.
  unfold is_sz in Hv.
  destruct Hsz as [->|[->| ->]]; unfold mem, store, sizeByte, sizeWord, sizeLong in *; simpl in *.
  - rewrite peek_Write8 by (done || apply H0; done). by rewrite Z.eqb_refl.
  - rewrite !peek_Write16 by first [done | apply H0; done | apply (Hreg 1); done].
    cmp_cases; try lia. change (Modulus 2) with 0x10000 in Hv. zlia.
  - rewrite !peek_Write32 by first [done | apply H0; done | apply (Hreg 1); done
      | apply (Hreg 2); done | apply (Hreg 3); done].
    cmp_cases; try lia. change (Modulus 4) with 0x100000000 in Hv. zlia.
Qed.

Lemma mem_store_disjoint sz a v sz' a' b :
  valid_size sz -> accessible sz a -> is_sz sz v -> valid_size sz' ->
  (Z.land a' 0xFFFFFF + sz' <= Z.land a 0xFFFFFF \/
   Z.land a 0xFFFFFF + sz <= Z.land a' 0xFFFFFF) ->
  mem sz' (store sz a v b) a' = mem sz' b a'.
Proof.
  intros Hsz Ha Hv Hsz' Hd.
  assert (forall i, 0 <= i < sz' -> peek (store sz a v b) (Z.land a' 0xFFFFFF + i) =
    peek b (Z.land a' 0xFFFFFF + i)) as Hp.
  { intros i Hi. apply peek_store; [done..|lia]. }
  pose proof (Hp 0) as H0. rewrite Z.add_0_r in H0.
  destruct Hsz' as [->|[->| ->]]; unfold mem, sizeByte, sizeWord, sizeLong in *; simpl.
  - apply H0; lia.
  - rewrite H0, (Hp 1) by lia. done.
  - rewrite H0, (Hp 1), (Hp 2), (Hp 3) by lia. done.
Qed.

Lemma mem_range sz b a : valid_size sz -> is_sz sz (mem sz b a).
Proof.
  intros Hsz. unfold is_sz, mem. set (x := Z.land a 0xFFFFFF).
  pose proof (peek_range b x). pose proof (peek_range b (x + 1)).
  pose proof (peek_range b (x + 2)). pose proof (peek_range b (x + 3)). unfold is_u8 in *.
  destruct Hsz as [->|[->| ->]]; simpl.
  - change (Modulus sizeByte) with 0x100. lia.
  - change (Modulus sizeWord) with 0x10000. lia.
  - change (Modulus sizeLong) with 0x100000000. lia.
Qed.
End memory.
Arguments accessible _ _ _ : clear implicits.

(** ** Stepping *)

Create HintDb exec discriminated.

(** Side conditions about the shape of a state built by updates. *)
Ltac state_side :=
  solve [unfold sized in *; simpl; rewrite ?length_insert; first [assumption | intuition]].

#[export] Hint Resolve getD_run getA_run setD_run setA_run : exec.
#[export] Hint Extern 1 (sized _) => state_side : exec.
#[export] Hint Extern 1 (0 <= _ < 8) => reg_index : exec.
#[export] Hint Extern 1 (getPC _ = _) => reflexivity : exec.
#[export] Hint Extern 1 (setPC _ _ = _) => reflexivity : exec.
#[export] Hint Extern 1 (getSR _ = _) => reflexivity : exec.
#[export] Hint Extern 1 (putSR _ _ = _) => reflexivity : exec.
#[export] Hint Extern 1 (getUSP _ = _) => reflexivity : exec.
#[export] Hint Extern 1 (setUSP _ _ = _) => reflexivity : exec.
#[export] Hint Extern 1 (getSSP _ = _) => reflexivity : exec.
#[export] Hint Extern 1 (setSSP _ _ = _) => reflexivity : exec.
#[export] Hint Extern 1 (getir _ = _) => reflexivity : exec.
#[export] Hint Extern 1 (gets _ _ = _) => reflexivity : exec.
#[export] Hint Extern 1 (modify _ _ = _) => reflexivity : exec.
#[export] Hint Extern 1 (AddCycles _ _ = _) => reflexivity : exec.
#[export] Hint Extern 1 (setStopped _ _ = _) => reflexivity : exec.
#[export] Hint Extern 1 (setHalted _ _ = _) => reflexivity : exec.
#[export] Hint Extern 1 (ret _ _ = _) => reflexivity : exec.

(** Run the first computation of a sequence. *)
Ltac exec1 :=
  first
  [ rewrite bind_assoc
  | erewrite bind_eval; [|solve [eauto 3 with exec nocore]] ].

Ltac exec := repeat exec1.

Section stack.
Context {B : Type} `{!Bus B} {region : Z -> Prop} {HM : BusMemory B region}.
Implicit Types c : CPU B.

Lemma size_word : valid_size sizeWord.
Proof. by right; left. Qed.

Lemma size_long : valid_size sizeLong.
Proof. by right; right. Qed.

Lemma pushLong_mem c v :
  halted c = false -> sized c -> is_u32 v -> accessible region sizeLong (u32 (areg c 7 - 4)) ->
  pushLong v c =
  Some (tt, with_bus (store sizeLong (u32 (areg c 7 - 4)) v (bus c)) (put_A 7 (u32 (areg c 7 - 4)) c)).
Proof.
  intros Hh Hs Hv Ha. unfold pushLong. exec.
  rewrite areg_put_A by done. simpl (7 =? 7). cbv iota.
  by rewrite (writeBus_mem (region := region)) by (done || apply size_long).
Qed.

Lemma pushWord_mem c v :
  halted c = false -> sized c -> is_u16 v -> accessible region sizeWord (u32 (areg c 7 - 2)) ->
  pushWord v c =
  Some (tt, with_bus (store sizeWord (u32 (areg c 7 - 2)) v (bus c)) (put_A 7 (u32 (areg c 7 - 2)) c)).
Proof.
  intros Hh Hs Hv Ha. unfold pushWord. exec.
  rewrite areg_put_A by done. simpl (7 =? 7). cbv iota.
  by rewrite (writeBus_mem (region := region)) by (done || apply size_word).
Qed.

Lemma popLong_mem c :
  halted c = false -> sized c -> accessible region sizeLong (areg c 7) ->
  popLong c = Some (mem sizeLong (bus c) (areg c 7), put_A 7 (u32 (areg c 7 + 4)) c).
Proof.
  intros Hh Hs Ha. unfold popLong. exec.
  rewrite (bind_eval _ _ _ _ _ (readBus_mem (region := region) _ _ _ Hh size_long Ha)). exec. done.
Qed.

Lemma popWord_mem c :
  halted c = false -> sized c -> accessible region sizeWord (areg c 7) ->
  popWord c = Some (mem sizeWord (bus c) (areg c 7), put_A 7 (u32 (areg c 7 + 2)) c).
Proof.
  intros Hh Hs Ha. unfold popWord. exec.
  rewrite (bind_eval _ _ _ _ _ (readBus_mem (region := region) _ _ _ Hh size_word Ha)). exec.
  unfold ret. rewrite u16_small; [done|]. apply (mem_range sizeWord), size_word.
Qed.

Lemma fetchPC_mem c :
  halted c = false -> accessible region sizeWord (rPC (reg c)) ->
  fetchPC c = Some (mem sizeWord (bus c) (rPC (reg c)), on_reg (with_PC (u32 (rPC (reg c) + 2))) c).
Proof.
  intros Hh Ha. unfold fetchPC. exec.
  rewrite (bind_eval _ _ _ _ _ (readBus_mem (region := region) _ _ _ Hh size_word Ha)). exec.
  unfold ret. rewrite u16_small; [done|]. apply (mem_range sizeWord), size_word.
Qed.
End stack.
