(* ===== verification/OpsArith.v ===== *)
(** * Integer arithmetic (ops_arith.go) *)

From S2P Require Import Prelude Monad Cpu Flags Exception Timing Ea OpsCommon.

Section arith.
Context {B : Type} `{!Bus B}.

(** ** ADD *)

Definition makeADDtoReg (dn mode reg : Z) : opFunc B :=
  let read := makeEARead mode reg in
  let '(eaBase, eaLong) := eaFetchConst mode reg in
  sz <- irSize ;;
  s <- call read sz ;;
  d <- loadD dn sz ;;
  let result := u32 (s + d) in
  setFlagsAdd s d result sz ;;
  storeD dn sz result ;;
  chargeToReg sz eaBase eaLong (isMem mode reg).

Definition makeADDtoEA (dn mode reg : Z) : opFunc B :=
  let addr := makeEAMemAddr mode reg in
  let '(eaBase, eaLong) := eaFetchConst mode reg in
  sz <- irSizeHi ;;
  a <- call addr sz ;;
  d <- readBus sz a ;;
  s <- loadD dn sz ;;
  let result := u32 (s + d) in
  setFlagsAdd s d result sz ;;
  writeBus sz a result ;;
  chargeSize sz (12 + eaBase + eaLong) (8 + eaBase).

Definition makeADDA (an mode reg : Z) : opFunc B :=
  let read := makeEARead mode reg in
  let '(eaBase, eaLong) := eaFetchConst mode reg in
  sz <- irSizeAddr ;;
  val <- call read sz ;;
  let val := if sz =? sizeWord then u32 (s16 val) else val in
  a <- getA an ;; setA an (u32 (a + val)) ;;
  if (sz =? sizeLong) && isMem mode reg then AddCycles (6 + eaBase + eaLong)
  else AddCycles (8 + eaBase) ;; when (sz =? sizeLong) (AddCycles eaLong).

Definition makeADDI (mode reg : Z) : opFunc B :=
  if mode =? 0 then
    sz <- irSize ;;
    imm <- fetchImm sz ;;
    d <- loadD reg sz ;;
    let result := u32 (imm + d) in
    setFlagsAdd imm d result sz ;;
    storeD reg sz result ;;
    chargeSize sz 16 8
  else
    let addr := makeEAMemAddr mode reg in
    let '(eaBase, eaLong) := eaFetchConst mode reg in
    sz <- irSize ;;
    imm <- fetchImm sz ;;
    a <- call addr sz ;;
    d <- readBus sz a ;;
    let result := u32 (imm + d) in
    setFlagsAdd imm d result sz ;;
    writeBus sz a result ;;
    chargeSize sz (20 + eaBase + eaLong) (12 + eaBase).

(** [imm := uint32(data); if imm == 0 { imm = 8 }] *)
Definition quickImm (data : Z) : Z := if data =? 0 then 8 else data.

Definition makeADDQ (data mode reg : Z) : opFunc B :=
  let imm := quickImm data in
  if mode =? 0 then
    sz <- irSize ;;
    d <- loadD reg sz ;;
    let result := u32 (imm + d) in
    setFlagsAdd imm d result sz ;;
    storeD reg sz result ;;
    chargeSize sz 8 4
  else if mode =? 1 then
    a <- getA reg ;; setA reg (u32 (a + imm)) ;;
    AddCycles 8
  else
    let addr := makeEAMemAddr mode reg in
    let '(eaBase, eaLong) := eaFetchConst mode reg in
    sz <- irSize ;;
    a <- call addr sz ;;
    d <- readBus sz a ;;
    let result := u32 (imm + d) in
    setFlagsAdd imm d result sz ;;
    writeBus sz a result ;;
    chargeSize sz (12 + eaBase + eaLong) (8 + eaBase).

Definition opADDXreg : opFunc B :=
  ir <- getir ;;
  let rx := Z.land (Z.shiftr ir 9) 7 in
  sz <- irSize ;;
  let ry := Z.land ir 7 in
  s <- loadD ry sz ;;
  d <- loadD rx sz ;;
  x <- extendBit ;;
  let result := u32 (u32 (d + s) + x) in
  sr <- getSR ;;
  let oldZ := Z.land sr flagZ in
  setFlagsAdd s d result sz ;;
  keepZ result sz oldZ ;;
  storeD rx sz result ;;
  AddCycles 4 ;;
  when (sz =? sizeLong) (AddCycles 4).

Definition opADDXmem : opFunc B :=
  ir <- getir ;;
  let rx := Z.land (Z.shiftr ir 9) 7 in
  sz <- irSize ;;
  let ry := Z.land ir 7 in
  src <- resolveEA 4 (u8 ry) sz ;;
  s <- ea_read src sz ;;
  dst <- resolveEA 4 (u8 rx) sz ;;
  d <- ea_read dst sz ;;
  x <- extendBit ;;
  let result := u32 (u32 (d + s) + x) in
  sr <- getSR ;;
  let oldZ := Z.land sr flagZ in
  setFlagsAdd s d result sz ;;
  keepZ result sz oldZ ;;
  ea_write dst sz result ;;
  chargeSize sz 30 18.

(** ** SUB *)

Definition makeSUBtoReg (dn mode reg : Z) : opFunc B :=
  let read := makeEARead mode reg in
  let '(eaBase, eaLong) := eaFetchConst mode reg in
  sz <- irSize ;;
  s <- call read sz ;;
  d <- loadD dn sz ;;
  let result := u32 (d - s) in
  setFlagsSub s d result sz ;;
  storeD dn sz result ;;
  chargeToReg sz eaBase eaLong (isMem mode reg).

Definition makeSUBtoEA (dn mode reg : Z) : opFunc B :=
  let addr := makeEAMemAddr mode reg in
  let '(eaBase, eaLong) := eaFetchConst mode reg in
  sz <- irSizeHi ;;
  a <- call addr sz ;;
  d <- readBus sz a ;;
  s <- loadD dn sz ;;
  let result := u32 (d - s) in
  setFlagsSub s d result sz ;;
  writeBus sz a result ;;
  chargeSize sz (12 + eaBase + eaLong) (8 + eaBase).

Definition makeSUBA (an mode reg : Z) : opFunc B :=
  let read := makeEARead mode reg in
  let '(eaBase, eaLong) := eaFetchConst mode reg in
  sz <- irSizeAddr ;;
  val <- call read sz ;;
  let val := if sz =? sizeWord then u32 (s16 val) else val in
  a <- getA an ;; setA an (u32 (a - val)) ;;
  if (sz =? sizeLong) && isMem mode reg then AddCycles (6 + eaBase + eaLong)
  else AddCycles (8 + eaBase) ;; when (sz =? sizeLong) (AddCycles eaLong).

Definition makeSUBI (mode reg : Z) : opFunc B :=
  if mode =? 0 then
    sz <- irSize ;;
    imm <- fetchImm sz ;;
    d <- loadD reg sz ;;
    let result := u32 (d - imm) in
    setFlagsSub imm d result sz ;;
    storeD reg sz result ;;
    chargeSize sz 16 8
  else
    let addr := makeEAMemAddr mode reg in
    let '(eaBase, eaLong) := eaFetchConst mode reg in
    sz <- irSize ;;
    imm <- fetchImm sz ;;
    a <- call addr sz ;;
    d <- readBus sz a ;;
    let result := u32 (d - imm) in
    setFlagsSub imm d result sz ;;
    writeBus sz a result ;;
    chargeSize sz (20 + eaBase + eaLong) (12 + eaBase).

Definition makeSUBQ (data mode reg : Z) : opFunc B :=
  let imm := quickImm data in
  if mode =? 0 then
    sz <- irSize ;;
    d <- loadD reg sz ;;
    let result := u32 (d - imm) in
    setFlagsSub imm d result sz ;;
    storeD reg sz result ;;
    chargeSize sz 8 4
  else if mode =? 1 then
    a <- getA reg ;; setA reg (u32 (a - imm)) ;;
    AddCycles 8
  else
    let addr := makeEAMemAddr mode reg in
    let '(eaBase, eaLong) := eaFetchConst mode reg in
    sz <- irSize ;;
    a <- call addr sz ;;
    d <- readBus sz a ;;
    let result := u32 (d - imm) in
    setFlagsSub imm d result sz ;;
    writeBus sz a result ;;
    chargeSize sz (12 + eaBase + eaLong) (8 + eaBase).

Definition opSUBXreg : opFunc B :=
  ir <- getir ;;
  let rx := Z.land (Z.shiftr ir 9) 7 in
  sz <- irSize ;;
  let ry := Z.land ir 7 in
  s <- loadD ry sz ;;
  d <- loadD rx sz ;;
  x <- extendBit ;;
  let result := u32 (u32 (d - s) - x) in
  sr <- getSR ;;
  let oldZ := Z.land sr flagZ in
  setFlagsSub s d result sz ;;
  keepZ result sz oldZ ;;
  storeD rx sz result ;;
  AddCycles 4 ;;
  when (sz =? sizeLong) (AddCycles 4).

Definition opSUBXmem : opFunc B :=
  ir <- getir ;;
  let rx := Z.land (Z.shiftr ir 9) 7 in
  sz <- irSize ;;
  let ry := Z.land ir 7 in
  src <- resolveEA 4 (u8 ry) sz ;;
  s <- ea_read src sz ;;
  dst <- resolveEA 4 (u8 rx) sz ;;
  d <- ea_read dst sz ;;
  x <- extendBit ;;
  let result := u32 (u32 (d - s) - x) in
  sr <- getSR ;;
  let oldZ := Z.land sr flagZ in
  setFlagsSub s d result sz ;;
  keepZ result sz oldZ ;;
  ea_write dst sz result ;;
  chargeSize sz 30 18.

(** ** CMP *)

Definition makeCMP (dn mode reg : Z) : opFunc B :=
  let read := makeEARead mode reg in
  let '(eaBase, eaLong) := eaFetchConst mode reg in
  sz <- irSize ;;
  s <- call read sz ;;
  d <- loadD dn sz ;;
  let result := u32 (d - s) in
  setFlagsCmp s d result sz ;;
  chargeSize sz (6 + eaBase + eaLong) (4 + eaBase).

Definition makeCMPA (an mode reg : Z) : opFunc B :=
  let read := makeEARead mode reg in
  let '(eaBase, eaLong) := eaFetchConst mode reg in
  sz <- irSizeAddr ;;
  val <- call read sz ;;
  let val := if sz =? sizeWord then u32 (s16 val) else val in
  d <- getA an ;;
  let result := u32 (d - val) in
  setFlagsCmp val d result sizeLong ;;
  AddCycles (6 + eaBase) ;;
  when (sz =? sizeLong) (AddCycles eaLong).

Definition makeCMPI (mode reg : Z) : opFunc B :=
  if mode =? 0 then
    sz <- irSize ;;
    imm <- fetchImm sz ;;
    d <- loadD reg sz ;;
    let result := u32 (d - imm) in
    setFlagsCmp imm d result sz ;;
    chargeSize sz 14 8
  else
    let addr := makeEAMemAddr mode reg in
    let '(eaBase, eaLong) := eaFetchConst mode reg in
    sz <- irSize ;;
    imm <- fetchImm sz ;;
    a <- call addr sz ;;
    d <- readBus sz a ;;
    let result := u32 (d - imm) in
    setFlagsCmp imm d result sz ;;
    chargeSize sz (12 + eaBase + eaLong) (8 + eaBase).

Definition opCMPM : opFunc B :=
  ir <- getir ;;
  sz <- irSize ;;
  let ay := Z.land ir 7 in
  let ax := Z.land (Z.shiftr ir 9) 7 in
  src <- resolveEA 3 (u8 ay) sz ;;
  s <- ea_read src sz ;;
  dst <- resolveEA 3 (u8 ax) sz ;;
  d <- ea_read dst sz ;;
  let result := u32 (d - s) in
  setFlagsCmp s d result sz ;;
  chargeSize sz 20 12.

(** ** MULU, MULS, DIVU, DIVS

    The source ends each of these with [if sizeWord == sizeLong], a constant
    condition that is false: the long surcharge is never added. *)

Definition makeMULU (dn mode reg : Z) : opFunc B :=
  let read := makeEARead mode reg in
  let '(eaBase, eaLong) := eaFetchConst mode reg in
  s <- call read sizeWord ;;
  dv <- getD dn ;;
  let d := Z.land dv 0xFFFF in
  let result := u32 (s * d) in
  setD dn result ;;
  setFlagsLogical result sizeLong ;;
  AddCycles (70 + eaBase) ;;
  when (sizeWord =? sizeLong) (AddCycles eaLong).

Definition makeMULS (dn mode reg : Z) : opFunc B :=
  let read := makeEARead mode reg in
  let '(eaBase, eaLong) := eaFetchConst mode reg in
  v <- call read sizeWord ;;
  let s := s16 v in
  dv <- getD dn ;;
  let d := s16 (Z.land dv 0xFFFF) in
  let result := u32 (s32 (s * d)) in
  setD dn result ;;
  setFlagsLogical result sizeLong ;;
  AddCycles (70 + eaBase) ;;
  when (sizeWord =? sizeLong) (AddCycles eaLong).

(** Go's [/] and [%]: a zero divisor panics; signed division truncates. *)
Definition goDiv (a b : Z) : M (CPU B) Z :=
  if b =? 0 then panic else ret (Z.quot a b).
Definition goMod (a b : Z) : M (CPU B) Z :=
  if b =? 0 then panic else ret (Z.rem a b).

Definition makeDIVU (dn mode reg : Z) : opFunc B :=
  let read := makeEARead mode reg in
  let '(eaBase, eaLong) := eaFetchConst mode reg in
  divisor <- call read sizeWord ;;
  if divisor =? 0 then exception vecDivideByZero
  else
    dividend <- getD dn ;;
    quotient <- goDiv dividend divisor ;;
    remainder <- goMod dividend divisor ;;
    (if 0xFFFF <? quotient then
       orSR (Z.lor flagV flagN) ;;
       clrSR (Z.lor flagC flagZ)
     else
       setD dn (Z.lor (u32 (Z.shiftl (Z.land remainder 0xFFFF) 16))
                      (Z.land quotient 0xFFFF)) ;;
       setFlagsLogical quotient sizeWord) ;;
    AddCycles (140 + eaBase) ;;
    when (sizeWord =? sizeLong) (AddCycles eaLong).

Definition makeDIVS (dn mode reg : Z) : opFunc B :=
  let read := makeEARead mode reg in
  let '(eaBase, eaLong) := eaFetchConst mode reg in
  v <- call read sizeWord ;;
  let divisor := s16 v in
  if divisor =? 0 then exception vecDivideByZero
  else
    dv <- getD dn ;;
    let dividend := s32 dv in
    q <- goDiv dividend divisor ;;
    let quotient := s32 q in
    r <- goMod dividend divisor ;;
    let remainder := s32 r in
    (if (32767 <? quotient) || (quotient <? -32768) then
       orSR (Z.lor flagV flagN) ;;
       clrSR (Z.lor flagC flagZ)
     else
       setD dn (Z.lor (u32 (Z.shiftl (u32 (Z.land remainder 0xFFFF)) 16))
                      (Z.land (u32 quotient) 0xFFFF)) ;;
       setFlagsLogical (u32 quotient) sizeWord) ;;
    AddCycles (158 + eaBase) ;;
    when (sizeWord =? sizeLong) (AddCycles eaLong).

(** ** NEG, NEGX, CLR, EXT, CHK *)

Definition makeNEG (mode reg : Z) : opFunc B :=
  if mode =? 0 then
    sz <- irSize ;;
    d <- loadD reg sz ;;
    let result := u32 (0 - d) in
    setFlagsSub d 0 result sz ;;
    storeD reg sz result ;;
    chargeSize sz 6 4
  else
    let addr := makeEAMemAddr mode reg in
    let '(eaBase, eaLong) := eaFetchConst mode reg in
    sz <- irSize ;;
    a <- call addr sz ;;
    d <- readBus sz a ;;
    let result := u32 (0 - d) in
    setFlagsSub d 0 result sz ;;
    writeBus sz a result ;;
    chargeSize sz (12 + eaBase + eaLong) (8 + eaBase).

Definition makeNEGX (mode reg : Z) : opFunc B :=
  if mode =? 0 then
    sz <- irSize ;;
    d <- loadD reg sz ;;
    x <- extendBit ;;
    let result := u32 (u32 (0 - d) - x) in
    sr <- getSR ;;
    let oldZ := Z.land sr flagZ in
    setFlagsSub d 0 result sz ;;
    keepZ result sz oldZ ;;
    storeD reg sz result ;;
    chargeSize sz 6 4
  else
    let addr := makeEAMemAddr mode reg in
    let '(eaBase, eaLong) := eaFetchConst mode reg in
    sz <- irSize ;;
    a <- call addr sz ;;
    d <- readBus sz a ;;
    x <- extendBit ;;
    let result := u32 (u32 (0 - d) - x) in
    sr <- getSR ;;
    let oldZ := Z.land sr flagZ in
    setFlagsSub d 0 result sz ;;
    keepZ result sz oldZ ;;
    writeBus sz a result ;;
    chargeSize sz (12 + eaBase + eaLong) (8 + eaBase).

Definition makeCLR (mode reg : Z) : opFunc B :=
  if mode =? 0 then
    sz <- irSize ;;
    let mask := Mask sz in
    d <- getD reg ;; setD reg (Z.land d (not32 mask)) ;;
    clrSR (Z.lor (Z.lor flagN flagV) flagC) ;;
    orSR flagZ ;;
    chargeSize sz 6 4
  else
    let addr := makeEAMemAddr mode reg in
    let '(eaBase, eaLong) := eaFetchConst mode reg in
    sz <- irSize ;;
    a <- call addr sz ;;
    writeBus sz a 0 ;;
    clrSR (Z.lor (Z.lor flagN flagV) flagC) ;;
    orSR flagZ ;;
    chargeSize sz (12 + eaBase + eaLong) (8 + eaBase).

Definition opEXTW : opFunc B :=
  ir <- getir ;;
  let dn := Z.land ir 7 in
  d <- getD dn ;;
  let val := u32 (s8 d) in
  d <- getD dn ;;
  setD dn (Z.lor (Z.land d 0xFFFF0000) (Z.land val 0xFFFF)) ;;
  setFlagsLogical val sizeWord ;;
  AddCycles 4.

Definition opEXTL : opFunc B :=
  ir <- getir ;;
  let dn := Z.land ir 7 in
  d <- getD dn ;;
  let val := u32 (s16 d) in
  setD dn val ;;
  setFlagsLogical val sizeLong ;;
  AddCycles 4.

Definition makeCHK (dn mode reg : Z) : opFunc B :=
  let read := makeEARead mode reg in
  let '(eaBase, eaLong) := eaFetchConst mode reg in
  v <- call read sizeWord ;;
  let bound := s16 v in
  dv <- getD dn ;;
  let val := s16 (Z.land dv 0xFFFF) in
  if val <? 0 then
    clrSR (Z.lor (Z.lor (Z.lor flagN flagZ) flagV) flagC) ;;
    orSR flagN ;;
    exception vecCHK
  else if bound <? val then
    clrSR (Z.lor (Z.lor (Z.lor flagN flagZ) flagV) flagC) ;;
    exception vecCHK
  else
    setFlagsCmp (u32 val) (u32 bound) (u32 (s16 (bound - val))) sizeWord ;;
    AddCycles (10 + eaBase) ;;
    when (sizeWord =? sizeLong) (AddCycles eaLong).
End arith.
