(* ===== verification/OpsLogic.v ===== *)
(** * Logic, shifts and rotates (ops_logic.go) *)

From S2P Require Import Prelude Monad Cpu Flags Exception Timing Ea OpsCommon.

(** ** The shifter

    [doShift] computes on the operand and the status register only.  Its loops
    run [count] times (at most 63); [Nat.iter] on the local variables they
    update. *)

(** ASL: one left step of [result], setting V when the sign bit changes. *)
Definition aslStep (msb mask : Z) (st : Z * Z) : Z * Z :=
  let '(result, sr) := st in
  let msbit := Z.land result msb in
  let result := Z.land (u32 (Z.shiftl result 1)) mask in
  (result, if negb (Z.land result msb =? msbit) then Z.lor sr flagV else sr).

(** ASR: [result = (result >> 1) | sign] *)
Definition asrStep (sign result : Z) : Z := Z.lor (Z.shiftr result 1) sign.

(** ROXL and ROXR: the extend bit goes round with the operand. *)
Definition roxlStep (msb mask : Z) (st : Z * Z) : Z * Z :=
  let '(result, sr) := st in
  let x := if tstb sr flagX then 1 else 0 in
  let sr := if tstb result msb then Z.lor sr (Z.lor flagX flagC)
            else Z.ldiff sr (Z.lor flagX flagC) in
  (Z.land (Z.lor (u32 (Z.shiftl result 1)) x) mask, sr).

Definition roxrStep (bits : Z) (st : Z * Z) : Z * Z :=
  let '(result, sr) := st in
  let x := if tstb sr flagX then 1 else 0 in
  let sr := if tstb result 1 then Z.lor sr (Z.lor flagX flagC)
            else Z.ldiff sr (Z.lor flagX flagC) in
  (Z.lor (Z.shiftr result 1) (shl32 x (u32 (bits - 1))), sr).

(** [if b { SR |= f } else { SR &^= f }] *)
Definition putFlag (b : bool) (f sr : Z) : Z :=
  if b then Z.lor sr f else Z.ldiff sr f.

(** The four shift types before the final N and Z: (result, SR). *)
Definition shiftAS (dir val count sz sr : Z) : Z * Z :=
  let msb := MSB sz in
  let mask := Mask sz in
  if dir =? 1 then
    let '(result, sr) :=
      Nat.iter (Z.to_nat count) (aslStep msb mask) (val, Z.ldiff sr flagV) in
    let lastOut := Z.land (shr32 val (u32 (Bits sz - count))) 1 in
    (result, putFlag (negb (lastOut =? 0)) (Z.lor flagC flagX) sr)
  else
    let sign := Z.land val msb in
    let result := Z.land (Nat.iter (Z.to_nat count) (asrStep sign) val) mask in
    let lastOut :=
      if Bits sz <=? count then Z.land (shr32 val (u32 (Bits sz - 1))) 1
      else Z.land (shr32 val (u32 (count - 1))) 1 in
    (result, Z.ldiff (putFlag (negb (lastOut =? 0)) (Z.lor flagC flagX) sr) flagV).

Definition shiftLS (dir val count sz sr : Z) : Z * Z :=
  let mask := Mask sz in
  if dir =? 1 then
    let result := Z.land (shl32 val count) mask in
    let lastOut := Z.land (shr32 val (u32 (Bits sz - count))) 1 in
    (result, Z.ldiff (putFlag (negb (lastOut =? 0)) (Z.lor flagC flagX) sr) flagV)
  else
    let result := shr32 (Z.land val mask) count in
    let lastOut := Z.land (shr32 val (u32 (count - 1))) 1 in
    (result, Z.ldiff (putFlag (negb (lastOut =? 0)) (Z.lor flagC flagX) sr) flagV).

Definition shiftROX (dir val count sz sr : Z) : Z * Z :=
  let msb := MSB sz in
  let mask := Mask sz in
  let bits := Bits sz in
  if dir =? 1 then
    let '(result, sr) := Nat.iter (Z.to_nat count) (roxlStep msb mask) (val, sr) in
    (result, Z.ldiff sr flagV)
  else
    let '(result, sr) := Nat.iter (Z.to_nat count) (roxrStep bits) (val, sr) in
    (Z.land result mask, Z.ldiff sr flagV).

Definition shiftRO (dir val count sz sr : Z) : Z * Z :=
  let msb := MSB sz in
  let mask := Mask sz in
  let bits := Bits sz in
  let shift := count mod bits in
  let result :=
    if dir =? 1 then
      Z.land (Z.lor (shl32 val shift) (shr32 val (u32 (bits - shift)))) mask
    else
      Z.land (Z.lor (shr32 val shift) (shl32 val (u32 (bits - shift)))) mask in
  let sr :=
    if dir =? 1 then putFlag (tstb result 1) flagC sr
    else putFlag (tstb result msb) flagC sr in
  (result, Z.ldiff sr flagV).

(** [doShift] with the status register passed explicitly. *)
Definition shiftCore (val count dir typ sz sr : Z) : Z * Z :=
  let msb := MSB sz in
  let mask := Mask sz in
  let '(result, sr) :=
    match typ with
    | 0 => shiftAS dir val count sz sr
    | 1 => shiftLS dir val count sz sr
    | 2 => shiftROX dir val count sz sr
    | 3 => shiftRO dir val count sz sr
    | _ => (0, sr)
    end in
  let sr := Z.ldiff sr (Z.lor flagN flagZ) in
  let sr := if tstb result msb then Z.lor sr flagN else sr in
  let sr := if Z.land result mask =? 0 then Z.lor sr flagZ else sr in
  (result, sr).

Section logic.
Context {B : Type} `{!Bus B}.

Definition doShift (val count dir typ sz : Z) : M (CPU B) Z :=
  if count =? 0 then
    setFlagsLogical val sz ;;
    when (typ =? 2) (sr <- getSR ;; when (tstb sr flagX) (orSR flagC)) ;;
    ret val
  else if (typ =? 3) && (Bits sz =? 0) then panic (* count % 0 *)
  else
    sr <- getSR ;;
    let '(result, sr) := shiftCore val count dir typ sz sr in
    putSR sr ;;
    ret result.

Definition opShiftReg : opFunc B :=
  ir <- getir ;;
  let cnt := Z.land (Z.shiftr ir 9) 7 in
  let dir := Z.land (Z.shiftr ir 8) 1 in
  sz <- irSize ;;
  let i := Z.land (Z.shiftr ir 5) 1 in
  let typ := Z.land (Z.shiftr ir 3) 3 in
  let dreg := Z.land ir 7 in
  count <- (if negb (i =? 0) then d <- getD cnt ;; ret (Z.land d 63)
            else ret (if cnt =? 0 then 8 else cnt)) ;;
  val <- loadD dreg sz ;;
  result <- doShift val count dir typ sz ;;
  storeD dreg sz result ;;
  AddCycles (6 + 2 * count) ;;
  when (sz =? sizeLong) (AddCycles 2).

Definition makeShiftMem (mode reg : Z) : opFunc B :=
  let addr := makeEAMemAddr mode reg in
  let '(eaBase, _) := eaFetchConst mode reg in
  ir <- getir ;;
  let dir := Z.land (Z.shiftr ir 8) 1 in
  let typ := Z.land (Z.shiftr ir 9) 3 in
  a <- call addr sizeWord ;;
  val <- readBus sizeWord a ;;
  result <- doShift val 1 dir typ sizeWord ;;
  writeBus sizeWord a result ;;
  AddCycles (8 + eaBase).

(** ** AND, OR, EOR

    The source writes the same two closures for AND and OR, and the same pair
    of closures for ANDI, ORI and EORI; only the operator differs. *)

Definition logicToReg (op : Z -> Z -> Z) (dn mode reg : Z) : opFunc B :=
  let read := makeEARead mode reg in
  let '(eaBase, eaLong) := eaFetchConst mode reg in
  sz <- irSize ;;
  v <- call read sz ;;
  d <- loadD dn sz ;;
  let result := op v d in
  setFlagsLogical result sz ;;
  storeD dn sz result ;;
  chargeToReg sz eaBase eaLong (isMem mode reg).

Definition logicToEA (op : Z -> Z -> Z) (dn mode reg : Z) : opFunc B :=
  let addr := makeEAMemAddr mode reg in
  let '(eaBase, eaLong) := eaFetchConst mode reg in
  sz <- irSizeHi ;;
  a <- call addr sz ;;
  v <- readBus sz a ;;
  d <- loadD dn sz ;;
  let result := op v d in
  setFlagsLogical result sz ;;
  writeBus sz a result ;;
  chargeSize sz (12 + eaBase + eaLong) (8 + eaBase).

Definition logicImm (op : Z -> Z -> Z) (mode reg : Z) : opFunc B :=
  if mode =? 0 then
    sz <- irSize ;;
    imm <- fetchImm sz ;;
    d <- loadD reg sz ;;
    let result := op d imm in
    setFlagsLogical result sz ;;
    storeD reg sz result ;;
    chargeSize sz 16 8
  else
    let addr := makeEAMemAddr mode reg in
    let '(eaBase, eaLong) := eaFetchConst mode reg in
    sz <- irSize ;;
    imm <- fetchImm sz ;;
    a <- call addr sz ;;
    v <- readBus sz a ;;
    let result := op v imm in
    setFlagsLogical result sz ;;
    writeBus sz a result ;;
    chargeSize sz (20 + eaBase + eaLong) (12 + eaBase).

Definition makeANDtoReg : Z -> Z -> Z -> opFunc B := logicToReg Z.land.
Definition makeANDtoEA : Z -> Z -> Z -> opFunc B := logicToEA Z.land.
Definition makeANDI : Z -> Z -> opFunc B := logicImm Z.land.
Definition makeORtoReg : Z -> Z -> Z -> opFunc B := logicToReg Z.lor.
Definition makeORtoEA : Z -> Z -> Z -> opFunc B := logicToEA Z.lor.
Definition makeORI : Z -> Z -> opFunc B := logicImm Z.lor.
Definition makeEORI : Z -> Z -> opFunc B := logicImm Z.lxor.

Definition makeEOR (dn mode reg : Z) : opFunc B :=
  if mode =? 0 then
    sz <- irSizeHi ;;
    v <- loadD reg sz ;;
    d <- loadD dn sz ;;
    let result := Z.lxor v d in
    setFlagsLogical result sz ;;
    storeD reg sz result ;;
    chargeSize sz 8 4
  else logicToEA Z.lxor dn mode reg.

(** ** NOT, TST, TAS *)

Definition makeNOT (mode reg : Z) : opFunc B :=
  if mode =? 0 then
    sz <- irSize ;;
    d <- getD reg ;;
    let result := Z.land (not32 d) (Mask sz) in
    setFlagsLogical result sz ;;
    storeD reg sz result ;;
    chargeSize sz 6 4
  else
    let addr := makeEAMemAddr mode reg in
    let '(eaBase, eaLong) := eaFetchConst mode reg in
    sz <- irSize ;;
    a <- call addr sz ;;
    v <- readBus sz a ;;
    let result := Z.land (not32 v) (Mask sz) in
    setFlagsLogical result sz ;;
    writeBus sz a result ;;
    chargeSize sz (12 + eaBase + eaLong) (8 + eaBase).

Definition makeTST (mode reg : Z) : opFunc B :=
  if mode =? 0 then
    sz <- irSize ;;
    d <- loadD reg sz ;;
    setFlagsLogical d sz ;;
    AddCycles 4
  else
    let read := makeEARead mode reg in
    let '(eaBase, eaLong) := eaFetchConst mode reg in
    sz <- irSize ;;
    val <- call read sz ;;
    setFlagsLogical val sz ;;
    AddCycles (4 + eaBase) ;;
    when (sz =? sizeLong) (AddCycles eaLong).

Definition makeTAS (mode reg : Z) : opFunc B :=
  if mode =? 0 then
    d <- getD reg ;;
    let val := Z.land d 0xFF in
    setFlagsLogical val sizeByte ;;
    d <- getD reg ;;
    setD reg (Z.lor (Z.land d 0xFFFFFF00) (Z.lor val 0x80)) ;;
    AddCycles 4
  else
    let addr := makeEAMemAddr mode reg in
    let '(eaBase, _) := eaFetchConst mode reg in
    a <- call addr sizeByte ;;
    val <- readBus sizeByte a ;;
    setFlagsLogical val sizeByte ;;
    writeBus sizeByte a (Z.lor val 0x80) ;;
    AddCycles (10 + eaBase).
End logic.
