(* ===== verification/ShiftSpec.v ===== *)
(** * What the shifter computes (ops_logic.go, doShift)

    [shiftCore] of OpsLogic.v against integer arithmetic: LSL and ASL multiply,
    LSR divides the unsigned operand, ASR the signed one, ROL and ROR move bit
    [i - count] to bit [i] modulo the width, ROXL and ROXR do so on the
    operand extended by X.  The flags are those of the last bit moved out; ASL
    sets V exactly when the product leaves the signed range. *)

From S2P Require Import Prelude Monad Cpu Ram Flags Exception Timing Ea OpsCommon OpsLogic.

(** ** Pieces of the shifter *)

Lemma Bits_range sz : valid_size sz -> 8 <= Bits sz <= 32.
Proof. intros [->|[->| ->]]; done. Qed.

Lemma Modulus_divide sz k : valid_size sz -> Bits sz <= k -> (Modulus sz | 2 ^ k).
Proof.
  intros Hsz Hk. pose proof (Bits_range sz Hsz). rewrite Modulus_pow2 by done.
  exists (2 ^ (k - Bits sz)). rewrite <- Z.pow_add_r by lia. f_equal. lia.
Qed.

Lemma shl32_mask sz v k :
  valid_size sz -> 0 <= k -> Z.land (shl32 v k) (Mask sz) = (v * 2 ^ k) mod Modulus sz.
Proof.
  intros Hsz Hk. pose proof (Bits_range sz Hsz). unfold shl32.
  destruct (Z.leb_spec 32 k).
  - rewrite Z.land_0_l. symmetry. apply Z.mod_divide; [pose proof (MSB_pos sz Hsz); unfold Modulus; lia|].
    apply Z.divide_mul_r, Modulus_divide; [done|lia].
  - rewrite Z.shiftl_mul_pow2, land_Mask_u32 by done. done.
Qed.

Lemma shr32_div v k : is_u32 v -> 0 <= k -> shr32 v k = v / 2 ^ k.
Proof.
  intros Hv Hk. unfold shr32. destruct (Z.leb_spec 32 k); [|by apply Z.shiftr_div_pow2].
  rewrite Z.div_small; [done|]. unfold is_u32 in Hv.
  assert (2 ^ 32 <= 2 ^ k) by (apply Z.pow_le_mono_r; lia). lia.
Qed.

(** [lastOut != 0]: a bit of the operand; out of range it reads as clear. *)
Lemma lastOut_bit v k : is_u32 v -> 0 <= k -> negb (Z.land (shr32 v k) 1 =? 0) = Z.testbit v k.
Proof.
  intros Hv Hk. change (negb (Z.land (shr32 v k) 1 =? 0)) with (tstb (shr32 v k) 1).
  change 1 with (2 ^ 0) at 1. rewrite tstb_pow2 by lia. unfold shr32.
  destruct (Z.leb_spec 32 k).
  - rewrite Z.bits_0. symmetry. apply (testbit_high 32); [done|lia].
  - by rewrite Z.shiftr_spec, Z.add_0_l by lia.
Qed.

Lemma lastOut_wrap v n k :
  is_u32 v -> 0 <= n <= 32 -> 0 <= k <= 64 ->
  negb (Z.land (shr32 v (u32 (n - k))) 1 =? 0) = Z.testbit v (n - k).
Proof.
  intros Hv Hn Hk. rewrite lastOut_bit by (done || apply u32_range).
  destruct (Z_lt_le_dec n k) as [Hlt|Hle]; [|by rewrite u32_small by (unfold is_u32; lia)].
  rewrite (Z.testbit_neg_r v (n - k)) by lia. apply (testbit_high 32); [done|wordlia].
Qed.

Lemma land_MSB sz v :
  valid_size sz -> is_sz sz v -> Z.land v (MSB sz) = if MSB sz <=? v then MSB sz else 0.
Proof.
  intros Hsz Hv. pose proof (Bits_range sz Hsz).
  rewrite <- (testbit_MSB sz v) by done. rewrite MSB_pow2 by done.
  apply Z.bits_inj'. intros i Hi. rewrite Z.land_spec.
  destruct (Z.eq_dec i (Bits sz - 1)) as [->|Hne].
  - rewrite Z.pow2_bits_true by lia. destruct (Z.testbit v (Bits sz - 1));
      [by rewrite Z.pow2_bits_true by lia|by rewrite Z.bits_0].
  - rewrite Z.pow2_bits_false, andb_false_r by lia.
    destruct (Z.testbit v (Bits sz - 1)); [by rewrite Z.pow2_bits_false by lia|by rewrite Z.bits_0].
Qed.

(** ** Arithmetic left *)

Lemma signed_in sz v : valid_size sz -> is_sz sz v -> in_signed sz (signed sz v) = true.
Proof.
  intros Hsz Hv. pose proof (MSB_pos sz Hsz). unfold is_sz, in_signed, signed, Modulus in *.
  cmp_cases; lia.
Qed.

Lemma signed_mod sz t : valid_size sz -> in_signed sz t = true -> signed sz (t mod Modulus sz) = t.
Proof.
  intros Hsz Ht. pose proof (MSB_pos sz Hsz). unfold in_signed in Ht.
  rewrite mod_once by (done || unfold Modulus; lia). unfold signed, Modulus in *. cmp_cases; lia.
Qed.

Lemma mod_signed sz v : valid_size sz -> is_sz sz v -> signed sz v mod Modulus sz = v.
Proof.
  intros Hsz Hv. pose proof (MSB_pos sz Hsz). unfold is_sz, signed, Modulus in *.
  destruct (Z.leb_spec (MSB sz) v); [|by apply Z.mod_small].
  symmetry. apply Z.mod_unique with (-1); lia.
Qed.

(** One left step changes the sign bit exactly when the double overflows. *)
Lemma asl_sign_change sz r :
  valid_size sz -> is_sz sz r ->
  negb (Z.land ((r * 2) mod Modulus sz) (MSB sz) =? Z.land r (MSB sz)) =
  negb (in_signed sz (signed sz r * 2)).
Proof.
  intros Hsz Hr. pose proof (MSB_pos sz Hsz).
  rewrite !land_MSB by (done || by apply is_sz_mod).
  rewrite mod_once by (unfold is_sz, Modulus in *; done || lia).
  unfold is_sz, in_signed, signed, Modulus in *. cmp_cases; lia.
Qed.

Lemma aslStep_run sz r sr :
  valid_size sz ->
  is_sz sz r -> aslStep (MSB sz) (Mask sz) (r, sr) =
  ((r * 2) mod Modulus sz, if in_signed sz (signed sz r * 2) then sr else Z.lor sr flagV).
Proof.
  intros Hsz Hr. unfold aslStep. rewrite Z.shiftl_mul_pow2, Z.pow_1_r, land_Mask_u32 by done.
  rewrite asl_sign_change by done. by destruct (in_signed _ _).
Qed.

Lemma in_signed_double sz t : in_signed sz (t * 2) = true -> in_signed sz t = true.
Proof. unfold in_signed. cmp_cases; lia. Qed.

Lemma asl_loop sz v sr (k : nat) :
  valid_size sz -> is_sz sz v ->
  Nat.iter k (aslStep (MSB sz) (Mask sz)) (v, sr) =
  ((v * 2 ^ Z.of_nat k) mod Modulus sz,
   if in_signed sz (signed sz v * 2 ^ Z.of_nat k) then sr else Z.lor sr flagV).
Proof.
  intros Hsz Hv. pose proof (MSB_pos sz Hsz). induction k as [|k IH].
  - simpl. rewrite !Z.mul_1_r, signed_in by done. by rewrite Z.mod_small.
  - rewrite Nat.iter_succ, IH, aslStep_run by (done || by apply is_sz_mod).
    rewrite Nat2Z.inj_succ, Z.pow_succ_r, (Z.mul_comm 2), !Z.mul_assoc by lia.
    rewrite Z.mul_mod_idemp_l by (unfold Modulus; lia). f_equal.
    assert (((v * 2 ^ Z.of_nat k) mod Modulus sz) = (signed sz v * 2 ^ Z.of_nat k) mod Modulus sz) as ->.
    { rewrite <- (Z.mul_mod_idemp_l (signed sz v)) by (unfold Modulus; lia). by rewrite mod_signed. }
    destruct (in_signed sz (signed sz v * 2 ^ Z.of_nat k)) eqn:E.
    + by rewrite signed_mod.
    + destruct (in_signed sz (signed sz v * 2 ^ Z.of_nat k * 2)) eqn:E'.
      { apply in_signed_double in E'. congruence. }
      case_if; [done|]. by rewrite <- Z.lor_assoc, Z.lor_diag.
Qed.

(** ** Arithmetic right *)

Lemma in_signed_div sz t k :
  0 <= k -> in_signed sz t = true -> in_signed sz (t / 2 ^ k) = true.
Proof.
  unfold in_signed. intros Hk Ht. assert (0 < 2 ^ k) by (apply Z.pow_pos_nonneg; lia).
  assert (- MSB sz <= t / 2 ^ k) by (apply Z.div_le_lower_bound; [lia|]; nia).
  assert (t / 2 ^ k < MSB sz) by (apply Z.div_lt_upper_bound; [lia|]; nia). lia.
Qed.

(** [r/2] and the sign bit do not overlap. *)
Lemma lor_MSB sz r : valid_size sz -> 0 <= r < MSB sz -> Z.lor r (MSB sz) = r + MSB sz.
Proof.
  intros Hsz Hr. pose proof (Bits_range sz Hsz). rewrite MSB_pow2 in * by done.
  rewrite Z.lor_comm. replace (2 ^ (Bits sz - 1)) with (Z.shiftl 1 (Bits sz - 1)) at 1
    by (rewrite Z.shiftl_mul_pow2 by lia; lia).
  rewrite lor_shiftl_add by lia. lia.
Qed.

Lemma asr_step sz t :
  valid_size sz -> in_signed sz t = true ->
  asrStep (if t <? 0 then MSB sz else 0) (t mod Modulus sz) = (t / 2) mod Modulus sz.
Proof.
  intros Hsz Ht. pose proof (MSB_pos sz Hsz). unfold in_signed in Ht. unfold asrStep.
  rewrite Z.shiftr_div_pow2, Z.pow_1_r by lia.
  rewrite !mod_once by (done || unfold Modulus; zlia). unfold Modulus.
  destruct (Z.ltb_spec t 0), (Z.ltb_spec (t / 2) 0); try zlia.
  - rewrite lor_MSB by (done || zlia). zlia.
  - rewrite Z.lor_0_r. cmp_cases; zlia.
Qed.

Lemma div_pow2_neg t k : 0 <= k -> (t / 2 ^ k <? 0) = (t <? 0).
Proof.
  intros Hk. assert (0 < 2 ^ k) by (apply Z.pow_pos_nonneg; lia).
  destruct (Z.ltb_spec t 0).
  - assert (t / 2 ^ k < 0) by (apply Z.div_lt_upper_bound; lia). lia.
  - assert (0 <= t / 2 ^ k) by (apply Z.div_pos; lia). lia.
Qed.

Lemma asr_loop sz v (k : nat) :
  valid_size sz -> is_sz sz v ->
  Nat.iter k (asrStep (Z.land v (MSB sz))) v = (signed sz v / 2 ^ Z.of_nat k) mod Modulus sz.
Proof.
  intros Hsz Hv. pose proof (MSB_pos sz Hsz). induction k as [|k IH].
  - simpl. by rewrite Z.div_1_r, mod_signed.
  - rewrite Nat.iter_succ, IH, Nat2Z.inj_succ, Z.pow_succ_r, (Z.mul_comm 2) by lia.
    rewrite <- Z.div_div by lia.
    rewrite <- (asr_step sz (signed sz v / 2 ^ Z.of_nat k))
      by first [done | apply in_signed_div; [lia|by apply signed_in]].
    f_equal. rewrite div_pow2_neg, land_MSB by (done || lia).
    unfold signed, is_sz, Modulus in *. cmp_cases; lia.
Qed.

(** ** Rotations *)

(** Bit [i] of a rotation by [k] of the [n] low bits of [w]. *)
Definition rotated (n k w w' : Z) : Prop :=
  0 <= w' < 2 ^ n /\ forall i, 0 <= i < n -> Z.testbit w' i = Z.testbit w ((i - k) mod n).

(** The rotate instructions: a left part and a right part, put together. *)
Lemma rotl_bits n k v :
  0 < n -> 0 <= k < n -> 0 <= v < 2 ^ n ->
  rotated n k v (Z.lor (Z.shiftl v k) (Z.shiftr v (n - k)) mod 2 ^ n).
Proof.
  intros Hn Hk Hv. split; [apply Z.mod_pos_bound, Z.pow_pos_nonneg; lia|].
  intros i Hi. rewrite Z.mod_pow2_bits_low, Z.lor_spec, Z.shiftl_spec, Z.shiftr_spec by lia.
  destruct (Z_lt_le_dec i k).
  - rewrite Z.testbit_neg_r by lia. simpl. f_equal.
    apply Z.mod_unique with (-1); lia.
  - rewrite (testbit_high n v (i + (n - k))), orb_false_r by lia. f_equal.
    symmetry. apply Z.mod_small. lia.
Qed.

Lemma rotr_bits n k v :
  0 < n -> 0 <= k < n -> 0 <= v < 2 ^ n ->
  rotated n (- k) v (Z.lor (Z.shiftr v k) (Z.shiftl v (n - k)) mod 2 ^ n).
Proof.
  intros Hn Hk Hv. split; [apply Z.mod_pos_bound, Z.pow_pos_nonneg; lia|].
  intros i Hi. rewrite Z.mod_pow2_bits_low, Z.lor_spec, Z.shiftl_spec, Z.shiftr_spec by lia.
  destruct (Z_lt_le_dec (i + k) n).
  - rewrite (Z.testbit_neg_r v (i - (n - k))), orb_false_r by lia. f_equal.
    rewrite Z.mod_small; lia.
  - rewrite (testbit_high n v (i + k)) by lia. simpl. f_equal.
    apply Z.mod_unique with 1; lia.
Qed.

Lemma rotated_mod n k w w' : 0 < n -> rotated n (k mod n) w w' -> rotated n k w w'.
Proof.
  intros Hn [Hr Hb]. split; [done|]. intros i Hi. rewrite Hb by done. f_equal.
  by rewrite Zminus_mod_idemp_r.
Qed.

Lemma rotated_trans n j k w w' w'' :
  0 < n -> rotated n j w w' -> rotated n k w' w'' -> rotated n (j + k) w w''.
Proof.
  intros Hn [_ H1] [Hr H2]. split; [done|]. intros i Hi.
  rewrite H2, H1 by (done || apply Z.mod_pos_bound; lia). f_equal.
  rewrite Zminus_mod_idemp_l. f_equal. lia.
Qed.

Lemma rotated_0 n w : 0 <= w < 2 ^ n -> rotated n 0 w w.
Proof. intros Hw. split; [done|]. intros i Hi. by rewrite Z.sub_0_r, Z.mod_small. Qed.

Lemma shr32_shiftr v k : is_u32 v -> 0 <= k -> shr32 v k = Z.shiftr v k.
Proof. intros. by rewrite shr32_div, Z.shiftr_div_pow2. Qed.

Lemma mask_lor_shl32 sz v k b :
  valid_size sz -> 0 <= k ->
  Z.land (Z.lor (shl32 v k) b) (Mask sz) = Z.lor (Z.shiftl v k) b mod 2 ^ Bits sz.
Proof.
  intros Hsz Hk. rewrite Z.land_lor_distr_l, shl32_mask, <- Z.shiftl_mul_pow2 by done.
  rewrite <- land_Mask, <- Z.land_lor_distr_l by done. by rewrite land_Mask, Modulus_pow2.
Qed.

Lemma shiftRO_result dir sz v k sr :
  valid_size sz -> is_sz sz v ->
  rotated (Bits sz) (if dir =? 1 then k else - k) v (fst (shiftRO dir v k sz sr)).
Proof.
  intros Hsz Hv. pose proof (Bits_range sz Hsz). pose proof (is_sz_u32 sz v Hsz Hv).
  pose proof (Z.mod_pos_bound k (Bits sz) ltac:(lia)) as Hm.
  assert (0 <= v < 2 ^ Bits sz) by (by rewrite <- Modulus_pow2).
  unfold shiftRO. cbn [fst]. rewrite (u32_small (Bits sz - k mod Bits sz)) by (unfold is_u32; lia).
  rewrite !shr32_shiftr by (done || lia). destruct (dir =? 1).
  - apply rotated_mod; [lia|]. rewrite mask_lor_shl32 by (done || lia).
    by apply rotl_bits; [lia|..].
  - rewrite Z.lor_comm, mask_lor_shl32, Z.lor_comm by (done || lia).
    destruct (rotr_bits (Bits sz) (k mod Bits sz) v) as [Hr Hb]; [lia|done|done|].
    split; [done|]. intros i Hi. rewrite Hb by done. f_equal.
    rewrite !Z.sub_opp_r. apply Zplus_mod_idemp_r.
Qed.

(** ** Rotation through X *)

(** The operand with X above it. *)
Definition extended (n : Z) (x : bool) (r : Z) : Z := Z.lor (Z.shiftl (Z.b2z x) n) r.

Lemma extended_range n x r : 0 <= n -> 0 <= r < 2 ^ n -> 0 <= extended n x r < 2 ^ (n + 1).
Proof.
  intros Hn Hr. unfold extended. rewrite lor_shiftl_add, Z.pow_add_r by lia.
  destruct x; simpl; lia.
Qed.

Lemma extended_bit n x r i :
  0 <= n -> 0 <= r < 2 ^ n -> 0 <= i <= n ->
  Z.testbit (extended n x r) i = if i =? n then x else Z.testbit r i.
Proof.
  intros Hn Hr Hi. unfold extended. rewrite Z.lor_spec, Z.shiftl_spec by lia.
  destruct (Z.eqb_spec i n) as [->|Hne].
  - rewrite (testbit_high n r n), orb_false_r, Z.sub_diag by lia. by destruct x.
  - by rewrite Z.testbit_neg_r by lia.
Qed.

(** The status register a rotation step leaves: X and C are the bit moved out. *)
Lemma rox_flags sr (b x n z v c : bool) :
  (if b then Z.lor (Z.lor (Z.ldiff sr 0x1F) (ccr x n z v c)) (Z.lor flagX flagC)
   else Z.ldiff (Z.lor (Z.ldiff sr 0x1F) (ccr x n z v c)) (Z.lor flagX flagC)) =
  Z.lor (Z.ldiff sr 0x1F) (ccr b n z v b).
Proof. destruct b; [by rewrite lor_flag|by rewrite ldiff_flag]. Qed.

Lemma tstb_X_ccr sr x n z v c :
  tstb (Z.lor (Z.ldiff sr 0x1F) (ccr x n z v c)) flagX = x.
Proof. by read_flags. Qed.

Lemma b2z_bit x i : 0 <= i -> Z.testbit (if x : bool then 1 else 0) i = x && (i =? 0).
Proof.
  intros Hi. destruct x; [|by rewrite Z.bits_0].
  destruct (Z.eqb_spec i 0) as [->|]; [done|]. apply (testbit_high 1); lia.
Qed.

Lemma roxl_word sz r (x : bool) :
  valid_size sz -> is_sz sz r ->
  let r' := Z.land (Z.lor (u32 (Z.shiftl r 1)) (if x then 1 else 0)) (Mask sz) in
  is_sz sz r' /\
  rotated (Bits sz + 1) 1 (extended (Bits sz) x r) (extended (Bits sz) (tstb r (MSB sz)) r').
Proof.
  intros Hsz Hr r'. pose proof (Bits_range sz Hsz).
  assert (is_sz sz r') as Hr' by (unfold r'; rewrite land_Mask by done; by apply is_sz_mod).
  split; [done|]. unfold is_sz in *. rewrite Modulus_pow2 in * by done.
  split; [apply extended_range; lia|]. intros i Hi.
  rewrite extended_bit, tstb_MSB_bit by (done || lia).
  destruct (Z.eqb_spec i (Bits sz)) as [->|Hne].
  - rewrite Z.mod_small, extended_bit by lia. destruct (Z.eqb_spec (Bits sz - 1) (Bits sz)); [lia|done].
  - unfold r'. rewrite land_Mask, Modulus_pow2, Z.mod_pow2_bits_low, Z.lor_spec by (done || lia).
    unfold u32. change 0x100000000 with (2 ^ 32).
    rewrite Z.mod_pow2_bits_low, Z.shiftl_spec, b2z_bit by lia.
    destruct (Z.eqb_spec i 0) as [->|Hi0].
    + replace ((0 - 1) mod (Bits sz + 1)) with (Bits sz) by (apply Z.mod_unique with (-1); lia).
      rewrite extended_bit, Z.eqb_refl by lia. by rewrite andb_true_r.
    + rewrite Z.mod_small, extended_bit, andb_false_r, orb_false_r by lia.
      by destruct (Z.eqb_spec (i - 1) (Bits sz)); [lia|].
Qed.

Lemma roxr_word sz r (x : bool) :
  valid_size sz -> is_sz sz r ->
  let r' := Z.lor (Z.shiftr r 1) (shl32 (if x then 1 else 0) (u32 (Bits sz - 1))) in
  is_sz sz r' /\
  rotated (Bits sz + 1) (-1) (extended (Bits sz) x r) (extended (Bits sz) (tstb r 1) r').
Proof.
  intros Hsz Hr r'. pose proof (Bits_range sz Hsz). pose proof (MSB_pos sz Hsz).
  assert (r' = Z.lor (Z.shiftr r 1) (if x then MSB sz else 0)) as Er'.
  { unfold r', shl32. f_equal. rewrite u32_small by (unfold is_u32; lia).
    destruct (Z.leb_spec 32 (Bits sz - 1)); [lia|]. rewrite Z.shiftl_mul_pow2, <- MSB_pow2 by (done || lia).
    destruct x; [|done]. rewrite Z.mul_1_l. apply u32_small, MSB_range. }
  assert (is_sz sz r') as Hr'.
  { rewrite Er'. unfold is_sz, Modulus in *. rewrite Z.shiftr_div_pow2, Z.pow_1_r by lia.
    destruct x; [rewrite lor_MSB by (done || zlia)|rewrite Z.lor_0_r]; zlia. }
  split; [done|]. unfold is_sz in *. rewrite Modulus_pow2 in * by done.
  split; [apply extended_range; lia|]. intros i Hi. rewrite extended_bit by lia.
  destruct (Z.eqb_spec i (Bits sz)) as [->|Hne].
  - rewrite tstb_1, <- Z.bit0_odd.
    replace ((Bits sz - -1) mod (Bits sz + 1)) with 0 by (apply Z.mod_unique with 1; lia).
    rewrite extended_bit by lia. by destruct (Z.eqb_spec 0 (Bits sz)); [lia|].
  - rewrite Er', Z.lor_spec, Z.shiftr_spec, Z.mod_small, extended_bit by lia.
    replace (i - -1) with (i + 1) by lia. rewrite MSB_pow2 by done.
    destruct (Z.eqb_spec (i + 1) (Bits sz)) as [Eb|Eb].
    + rewrite (testbit_high (Bits sz) r (i + 1)) by lia.
      replace i with (Bits sz - 1) by lia.
      destruct x; [by rewrite Z.pow2_bits_true by lia|by rewrite Z.bits_0].
    + destruct x; [rewrite Z.pow2_bits_false by lia|rewrite Z.bits_0]; by rewrite orb_false_r.
Qed.

Section rox.
Context (sz sr : Z) (n z v : bool) (Hsz : valid_size sz).

(** The status register with the given X and C, the other flags as at the start. *)
Definition SRx (x c : bool) : Z := Z.lor (Z.ldiff sr 0x1F) (ccr x n z v c).

(** The loops rotate by their number of iterations; C is the X they leave. *)
Lemma rox_loop (step : Z * Z -> Z * Z) (d : Z) :
  (forall r x c, is_sz sz r ->
     exists r' x', step (r, SRx x c) = (r', SRx x' x') /\ is_sz sz r' /\
       rotated (Bits sz + 1) d (extended (Bits sz) x r) (extended (Bits sz) x' r')) ->
  forall (k : nat) r x c, is_sz sz r ->
    exists r' x', Nat.iter (S k) step (r, SRx x c) = (r', SRx x' x') /\ is_sz sz r' /\
      rotated (Bits sz + 1) (d * Z.of_nat (S k)) (extended (Bits sz) x r)
        (extended (Bits sz) x' r').
Proof.
  intros Hstep k r x c Hr. pose proof (Bits_range sz Hsz). induction k as [|k IH].
  - rewrite Z.mul_1_r. simpl. by apply Hstep.
  - destruct IH as (r1 & x1 & E1 & Hr1 & Hrot1).
    destruct (Hstep r1 x1 x1 Hr1) as (r2 & x2 & E2 & Hr2 & Hrot2).
    exists r2, x2. rewrite Nat.iter_succ, E1. split; [done|]. split; [done|].
    replace (d * Z.of_nat (S (S k))) with (d * Z.of_nat (S k) + d) by lia.
    eapply rotated_trans; [lia|done|done].
Qed.

Lemma roxlStep_run r x c :
  is_sz sz r ->
  exists r' x', roxlStep (MSB sz) (Mask sz) (r, SRx x c) = (r', SRx x' x') /\ is_sz sz r' /\
    rotated (Bits sz + 1) 1 (extended (Bits sz) x r) (extended (Bits sz) x' r').
Proof.
  intros Hr. eexists _, _. unfold roxlStep, SRx. rewrite rox_flags, tstb_X_ccr.
  split; [reflexivity|]. by apply roxl_word.
Qed.

Lemma roxrStep_run r x c :
  is_sz sz r ->
  exists r' x', roxrStep (Bits sz) (r, SRx x c) = (r', SRx x' x') /\ is_sz sz r' /\
    rotated (Bits sz + 1) (-1) (extended (Bits sz) x r) (extended (Bits sz) x' r').
Proof.
  intros Hr. eexists _, _. unfold roxrStep, SRx. rewrite rox_flags, tstb_X_ccr.
  split; [reflexivity|]. by apply roxr_word.
Qed.
End rox.

(** ** The four shift types *)

Ltac norm_flags :=
  repeat (first [rewrite lor_flag by done | rewrite ldiff_flag by done]; unfold flag_set; simpl).

Section types.
Context (sz sr v k : Z) (Hsz : valid_size sz) (Hv : is_sz sz v) (Hk : 1 <= k <= 63).
Implicit Types x n z vf c : bool.

Definition SR x n z vf c : Z := Z.lor (Z.ldiff sr 0x1F) (ccr x n z vf c).

Lemma putFlag_CX (b : bool) x n z vf c :
  putFlag b (Z.lor flagC flagX) (SR x n z vf c) = SR b n z vf b.
Proof. unfold putFlag, SR. destruct b; [by rewrite lor_flag|by rewrite ldiff_flag]. Qed.

Lemma putFlag_C (b : bool) x n z vf c : putFlag b flagC (SR x n z vf c) = SR x n z vf b.
Proof. unfold putFlag, SR. destruct b; [by rewrite lor_flag|by rewrite ldiff_flag]. Qed.

Lemma clear_V x n z vf c : Z.ldiff (SR x n z vf c) flagV = SR x n z false c.
Proof. unfold SR. by rewrite ldiff_flag. Qed.

Lemma shiftAS_left x n z vf c :
  let out := Z.testbit v (Bits sz - k) in
  shiftAS 1 v k sz (SR x n z vf c) =
  ((v * 2 ^ k) mod Modulus sz, SR out n z (negb (in_signed sz (signed sz v * 2 ^ k))) out).
Proof.
  pose proof (Bits_range sz Hsz). pose proof (is_sz_u32 sz v Hsz Hv).
  unfold shiftAS. simpl (1 =? 1). cbv iota.
  rewrite asl_loop, Z2Nat.id, clear_V, lastOut_wrap by (done || lia). cbv zeta. f_equal.
  destruct (in_signed _ _); [apply putFlag_CX|].
  assert (Z.lor (SR x n z false c) flagV = SR x n z true c) as -> by (unfold SR; by rewrite lor_flag).
  apply putFlag_CX.
Qed.

Lemma shiftAS_right dir x n z vf c :
  dir <> 1 ->
  let out := Z.testbit v (Z.min k (Bits sz) - 1) in
  shiftAS dir v k sz (SR x n z vf c) =
  ((signed sz v / 2 ^ k) mod Modulus sz, SR out n z false out).
Proof.
  intros Hdir. pose proof (Bits_range sz Hsz). pose proof (is_sz_u32 sz v Hsz Hv).
  unfold shiftAS. destruct (Z.eqb_spec dir 1); [done|].
  rewrite asr_loop, Z2Nat.id, land_Mask by (done || lia).
  rewrite Z.mod_mod by (pose proof (MSB_pos sz Hsz); unfold Modulus; lia). cbv zeta. f_equal.
  assert ((if Bits sz <=? k then Z.land (shr32 v (u32 (Bits sz - 1))) 1
           else Z.land (shr32 v (u32 (k - 1))) 1) =
          Z.land (shr32 v (Z.min k (Bits sz) - 1)) 1) as ->.
  { destruct (Z.leb_spec (Bits sz) k); rewrite u32_small by (unfold is_u32; lia); do 2 f_equal; lia. }
  rewrite lastOut_bit, putFlag_CX by (done || lia). apply clear_V.
Qed.

Lemma shiftLS_left x n z vf c :
  let out := Z.testbit v (Bits sz - k) in
  shiftLS 1 v k sz (SR x n z vf c) = ((v * 2 ^ k) mod Modulus sz, SR out n z false out).
Proof.
  pose proof (Bits_range sz Hsz). pose proof (is_sz_u32 sz v Hsz Hv).
  unfold shiftLS. simpl (1 =? 1). cbv iota.
  rewrite shl32_mask, lastOut_wrap, putFlag_CX by (done || lia). by rewrite clear_V.
Qed.

Lemma shiftLS_right dir x n z vf c :
  dir <> 1 ->
  let out := Z.testbit v (k - 1) in
  shiftLS dir v k sz (SR x n z vf c) = (v / 2 ^ k, SR out n z false out).
Proof.
  intros Hdir. pose proof (is_sz_u32 sz v Hsz Hv). unfold shiftLS.
  destruct (Z.eqb_spec dir 1); [done|].
  rewrite land_Mask_small, shr32_div, (u32_small (k - 1)), lastOut_bit, putFlag_CX
    by (done || unfold is_u32; lia).
  by rewrite clear_V.
Qed.

Lemma shiftROX_run dir x n z vf c :
  exists r x', shiftROX dir v k sz (SR x n z vf c) = (r, SR x' n z false x') /\ is_sz sz r /\
    rotated (Bits sz + 1) (if dir =? 1 then k else - k)
      (extended (Bits sz) x v) (extended (Bits sz) x' r).
Proof.
  replace k with (Z.of_nat (S (Z.to_nat (k - 1)))) by lia. unfold shiftROX. rewrite Nat2Z.id.
  destruct (dir =? 1).
  - destruct (rox_loop sz sr n z vf Hsz _ 1 (roxlStep_run sz sr n z vf Hsz) (Z.to_nat (k - 1)) v x c Hv)
      as (r & x' & E & Hr & Hrot). change (SR x n z vf c) with (SRx sr n z vf x c). rewrite E.
    exists r, x'. change (SRx sr n z vf x' x') with (SR x' n z vf x').
    split; [by rewrite clear_V|]. split; [done|]. by rewrite Z.mul_1_l in Hrot.
  - destruct (rox_loop sz sr n z vf Hsz _ (-1) (roxrStep_run sz sr n z vf Hsz) (Z.to_nat (k - 1)) v x c Hv)
      as (r & x' & E & Hr & Hrot). change (SR x n z vf c) with (SRx sr n z vf x c). rewrite E.
    exists r, x'. change (SRx sr n z vf x' x') with (SR x' n z vf x').
    split; [by rewrite clear_V, land_Mask_small|]. split; [done|].
    by replace (- Z.of_nat (S (Z.to_nat (k - 1)))) with (-1 * Z.of_nat (S (Z.to_nat (k - 1)))) by lia.
Qed.

Lemma shiftRO_run dir x n z vf c :
  exists r, shiftRO dir v k sz (SR x n z vf c) =
      (r, SR x n z false (Z.testbit r (if dir =? 1 then 0 else Bits sz - 1))) /\
    rotated (Bits sz) (if dir =? 1 then k else - k) v r.
Proof.
  pose proof (shiftRO_result dir sz v k (SR x n z vf c) Hsz Hv) as Hrot.
  exists (fst (shiftRO dir v k sz (SR x n z vf c))). split; [|done].
  unfold shiftRO. cbn [fst]. f_equal. destruct (dir =? 1).
  - rewrite tstb_1, <- Z.bit0_odd, putFlag_C. apply clear_V.
  - rewrite tstb_MSB_bit, putFlag_C by done. apply clear_V.
Qed.

(** The final N and Z. *)
Lemma shift_NZ r x n z vf c :
  is_sz sz r ->
  (let sr := Z.ldiff (SR x n z vf c) (Z.lor flagN flagZ) in
   let sr := if tstb r (MSB sz) then Z.lor sr flagN else sr in
   if Z.land r (Mask sz) =? 0 then Z.lor sr flagZ else sr) =
  SR x (signed sz r <? 0) (r =? 0) vf c.
Proof.
  intros Hr. rewrite land_Mask_small, tstb_MSB by done. unfold SR. cbv zeta.
  destruct (signed sz r <? 0), (r =? 0); norm_flags; done.
Qed.
End types.

(** ** doShift *)

Section doShift.
Context {B : Type}.
Implicit Types c : CPU B.

Lemma doShift_zero v dir typ sz c :
  valid_size sz -> is_sz sz v ->
  doShift v 0 dir typ sz c =
  let x := tstb (rSR (reg c)) flagX in
  Some (v, on_reg (with_SR (SR (rSR (reg c)) x (signed sz v <? 0) (v =? 0) false
                              ((typ =? 2) && x))) c).
Proof.
  intros Hsz Hv. unfold doShift. simpl (0 =? 0). cbv iota.
  rewrite (bind_eval _ _ _ _ _ (setFlagsLogical_spec _ _ _ Hsz Hv)).
  unfold when. destruct (typ =? 2); [|done]. cbv zeta. unfold getSR, gets, bind, ret, orSR.
  cbn [reg on_reg with_SR rSR]. rewrite tstb_X_ccr.
  destruct (tstb (rSR (reg c)) flagX); [|done].
  unfold getSR, gets, bind, putSR, modify. cbn [reg on_reg with_SR rSR].
  unfold SR. by rewrite lor_flag.
Qed.

(** A non-zero shift whose type's code leaves [r] and the flags given. *)
Lemma doShift_nonzero v k dir typ sz c r x n z vf cf :
  valid_size sz -> 1 <= k -> is_sz sz r ->
  (match typ with
   | 0 => shiftAS dir v k sz (rSR (reg c))
   | 1 => shiftLS dir v k sz (rSR (reg c))
   | 2 => shiftROX dir v k sz (rSR (reg c))
   | 3 => shiftRO dir v k sz (rSR (reg c))
   | _ => (0, rSR (reg c))
   end) = (r, SR (rSR (reg c)) x n z vf cf) ->
  doShift v k dir typ sz c =
  Some (r, on_reg (with_SR (SR (rSR (reg c)) x (signed sz r <? 0) (r =? 0) vf cf)) c).
Proof.
  intros Hsz Hk Hr E. pose proof (Bits_pos sz Hsz). unfold doShift.
  destruct (Z.eqb_spec k 0); [lia|]. destruct (Z.eqb_spec (Bits sz) 0); [lia|].
  rewrite andb_false_r. unfold getSR, gets, bind at 1. unfold shiftCore. rewrite E.
  pose proof (shift_NZ sz (rSR (reg c)) Hsz r x n z vf cf Hr) as HN. cbv zeta in HN.
  by rewrite HN.
Qed.

Lemma SR_split sr :
  sr = SR sr (tstb sr flagX) (tstb sr flagN) (tstb sr flagZ) (tstb sr flagV) (tstb sr flagC).
Proof. apply split_flags. Qed.

(** C24: LSL and ASL multiply.  For a count of 0 to 63 the result is the
    operand times [2^count] modulo the width; C is the last bit shifted out
    and X follows it unless the count is 0; ASL sets V exactly when the signed
    product is not representable, LSL clears it; N and Z are the result's. *)
Theorem shift_left_correct typ v k sz c :
  typ = 0 \/ typ = 1 -> valid_size sz -> is_sz sz v -> 0 <= k <= 63 ->
  let r := (v * 2 ^ k) mod 2 ^ Bits sz in
  let out := Z.testbit v (Bits sz - k) in
  exists sr,
    doShift v k 1 typ sz c = Some (r, on_reg (with_SR sr) c) /\
    XNZVC sr = (if k =? 0 then tstb (rSR (reg c)) flagX else out, signed sz r <? 0, r =? 0,
                (typ =? 0) && negb (in_signed sz (signed sz v * 2 ^ k)), out) /\
    Z.ldiff sr 0x1F = Z.ldiff (rSR (reg c)) 0x1F.
Proof.
  intros Htyp Hsz Hv Hk r out. unfold r, out. rewrite <- Modulus_pow2 by done.
  destruct (Z.eqb_spec k 0) as [->|Hk0]; eexists.
  - rewrite Z.mul_1_r, Z.mod_small by done. split; [by apply doShift_zero|].
    rewrite Z.mul_1_r, signed_in, andb_false_r by done.
    rewrite (testbit_high (Bits sz)) by (rewrite <- ?Modulus_pow2 by done; done || lia).
    destruct Htyp as [->| ->]; apply XNZVC_ccr.
  - split; [|apply XNZVC_ccr].
    apply doShift_nonzero with (n := tstb (rSR (reg c)) flagN) (z := tstb (rSR (reg c)) flagZ);
      [done|lia|by apply is_sz_mod|]. destruct Htyp as [->| ->]; rewrite (SR_split (rSR (reg c))) at 1.
    + by rewrite shiftAS_left by (done || lia).
    + by rewrite shiftLS_left by (done || lia).
Qed.

(** C25: LSR and ASR divide, rounding down: the unsigned operand for LSR, the
    signed one for ASR.  C is the last bit shifted out (for ASR the sign once
    the count passes the width), X follows it unless the count is 0, V is 0. *)
Theorem shift_right_correct typ v k sz c :
  typ = 0 \/ typ = 1 -> valid_size sz -> is_sz sz v -> 0 <= k <= 63 ->
  let r := if typ =? 0 then (signed sz v / 2 ^ k) mod 2 ^ Bits sz else v / 2 ^ k in
  let out := Z.testbit v ((if typ =? 0 then Z.min k (Bits sz) else k) - 1) in
  exists sr,
    doShift v k 0 typ sz c = Some (r, on_reg (with_SR sr) c) /\
    XNZVC sr = (if k =? 0 then tstb (rSR (reg c)) flagX else out, signed sz r <? 0, r =? 0,
                false, out) /\
    Z.ldiff sr 0x1F = Z.ldiff (rSR (reg c)) 0x1F.
Proof.
  intros Htyp Hsz Hv Hk r out. unfold r, out. rewrite <- Modulus_pow2 by done.
  pose proof (Bits_pos sz Hsz).
  destruct (Z.eqb_spec k 0) as [->|Hk0]; eexists.
  - rewrite !Z.div_1_r, mod_signed, Z.min_l by (done || lia).
    replace (if typ =? 0 then v else v) with v by (by case_if).
    split; [by apply doShift_zero|].
    rewrite Z.testbit_neg_r by (case_if; lia). destruct Htyp as [->| ->]; apply XNZVC_ccr.
  - split; [|apply XNZVC_ccr].
    apply doShift_nonzero with (n := tstb (rSR (reg c)) flagN) (z := tstb (rSR (reg c)) flagZ);
      [done|lia| |].
    + destruct Htyp as [->| ->]; [by apply is_sz_mod|]. unfold is_sz in *. simpl.
      assert (0 < 2 ^ k) by (apply Z.pow_pos_nonneg; lia).
      split; [apply Z.div_pos; lia|]. apply Z.div_lt_upper_bound; [lia|]. nia.
    + destruct Htyp as [->| ->]; rewrite (SR_split (rSR (reg c))) at 1.
      * by rewrite shiftAS_right by (done || lia).
      * by rewrite shiftLS_right by (done || lia).
Qed.

(** C26: ROL and ROR rotate: bit [i] of the result is bit [i - count]
    ([i + count] for ROR) of the operand, modulo the width, for every count.
    C is the last bit rotated (0 for a zero count), X is kept, V is 0. *)
Theorem rotate_correct dir v k sz c :
  dir = 0 \/ dir = 1 -> valid_size sz -> is_sz sz v -> 0 <= k <= 63 ->
  exists r sr,
    doShift v k dir 3 sz c = Some (r, on_reg (with_SR sr) c) /\
    rotated (Bits sz) (if dir =? 1 then k else - k) v r /\
    XNZVC sr = (tstb (rSR (reg c)) flagX, signed sz r <? 0, r =? 0, false,
                negb (k =? 0) && Z.testbit r (if dir =? 1 then 0 else Bits sz - 1)) /\
    Z.ldiff sr 0x1F = Z.ldiff (rSR (reg c)) 0x1F.
Proof.
  intros Hdir Hsz Hv Hk. destruct (Z.eqb_spec k 0) as [->|Hk0].
  - eexists v, _. split; [by apply doShift_zero|]. split; [|apply XNZVC_ccr].
    replace (if dir =? 1 then 0 else - 0) with 0 by (by case_if).
    apply rotated_0. by rewrite <- Modulus_pow2.
  - destruct (shiftRO_run sz (rSR (reg c)) v k Hsz Hv dir (tstb (rSR (reg c)) flagX)
      (tstb (rSR (reg c)) flagN) (tstb (rSR (reg c)) flagZ) (tstb (rSR (reg c)) flagV)
      (tstb (rSR (reg c)) flagC)) as (r & E & Hrot).
    eexists r, _. split; [|split; [done|apply XNZVC_ccr]].
    apply doShift_nonzero with (n := tstb (rSR (reg c)) flagN) (z := tstb (rSR (reg c)) flagZ);
      [done|lia| |by rewrite <- SR_split in E].
    destruct Hrot as [Hr _]. unfold is_sz. by rewrite Modulus_pow2.
Qed.

(** C27: ROXL and ROXR rotate the operand with X above it: as a number of
    [Bits + 1] bits, (X, operand) is rotated by the count; C is X afterwards,
    also for a zero count, and V is 0. *)
Theorem rotate_extend_correct dir v k sz c :
  dir = 0 \/ dir = 1 -> valid_size sz -> is_sz sz v -> 0 <= k <= 63 ->
  exists r x sr,
    doShift v k dir 2 sz c = Some (r, on_reg (with_SR sr) c) /\ is_sz sz r /\
    rotated (Bits sz + 1) (if dir =? 1 then k else - k)
      (extended (Bits sz) (tstb (rSR (reg c)) flagX) v) (extended (Bits sz) x r) /\
    XNZVC sr = (x, signed sz r <? 0, r =? 0, false, x) /\
    Z.ldiff sr 0x1F = Z.ldiff (rSR (reg c)) 0x1F.
Proof.
  intros Hdir Hsz Hv Hk. pose proof (Bits_pos sz Hsz). destruct (Z.eq_dec k 0) as [->|Hk0].
  - eexists v, _, _. split; [by apply doShift_zero|]. split; [done|].
    split; [|apply XNZVC_ccr]. replace (if dir =? 1 then 0 else - 0) with 0 by (by case_if).
    apply rotated_0, extended_range; [lia|]. by rewrite <- Modulus_pow2.
  - destruct (shiftROX_run sz (rSR (reg c)) v k Hsz Hv ltac:(lia) dir (tstb (rSR (reg c)) flagX)
      (tstb (rSR (reg c)) flagN) (tstb (rSR (reg c)) flagZ) (tstb (rSR (reg c)) flagV)
      (tstb (rSR (reg c)) flagC)) as (r & x & E & Hr & Hrot).
    eexists r, x, _. split; [|split; [done|split; [done|apply XNZVC_ccr]]].
    apply doShift_nonzero with (n := tstb (rSR (reg c)) flagN) (z := tstb (rSR (reg c)) flagZ);
      [done|lia|done|by rewrite <- SR_split in E].
Qed.
End doShift.

(** ASL.B #1 of 0x40 overflows; ASR.W by 40 of a negative word leaves -1. *)
Lemma shift_left_correct_witness :
  exists sr, doShift 0x40 1 1 0 sizeByte (zeroCPU tt) = Some (0x80, on_reg (with_SR sr) (zeroCPU tt)) /\
    tstb sr flagV = true.
Proof.
  destruct (shift_left_correct 0 0x40 1 sizeByte (zeroCPU tt)) as (sr & E & F & _);
    [by left|by left|done|done|].
  exists sr. split; [exact E|]. by injection F.
Defined.

Lemma shift_right_correct_witness :
  exists sr, doShift 0x8000 40 0 0 sizeWord (zeroCPU tt) =
    Some (0xFFFF, on_reg (with_SR sr) (zeroCPU tt)) /\ tstb sr flagC = true.
Proof.
  destruct (shift_right_correct 0 0x8000 40 sizeWord (zeroCPU tt)) as (sr & E & F & _);
    [by left|by right; left|done|done|].
  exists sr. split; [exact E|]. by injection F.
Defined.

Lemma rotate_correct_witness :
  exists r sr, doShift 0x81 1 1 3 sizeByte (zeroCPU tt) = Some (r, on_reg (with_SR sr) (zeroCPU tt)) /\
    Z.testbit r 0 = true.
Proof.
  destruct (rotate_correct 1 0x81 1 sizeByte (zeroCPU tt)) as (r & sr & E & [_ H] & _);
    [by right|by left|done|done|].
  exists r, sr. split; [exact E|]. by rewrite H.
Defined.

Lemma rotate_extend_correct_witness :
  exists r x sr, doShift 1 9 0 2 sizeByte (zeroCPU tt) = Some (r, on_reg (with_SR sr) (zeroCPU tt)) /\
    rotated 9 (-9) 1 (extended 8 x r).
Proof.
  destruct (rotate_extend_correct 0 1 9 sizeByte (zeroCPU tt)) as (r & x & sr & E & _ & H & _);
    [by left|by left|done|done|].
  exists r, x, sr. split; [exact E|exact H].
Defined.
