(* ===== verification/OpsBit.v ===== *)
(** * Bit manipulation (ops_bit.go) *)

From S2P Require Import Prelude Monad Cpu Flags Exception Timing Ea OpsCommon.

Section bit.
Context {B : Type} `{!Bus B}.

(** [if val&mask == 0 { SR |= flagZ } else { SR &^= flagZ }] *)
Definition setZbit (val mask : Z) : M (CPU B) unit :=
  if Z.land val mask =? 0 then orSR flagZ else clrSR flagZ.

(** [uint32(c.fetchPC()&0xFF) & m]: the static bit number. *)
Definition fetchBit (m : Z) : M (CPU B) Z :=
  w <- fetchPC ;; ret (Z.land (Z.land w 0xFF) m).

Definition makeBTSTdyn (dn mode reg : Z) : opFunc B :=
  if mode =? 0 then
    n <- getD dn ;;
    let bitNum := Z.land n 31 in
    d <- getD reg ;;
    setZbit d (shl32 1 bitNum) ;;
    AddCycles 6
  else
    let read := makeEARead mode reg in
    let '(eaBase, _) := eaFetchConst mode reg in
    n <- getD dn ;;
    let bitNum := Z.land n 7 in
    val <- call read sizeByte ;;
    setZbit val (shl32 1 bitNum) ;;
    AddCycles (4 + eaBase).

Definition makeBTSTstatic (mode reg : Z) : opFunc B :=
  if mode =? 0 then
    bitNum <- fetchBit 31 ;;
    d <- getD reg ;;
    setZbit d (shl32 1 bitNum) ;;
    AddCycles 10
  else
    let read := makeEARead mode reg in
    let '(eaBase, _) := eaFetchConst mode reg in
    bitNum <- fetchBit 7 ;;
    val <- call read sizeByte ;;
    setZbit val (shl32 1 bitNum) ;;
    AddCycles (8 + eaBase).

(** ** BCHG, BCLR, BSET

    The three instructions differ in the update of the operand
    ([val ^ mask], [val &^ mask], [val | mask]) and in the cycle counts of the
    register forms; the source repeats the closures for each. *)

Definition bitDyn (upd : Z -> Z -> Z) (lowCycles highCycles dn mode reg : Z) : opFunc B :=
  if mode =? 0 then
    n <- getD dn ;;
    let bitNum := Z.land n 31 in
    let mask := shl32 1 bitNum in
    d <- getD reg ;;
    setZbit d mask ;;
    d <- getD reg ;; setD reg (upd d mask) ;;
    if bitNum <? 16 then AddCycles lowCycles else AddCycles highCycles
  else
    let addr := makeEAMemAddr mode reg in
    let '(eaBase, _) := eaFetchConst mode reg in
    n <- getD dn ;;
    let bitNum := Z.land n 7 in
    a <- call addr sizeByte ;;
    val <- readBus sizeByte a ;;
    let mask := shl32 1 bitNum in
    setZbit val mask ;;
    writeBus sizeByte a (upd val mask) ;;
    AddCycles (8 + eaBase).

Definition bitStatic (upd : Z -> Z -> Z) (regCycles mode reg : Z) : opFunc B :=
  if mode =? 0 then
    bitNum <- fetchBit 31 ;;
    let mask := shl32 1 bitNum in
    d <- getD reg ;;
    setZbit d mask ;;
    d <- getD reg ;; setD reg (upd d mask) ;;
    AddCycles regCycles
  else
    let addr := makeEAMemAddr mode reg in
    let '(eaBase, _) := eaFetchConst mode reg in
    bitNum <- fetchBit 7 ;;
    a <- call addr sizeByte ;;
    val <- readBus sizeByte a ;;
    let mask := shl32 1 bitNum in
    setZbit val mask ;;
    writeBus sizeByte a (upd val mask) ;;
    AddCycles (12 + eaBase).

Definition makeBCHGdyn : Z -> Z -> Z -> opFunc B := bitDyn Z.lxor 6 8.
Definition makeBCHGstatic : Z -> Z -> opFunc B := bitStatic Z.lxor 12.
Definition makeBCLRdyn : Z -> Z -> Z -> opFunc B := bitDyn Z.ldiff 8 10.
Definition makeBCLRstatic : Z -> Z -> opFunc B := bitStatic Z.ldiff 14.
Definition makeBSETdyn : Z -> Z -> Z -> opFunc B := bitDyn Z.lor 6 8.
Definition makeBSETstatic : Z -> Z -> opFunc B := bitStatic Z.lor 12.
End bit.
