(* ===== verification/OpsBcd.v ===== *)
(** * Packed decimal arithmetic (ops_bcd.go) *)

From S2P Require Import Prelude Monad Cpu Ram Flags Exception Timing Ea OpsCommon.

(** [bcdAdd] and [bcdSub] compute on two bytes, the extend bit and the status
    register; the functions below return the result byte, the carry (borrow)
    and the overflow condition the flags are set from. *)
Definition bcdAddCore (s d x : Z) : Z * bool * bool :=
  let binary := u32 (u32 (s + d) + x) in
  let lo := u32 (u32 (Z.land s 0x0F + Z.land d 0x0F) + x) in
  let hi := u32 (Z.land (Z.shiftr s 4) 0x0F + Z.land (Z.shiftr d 4) 0x0F) in
  let lo := if 9 <? lo then u32 (lo + 6) else lo in
  let hi := u32 (hi + Z.shiftr lo 4) in
  let lo := Z.land lo 0x0F in
  let '(hi, carry) := if 9 <? hi then (u32 (hi + 6), true) else (hi, false) in
  let r8 := Z.land (Z.lor (u32 (Z.shiftl hi 4)) lo) 0xFF in
  (r8, carry, (Z.land binary 0x80 =? 0) && tstb r8 0x80).

Definition bcdSubCore (s d x : Z) : Z * bool * bool :=
  let binary := u32 (u32 (d - s) - x) in
  let lo := u32 (u32 (Z.land d 0x0F - Z.land s 0x0F) - x) in
  let res := binary in
  let res := if tstb lo 0x10 then u32 (res - 6) else res in
  let binBorrow := d <? u32 (s + x) in
  let borrow := binBorrow || tstb res 0x100 in
  let res := if binBorrow then u32 (res - 0x60) else res in
  let r8 := Z.land res 0xFF in
  (r8, borrow, tstb binary 0x80 && (Z.land r8 0x80 =? 0)).

Section bcd.
Context {B : Type} `{!Bus B}.

(** The flag updates both end with: C, X, N, V from the result, Z only cleared. *)
Definition bcdFlags (r8 : Z) (carry overflow : bool) : M (CPU B) unit :=
  clrSR (Z.lor (Z.lor (Z.lor flagC flagX) flagN) flagV) ;;
  when carry (orSR (Z.lor flagC flagX)) ;;
  when (tstb r8 0x80) (orSR flagN) ;;
  when overflow (orSR flagV) ;;
  when (negb (r8 =? 0)) (clrSR flagZ).

Definition bcdAdd (s d : Z) : M (CPU B) Z :=
  x <- extendBit ;;
  let '(r8, carry, overflow) := bcdAddCore s d x in
  bcdFlags r8 carry overflow ;;
  ret r8.

Definition bcdSub (s d : Z) : M (CPU B) Z :=
  x <- extendBit ;;
  let '(r8, borrow, overflow) := bcdSubCore s d x in
  bcdFlags r8 borrow overflow ;;
  ret r8.

(** ABCD and SBCD have the same register and memory closures. *)
Definition bcdReg (f : Z -> Z -> M (CPU B) Z) : opFunc B :=
  ir <- getir ;;
  let rx := Z.land (Z.shiftr ir 9) 7 in
  let ry := Z.land ir 7 in
  sv <- getD ry ;;
  let s := Z.land sv 0xFF in
  dv <- getD rx ;;
  let d := Z.land dv 0xFF in
  result <- f s d ;;
  dv <- getD rx ;;
  setD rx (Z.lor (Z.land dv 0xFFFFFF00) (Z.land result 0xFF)) ;;
  AddCycles 6.

Definition bcdMem (f : Z -> Z -> M (CPU B) Z) : opFunc B :=
  ir <- getir ;;
  let rx := Z.land (Z.shiftr ir 9) 7 in
  let ry := Z.land ir 7 in
  src <- resolveEA 4 (u8 ry) sizeByte ;;
  s <- ea_read src sizeByte ;;
  dst <- resolveEA 4 (u8 rx) sizeByte ;;
  d <- ea_read dst sizeByte ;;
  result <- f s d ;;
  ea_write dst sizeByte result ;;
  AddCycles 18.

Definition opABCDreg : opFunc B := bcdReg bcdAdd.
Definition opABCDmem : opFunc B := bcdMem bcdAdd.
Definition opSBCDreg : opFunc B := bcdReg bcdSub.
Definition opSBCDmem : opFunc B := bcdMem bcdSub.

Definition makeNBCD (mode reg : Z) : opFunc B :=
  if mode =? 0 then
    dv <- getD reg ;;
    let d := Z.land dv 0xFF in
    result <- bcdSub d 0 ;;
    dv <- getD reg ;;
    setD reg (Z.lor (Z.land dv 0xFFFFFF00) (Z.land result 0xFF)) ;;
    AddCycles 6
  else
    let addr := makeEAMemAddr mode reg in
    let '(eaBase, _) := eaFetchConst mode reg in
    a <- call addr sizeByte ;;
    d <- readBus sizeByte a ;;
    result <- bcdSub d 0 ;;
    writeBus sizeByte a result ;;
    AddCycles (8 + eaBase).
End bcd.

(** ** Decimal meaning

    A byte of two decimal digits and the number it stands for. *)
Definition bcdValue (v : Z) : Z := 10 * (v / 16) + v mod 16.

Definition is_bcd (v : Z) : Prop := 0 <= v / 16 <= 9 /\ v mod 16 <= 9.

#[export] Instance is_bcd_dec v : Decision (is_bcd v).
Proof. unfold is_bcd. apply _. Defined.

Lemma land_F x : Z.land x 0x0F = x mod 16.
Proof. by apply (land_mask 4). Qed.

Lemma shiftr_4 x : Z.shiftr x 4 = x / 16.
Proof. by rewrite Z.shiftr_div_pow2. Qed.

Lemma lor_digits a b : 0 <= a < 32 -> 0 <= b < 16 -> Z.lor (u32 (Z.shiftl a 4)) b = 16 * a + b.
Proof.
  intros. rewrite u32_small.
  - rewrite (lor_shiftl_add 4) by lia. lia.
  - rewrite Z.shiftl_mul_pow2 by lia. unfold is_u32. lia.
Qed.

Lemma bcdAddCore_spec s d x :
  is_bcd s -> is_bcd d -> 0 <= x <= 1 ->
  let '(r, carry, _) := bcdAddCore s d x in
  is_bcd r /\ bcdValue r + 100 * Z.b2z carry = bcdValue s + bcdValue d + x.
Proof.
  unfold is_bcd. intros Hs Hd Hx. unfold bcdAddCore. rewrite !land_F, !shiftr_4.
  assert (u32 (u32 (s mod 16 + d mod 16) + x) = s mod 16 + d mod 16 + x) as -> by wordlia.
  assert (u32 ((s / 16) mod 16 + (d / 16) mod 16) = s / 16 + d / 16) as -> by wordlia.
  remember (s mod 16 + d mod 16 + x) as lo eqn:Elo.
  assert ((if 9 <? lo then u32 (lo + 6) else lo) = if 9 <? lo then lo + 6 else lo) as ->
    by (destruct (9 <? lo); [apply u32_small; unfold is_u32|]; zlia).
  remember (if 9 <? lo then lo + 6 else lo) as lo' eqn:Elo'.
  assert (u32 (s / 16 + d / 16 + lo' / 16) = s / 16 + d / 16 + (if 9 <? lo then 1 else 0)) as ->
    by (rewrite u32_small; subst lo'; [|unfold is_u32]; destruct (Z.ltb_spec 9 lo); zlia).
  remember (s / 16 + d / 16 + (if 9 <? lo then 1 else 0)) as hi eqn:Ehi.
  assert (0 <= hi <= 19) by (subst hi; destruct (9 <? lo); zlia).
  destruct (Z.ltb_spec 9 hi); rewrite land_FF, lor_digits by (wordlia || zlia);
    unfold bcdValue; simpl Z.b2z; subst lo'; revert Ehi; destruct (Z.ltb_spec 9 lo);
    intros; wordlia.
Qed.

Lemma bcdSubCore_spec s d x :
  is_bcd s -> is_bcd d -> 0 <= x <= 1 ->
  let '(r, borrow, _) := bcdSubCore s d x in
  is_bcd r /\ bcdValue r - 100 * Z.b2z borrow = bcdValue d - bcdValue s - x.
Proof.
  unfold is_bcd. intros Hs Hd Hx. unfold bcdSubCore. rewrite !land_F, land_FF.
  assert (u32 (u32 (d mod 16 - s mod 16) - x) = u32 (d mod 16 - s mod 16 - x)) as -> by wordlia.
  assert (u32 (u32 (d - s) - x) = u32 (d - s - x)) as -> by wordlia.
  assert (u32 (s + x) = s + x) as -> by (apply u32_small; unfold is_u32; zlia).
  change 0x10 with (2 ^ 4). rewrite tstb_sign by (change (2 ^ 4) with 16; zlia).
  change (2 ^ 4) with 16.
  assert (u32 (u32 (d - s - x) - 6) = u32 (d - s - x - 6)) as -> by wordlia.
  assert ((if d mod 16 - s mod 16 - x <? 0 then u32 (d - s - x - 6) else u32 (d - s - x)) =
          u32 (if d mod 16 - s mod 16 - x <? 0 then d - s - x - 6 else d - s - x)) as ->
    by (by case_if).
  remember (if d mod 16 - s mod 16 - x <? 0 then d - s - x - 6 else d - s - x) as t eqn:Et.
  change (tstb (u32 t) 0x100) with (tstb (u32 t) (2 ^ 8)). rewrite tstb_sign by
    (change (2 ^ 8) with 256; subst t; destruct (d mod 16 - s mod 16 - x <? 0); zlia).
  unfold bcdValue. revert Et.
  destruct (Z.ltb_spec (d mod 16 - s mod 16 - x) 0), (Z.ltb_spec d (s + x)), (Z.ltb_spec t 0);
    simpl; intros; wordlia.
Qed.

(** The flag updates of [bcdFlags] on the status register. *)
Lemma assemble_BCD sr (carry n v zero : bool) :
  (let sr := Z.ldiff sr 0x1B in
   let sr := if carry then Z.lor sr (Z.lor flagC flagX) else sr in
   let sr := if n then Z.lor sr flagN else sr in
   let sr := if v then Z.lor sr flagV else sr in
   if negb zero then Z.ldiff sr flagZ else sr) =
  Z.lor (Z.ldiff sr 0x1F) (ccr carry n (tstb sr flagZ && zero) v carry).
Proof.
  assert (Z.ldiff sr 0x1B =
          Z.lor (Z.ldiff sr 0x1F) (ccr false false (tstb sr flagZ) false false)) as ->
    by (rewrite (split_flags sr) at 1; by rewrite ldiff_flag).
  cbv zeta.
  destruct carry, n, v, zero; simpl;
    repeat (first [rewrite lor_flag by done | rewrite ldiff_flag by done];
            unfold flag_set; simpl);
    by rewrite ?andb_true_r, ?andb_false_r.
Qed.

Section decimal.
Context {B : Type}.

Lemma bcdFlags_run r8 carry overflow (c : CPU B) :
  bcdFlags r8 carry overflow c =
  Some (tt, on_reg (with_SR (Z.lor (Z.ldiff (rSR (reg c)) 0x1F)
    (ccr carry (tstb r8 0x80) (tstb (rSR (reg c)) flagZ && (r8 =? 0)) overflow carry))) c).
Proof.
  unfold bcdFlags. rewrite (bind_eval _ _ _ _ _ (clrSR_run _ _)).
  repeat rewrite (bind_eval _ _ _ _ _ (when_orSR_run _ _ _)).
  rewrite when_clrSR_run. by rewrite <- assemble_BCD.
Qed.

Lemma extendBit_run (c : CPU B) :
  extendBit c = Some (Z.b2z (tstb (rSR (reg c)) flagX), c).
Proof. unfold extendBit, getSR, gets, bind, ret. by destruct (tstb _ _). Qed.

Lemma bcdAdd_run s d (c : CPU B) :
  is_bcd s -> is_bcd d ->
  exists r sr,
    bcdAdd s d c = Some (r, on_reg (with_SR sr) c) /\ is_bcd r /\
    bcdValue r + 100 * Z.b2z (tstb sr flagX) =
      bcdValue s + bcdValue d + Z.b2z (tstb (rSR (reg c)) flagX) /\
    tstb sr flagC = tstb sr flagX /\
    tstb sr flagZ = tstb (rSR (reg c)) flagZ && (r =? 0).
Proof.
  intros Hs Hd. unfold bcdAdd. rewrite (bind_eval _ _ _ _ _ (extendBit_run _)).
  pose proof (bcdAddCore_spec s d (Z.b2z (tstb (rSR (reg c)) flagX)) Hs Hd) as H.
  destruct (bcdAddCore _ _ _) as [[r carry] v].
  destruct H as [Hr Hv]; [by destruct (tstb _ _)|].
  rewrite (bind_eval _ _ _ _ _ (bcdFlags_run _ _ _ _)).
  eexists _, _. split; [reflexivity|]. by read_flags.
Qed.

Lemma bcdSub_run s d (c : CPU B) :
  is_bcd s -> is_bcd d ->
  exists r sr,
    bcdSub s d c = Some (r, on_reg (with_SR sr) c) /\ is_bcd r /\
    bcdValue r - 100 * Z.b2z (tstb sr flagX) =
      bcdValue d - bcdValue s - Z.b2z (tstb (rSR (reg c)) flagX) /\
    tstb sr flagC = tstb sr flagX /\
    tstb sr flagZ = tstb (rSR (reg c)) flagZ && (r =? 0).
Proof.
  intros Hs Hd. unfold bcdSub. rewrite (bind_eval _ _ _ _ _ (extendBit_run _)).
  pose proof (bcdSubCore_spec s d (Z.b2z (tstb (rSR (reg c)) flagX)) Hs Hd) as H.
  destruct (bcdSubCore _ _ _) as [[r borrow] v].
  destruct H as [Hr Hv]; [by destruct (tstb _ _)|].
  rewrite (bind_eval _ _ _ _ _ (bcdFlags_run _ _ _ _)).
  eexists _, _. split; [reflexivity|]. by read_flags.
Qed.

Lemma chain_cons (f : Z -> Z -> M (CPU B) Z) p ps r rs c c' c'' :
  f (fst p) (snd p) c = Some (r, c') -> chain f ps c' = Some (rs, c'') ->
  chain f (p :: ps) c = Some (r :: rs, c'').
Proof. simpl. unfold bind, ret. by intros -> ->. Qed.

(** C28: multi-byte decimal addition.  A sequence of [bcdAdd] steps, one per
    byte from the least significant, with the extend flag carried between
    them, adds two decimal numbers of any length: the bytes produced are valid
    BCD, they are the sum modulo [100^n], X ends as the carry out, and Z ends
    set only if it was set and every byte produced is zero. *)
Theorem bcdAdd_chain ps (c : CPU B) :
  Forall (fun p => is_bcd (fst p) /\ is_bcd (snd p)) ps ->
  exists rs c',
    chain bcdAdd ps c = Some (rs, c') /\ Forall is_bcd rs /\
    num 100 (bcdValue <$> rs) + 100 ^ Z.of_nat (length ps) * Z.b2z (tstb (rSR (reg c')) flagX) =
      num 100 ((fun p => bcdValue (fst p)) <$> ps) + num 100 ((fun p => bcdValue (snd p)) <$> ps) +
      Z.b2z (tstb (rSR (reg c)) flagX) /\
    tstb (rSR (reg c')) flagZ = tstb (rSR (reg c)) flagZ && forallb (fun r => r =? 0) rs.
Proof.
  intros Hps. revert c. induction Hps as [|[s d] ps [Hs Hd] Hps IH]; intros c.
  - eexists [], c. split; [done|]. split; [done|]. split; [simpl; lia|by rewrite andb_true_r].
  - destruct (bcdAdd_run s d c Hs Hd) as (r & sr & Hr & Hbr & Hv & _ & Hz).
    destruct (IH (on_reg (with_SR sr) c)) as (rs & c' & Hc & Hbrs & Hvs & Hzs).
    eexists (r :: rs), c'. split; [by eapply chain_cons|]. split; [by constructor|].
    split.
    + rewrite length_cons, Nat2Z.inj_succ, Z.pow_succ_r by lia.
      rewrite !fmap_cons. cbn [num fst snd reg on_reg with_SR rSR] in *. lia.
    + simpl in *. by rewrite Hzs, Hz, <- andb_assoc.
Qed.

(** C29: multi-byte decimal subtraction, likewise, with X as the borrow. *)
Theorem bcdSub_chain ps (c : CPU B) :
  Forall (fun p => is_bcd (fst p) /\ is_bcd (snd p)) ps ->
  exists rs c',
    chain bcdSub ps c = Some (rs, c') /\ Forall is_bcd rs /\
    num 100 (bcdValue <$> rs) - 100 ^ Z.of_nat (length ps) * Z.b2z (tstb (rSR (reg c')) flagX) =
      num 100 ((fun p => bcdValue (snd p)) <$> ps) - num 100 ((fun p => bcdValue (fst p)) <$> ps) -
      Z.b2z (tstb (rSR (reg c)) flagX) /\
    tstb (rSR (reg c')) flagZ = tstb (rSR (reg c)) flagZ && forallb (fun r => r =? 0) rs.
Proof.
  intros Hps. revert c. induction Hps as [|[s d] ps [Hs Hd] Hps IH]; intros c.
  - eexists [], c. split; [done|]. split; [done|]. split; [simpl; lia|by rewrite andb_true_r].
  - destruct (bcdSub_run s d c Hs Hd) as (r & sr & Hr & Hbr & Hv & _ & Hz).
    destruct (IH (on_reg (with_SR sr) c)) as (rs & c' & Hc & Hbrs & Hvs & Hzs).
    eexists (r :: rs), c'. split; [by eapply chain_cons|]. split; [by constructor|].
    split.
    + rewrite length_cons, Nat2Z.inj_succ, Z.pow_succ_r by lia.
      rewrite !fmap_cons. cbn [num fst snd reg on_reg with_SR rSR] in *. lia.
    + simpl in *. by rewrite Hzs, Hz, <- andb_assoc.
Qed.
End decimal.

(** 1999 + 8001 = 10000 and 0000 - 0001 = 9999 with a borrow. *)
Lemma bcdAdd_chain_witness :
  exists rs c', chain bcdAdd [(0x99, 0x01); (0x19, 0x80)] (zeroCPU tt) = Some (rs, c') /\
    num 100 (bcdValue <$> rs) + 10000 * Z.b2z (tstb (rSR (reg c')) flagX) = 10000.
Proof.
  destruct (bcdAdd_chain [(0x99, 0x01); (0x19, 0x80)] (zeroCPU tt))
    as (rs & c' & Hrun & _ & Hsum & _).
  - by apply (bool_decide_unpack _).
  - exists rs, c'. split; [done|]. exact Hsum.
Defined.

Lemma bcdSub_chain_witness :
  exists rs c', chain bcdSub [(0x01, 0x00); (0x00, 0x00)] (zeroCPU tt) = Some (rs, c') /\
    num 100 (bcdValue <$> rs) - 10000 * Z.b2z (tstb (rSR (reg c')) flagX) = -1.
Proof.
  destruct (bcdSub_chain [(0x01, 0x00); (0x00, 0x00)] (zeroCPU tt))
    as (rs & c' & Hrun & _ & Hsum & _).
  - by apply (bool_decide_unpack _).
  - exists rs, c'. split; [done|]. exact Hsum.
Defined.
