(* ===== verification/OpsBranch.v ===== *)
(** * Branches, jumps, returns and Scc (ops_branch.go) *)

From S2P Require Import Prelude Monad Cpu Flags Exception Timing Ea OpsCommon OpsMove.

Section branch.
Context {B : Type} `{!Bus B}.

(** [disp := int32(int8(c.ir & 0xFF)); if disp == 0 { disp = int32(int16(c.fetchPC())) }] *)
Definition branchDisp (ir : Z) : M (CPU B) Z :=
  let disp := s8 (Z.land ir 0xFF) in
  if disp =? 0 then w <- fetchPC ;; ret (s16 w) else ret disp.

Definition opBcc : opFunc B :=
  ir <- getir ;;
  let cc := Z.land (Z.shiftr ir 8) 0xF in
  base <- getPC ;;
  disp <- branchDisp ir ;;
  t <- testCondition cc ;;
  if (t : bool) then
    setPC (u32 (s32 (s32 base + disp))) ;;
    AddCycles 10
  else
    AddCycles 8 ;;
    when (s8 (Z.land ir 0xFF) =? 0) (AddCycles 4).

Definition opBRA : opFunc B :=
  ir <- getir ;;
  base <- getPC ;;
  disp <- branchDisp ir ;;
  setPC (u32 (s32 (s32 base + disp))) ;;
  AddCycles 10.

Definition opBSR : opFunc B :=
  ir <- getir ;;
  base <- getPC ;;
  disp <- branchDisp ir ;;
  pc <- getPC ;;
  pushLong pc ;;
  setPC (u32 (s32 (s32 base + disp))) ;;
  AddCycles 18.

Definition opDBcc : opFunc B :=
  ir <- getir ;;
  let cc := Z.land (Z.shiftr ir 8) 0xF in
  let dn := Z.land ir 7 in
  w <- fetchPC ;;
  let disp := s16 w in
  t <- testCondition cc ;;
  if (t : bool) then AddCycles 12
  else
    d <- getD dn ;;
    let val := s16 (s16 (Z.land d 0xFFFF) - 1) in
    d <- getD dn ;;
    setD dn (Z.lor (Z.land d 0xFFFF0000) (u16 val)) ;;
    if val =? -1 then AddCycles 14
    else
      pc <- getPC ;;
      setPC (u32 (s32 (s32 (s32 pc - 2) + disp))) ;;
      AddCycles 10.

Definition makeJMP (mode reg : Z) : opFunc B :=
  let addr := makeEAMemAddr mode reg in
  let cycles := controlCycles mode reg 8 10 14 10 12 14 in
  a <- call addr sizeWord ;;
  setPC a ;;
  AddCycles cycles.

Definition makeJSR (mode reg : Z) : opFunc B :=
  let addr := makeEAMemAddr mode reg in
  let cycles := controlCycles mode reg 16 18 22 18 20 22 in
  target <- call addr sizeWord ;;
  pc <- getPC ;;
  pushLong pc ;;
  setPC target ;;
  AddCycles cycles.

Definition opRTS : opFunc B :=
  pc <- popLong ;;
  setPC pc ;;
  AddCycles 16.

Definition opRTE : opFunc B :=
  s <- supervisor ;;
  if negb s then exception vecPrivilegeViolation
  else
    sr <- popWord ;;
    pc <- popLong ;;
    setSR sr ;;
    setPC pc ;;
    AddCycles 20.

Definition opRTR : opFunc B :=
  ccr <- popWord ;;
  setCCR (u8 ccr) ;;
  pc <- popLong ;;
  setPC pc ;;
  AddCycles 20.

Definition makeScc (mode reg : Z) : opFunc B :=
  if mode =? 0 then
    ir <- getir ;;
    let cc := Z.land (Z.shiftr ir 8) 0xF in
    t <- testCondition cc ;;
    if (t : bool) then
      d <- getD reg ;; setD reg (Z.lor (Z.land d 0xFFFFFF00) 0xFF) ;;
      AddCycles 6
    else
      d <- getD reg ;; setD reg (Z.land d 0xFFFFFF00) ;;
      AddCycles 4
  else
    let addr := makeEAMemAddr mode reg in
    let '(eaBase, _) := eaFetchConst mode reg in
    ir <- getir ;;
    let cc := Z.land (Z.shiftr ir 8) 0xF in
    a <- call addr sizeByte ;;
    t <- testCondition cc ;;
    (if (t : bool) then writeBus sizeByte a 0xFF else writeBus sizeByte a 0x00) ;;
    AddCycles (8 + eaBase).
End branch.
