(* ===== verification/OpsCtrl.v ===== *)
(** * System control (ops_ctrl.go) *)

From S2P Require Import Prelude Monad Cpu Flags Exception Timing Ea OpsCommon.

Section ctrl.
Context {B : Type} `{!Bus B}.

(** [if !c.supervisor() { c.exception(vecPrivilegeViolation); return }] *)
Definition privileged (m : opFunc B) : opFunc B :=
  s <- supervisor ;;
  if negb s then exception vecPrivilegeViolation else m.

Definition opNOP : opFunc B := AddCycles 4.

Definition opSTOP : opFunc B :=
  privileged (
    imm <- fetchPC ;;
    setSR imm ;;
    setStopped true ;;
    ppc <- gets prevPC ;;
    setPC ppc ;;
    AddCycles 4).

Definition opRESET : opFunc B :=
  privileged (
    modify (fun c => with_bus (BusReset (bus c)) c) ;;
    AddCycles 132).

Definition opTRAP : opFunc B :=
  ir <- getir ;;
  exception (Z.land ir 0xF + vecTrap0).

Definition opTRAPV : opFunc B :=
  sr <- getSR ;;
  if tstb sr flagV then exception vecTRAPV else AddCycles 4.

Definition opLINK : opFunc B :=
  ir <- getir ;;
  let an := Z.land ir 7 in
  w <- fetchPC ;;
  let disp := s16 w in
  v <- getA an ;;
  pushLong v ;;
  sp <- getA 7 ;; setA an sp ;;
  sp <- getA 7 ;; setA 7 (u32 (s32 (s32 sp + disp))) ;;
  AddCycles 16.

Definition opUNLK : opFunc B :=
  ir <- getir ;;
  let an := Z.land ir 7 in
  v <- getA an ;; setA 7 v ;;
  v <- popLong ;; setA an v ;;
  AddCycles 12.

Definition makeMOVEfromSR (mode reg : Z) : opFunc B :=
  if mode =? 0 then
    d <- getD reg ;;
    sr <- getSR ;;
    setD reg (Z.lor (Z.land d 0xFFFF0000) sr) ;;
    AddCycles 6
  else
    let addr := makeEAMemAddr mode reg in
    let '(eaBase, _) := eaFetchConst mode reg in
    a <- call addr sizeWord ;;
    sr <- getSR ;;
    writeBus sizeWord a sr ;;
    AddCycles (8 + eaBase).

Definition makeMOVEtoCCR (mode reg : Z) : opFunc B :=
  let read := makeEARead mode reg in
  let '(eaBase, eaLong) := eaFetchConst mode reg in
  val <- call read sizeWord ;;
  setCCR (u8 val) ;;
  AddCycles (12 + eaBase) ;;
  when (sizeWord =? sizeLong) (AddCycles eaLong).

Definition makeMOVEtoSR (mode reg : Z) : opFunc B :=
  let read := makeEARead mode reg in
  let '(eaBase, eaLong) := eaFetchConst mode reg in
  privileged (
    val <- call read sizeWord ;;
    setSR (u16 val) ;;
    AddCycles (12 + eaBase) ;;
    when (sizeWord =? sizeLong) (AddCycles eaLong)).

Definition opMOVEtoUSP : opFunc B :=
  privileged (
    ir <- getir ;;
    let an := Z.land ir 7 in
    a <- getA an ;; setUSP a ;;
    AddCycles 4).

Definition opMOVEfromUSP : opFunc B :=
  privileged (
    ir <- getir ;;
    let an := Z.land ir 7 in
    usp <- getUSP ;; setA an usp ;;
    AddCycles 4).

(** ANDI, ORI and EORI to CCR and to SR: the operator is the only difference. *)
Definition immToCCR (op : Z -> Z -> Z) : opFunc B :=
  imm <- fetchPC ;;
  sr <- getSR ;;
  setCCR (op (u8 sr) (u8 imm)) ;;
  AddCycles 20.

Definition immToSR (op : Z -> Z -> Z) : opFunc B :=
  privileged (
    imm <- fetchPC ;;
    sr <- getSR ;;
    setSR (op sr imm) ;;
    AddCycles 20).

Definition opANDItoCCR : opFunc B := immToCCR Z.land.
Definition opANDItoSR : opFunc B := immToSR Z.land.
Definition opORItoCCR : opFunc B := immToCCR Z.lor.
Definition opORItoSR : opFunc B := immToSR Z.lor.
Definition opEORItoCCR : opFunc B := immToCCR Z.lxor.
Definition opEORItoSR : opFunc B := immToSR Z.lxor.
End ctrl.
