(* ===== verification/Frames.v ===== *)
(** * Stacks, exception frames and interrupts (exception.go, interrupt.go, RTE)

    A processor whose stack and vector table are memory: what an exception or
    an interrupt pushes, where it continues, and that RTE undoes it.  The two
    stack pointers are followed through mode changes by [lusp] and [lssp], the
    user and supervisor stack pointers the programmer sees. *)

From S2P Require Import Prelude Monad Cpu Ram Flags Exception Timing Ea OpsCommon Exec.
From S2P Require Import OpsMove OpsBranch OpsCtrl.

Section stacks.
Context {B : Type}.
Implicit Types c : CPU B.

Definition inS c : bool := tstb (rSR (reg c)) flagS.

(** A7 is one of the two stack pointers; the other one is saved. *)
Definition lusp c : Z := if inS c then rUSP (reg c) else areg c 7.
Definition lssp c : Z := if inS c then areg c 7 else rSSP (reg c).

(** Everything but SR and the stack pointers. *)
Definition same_rest c c' : Prop :=
  rD (reg c') = rD (reg c) /\ (forall i, 0 <= i < 7 -> areg c' i = areg c i) /\
  rPC (reg c') = rPC (reg c) /\ rIR (reg c') = rIR (reg c) /\ bus c' = bus c /\
  cycles c' = cycles c /\ ir c' = ir c /\ stopped c' = stopped c /\ halted c' = halted c /\
  prevPC c' = prevPC c /\ pendingIPL c' = pendingIPL c /\ pendingVec c' = pendingVec c /\
  deficit c' = deficit c.

Lemma put_A7_low c v i : 0 <= i < 7 -> areg (put_A 7 v c) i = areg c i.
Proof. intros Hi. unfold areg, put_A. simpl. by rewrite list_lookup_insert_ne by lia. Qed.

Lemma put_A7_high c v : sized c -> areg (put_A 7 v c) 7 = v.
Proof. intros Hs. by rewrite areg_put_A. Qed.

Lemma flagS_masked sr : tstb (Z.land sr 0xA71F) flagS = tstb sr flagS.
Proof.
  change flagS with (2 ^ 13). rewrite !tstb_pow2, Z.land_spec by lia. apply andb_true_r.
Qed.

Lemma setSR_run c sr :
  sized c ->
  exists c', setSR sr c = Some (tt, c') /\ sized c' /\ rSR (reg c') = Z.land sr 0xA71F /\
    lusp c' = lusp c /\ lssp c' = lssp c /\ same_rest c c'.
Proof.
  intros Hs. unfold setSR. exec. cbv zeta.
  assert (forall x, (Z.land x flagS =? 0) = negb (tstb x flagS)) as Ht
    by (intros x; unfold tstb; by destruct (_ =? 0)).
  rewrite !Ht, !negb_involutive.
  unfold lusp, lssp, inS.
  destruct (tstb (rSR (reg c)) flagS) eqn:E, (tstb sr flagS) eqn:E'; simpl; exec;
    eexists; (split; [reflexivity|]); simpl (rSR _); autorewrite with regs;
    rewrite flagS_masked, E'; (split; [state_side|]); (split; [done|]).
  - by repeat split.
  - rewrite put_A7_high by state_side. split; [done|]. split; [done|].
    repeat split. intros i Hi. autorewrite with regs. by rewrite put_A7_low.
  - rewrite put_A7_high by state_side. split; [done|]. split; [done|].
    repeat split. intros i Hi. autorewrite with regs. by rewrite put_A7_low.
  - by repeat split.
Qed.

Lemma tstb_S_lor sr : tstb (Z.ldiff (Z.lor sr flagS) flagT) flagS = true.
Proof.
  change flagS with (2 ^ 13). rewrite tstb_pow2, Z.ldiff_spec, Z.lor_spec by lia.
  by rewrite orb_true_r.
Qed.

Lemma enterSupervisor_run c :
  sized c ->
  exists c', enterSupervisor c = Some (tt, c') /\ sized c' /\ inS c' = true /\
    rSR (reg c') = Z.ldiff (Z.lor (rSR (reg c)) flagS) flagT /\
    areg c' 7 = lssp c /\ rUSP (reg c') = lusp c /\ same_rest c c'.
Proof.
  intros Hs. unfold enterSupervisor. exec. unfold lssp, lusp, inS.
  replace (Z.land (rSR (reg c)) flagS =? 0) with (negb (tstb (rSR (reg c)) flagS))
    by (unfold tstb; by destruct (_ =? 0)).
  destruct (tstb (rSR (reg c)) flagS); simpl; exec; eexists; (split; [reflexivity|]);
    simpl (rSR _); autorewrite with regs; rewrite tstb_S_lor; (split; [state_side|]);
    (split; [done|]); (split; [done|]).
  - by repeat split.
  - rewrite put_A7_high by state_side. split; [done|]. split; [done|].
    repeat split. intros i Hi. autorewrite with regs. by rewrite put_A7_low.
Qed.
End stacks.

(** ** Pushing and popping a frame *)

Section frames.
Context {B : Type} `{!Bus B, !BusTyped B} {region : Z -> Prop} {HM : BusMemory B region}.
Implicit Types c : CPU B.

(** The frame below the supervisor stack pointer [sp] is memory: six bytes, on
    an even address, that do not wrap around the bus or reach into the vectors. *)
Definition frame (sp : Z) : Z := Z.land (u32 (sp - 6)) 0xFFFFFF.
Definition frame_ok (sp : Z) : Prop :=
  Z.odd sp = false /\ 0x400 <= frame sp /\ frame sp + 6 <= 0x1000000 /\
  forall i, 0 <= i < 6 -> region (frame sp + i).

(** The vector table is memory. *)
Definition vectors_ok : Prop := forall i, 0 <= i < 0x400 -> region i.

Lemma odd_u32_sub x k : Z.odd (u32 (x - 2 * k)) = Z.odd x.
Proof.
  unfold u32. rewrite !Zodd_mod. f_equal. change 0x100000000 with (2 * 0x80000000).
  rewrite Z.rem_mul_r by lia. zlia.
Qed.

Lemma frame_long sp : frame_ok sp -> Z.land (u32 (sp - 4)) 0xFFFFFF = frame sp + 2.
Proof.
  intros (_ & _ & H & _). unfold frame in *. rewrite !land_FFFFFF in *. unfold u32 in *. zlia.
Qed.

Lemma frame_acc_long sp : frame_ok sp -> accessible region sizeLong (u32 (sp - 4)).
Proof.
  intros Hf. split.
  - right. replace (sp - 4) with (sp - 2 * 2) by lia. rewrite odd_u32_sub. apply Hf.
  - intros i Hi. rewrite frame_long by done. unfold sizeLong in Hi.
    replace (frame sp + 2 + i) with (frame sp + (2 + i)) by lia. apply Hf. lia.
Qed.

Lemma frame_acc_word sp : frame_ok sp -> accessible region sizeWord (u32 (sp - 6)).
Proof.
  intros Hf. split.
  - right. replace (sp - 6) with (sp - 2 * 3) by lia. rewrite odd_u32_sub. apply Hf.
  - intros i Hi. apply Hf. unfold sizeWord in Hi. lia.
Qed.

Lemma vector_acc v : 0 <= v < 256 -> vectors_ok -> accessible region sizeLong (u32 (v * 4)).
Proof.
  intros Hv Hvec. rewrite u32_small by (unfold is_u32; lia). split.
  - right. rewrite Z.odd_mul. apply andb_false_r.
  - intros i Hi. rewrite land_FFFFFF, Z.mod_small by lia. apply Hvec. unfold sizeLong in Hi. lia.
Qed.

(** The memory after a frame holding [pc] and [sr] has been pushed at [sp]. *)
Definition framed (sp pc sr : Z) (b : B) : B :=
  store sizeWord (u32 (sp - 6)) sr (store sizeLong (u32 (sp - 4)) pc b).

Lemma pushFrame c pc sr :
  halted c = false -> sized c -> is_u32 pc -> is_u16 sr -> frame_ok (areg c 7) ->
  (pushLong pc ;; pushWord sr) c =
  Some (tt, with_bus (framed (areg c 7) pc sr (bus c)) (put_A 7 (u32 (areg c 7 - 6)) c)).
Proof.
  intros Hh Hs Hpc Hsr Hf.
  rewrite (bind_eval _ _ _ _ _ (pushLong_mem c pc Hh Hs Hpc (frame_acc_long _ Hf))).
  assert (u32 (u32 (areg c 7 - 4) - 2) = u32 (areg c 7 - 6)) as E by wordlia.
  rewrite (pushWord_mem (region := region)); autorewrite with regs; rewrite ?put_A7_high, ?E by done;
    [|done|state_side|done|by apply frame_acc_word].
  do 2 f_equal. unfold with_bus, put_A, on_reg, with_A. simpl. by rewrite list_insert_insert_eq.
Qed.

(** The frame is read back; memory outside it is as before. *)
Lemma framed_word sp pc sr b :
  frame_ok sp -> is_u16 sr -> mem sizeWord (framed sp pc sr b) (u32 (sp - 6)) = sr.
Proof. intros. apply mem_store_same; [apply size_word|by apply frame_acc_word|done]. Qed.

Lemma framed_long sp pc sr b :
  frame_ok sp -> is_u32 pc -> is_u16 sr ->
  mem sizeLong (framed sp pc sr b) (u32 (sp - 4)) = pc.
Proof.
  intros Hf Hpc Hsr. unfold framed.
  rewrite mem_store_disjoint; [|apply size_word|by apply frame_acc_word|done|apply size_long|].
  - apply mem_store_same; [apply size_long|by apply frame_acc_long|done].
  - right. rewrite frame_long by done. unfold frame, sizeWord. lia.
Qed.

Lemma framed_outside sp pc sr b x :
  frame_ok sp -> is_u32 pc -> is_u16 sr -> (x < frame sp \/ frame sp + 6 <= x) ->
  peek (framed sp pc sr b) x = peek b x.
Proof.
  intros Hf Hpc Hsr Hx. unfold framed.
  rewrite peek_store; [|apply size_word|by apply frame_acc_word|done|fold (frame sp); unfold sizeWord; lia].
  apply peek_store; [apply size_long|by apply frame_acc_long|done|].
  rewrite frame_long by done. unfold sizeLong. lia.
Qed.

Lemma framed_vector sp pc sr b v :
  frame_ok sp -> is_u32 pc -> is_u16 sr -> 0 <= v < 256 ->
  mem sizeLong (framed sp pc sr b) (u32 (v * 4)) = mem sizeLong b (u32 (v * 4)).
Proof.
  intros Hf Hpc Hsr Hv. pose proof Hf as (_ & H & _).
  assert (Z.land (u32 (v * 4)) 0xFFFFFF = v * 4) as E
    by (rewrite land_FFFFFF, u32_small by (unfold is_u32; lia); apply Z.mod_small; lia).
  unfold mem. simpl. rewrite E. rewrite !framed_outside by (done || lia). done.
Qed.

(** ** Exceptions *)

(** The address the frame gets, and the one the processor continues at: the
    vector's entry, or that of the uninitialized-interrupt vector. *)
Definition savedPC (v : Z) c : Z := if faultVector v then prevPC c else rPC (reg c).

Definition target (v : Z) (b : B) : Z :=
  let h := mem sizeLong b (u32 (v * 4)) in
  if h =? 0 then mem sizeLong b (u32 (vecUninitialized * 4)) else h.

(** A frame for [pc] has been pushed on the supervisor stack: the processor is
    in supervisor mode without trace, and nothing else has changed. *)
Definition entered (pc : Z) c c' : Prop :=
  sized c' /\ inS c' = true /\ areg c' 7 = u32 (lssp c - 6) /\ rUSP (reg c') = lusp c /\
  bus c' = framed (lssp c) pc (rSR (reg c)) (bus c) /\
  rD (reg c') = rD (reg c) /\ (forall i, 0 <= i < 7 -> areg c' i = areg c i).

Lemma exception_run v c :
  WF c -> halted c = false -> 0 <= v < 256 -> vectors_ok -> frame_ok (lssp c) ->
  exists c', exception v c = Some (tt, c') /\ entered (savedPC v c) c c' /\
    rSR (reg c') = Z.ldiff (Z.lor (rSR (reg c)) flagS) flagT /\
    if target v (bus c) =? 0 then halted c' = true
    else halted c' = false /\ rPC (reg c') = target v (bus c) /\
         cycles c' = u64 (cycles c + 34).
Proof.
  intros Hwf Hh Hv Hvec Hf. pose proof (WF_sized c Hwf) as Hs.
  assert (is_u32 (savedPC v c)) as Hpc by (unfold savedPC; case_if; apply Hwf).
  pose proof (wf_SR c Hwf) as Hsr.
  unfold exception. exec. fold (savedPC v c). cbv zeta.
  destruct (enterSupervisor_run c Hs) as (c1 & E1 & Hs1 & HS1 & HSR1 & HA1 & HU1 & R1).
  destruct R1 as (RD & RA & RPC & _ & Rbus & Rcyc & _ & _ & Rh & _).
  rewrite (bind_eval _ _ _ _ _ E1). rewrite <- bind_assoc.
  rewrite (bind_eval _ _ _ _ _ (pushFrame c1 (savedPC v c) (rSR (reg c)) ltac:(congruence) Hs1 Hpc Hsr
    ltac:(by rewrite HA1))).
  rewrite HA1, Rbus. rewrite (u32_small v) by (unfold is_u32; lia).
  set (c2 := with_bus _ _).
  assert (halted c2 = false) as Hh2 by (simpl; congruence).
  assert (entered (savedPC v c) c c2) as Hent.
  { unfold entered, c2. autorewrite with regs. rewrite put_A7_high by done.
    split; [state_side|]. repeat split; [done..|].
    intros i Hi. autorewrite with regs. rewrite put_A7_low by done. by apply RA. }
  rewrite (bind_eval _ _ _ _ _ (readBus_mem _ _ _ Hh2 size_long (vector_acc v Hv Hvec))).
  change (vecUninitialized * 4) with (15 * 4).
  rewrite <- (u32_small (15 * 4)) by (unfold is_u32; lia).
  assert (forall w, 0 <= w < 256 ->
    mem sizeLong (bus c2) (u32 (w * 4)) = mem sizeLong (bus c) (u32 (w * 4))) as Hm
    by (intros w Hw; by apply framed_vector).
  rewrite Hm by done. unfold target.
  destruct (Z.eqb_spec (mem sizeLong (bus c) (u32 (v * 4))) 0) as [E0|E0].
  - rewrite (bind_eval _ _ _ _ _ (readBus_mem _ _ _ Hh2 size_long (vector_acc 15 ltac:(lia) Hvec))).
    rewrite Hm by done. change (vecUninitialized) with 15.
    destruct (Z.eqb_spec (mem sizeLong (bus c) (u32 (15 * 4))) 0) as [E1'|E1'].
    + eexists. split; [reflexivity|]. split; [exact Hent|]. by split.
    + exec. eexists. split; [reflexivity|]. split; [exact Hent|]. simpl.
      split; [done|]. split; [congruence|]. split; [done|]. by rewrite Rcyc.
  - exec. destruct (Z.eqb_spec (mem sizeLong (bus c) (u32 (v * 4))) 0); [done|].
    eexists. split; [reflexivity|]. split; [exact Hent|]. simpl.
    split; [done|]. split; [congruence|]. split; [done|]. by rewrite Rcyc.
Qed.

(** RTE pops the frame at [sp - 6]. *)
Lemma rte_run sp c :
  sized c -> halted c = false -> inS c = true -> is_u32 sp -> frame_ok sp ->
  areg c 7 = u32 (sp - 6) ->
  exists c', opRTE c = Some (tt, c') /\ sized c' /\
    rPC (reg c') = mem sizeLong (bus c) (u32 (sp - 4)) /\
    rSR (reg c') = Z.land (mem sizeWord (bus c) (u32 (sp - 6))) 0xA71F /\
    lusp c' = rUSP (reg c) /\ lssp c' = sp /\ bus c' = bus c /\ halted c' = false /\
    rD (reg c') = rD (reg c) /\ (forall i, 0 <= i < 7 -> areg c' i = areg c i) /\
    cycles c' = u64 (cycles c + 20).
Proof.
  intros Hs Hh HS Hsp Hf HA. unfold opRTE, supervisor. exec. fold (inS c). rewrite HS. simpl (negb _).
  cbv iota. assert (u32 (u32 (sp - 6) + 2) = u32 (sp - 4)) as E4 by wordlia.
  assert (u32 (u32 (sp - 4) + 4) = sp) as E0 by wordlia.
  erewrite bind_eval; [|apply (popWord_mem (region := region)); [done|done|rewrite HA; by apply frame_acc_word]].
  rewrite HA, E4.
  erewrite bind_eval; [|apply (popLong_mem (region := region)); [done|state_side|]];
    rewrite put_A7_high by done; [|by apply frame_acc_long].
  rewrite E0. simpl (bus _). set (c2 := put_A 7 sp _).
  assert (sized c2) as Hs2 by (unfold c2; state_side).
  destruct (setSR_run c2 (mem sizeWord (bus c) (u32 (sp - 6))) Hs2)
    as (c3 & E3 & Hs3 & HSR & HU & HP & RD & RA & _ & _ & Rbus & Rcyc & _ & _ & Rh & _).
  rewrite (bind_eval _ _ _ _ _ E3). exec. eexists. split; [reflexivity|]. simpl.
  split; [state_side|]. split; [done|]. split; [done|].
  assert (inS c2 = true) as HS2 by done.
  split; [change (lusp c3 = rUSP (reg c)); rewrite HU; unfold lusp; by rewrite HS2|].
  split; [change (lssp c3 = sp); rewrite HP; unfold lssp; rewrite HS2; unfold c2; apply put_A7_high; state_side|].
  split; [done|]. split; [by rewrite Rh|]. split; [done|]. split; [|by rewrite Rcyc].
  intros i Hi. change (areg c3 i = areg c i). rewrite RA by done. unfold c2. by rewrite !put_A7_low.
Qed.

(** ** Interrupts *)

(** The vector of an interrupt request, and where the processor continues. *)
Definition irqVector c : Z :=
  match pendingVec c with Some v => v | None => u8 (24 + pendingIPL c) end.

Definition irqTarget c : Z :=
  let h := mem sizeLong (bus c) (u32 (irqVector c * 4)) in
  if h =? 0 then mem sizeLong (bus c) (u32 (vecSpuriousInterrupt * 4)) else h.

Lemma irqVector_range c : WF c -> 0 <= irqVector c < 256.
Proof.
  intros Hwf. unfold irqVector. destruct (pendingVec c) eqn:E; [by apply (wf_vec c Hwf)|].
  apply u8_range.
Qed.

(** The requests the processor accepts: those above the mask in SR, and
    level 7. *)
Definition irqMask c : Z := rSR (reg c) / 0x100 mod 8.

Definition accepts (level : Z) c : bool :=
  negb (level =? 0) && ((irqMask c <? level) || (level =? 7)).

Lemma checkInterrupt_run c :
  checkInterrupt c = if accepts (pendingIPL c) c then processInterrupt c else Some (tt, c).
Proof.
  unfold checkInterrupt, accepts. exec.
  destruct (Z.eqb_spec (pendingIPL c) 0); simpl; [done|]. exec.
  replace (u8 (Z.land (Z.shiftr (rSR (reg c)) 8) 7)) with (irqMask c).
  - by destruct (_ || _).
  - rewrite land_7, Z.shiftr_div_pow2 by lia. unfold irqMask. change (2 ^ 8) with 0x100.
    symmetry. apply u8_small. unfold is_u8. zlia.
Qed.

Lemma mask_S sr level :
  tstb sr flagS = true -> tstb (Z.lor (Z.land sr 0xF8FF) level) flagS = true.
Proof.
  change flagS with (2 ^ 13). rewrite !tstb_pow2, Z.lor_spec, Z.land_spec by lia. by intros ->.
Qed.

(** The status register an interrupt of [level] leaves. *)
Lemma irq_SR sr level :
  0 <= level <= 7 ->
  let sr' := Z.lor (Z.land (Z.ldiff (Z.lor sr flagS) flagT) 0xF8FF) (u16 (Z.shiftl level 8)) in
  tstb sr' flagT = false /\ sr' / 0x100 mod 8 = level /\ sr' mod 0x20 = sr mod 0x20.
Proof.
  intros Hl sr'. assert (u16 (Z.shiftl level 8) = Z.shiftl level 8) as E.
  { apply u16_small. rewrite Z.shiftl_mul_pow2 by lia. unfold is_u16. lia. }
  assert (forall i, 0 <= i -> Z.testbit sr' i =
    ((Z.testbit sr i || Z.testbit flagS i) && negb (Z.testbit flagT i) && Z.testbit 0xF8FF i) ||
    Z.testbit level (i - 8)) as Hb.
  { intros i Hi. unfold sr'. rewrite E, Z.lor_spec, Z.land_spec, Z.ldiff_spec, Z.lor_spec, Z.shiftl_spec by lia.
    done. }
  split; [|split].
  - change flagT with (2 ^ 15). rewrite tstb_pow2, Hb by lia.
    rewrite (testbit_high 3 level) by lia. simpl. by rewrite andb_false_r.
  - rewrite <- (Z.shiftr_div_pow2 _ 8), <- land_7 by lia. apply Z.bits_inj'. intros i Hi.
    rewrite Z.land_spec, Z.shiftr_spec, Hb by lia. replace (i + 8 - 8) with i by lia.
    destruct (Z_lt_le_dec i 3);
      [|by rewrite (testbit_high 3 7 i), (testbit_high 3 level i), andb_false_r by lia].
    enum_upto i 3%nat; simpl; by rewrite ?andb_false_r, ?andb_true_r.
  - change 0x20 with (2 ^ 5). rewrite <- !land_mask by lia. change (2 ^ 5 - 1) with 0x1F.
    apply Z.bits_inj'. intros i Hi. rewrite !Z.land_spec, Hb by lia.
    destruct (Z_lt_le_dec i 5); [|by rewrite (testbit_high 5 0x1F i), !andb_false_r by lia].
    rewrite (Z.testbit_neg_r level) by lia.
    enum_upto i 5%nat; simpl; by rewrite ?andb_true_r, ?orb_false_r.
Qed.

Lemma interrupt_run c :
  sized c -> is_u16 (rSR (reg c)) -> is_u32 (rPC (reg c)) -> 0 <= irqVector c < 256 ->
  halted c = false -> vectors_ok -> frame_ok (lssp c) ->
  exists c', processInterrupt c = Some (tt, c') /\ entered (rPC (reg c)) c c' /\
    rSR (reg c') = Z.lor (Z.land (Z.ldiff (Z.lor (rSR (reg c)) flagS) flagT) 0xF8FF)
                     (u16 (Z.shiftl (pendingIPL c) 8)) /\
    rPC (reg c') = irqTarget c /\ cycles c' = u64 (cycles c + 44) /\
    pendingIPL c' = 0 /\ pendingVec c' = None /\ stopped c' = false /\ halted c' = false.
Proof.
  intros Hs Hsr Hpc Hiv Hh Hvec Hf. unfold processInterrupt. exec. fold (irqVector c). set (c0 := with_pending 0 None c).
  destruct (enterSupervisor_run c0 Hs) as (c1 & E1 & Hs1 & HS1 & HSR1 & HA1 & HU1 & R1).
  destruct R1 as (RD & RA & RPC & _ & Rbus & Rcyc & _ & _ & Rh & _ & RIPL & Rvec & _).
  change (lssp c0) with (lssp c) in HA1. change (lusp c0) with (lusp c) in HU1.
  rewrite (bind_eval _ _ _ _ _ E1). exec. rewrite <- bind_assoc.
  set (c2 := on_reg (with_SR _) c1).
  assert (areg c2 7 = lssp c) as HA2 by done.
  assert (rPC (reg c2) = rPC (reg c)) as -> by exact RPC.
  rewrite (bind_eval _ _ _ _ _ (pushFrame c2 (rPC (reg c)) (rSR (reg c)) ltac:(simpl; by rewrite Rh)
    Hs1 Hpc Hsr ltac:(by rewrite HA2))).
  rewrite HA2. assert (bus c2 = bus c) as -> by exact Rbus.
  set (c3 := with_bus _ _). assert (halted c3 = false) as Hh3 by (simpl; by rewrite Rh).
  assert (entered (rPC (reg c)) c c3) as Hent.
  { unfold entered, c3. autorewrite with regs. rewrite put_A7_high by done.
    split; [state_side|]. split; [apply mask_S; unfold inS in HS1; by rewrite HS1|].
    repeat split; [done..|].
    intros i Hi. autorewrite with regs. rewrite put_A7_low by done. by apply RA. }
  assert (forall w, 0 <= w < 256 ->
    mem sizeLong (bus c3) (u32 (w * 4)) = mem sizeLong (bus c) (u32 (w * 4))) as Hm
    by (intros w Hw; by apply framed_vector).
  rewrite (bind_eval _ _ _ _ _ (readBus_mem _ _ _ Hh3 size_long (vector_acc _ Hiv Hvec))), Hm by done.
  assert ((if mem sizeLong (bus c) (u32 (irqVector c * 4)) =? 0
           then readBus sizeLong (vecSpuriousInterrupt * 4)
           else ret (mem sizeLong (bus c) (u32 (irqVector c * 4)))) c3 = Some (irqTarget c, c3)) as E.
  { unfold irqTarget. case_if; [|done]. rewrite <- (Hm vecSpuriousInterrupt) by done.
    rewrite <- (u32_small (vecSpuriousInterrupt * 4)) at 1 by done.
    apply readBus_mem; [done|apply size_long|by apply vector_acc]. }
  rewrite (bind_eval _ _ _ _ _ E). exec. eexists. split; [reflexivity|]. split; [exact Hent|].
  simpl. rewrite HSR1, Rcyc, RIPL, Rvec. repeat split; done.
Qed.

(** ** Properties *)

(** C32: writing the status register switches stacks and nothing else: both
    stack pointers the programmer sees, the other registers, the memory and the
    rest of the state are kept, and only the implemented SR bits are stored. *)
Theorem setSR_keeps_stacks c sr :
  sized c ->
  exists c', setSR sr c = Some (tt, c') /\ rSR (reg c') = Z.land sr 0xA71F /\
    lusp c' = lusp c /\ lssp c' = lssp c /\ same_rest c c'.
Proof.
  intros Hs. destruct (setSR_run c sr Hs) as (c' & E & _ & HSR & HU & HP & HR). eauto 7.
Qed.

(** C13: what an exception does.  With a stack and a vector table in memory,
    exception [v] pushes the return address (the faulting instruction's own
    address for illegal, privileged and line A/F instructions) and the old SR
    on the supervisor stack, changes no other memory, enters supervisor mode
    with trace off, keeps the data and address registers and the user stack
    pointer, and continues at the vector's handler for 34 cycles; when both
    the vector and the uninitialized-interrupt vector are zero it halts. *)
Theorem exception_enters v c :
  WF c -> halted c = false -> 0 <= v < 256 -> vectors_ok -> frame_ok (lssp c) ->
  exists c', exception v c = Some (tt, c') /\
    lssp c' = u32 (lssp c - 6) /\ lusp c' = lusp c /\
    mem sizeWord (bus c') (u32 (lssp c - 6)) = rSR (reg c) /\
    mem sizeLong (bus c') (u32 (lssp c - 4)) = savedPC v c /\
    (forall x, x < frame (lssp c) \/ frame (lssp c) + 6 <= x -> peek (bus c') x = peek (bus c) x) /\
    rSR (reg c') = Z.ldiff (Z.lor (rSR (reg c)) flagS) flagT /\
    rD (reg c') = rD (reg c) /\ (forall i, 0 <= i < 7 -> areg c' i = areg c i) /\
    if target v (bus c) =? 0 then halted c' = true
    else halted c' = false /\ rPC (reg c') = target v (bus c) /\ cycles c' = u64 (cycles c + 34).
Proof.
  intros Hwf Hh Hv Hvec Hf.
  destruct (exception_run v c Hwf Hh Hv Hvec Hf) as (c' & E & Hent & HSR & Hend).
  destruct Hent as (_ & HS & HA & HU & Hbus & HD & HA7).
  assert (is_u32 (savedPC v c)) as Hpc by (unfold savedPC; case_if; apply Hwf).
  pose proof (wf_SR c Hwf) as Hsr. exists c'. split; [done|]. unfold lssp at 1, lusp at 1.
  rewrite HS, Hbus, framed_word, framed_long by done.
  do 4 (split; [done|]). split; [|done]. intros x Hx. by apply framed_outside.
Qed.

(** C14: RTE returns from an exception.  A handler may change registers and
    memory; as long as it gets back to the frame (same A7, still in supervisor
    mode, the six bytes of the frame and the saved user stack pointer intact),
    RTE restores the interrupted context: the pushed PC, the old SR (its
    implemented bits) and both stack pointers. *)
Theorem exception_return v c :
  WF c -> halted c = false -> 0 <= v < 256 -> vectors_ok -> frame_ok (lssp c) ->
  exists c1, exception v c = Some (tt, c1) /\
    forall c2, sized c2 -> halted c2 = false -> inS c2 = true ->
      areg c2 7 = areg c1 7 -> rUSP (reg c2) = rUSP (reg c1) ->
      (forall i, 0 <= i < 6 -> peek (bus c2) (frame (lssp c) + i) = peek (bus c1) (frame (lssp c) + i)) ->
      exists c3, opRTE c2 = Some (tt, c3) /\ rPC (reg c3) = savedPC v c /\
        rSR (reg c3) = Z.land (rSR (reg c)) 0xA71F /\ lusp c3 = lusp c /\ lssp c3 = lssp c /\
        rD (reg c3) = rD (reg c2) /\ (forall i, 0 <= i < 7 -> areg c3 i = areg c2 i) /\
        bus c3 = bus c2.
Proof.
  intros Hwf Hh Hv Hvec Hf.
  destruct (exception_run v c Hwf Hh Hv Hvec Hf) as (c1 & E & Hent & HSR & _).
  destruct Hent as (_ & _ & HA & HU & Hbus & _). exists c1. split; [done|].
  intros c2 Hs2 Hh2 HS2 HA2 HU2 Hmem.
  assert (is_u32 (savedPC v c)) as Hpc by (unfold savedPC; case_if; apply Hwf).
  assert (is_u32 (lssp c)) as Hsp by (unfold lssp; case_if; [by apply WF_areg|apply Hwf]).
  pose proof (wf_SR c Hwf) as Hsr.
  destruct (rte_run (lssp c) c2 Hs2 Hh2 HS2 Hsp Hf) as (c3 & E3 & _ & HPC & HSR3 & HU3 & HP3 & Hb3 & _ & HD3 & HA3 & _);
    [congruence|].
  exists c3. split; [done|]. rewrite HPC, HSR3, HU3, HP3, HU2, HU.
  assert (mem sizeLong (bus c2) (u32 (lssp c - 4)) = savedPC v c) as ->.
  { transitivity (mem sizeLong (bus c1) (u32 (lssp c - 4))); [|by rewrite Hbus, framed_long].
    unfold mem. simpl. rewrite frame_long, <- !Z.add_assoc by done. rewrite !Hmem by lia. done. }
  assert (mem sizeWord (bus c2) (u32 (lssp c - 6)) = rSR (reg c)) as ->.
  { transitivity (mem sizeWord (bus c1) (u32 (lssp c - 6))); [|by rewrite Hbus, framed_word].
    unfold mem. simpl. fold (frame (lssp c)). rewrite <- (Z.add_0_r (frame (lssp c))) at 1 3.
    rewrite !Hmem by lia. by rewrite Z.add_0_r. }
  done.
Qed.

(** C15: what an interrupt does.  The processor pushes PC and the old SR on the
    supervisor stack, sets the interrupt mask to the request's level, clears
    trace, the request and the stopped state, and continues at the handler of
    the supplied vector, or of autovector [24 + level], or of the spurious
    vector when that entry is zero; it takes 44 cycles. *)
Theorem interrupt_enters c :
  WF c -> halted c = false -> vectors_ok -> frame_ok (lssp c) -> pendingIPL c <= 7 ->
  exists c', processInterrupt c = Some (tt, c') /\
    lssp c' = u32 (lssp c - 6) /\ lusp c' = lusp c /\
    mem sizeWord (bus c') (u32 (lssp c - 6)) = rSR (reg c) /\
    mem sizeLong (bus c') (u32 (lssp c - 4)) = rPC (reg c) /\
    (forall x, x < frame (lssp c) \/ frame (lssp c) + 6 <= x -> peek (bus c') x = peek (bus c) x) /\
    inS c' = true /\ tstb (rSR (reg c')) flagT = false /\
    rSR (reg c') / 0x100 mod 8 = pendingIPL c /\ rSR (reg c') mod 0x20 = rSR (reg c) mod 0x20 /\
    rPC (reg c') = irqTarget c /\ cycles c' = u64 (cycles c + 44) /\
    pendingIPL c' = 0 /\ stopped c' = false /\ halted c' = false.
Proof.
  intros Hwf Hh Hvec Hf Hl.
  pose proof (wf_SR c Hwf) as Hsr. pose proof (wf_PC c Hwf) as Hpc. pose proof (wf_IPL c Hwf) as Hi.
  destruct (interrupt_run c (WF_sized c Hwf) Hsr Hpc (irqVector_range c Hwf) Hh Hvec Hf)
    as (c' & E & Hent & HSR & HPC & Hcyc & HI & _ & Hst & Hh').
  destruct Hent as (_ & HS & HA & HU & Hbus & HD & HA7).
  exists c'. split; [done|]. unfold lssp at 1, lusp at 1.
  rewrite HS, Hbus, framed_word, framed_long by done.
  do 4 (split; [done|]). split; [intros x Hx; by apply framed_outside|]. split; [done|].
  destruct (irq_SR (rSR (reg c)) (pendingIPL c)) as (HT & HL & HF); [unfold is_u8 in Hi; lia|].
  rewrite <- HSR in *. repeat split; done.
Qed.

End frames.

(** ** Witnesses on a flat memory *)

(** A user-mode program at 0x1000, stacks at 0x4000 and 0x8000, the handlers of
    vectors 5 (divide by zero) and 28 (autovector 4) at 0x2000. *)
Definition sampleRam : Ram :=
  poke (28 * 4) [0; 0; 0x20; 0] (poke (5 * 4) [0; 0; 0x20; 0] ram0).
Definition sample : CPU Ram := cpuAt 0x1000 0x0015 0x4000 0x8000 sampleRam.

Lemma sample_WF : WF sample.
Proof. apply cpuAt_WF; wordlia. Qed.

Lemma sample_vectors : vectors_ok (region := fun _ => True).
Proof. done. Qed.

Lemma frame_ok_8000 : frame_ok (region := fun _ => True) 0x8000.
Proof. repeat split; vm_compute; congruence. Qed.

Lemma setSR_keeps_stacks_witness :
  exists c', setSR 0x2700 sample = Some (tt, c') /\ lusp c' = 0x4000 /\ lssp c' = 0x8000.
Proof.
  destruct (setSR_keeps_stacks sample 0x2700) as (c' & E & _ & HU & HP & _); [done|].
  exists c'. rewrite HU, HP. split; [exact E|]. split; reflexivity.
Defined.

Lemma exception_enters_witness :
  exists c', exception vecDivideByZero sample = Some (tt, c') /\
    rPC (reg c') = 0x2000 /\ mem sizeWord (bus c') 0x7FFA = 0x0015.
Proof.
  destruct (exception_enters (region := fun _ => True) vecDivideByZero sample)
    as (c' & E & _ & _ & HSR & _ & _ & _ & _ & _ & Hend);
    [exact sample_WF|reflexivity|done|exact sample_vectors|exact frame_ok_8000|].
  exists c'. split; [exact E|]. split; [apply Hend|exact HSR].
Defined.

Lemma exception_return_witness :
  exists c1 c3, exception vecDivideByZero sample = Some (tt, c1) /\ opRTE c1 = Some (tt, c3) /\
    rPC (reg c3) = 0x1000 /\ rSR (reg c3) = 0x0015 /\ lusp c3 = 0x4000 /\ lssp c3 = 0x8000.
Proof.
  destruct (exception_return (region := fun _ => True) vecDivideByZero sample) as (c1 & E & H);
    [exact sample_WF|reflexivity|done|exact sample_vectors|exact frame_ok_8000|].
  assert (E' := E). vm_compute in E'. injection E' as E'.
  destruct (H c1) as (c3 & E3 & HPC & HSR & HU & HP & _);
    [by rewrite <- E'|by rewrite <- E'|by rewrite <- E'|done|done|done|].
  exists c1, c3. rewrite HPC, HSR, HU, HP. split; [exact E|]. split; [exact E3|]. repeat split.
Defined.

Lemma interrupt_enters_witness :
  exists c', processInterrupt (with_pending 4 None sample) = Some (tt, c') /\
    rPC (reg c') = 0x2000 /\ rSR (reg c') / 0x100 mod 8 = 4.
Proof.
  destruct (interrupt_enters (region := fun _ => True) (with_pending 4 None sample))
    as (c' & E & _ & _ & _ & _ & _ & _ & _ & HM & _ & HPC & _);
    [destruct sample_WF; by constructor|reflexivity|exact sample_vectors|exact frame_ok_8000|done|].
  exists c'. rewrite HPC, HM. split; [exact E|]. split; reflexivity.
Defined.
