(* ===== verification/Calls.v ===== *)
(** * Subroutine linkage

    JSR with RTS and LINK with UNLK: each pair restores what the first
    instruction saved, whatever happens in between to the memory and registers
    they do not rely on. *)

From S2P Require Import Prelude Monad Cpu Ram Flags Exception Timing Ea OpsCommon Exec.
From S2P Require Import OpsMove OpsBranch OpsCtrl Frames.

Section calls.
Context {B : Type} `{!Bus B} {region : Z -> Prop} {HM : BusMemory B region}.
Implicit Types c : CPU B.

(** The four bytes of the long at [a] read the same in two memories. *)
Definition same_long (a : Z) (b b' : B) : Prop :=
  forall i, 0 <= i < 4 -> peek b' (Z.land a 0xFFFFFF + i) = peek b (Z.land a 0xFFFFFF + i).

Lemma same_long_mem a b b' : same_long a b b' -> mem sizeLong b' a = mem sizeLong b a.
Proof.
  intros H. unfold mem. simpl. pose proof (H 0) as H0. rewrite Z.add_0_r in H0.
  rewrite H0, (H 1), (H 2), (H 3) by lia. done.
Qed.

(** C36: RTS returns to the instruction after the JSR.  When the target address
    of a JSR has been computed, leaving PC behind the instruction, the call
    pushes that PC and jumps; RTS, from any state with the same stack pointer
    and the pushed long intact, continues there with the stack pointer back. *)
Theorem jsr_rts mode reg0 t c c1 :
  call (makeEAMemAddr mode reg0) sizeWord c = Some (t, c1) ->
  WF c1 -> halted c1 = false -> accessible region sizeLong (u32 (areg c1 7 - 4)) ->
  exists c2, makeJSR mode reg0 c = Some (tt, c2) /\ rPC (reg c2) = t /\
    areg c2 7 = u32 (areg c1 7 - 4) /\
    forall c3, sized c3 -> halted c3 = false -> areg c3 7 = areg c2 7 ->
      same_long (areg c2 7) (bus c2) (bus c3) ->
      exists c4, opRTS c3 = Some (tt, c4) /\ rPC (reg c4) = rPC (reg c1) /\
        areg c4 7 = areg c1 7 /\ rD (reg c4) = rD (reg c3) /\
        (forall i, 0 <= i < 7 -> areg c4 i = areg c3 i) /\ bus c4 = bus c3.
Proof.
  intros Ecall Hwf Hh Hacc. pose proof (WF_sized c1 Hwf) as Hs. pose proof (WF_areg c1 7 Hwf) as Hsp.
  pose proof (wf_PC c1 Hwf) as Hpc. unfold makeJSR.
  rewrite (bind_eval _ _ _ _ _ Ecall). exec.
  rewrite (bind_eval _ _ _ _ _ (pushLong_mem c1 (rPC (reg c1)) Hh Hs Hpc Hacc)). exec.
  eexists. split; [reflexivity|]. split; [done|]. autorewrite with regs. rewrite put_A7_high by done.
  split; [done|]. intros c3 Hs3 Hh3 HA3 Hmem. unfold opRTS.
  erewrite bind_eval; [|apply (popLong_mem (region := region)); [done|done|by rewrite HA3]]. exec.
  eexists. split; [reflexivity|]. simpl in *. rewrite HA3, (same_long_mem _ _ _ Hmem).
  rewrite mem_store_same by (done || apply size_long).
  split; [done|]. autorewrite with regs. rewrite put_A7_high by done.
  split; [wordlia|]. split; [done|]. split; [|done].
  intros i Hi. autorewrite with regs. by rewrite put_A7_low.
Qed.

(** C37: UNLK undoes LINK.  LINK An,#disp (An not A7) saves An on the stack,
    makes An the frame pointer and moves A7 by the displacement; UNLK An, from
    any state with the same frame pointer and the saved long intact, wherever
    A7 is by then, restores An and A7. *)
Theorem link_unlk c :
  let an := Z.land (ir c) 7 in
  WF c -> halted c = false -> an <> 7 ->
  accessible region sizeWord (rPC (reg c)) -> accessible region sizeLong (u32 (areg c 7 - 4)) ->
  exists c1, opLINK c = Some (tt, c1) /\
    areg c1 an = u32 (areg c 7 - 4) /\
    areg c1 7 = u32 (areg c 7 - 4 + s16 (mem sizeWord (bus c) (rPC (reg c)))) /\
    forall c2, sized c2 -> halted c2 = false -> Z.land (ir c2) 7 = an ->
      areg c2 an = areg c1 an -> same_long (areg c1 an) (bus c1) (bus c2) ->
      exists c3, opUNLK c2 = Some (tt, c3) /\ areg c3 an = areg c an /\ areg c3 7 = areg c 7 /\
        rD (reg c3) = rD (reg c2) /\
        (forall i, 0 <= i < 7 -> i <> an -> areg c3 i = areg c2 i) /\ bus c3 = bus c2.
Proof.
  intros an Hwf Hh Han Hop Hacc. pose proof (WF_sized c Hwf) as Hs.
  pose proof (WF_areg c 7 Hwf) as Hsp. pose proof (WF_areg c an Hwf) as Hav.
  pose proof (land_7_range (ir c)) as Hr. fold an in Hr.
  unfold opLINK. exec. fold an. rewrite (bind_eval _ _ _ _ _ (fetchPC_mem c Hh Hop)). exec.
  rewrite (bind_eval _ _ _ _ _ (pushLong_mem (on_reg (with_PC (u32 (rPC (reg c) + 2))) c) (areg c an)
    Hh Hs Hav Hacc)).
  exec. autorewrite with regs. rewrite put_A7_high by done.
  rewrite (areg_put_A _ an 7) by (state_side || lia). destruct (Z.eqb_spec an 7); [done|].
  autorewrite with regs. rewrite put_A7_high by done.
  eexists. split; [reflexivity|]. autorewrite with regs.
  rewrite put_A7_low, areg_put_A, Z.eqb_refl, put_A7_high by (state_side || lia).
  split; [done|]. split; [wordlia|].
  intros c2 Hs2 Hh2 Hir2 HA2 Hmem. simpl in Hmem. unfold opUNLK. exec. rewrite Hir2, HA2.
  erewrite bind_eval; [|apply (popLong_mem (region := region)); [done|state_side|]];
    rewrite put_A7_high by done; [|done].
  exec. eexists. split; [reflexivity|]. simpl (bus _). rewrite (same_long_mem _ _ _ Hmem).
  rewrite mem_store_same by (done || apply size_long). autorewrite with regs.
  rewrite areg_put_A, Z.eqb_refl by (state_side || lia).
  rewrite (areg_put_A _ an 7) by (state_side || lia). destruct (Z.eqb_spec an 7); [done|].
  rewrite put_A7_high by state_side.
  split; [done|]. split; [wordlia|]. split; [done|]. split; [|done].
  intros i Hi Hne. autorewrite with regs. rewrite areg_put_A by (state_side || lia).
  destruct (Z.eqb_spec an i); [done|]. by rewrite !put_A7_low.
Qed.
End calls.

(** JSR (A0) from 0x1002 with A7 at 0x8000, and LINK A6,#-8. *)
Lemma jsr_rts_witness :
  exists c2, makeJSR 2 0 (cpuAt 0x1002 0x2700 0 0x8000 ram0) = Some (tt, c2) /\ areg c2 7 = 0x7FFC.
Proof.
  destruct (jsr_rts (region := fun _ => True) 2 0 0 (cpuAt 0x1002 0x2700 0 0x8000 ram0)
    (cpuAt 0x1002 0x2700 0 0x8000 ram0)) as (c2 & E & _ & HA & _).
  - reflexivity.
  - apply cpuAt_WF; wordlia.
  - reflexivity.
  - split; [by right|done].
  - exists c2. split; [exact E|exact HA].
Defined.

Lemma link_unlk_witness :
  exists c1, opLINK (with_ir 0x4E56 (cpuAt 0x1002 0x2700 0 0x8000 (poke 0x1002 [0xFF; 0xF8] ram0))) =
    Some (tt, c1) /\ areg c1 7 = 0x7FF4.
Proof.
  destruct (link_unlk (region := fun _ => True)
    (with_ir 0x4E56 (cpuAt 0x1002 0x2700 0 0x8000 (poke 0x1002 [0xFF; 0xF8] ram0))))
    as (c1 & E & _ & HA & _).
  - destruct (cpuAt_WF 0x1002 0x2700 0 0x8000 (poke 0x1002 [0xFF; 0xF8] ram0)); try wordlia.
    by constructor.
  - reflexivity.
  - done.
  - split; [by right|done].
  - split; [by right|done].
  - exists c1. split; [exact E|exact HA].
Defined.
