(* ===== verification/Movem.v ===== *)
(** * MOVEM to and from memory (ops_move.go, opMOVEM)

    The register list of a MOVEM is a 16-bit mask; the predecrement store walks
    it with A7 in bit 0 and the address going down, the load with D0 in bit 0
    and the address going up.  Stored with one and loaded with the other, the
    registers of the list come back. *)

From S2P Require Import Prelude Monad Cpu Ram Flags Exception Timing Ea OpsCommon Exec.
From S2P Require Import OpsMove.

(** A loop that does nothing for some indices is the loop over the others. *)
Lemma foldM_filter {S A X} (p : X -> bool) (body : A -> X -> M S A) l acc s :
  foldM (fun a x => if p x then body a x else ret a) l acc s =
  foldM body (filter (fun x => p x = true) l) acc s.
Proof.
  revert acc s. induction l as [|x l IH]; intros acc s; [done|].
  rewrite filter_cons. simpl. destruct (p x); simpl.
  - apply bind_ext; [done|]. intros a s' _. apply IH.
  - unfold bind, ret. apply IH.
Qed.

Section movem.
Context {B : Type} `{!Bus B} {region : Z -> Prop} {HM : BusMemory B region}.
Implicit Types c : CPU B.

(** Register [ri] of D0..D7, A0..A7. *)
Definition reg16 c (ri : Z) : Z := if ri <? 8 then dreg c ri else areg c (ri - 8).
Definition put_reg16 (ri v : Z) c : CPU B :=
  if ri <? 8 then put_D ri v c else put_A (ri - 8) v c.

Lemma getReg16_run c ri : sized c -> 0 <= ri < 16 -> getReg16 ri c = Some (reg16 c ri, c).
Proof.
  intros Hs Hi. unfold getReg16, reg16.
  destruct (Z.ltb_spec ri 8); [apply getD_run|apply getA_run]; done || lia.
Qed.

Lemma setReg16_run c ri v :
  sized c -> 0 <= ri < 16 -> setReg16 ri v c = Some (tt, put_reg16 ri v c).
Proof.
  intros Hs Hi. unfold setReg16, put_reg16.
  destruct (Z.ltb_spec ri 8); [apply setD_run|apply setA_run]; done || lia.
Qed.

Lemma sized_put_reg16 c ri v : sized c -> sized (put_reg16 ri v c).
Proof. intros Hs. unfold put_reg16. case_if; state_side. Qed.

Lemma reg16_put c i j v :
  sized c -> 0 <= i < 16 -> 0 <= j < 16 ->
  reg16 (put_reg16 i v c) j = if i =? j then v else reg16 c j.
Proof.
  intros Hs Hi Hj. unfold reg16, put_reg16.
  destruct (Z.ltb_spec i 8), (Z.ltb_spec j 8); autorewrite with regs;
    rewrite ?dreg_put_D, ?areg_put_A by (done || lia); cmp_cases; done || lia.
Qed.

Lemma bus_put_reg16 ri v c : bus (put_reg16 ri v c) = bus c /\ halted (put_reg16 ri v c) = halted c.
Proof. unfold put_reg16. by case_if. Qed.

(** The registers a list of values is loaded into, by address order. *)
Lemma reg16_with_bus b c i : reg16 (with_bus b c) i = reg16 c i.
Proof. done. Qed.

(** ** Memory spans *)

(** [lo, hi) is memory that the bus does not wrap, on even addresses. *)
Definition span_ok (lo hi : Z) : Prop :=
  0 <= lo /\ hi <= 0x1000000 /\ Z.odd lo = false /\ forall a, lo <= a < hi -> region a.

Context (sz : Z) (Hsz : sz = sizeWord \/ sz = sizeLong).

Lemma sz_valid : valid_size sz.
Proof. destruct Hsz as [->| ->]; [apply size_word|apply size_long]. Qed.

Lemma sz_even k : Z.odd (sz * k) = false.
Proof. destruct Hsz as [->| ->]; by rewrite Z.odd_mul. Qed.

Lemma span_acc lo hi k :
  span_ok lo hi -> 0 <= k -> lo + sz * (k + 1) <= hi -> accessible region sz (lo + sz * k).
Proof.
  intros (H0 & H1 & Hodd & Hr) Hk Hhi. assert (0 < sz) by (destruct Hsz as [->| ->]; done).
  split; [right; by rewrite Z.odd_add, Hodd, sz_even|].
  intros i Hi. rewrite land_FFFFFF, Z.mod_small by nia. apply Hr. nia.
Qed.

(** The values stored from [a] upwards. *)
Definition block (b : B) (a : Z) (vs : list Z) : Prop :=
  forall k v, vs !! k = Some v -> mem sz b (a + sz * Z.of_nat k) = v.

(** What a load leaves in a register. *)
Definition loaded (v : Z) : Z := if sz =? sizeWord then u32 (s16 v) else v.

Lemma span_shift a hi : span_ok a hi -> span_ok (a + sz) hi.
Proof.
  intros (H0 & H1 & Hodd & Hr). assert (0 < sz) by (destruct Hsz as [->| ->]; done).
  repeat split; [lia|done| |intros; apply Hr; lia].
  rewrite Z.odd_add, Hodd, <- (Z.mul_1_r sz). by rewrite sz_even.
Qed.

Lemma next_addr a hi : span_ok a hi -> a + sz <= hi -> u32 (a + u32 sz) = a + sz.
Proof.
  intros (H0 & H1 & _) Hle. rewrite !u32_small; [done|..]; unfold is_u32;
    destruct Hsz as [->| ->]; unfold sizeWord, sizeLong in *; try rewrite u32_small; unfold is_u32; lia.
Qed.

Lemma span_first a hi : span_ok a hi -> a + sz <= hi -> accessible region sz a.
Proof.
  intros Hs Hle. replace a with (a + sz * 0) by lia. apply (span_acc a hi); [done|lia|lia].
Qed.

Lemma block_cons b a v vs : block b a (v :: vs) <-> mem sz b a = v /\ block b (a + sz) vs.
Proof.
  split.
  - intros H. split; [specialize (H 0%nat v eq_refl); by rewrite Z.mul_0_r, Z.add_0_r in H|].
    intros k w Hk. rewrite <- (H (S k) w Hk). f_equal. lia.
  - intros [H0 H] [|k] w Hk; [simplify_eq/=; by rewrite Z.mul_0_r, Z.add_0_r|].
    rewrite <- (H k w Hk). f_equal. lia.
Qed.

Lemma load_loop (ix : list Z) vs a hi c :
  sized c -> halted c = false -> span_ok a hi -> a + sz * Z.of_nat (length ix) <= hi ->
  Forall (fun i => 0 <= i < 16) ix -> NoDup ix -> length vs = length ix -> block (bus c) a vs ->
  exists c',
    foldM (fun addr i =>
      val <- readBus sz addr ;;
      let val := if sz =? sizeWord then u32 (s16 val) else val in
      setReg16 i val ;; ret (u32 (addr + u32 sz))) ix a c =
      Some (a + sz * Z.of_nat (length ix), c') /\
    sized c' /\ bus c' = bus c /\ halted c' = false /\
    (forall k i v, ix !! k = Some i -> vs !! k = Some v -> reg16 c' i = loaded v) /\
    (forall i, 0 <= i < 16 -> i ∉ ix -> reg16 c' i = reg16 c i).
Proof.
  revert vs a c. induction ix as [|i ix IH]; intros vs a c Hs Hh Hspan Hhi Hix Hnd Hlen Hblk.
  - exists c. rewrite Z.mul_0_r, Z.add_0_r. repeat split; try done; apply Hs.
  - destruct vs as [|v vs]; [done|]. injection Hlen as Hlen.
    rewrite length_cons, Nat2Z.inj_succ in *. apply block_cons in Hblk as [Hv Hblk].
    apply Forall_cons in Hix as [Hi Hix]. apply NoDup_cons in Hnd as [Hni Hnd].
    assert (0 < sz) by (destruct Hsz as [->| ->]; done).
    simpl foldM. rewrite bind_assoc.
    rewrite (bind_eval _ _ _ _ _ (readBus_mem _ _ _ Hh sz_valid (span_first a hi Hspan ltac:(nia)))).
    rewrite Hv. cbv zeta. fold (loaded v). rewrite bind_assoc.
    rewrite (bind_eval _ _ _ _ _ (setReg16_run c i (loaded v) Hs Hi)), bind_ret.
    rewrite (next_addr a hi) by (done || nia). destruct (bus_put_reg16 i (loaded v) c) as [Hb' Hh'].
    destruct (IH vs (a + sz) (put_reg16 i (loaded v) c)) as (c' & E & Hs' & Hb & Hh2 & Hin & Hout);
      [by apply sized_put_reg16|congruence|by apply span_shift|nia|done|done|done|by rewrite Hb'|].
    cbv zeta in E. exists c'. rewrite E. split; [do 2 f_equal; lia|]. split; [done|]. split; [congruence|].
    split; [done|]. split.
    + intros [|k] j w Hj Hw; simplify_eq/=; [|by apply (Hin k)].
      rewrite Hout, reg16_put, Z.eqb_refl by done. done.
    + intros j Hj Hnj. apply not_elem_of_cons in Hnj as [Hne Hnj].
      rewrite Hout, reg16_put by done. by destruct (Z.eqb_spec i j).
Qed.

(** ** The predecrement store *)

Lemma prev_addr a lo : span_ok lo a -> lo <= a - sz -> u32 (a - u32 sz) = a - sz.
Proof.
  intros (H0 & H1 & _) Hle. rewrite !u32_small; [done|..]; unfold is_u32;
    destruct Hsz as [->| ->]; unfold sizeWord, sizeLong in *; try rewrite u32_small; unfold is_u32; lia.
Qed.

(** What is stored of a register. *)
Definition stored (v : Z) : Z := v mod Modulus sz.

Lemma writeBus_stored a v c :
  halted c = false -> accessible region sz a -> is_u32 v ->
  writeBus sz a v c = Some (tt, with_bus (store sz a (stored v) (bus c)) c).
Proof.
  intros Hh Ha Hv.
  rewrite <- (writeBus_mem (region := region) sz a (stored v) c Hh sz_valid Ha) by (apply is_sz_mod, sz_valid).
  unfold writeBus. apply bind_ext; [done|]. intros h c' _. unfold stored.
  rewrite !land_Mask, Z.mod_mod by
    (apply sz_valid || (pose proof (MSB_pos sz sz_valid); unfold Modulus; lia)). done.
Qed.

Lemma block_snoc b a vs v :
  block b a vs -> mem sz b (a + sz * Z.of_nat (length vs)) = v -> block b a (vs ++ [v]).
Proof.
  intros H Hv k w Hk. apply lookup_app_Some in Hk as [Hk|[Hle Hk]]; [by apply H|].
  apply list_lookup_singleton_Some in Hk as [Hk <-]. rewrite <- Hv.
  by replace k with (length vs) by lia.
Qed.

Lemma mem_ext b b' a :
  0 <= a -> a + sz <= 0x1000000 ->
  (forall x, a <= x < a + sz -> peek b' x = peek b x) -> mem sz b' a = mem sz b a.
Proof.
  intros H0 H1 H. assert (0 < sz) by (destruct Hsz as [->| ->]; done).
  unfold mem. rewrite land_FFFFFF, Z.mod_small by lia.
  destruct Hsz as [E|E]; rewrite E; unfold sizeWord, sizeLong in *; simpl;
    rewrite !H by lia; done.
Qed.

(** The store loop over register indices [ix], the address going down from
    [a + sz * length ix] to [a]: the values end up in reverse order. *)
Lemma store_loop (ix : list Z) a hi c :
  sized c -> halted c = false -> span_ok a hi ->
  hi = a + sz * Z.of_nat (length ix) -> hi <= 0x1000000 ->
  Forall (fun i => 0 <= i < 16) ix -> (forall i, 0 <= i < 16 -> is_u32 (reg16 c i)) ->
  exists b',
    foldM (fun addr i =>
      let addr := u32 (addr - u32 sz) in
      v <- getReg16 (15 - i) ;; writeBus sz addr v ;; ret addr) ix hi c =
      Some (a, with_bus b' c) /\
    block b' a (reverse ((fun i => stored (reg16 c (15 - i))) <$> ix)) /\
    (forall x, x < a \/ hi <= x -> peek b' x = peek (bus c) x).
Proof.
  revert hi c. induction ix as [|i ix IH]; intros hi c Hs Hh Hspan Ehi Hhi Hix Hreg.
  - exists (bus c). simpl in *. replace hi with a by lia. rewrite with_bus_same.
    split; [done|]. split; [|done]. intros k v Hk. by destruct k.
  - apply Forall_cons in Hix as [Hi Hix]. rewrite length_cons, Nat2Z.inj_succ in Ehi.
    assert (0 < sz) by (destruct Hsz as [->| ->]; done).
    set (a1 := a + sz * Z.of_nat (length ix)). assert (hi = a1 + sz) as Ehi' by (unfold a1; lia).
    assert (a <= a1) by (unfold a1; nia).
    assert (accessible region sz a1) as Hacc by (apply (span_acc a hi); [done|lia|nia]).
    assert (span_ok a a1) as Hspan1
      by (destruct Hspan as (? & ? & ? & Hr); repeat split; [done|lia|done|intros; apply Hr; lia]).
    simpl foldM. rewrite (prev_addr hi a) by (done || lia). replace (hi - sz) with a1 by lia.
    rewrite bind_assoc, (bind_eval _ _ _ _ _ (getReg16_run c (15 - i) Hs ltac:(lia))), bind_assoc.
    rewrite (bind_eval _ _ _ _ _ (writeBus_stored a1 _ c Hh Hacc (Hreg (15 - i) ltac:(lia)))), bind_ret.
    set (c1 := with_bus _ c).
    destruct (IH a1 c1 Hs Hh Hspan1 eq_refl ltac:(lia) Hix Hreg) as (b' & E & Hblk & Hout).
    exists b'. cbv zeta in E. rewrite E. split; [done|]. destruct Hspan as (Ha0 & _).
    assert (mem sz b' a1 = stored (reg16 c (15 - i))) as Hm.
    { rewrite (mem_ext (bus c1)) by (lia || (intros; apply Hout; lia)).
      apply mem_store_same; [apply sz_valid|done|apply is_sz_mod, sz_valid]. }
    split.
    + rewrite fmap_cons, reverse_cons. apply block_snoc; [exact Hblk|].
      by rewrite length_reverse, length_fmap.
    + intros x Hx. rewrite Hout by lia. apply peek_store;
        [apply sz_valid|done|apply is_sz_mod, sz_valid|].
      rewrite land_FFFFFF, Z.mod_small by lia. lia.
Qed.

(** Reading back what was stored of a register. *)
Lemma loaded_stored v :
  is_u32 v -> loaded (stored v) = if sz =? sizeWord then u32 (s16 v) else v.
Proof.
  intros Hv. unfold loaded, stored. destruct Hsz as [E|E]; rewrite E; simpl.
  - change (Modulus sizeWord) with 0x10000. wordlia.
  - by apply Z.mod_small.
Qed.

Lemma mem_span b b' lo hi k :
  (forall x, lo <= x < hi -> peek b' x = peek b x) ->
  0 <= lo -> hi <= 0x1000000 -> lo + sz * (Z.of_nat k + 1) <= hi ->
  mem sz b' (lo + sz * Z.of_nat k) = mem sz b (lo + sz * Z.of_nat k).
Proof.
  intros H Hlo Hhi Hk. assert (0 < sz) by (destruct Hsz as [->| ->]; done).
  apply mem_ext; [nia|nia|]. intros x Hx. apply H. nia.
Qed.

(** ** Register lists *)

(** The set bits of a mask, from bit 0 up. *)
Definition bitsOf (mask : Z) : list Z :=
  filter (fun i => tstb mask (Z.shiftl 1 i) = true) (zrange 0 16).

Lemma shift_bit mask i : 0 <= i -> tstb mask (Z.shiftl 1 i) = Z.testbit mask i.
Proof. intros Hi. by rewrite Z.shiftl_mul_pow2, Z.mul_1_l, tstb_pow2. Qed.

Lemma elem_of_bitsOf mask i : i ∈ bitsOf mask <-> 0 <= i < 16 /\ Z.testbit mask i = true.
Proof.
  unfold bitsOf. rewrite list_elem_of_filter, elem_of_zrange.
  split; intros [H1 H2]; [rewrite shift_bit in H1 by lia|rewrite shift_bit by lia]; done.
Qed.

Lemma bitsOf_range mask : Forall (fun i => 0 <= i < 16) (bitsOf mask).
Proof. apply Forall_forall. intros i Hi. by apply elem_of_bitsOf in Hi as [? _]. Qed.

Lemma bitsOf_NoDup mask : NoDup (bitsOf mask).
Proof. apply NoDup_filter. apply (bool_decide_unpack _). vm_compute. exact I. Qed.

Lemma filter_agree {X} (P Q : X -> bool) (l : list X) :
  (forall x, x ∈ l -> P x = Q x) ->
  filter (fun x => P x = true) l = filter (fun x => Q x = true) l.
Proof.
  induction l as [|x l IH]; intros H; [done|]. rewrite !filter_cons.
  rewrite IH by (intros; apply H; by right). by rewrite (H x) by left.
Qed.

Lemma length_bitsOf mask : Z.of_nat (length (bitsOf mask)) = OnesCount16 mask.
Proof.
  unfold bitsOf, OnesCount16. do 2 f_equal. apply filter_agree. intros i Hi.
  apply elem_of_zrange in Hi. apply shift_bit. lia.
Qed.

(** Reversing the mask mirrors the list: the two encodings name the same registers. *)
Lemma bitsOf_mirror mask mask' :
  (forall i, 0 <= i < 16 -> Z.testbit mask' i = Z.testbit mask (15 - i)) ->
  bitsOf mask' = reverse ((fun i => 15 - i) <$> bitsOf mask).
Proof.
  intros H. unfold bitsOf.
  assert (forall l, Forall (fun i => 0 <= i < 16) l ->
    filter (fun i => tstb mask' (Z.shiftl 1 i) = true) ((fun i => 15 - i) <$> l) =
    (fun i => 15 - i) <$> filter (fun i => tstb mask (Z.shiftl 1 i) = true) l) as Hf.
  { induction 1 as [|i l Hi Hl IH]; [done|]. rewrite fmap_cons, !filter_cons, IH.
    rewrite !shift_bit by lia. rewrite H by lia. replace (15 - (15 - i)) with i by lia.
    by destruct (Z.testbit mask i). }
  rewrite <- Hf, <- filter_reverse by (apply Forall_forall; intros i Hi; by apply elem_of_zrange in Hi).
  done.
Qed.

(** C31: MOVEM to the stack and back.  Storing the registers of [mask] with
    predecrement from [addr] and later loading the mirrored list from the
    address reached restores them, whatever the other registers hold by then:
    as they were for longs, sign-extended from their low word for words.
    Registers outside the list keep their value, the address comes back to
    [addr], and only the memory between is written. *)
Theorem movem_push_pop mask mask' addr c :
  let lo := addr - sz * OnesCount16 mask in
  WF c -> halted c = false -> span_ok lo addr ->
  (forall i, 0 <= i < 16 -> Z.testbit mask' i = Z.testbit mask (15 - i)) ->
  exists b', movemStorePredec sz mask addr c = Some (lo, with_bus b' c) /\
    (forall x, x < lo \/ addr <= x -> peek b' x = peek (bus c) x) /\
    forall c2, sized c2 -> halted c2 = false ->
      (forall x, lo <= x < addr -> peek (bus c2) x = peek b' x) ->
      exists c3, movemLoad sz mask' lo c2 = Some (addr, c3) /\ bus c3 = bus c2 /\
        forall i, 0 <= i < 16 -> reg16 c3 i =
          if Z.testbit mask' i then (if sz =? sizeWord then u32 (s16 (reg16 c i)) else reg16 c i)
          else reg16 c2 i.
Proof.
  intros lo Hwf Hh Hspan Hmir. pose proof (WF_sized c Hwf) as Hs.
  pose proof (length_bitsOf mask) as Hlen. pose proof (bitsOf_mirror _ _ Hmir) as Hbits.
  assert (forall i, is_u32 (reg16 c i)) as Hreg
    by (intros i; unfold reg16; case_if; [by apply WF_dreg|by apply WF_areg]).
  destruct (store_loop (bitsOf mask) lo addr c Hs Hh Hspan ltac:(rewrite Hlen; unfold lo; lia)
    ltac:(destruct Hspan as (_ & ? & _); done) (bitsOf_range mask) ltac:(auto))
    as (b' & E & Hblk & Hout).
  exists b'. unfold movemStorePredec. rewrite foldM_filter. split; [exact E|]. split; [done|].
  intros c2 Hs2 Hh2 Hmem. unfold movemLoad. rewrite foldM_filter. fold (bitsOf mask').
  assert (length (bitsOf mask') = length (bitsOf mask)) as Hlen'
    by (by rewrite Hbits, length_reverse, length_fmap).
  set (vs := (fun i => stored (reg16 c i)) <$> bitsOf mask').
  assert (block (bus c2) lo vs) as Hblk2.
  { intros k v Hk. pose proof (lookup_lt_Some _ _ _ Hk) as Hlt.
    unfold vs in Hlt. rewrite length_fmap, Hlen' in Hlt.
    assert (0 < sz) by (destruct Hsz as [->| ->]; done). destruct Hspan as (H0 & H1 & _).
    rewrite (mem_span b' (bus c2) lo addr) by (done || (unfold lo in *; nia)).
    apply Hblk. unfold vs in Hk. by rewrite Hbits, fmap_reverse, <- list_fmap_compose in Hk. }
  destruct (load_loop (bitsOf mask') vs lo addr c2 Hs2 Hh2 Hspan) as (c3 & E3 & _ & Hb3 & _ & Hin & Hnot);
    [rewrite Hlen', Hlen; unfold lo; lia|apply bitsOf_range|apply bitsOf_NoDup|by unfold vs; rewrite length_fmap|done|].
  exists c3. rewrite Hlen', Hlen in E3. replace (lo + sz * OnesCount16 mask) with addr in E3 by (unfold lo; lia).
  split; [exact E3|]. split; [done|]. intros i Hi. destruct (Z.testbit mask' i) eqn:Hb.
  - assert (i ∈ bitsOf mask') as Hel by (by apply elem_of_bitsOf).
    apply list_elem_of_lookup in Hel as [k Hk].
    rewrite (Hin k i (stored (reg16 c i)) Hk) by (unfold vs; by rewrite list_lookup_fmap, Hk).
    apply loaded_stored, Hreg.
  - apply Hnot; [done|]. rewrite elem_of_bitsOf, Hb. by intros [_ ?].
Qed.
End movem.

(** MOVEM.W D0/A6,-(A7) (mask 0x8002) against the list D0/A6 (mask 0x4001). *)
Lemma movem_push_pop_witness :
  exists b', movemStorePredec sizeWord 0x8002 0x8000 (cpuAt 0x1000 0x2700 0 0x8000 ram0) =
    Some (0x7FFC, with_bus b' (cpuAt 0x1000 0x2700 0 0x8000 ram0)).
Proof.
  destruct (movem_push_pop (region := fun _ => True) sizeWord (or_introl eq_refl) 0x8002 0x4001 0x8000
    (cpuAt 0x1000 0x2700 0 0x8000 ram0)) as (b' & E & _).
  - apply cpuAt_WF; wordlia.
  - reflexivity.
  - repeat split; vm_compute; congruence.
  - intros i Hi. enum_upto i 16%nat; reflexivity.
  - exists b'. exact E.
Defined.
