(* ===== verification/Decode.v ===== *)
(** * The opcode table (decode.go and the register functions of ops_*.go)

    [opcodeTable] is an array of closures filled by the [register...]
    functions at start-up.  A closure is represented by the data it was made
    from (which constructor function, with which arguments), so that table
    entries can be compared and enumerated; [run] is the closure itself.

    [decode] is an independent reference: a decoder that reads the bit fields
    of the instruction word in the way the encoding comments give them. *)

From S2P Require Import Prelude Monad Cpu Flags Exception Timing Ea.
From S2P Require Import OpsCommon OpsMove OpsArith OpsLogic OpsBit OpsBcd OpsBranch OpsCtrl.

(** Handlers registered as they are. *)
Inductive op0 : Type :=
| ADDXreg | ADDXmem | SUBXreg | SUBXmem | CMPM | EXTW | EXTL
| ABCDreg | ABCDmem | SBCDreg | SBCDmem
| Bcc | BRA | BSR | DBcc | RTS | RTE | RTR
| NOP | STOP | RESET | TRAP | TRAPV | LINK | UNLK | MOVEtoUSP | MOVEfromUSP
| ANDItoCCR | ANDItoSR | ORItoCCR | ORItoSR | EORItoCCR | EORItoSR
| ShiftReg | MOVEQ | MOVEM | EXG | SWAP | MOVEP.

(** Closures made from (mode, reg). *)
Inductive op2 : Type :=
| ADDI | SUBI | CMPI | NEG | NEGX | CLR | NBCD
| BTSTstatic | BCHGstatic | BCLRstatic | BSETstatic
| JMP | JSR | Scc | MOVEfromSR | MOVEtoCCR | MOVEtoSR
| ANDI | ORI | EORI | NOT | TST | TAS | ShiftMem | PEA.

(** Closures made from (register or data, mode, reg). *)
Inductive op3 : Type :=
| ADDtoReg | ADDtoEA | ADDA | ADDQ | SUBtoReg | SUBtoEA | SUBA | SUBQ
| CMP | CMPA | MULU | MULS | DIVU | DIVS | CHK
| BTSTdyn | BCHGdyn | BCLRdyn | BSETdyn
| ANDtoReg | ANDtoEA | ORtoReg | ORtoEA | EOR | MOVEA | LEA.

Inductive handler : Type :=
| H0 (o : op0)
| H2 (o : op2) (mode reg : Z)
| H3 (o : op3) (x mode reg : Z)
| HMOVE (srcMode srcReg dstMode dstReg : Z).

#[export] Instance op0_eq_dec : EqDecision op0.
Proof. solve_decision. Defined.
#[export] Instance op2_eq_dec : EqDecision op2.
Proof. solve_decision. Defined.
#[export] Instance op3_eq_dec : EqDecision op3.
Proof. solve_decision. Defined.
#[export] Instance handler_eq_dec : EqDecision handler.
Proof. solve_decision. Defined.

Section run.
Context {B : Type} `{!Bus B}.

Definition run0 (o : op0) : opFunc B :=
  match o with
  | ADDXreg => opADDXreg | ADDXmem => opADDXmem
  | SUBXreg => opSUBXreg | SUBXmem => opSUBXmem
  | CMPM => opCMPM | EXTW => opEXTW | EXTL => opEXTL
  | ABCDreg => opABCDreg | ABCDmem => opABCDmem
  | SBCDreg => opSBCDreg | SBCDmem => opSBCDmem
  | Bcc => opBcc | BRA => opBRA | BSR => opBSR | DBcc => opDBcc
  | RTS => opRTS | RTE => opRTE | RTR => opRTR
  | NOP => opNOP | STOP => opSTOP | RESET => opRESET
  | TRAP => opTRAP | TRAPV => opTRAPV | LINK => opLINK | UNLK => opUNLK
  | MOVEtoUSP => opMOVEtoUSP | MOVEfromUSP => opMOVEfromUSP
  | ANDItoCCR => opANDItoCCR | ANDItoSR => opANDItoSR
  | ORItoCCR => opORItoCCR | ORItoSR => opORItoSR
  | EORItoCCR => opEORItoCCR | EORItoSR => opEORItoSR
  | ShiftReg => opShiftReg | MOVEQ => opMOVEQ | MOVEM => opMOVEM
  | EXG => opEXG | SWAP => opSWAP | MOVEP => opMOVEP
  end.

Definition run2 (o : op2) : Z -> Z -> opFunc B :=
  match o with
  | ADDI => makeADDI | SUBI => makeSUBI | CMPI => makeCMPI
  | NEG => makeNEG | NEGX => makeNEGX | CLR => makeCLR | NBCD => makeNBCD
  | BTSTstatic => makeBTSTstatic | BCHGstatic => makeBCHGstatic
  | BCLRstatic => makeBCLRstatic | BSETstatic => makeBSETstatic
  | JMP => makeJMP | JSR => makeJSR | Scc => makeScc
  | MOVEfromSR => makeMOVEfromSR | MOVEtoCCR => makeMOVEtoCCR
  | MOVEtoSR => makeMOVEtoSR
  | ANDI => makeANDI | ORI => makeORI | EORI => makeEORI
  | NOT => makeNOT | TST => makeTST | TAS => makeTAS
  | ShiftMem => makeShiftMem | PEA => makePEA
  end.

Definition run3 (o : op3) : Z -> Z -> Z -> opFunc B :=
  match o with
  | ADDtoReg => makeADDtoReg | ADDtoEA => makeADDtoEA | ADDA => makeADDA
  | ADDQ => makeADDQ | SUBtoReg => makeSUBtoReg | SUBtoEA => makeSUBtoEA
  | SUBA => makeSUBA | SUBQ => makeSUBQ | CMP => makeCMP | CMPA => makeCMPA
  | MULU => makeMULU | MULS => makeMULS | DIVU => makeDIVU | DIVS => makeDIVS
  | CHK => makeCHK
  | BTSTdyn => makeBTSTdyn | BCHGdyn => makeBCHGdyn
  | BCLRdyn => makeBCLRdyn | BSETdyn => makeBSETdyn
  | ANDtoReg => makeANDtoReg | ANDtoEA => makeANDtoEA
  | ORtoReg => makeORtoReg | ORtoEA => makeORtoEA | EOR => makeEOR
  | MOVEA => makeMOVEA | LEA => makeLEA
  end.

Definition run (h : handler) : opFunc B :=
  match h with
  | H0 o => run0 o
  | H2 o mode reg => run2 o mode reg
  | H3 o x mode reg => run3 o x mode reg
  | HMOVE srcMode srcReg dstMode dstReg => makeMOVE srcMode srcReg dstMode dstReg
  end.
End run.

(** ** Registration

    A [register...] function is the sequence of its assignments
    [opcodeTable[opcode] = handler]; a [for] loop is a concatenation over its
    index range and a [continue] the empty sequence. *)

Definition assignments : Type := list (Z * handler).

Definition for_ (a b : Z) (body : Z -> assignments) : assignments :=
  flat_map body (zrange a b).

Definition skip (b : bool) (k : assignments) : assignments :=
  if b then [] else k.

Notation "a '.|' b" := (Z.lor a b) (at level 50, left associativity) : m68k_scope.
Notation "a '.<<' b" := (Z.shiftl a b) (at level 40, left associativity) : m68k_scope.

(** *** ops_arith.go *)

(** ADD and SUB share the two loops of [registerADD] and [registerSUB]. *)
Definition registerAddSub (base : Z) (toReg toEA : op3) : assignments :=
  for_ 0 8 (fun dn => for_ 0 3 (fun szBits =>
    for_ 0 8 (fun mode => for_ 0 8 (fun reg =>
      skip ((mode =? 7) && (4 <? reg)) (
      skip ((mode =? 1) && (szBits =? 0))
      [(base .| dn .<< 9 .| szBits .<< 6 .| mode .<< 3 .| reg, H3 toReg dn mode reg)]))) ++
    for_ 2 8 (fun mode => for_ 0 8 (fun reg =>
      skip ((mode =? 7) && (1 <? reg))
      [(base .| dn .<< 9 .| (szBits + 4) .<< 6 .| mode .<< 3 .| reg, H3 toEA dn mode reg)])))).

Definition registerADD : assignments := registerAddSub 0xD000 ADDtoReg ADDtoEA.
Definition registerSUB : assignments := registerAddSub 0x9000 SUBtoReg SUBtoEA.

(** ADDA, SUBA, CMPA: [for _, szBit := range []uint16{3, 7}]. *)
Definition registerAddrOp (base : Z) (o : op3) : assignments :=
  for_ 0 8 (fun an => flat_map (fun szBit =>
    for_ 0 8 (fun mode => for_ 0 8 (fun reg =>
      skip ((mode =? 7) && (4 <? reg))
      [(base .| an .<< 9 .| szBit .<< 6 .| mode .<< 3 .| reg, H3 o an mode reg)])))
    [3; 7]).

Definition registerADDA : assignments := registerAddrOp 0xD000 ADDA.
Definition registerSUBA : assignments := registerAddrOp 0x9000 SUBA.
Definition registerCMPA : assignments := registerAddrOp 0xB000 CMPA.

(** The data-alterable loop: [mode == 1] skipped, abs.L the last mode-7 form;
    used by the immediate and single-operand instructions for three sizes. *)
Definition registerSized (base : Z) (o : op2) : assignments :=
  for_ 0 3 (fun szBits => for_ 0 8 (fun mode =>
    skip (mode =? 1) (for_ 0 8 (fun reg =>
      skip ((mode =? 7) && (1 <? reg))
      [(base .| szBits .<< 6 .| mode .<< 3 .| reg, H2 o mode reg)])))).

Definition registerADDI : assignments := registerSized 0x0600 ADDI.
Definition registerSUBI : assignments := registerSized 0x0400 SUBI.
Definition registerCMPI : assignments := registerSized 0x0C00 CMPI.
Definition registerNEG : assignments := registerSized 0x4400 NEG.
Definition registerNEGX : assignments := registerSized 0x4000 NEGX.
Definition registerCLR : assignments := registerSized 0x4200 CLR.

Definition registerQuick (base : Z) (o : op3) : assignments :=
  for_ 0 8 (fun data => for_ 0 3 (fun szBits =>
    for_ 0 8 (fun mode => for_ 0 8 (fun reg =>
      skip ((mode =? 7) && (1 <? reg)) (
      skip ((mode =? 1) && (szBits =? 0))
      [(base .| data .<< 9 .| szBits .<< 6 .| mode .<< 3 .| reg, H3 o data mode reg)]))))).

Definition registerADDQ : assignments := registerQuick 0x5000 ADDQ.
Definition registerSUBQ : assignments := registerQuick 0x5100 SUBQ.

Definition registerExtended (regBase memBase : Z) (oreg omem : op0) : assignments :=
  for_ 0 8 (fun rx => for_ 0 8 (fun ry => for_ 0 3 (fun szBits =>
    [(regBase .| rx .<< 9 .| szBits .<< 6 .| ry, H0 oreg);
     (memBase .| rx .<< 9 .| szBits .<< 6 .| ry, H0 omem)]))).

Definition registerADDX : assignments := registerExtended 0xD100 0xD108 ADDXreg ADDXmem.
Definition registerSUBX : assignments := registerExtended 0x9100 0x9108 SUBXreg SUBXmem.

Definition registerCMP : assignments :=
  for_ 0 8 (fun dn => for_ 0 3 (fun szBits =>
    for_ 0 8 (fun mode => for_ 0 8 (fun reg =>
      skip ((mode =? 7) && (4 <? reg)) (
      skip ((mode =? 1) && (szBits =? 0))
      [(0xB000 .| dn .<< 9 .| szBits .<< 6 .| mode .<< 3 .| reg, H3 CMP dn mode reg)]))))).

Definition registerCMPM : assignments :=
  for_ 0 8 (fun ax => for_ 0 8 (fun ay => for_ 0 3 (fun szBits =>
    [(0xB108 .| ax .<< 9 .| szBits .<< 6 .| ay, H0 CMPM)]))).

(** MULU, MULS, DIVU, DIVS, CHK: data sources, no size field. *)
Definition registerDataSource (base : Z) (o : op3) : assignments :=
  for_ 0 8 (fun dn => for_ 0 8 (fun mode =>
    skip (mode =? 1) (for_ 0 8 (fun reg =>
      skip ((mode =? 7) && (4 <? reg))
      [(base .| dn .<< 9 .| mode .<< 3 .| reg, H3 o dn mode reg)])))).

Definition registerMULU : assignments := registerDataSource 0xC0C0 MULU.
Definition registerMULS : assignments := registerDataSource 0xC1C0 MULS.
Definition registerDIVU : assignments := registerDataSource 0x80C0 DIVU.
Definition registerDIVS : assignments := registerDataSource 0x81C0 DIVS.
Definition registerCHK : assignments := registerDataSource 0x4180 CHK.

Definition registerEXT : assignments :=
  for_ 0 8 (fun dn => [(0x4880 .| dn, H0 EXTW); (0x48C0 .| dn, H0 EXTL)]).

Definition init_arith : assignments :=
  registerADD ++ registerADDA ++ registerADDI ++ registerADDQ ++ registerADDX ++
  registerSUB ++ registerSUBA ++ registerSUBI ++ registerSUBQ ++ registerSUBX ++
  registerCMP ++ registerCMPA ++ registerCMPI ++ registerCMPM ++
  registerMULU ++ registerMULS ++ registerDIVU ++ registerDIVS ++
  registerNEG ++ registerNEGX ++ registerCLR ++ registerEXT ++ registerCHK.

(** *** ops_bcd.go *)

Definition registerBcd (regBase memBase : Z) (oreg omem : op0) : assignments :=
  for_ 0 8 (fun rx => for_ 0 8 (fun ry =>
    [(regBase .| rx .<< 9 .| ry, H0 oreg); (memBase .| rx .<< 9 .| ry, H0 omem)])).

Definition registerABCD : assignments := registerBcd 0xC100 0xC108 ABCDreg ABCDmem.
Definition registerSBCD : assignments := registerBcd 0x8100 0x8108 SBCDreg SBCDmem.

(** One operand, no size field: [mode == 7 && reg > last] skipped. *)
Definition registerUnsized (base last : Z) (o : op2) : assignments :=
  for_ 0 8 (fun mode => skip (mode =? 1) (for_ 0 8 (fun reg =>
    skip ((mode =? 7) && (last <? reg))
    [(base .| mode .<< 3 .| reg, H2 o mode reg)]))).

Definition registerNBCD : assignments := registerUnsized 0x4800 1 NBCD.

Definition init_bcd : assignments := registerABCD ++ registerSBCD ++ registerNBCD.

(** *** ops_bit.go *)

Definition registerBit (dynBase statBase dynLast statLast : Z) (odyn : op3) (ostat : op2)
  : assignments :=
  for_ 0 8 (fun dn => for_ 0 8 (fun mode =>
    skip (mode =? 1) (for_ 0 8 (fun reg =>
      skip ((mode =? 7) && (dynLast <? reg))
      [(dynBase .| dn .<< 9 .| mode .<< 3 .| reg, H3 odyn dn mode reg)])))) ++
  registerUnsized statBase statLast ostat.

Definition registerBTST : assignments := registerBit 0x0100 0x0800 4 3 BTSTdyn BTSTstatic.
Definition registerBCHG : assignments := registerBit 0x0140 0x0840 1 1 BCHGdyn BCHGstatic.
Definition registerBCLR : assignments := registerBit 0x0180 0x0880 1 1 BCLRdyn BCLRstatic.
Definition registerBSET : assignments := registerBit 0x01C0 0x08C0 1 1 BSETdyn BSETstatic.

Definition init_bit : assignments :=
  registerBTST ++ registerBCHG ++ registerBCLR ++ registerBSET.

(** *** ops_branch.go *)

Definition registerBcc : assignments :=
  for_ 2 16 (fun cc => for_ 0 256 (fun disp => [(0x6000 .| cc .<< 8 .| disp, H0 Bcc)])).
Definition registerBRA : assignments :=
  for_ 0 256 (fun disp => [(0x6000 .| disp, H0 BRA)]).
Definition registerBSR : assignments :=
  for_ 0 256 (fun disp => [(0x6100 .| disp, H0 BSR)]).
Definition registerDBcc : assignments :=
  for_ 0 16 (fun cc => for_ 0 8 (fun dn => [(0x50C8 .| cc .<< 8 .| dn, H0 DBcc)])).

(** JMP, JSR, PEA: the control addressing modes. *)
Definition registerControl (base : Z) (o : op2) : assignments :=
  for_ 2 8 (fun mode => skip ((mode =? 3) || (mode =? 4)) (
    for_ 0 8 (fun reg =>
      skip ((mode =? 7) && (3 <? reg))
      [(base .| mode .<< 3 .| reg, H2 o mode reg)]))).

Definition registerJMP : assignments := registerControl 0x4EC0 JMP.
Definition registerJSR : assignments := registerControl 0x4E80 JSR.
Definition registerRTS : assignments := [(0x4E75, H0 RTS)].
Definition registerRTE : assignments := [(0x4E73, H0 RTE)].
Definition registerRTR : assignments := [(0x4E77, H0 RTR)].

Definition registerScc : assignments :=
  for_ 0 16 (fun cc => for_ 0 8 (fun mode => skip (mode =? 1) (
    for_ 0 8 (fun reg =>
      skip ((mode =? 7) && (1 <? reg))
      [(0x50C0 .| cc .<< 8 .| mode .<< 3 .| reg, H2 Scc mode reg)])))).

Definition init_branch : assignments :=
  registerBcc ++ registerBRA ++ registerBSR ++ registerDBcc ++ registerJMP ++
  registerJSR ++ registerRTS ++ registerRTE ++ registerRTR ++ registerScc.

(** *** ops_ctrl.go *)

Definition registerNOP : assignments := [(0x4E71, H0 NOP)].
Definition registerSTOP : assignments := [(0x4E72, H0 STOP)].
Definition registerRESET : assignments := [(0x4E70, H0 RESET)].
Definition registerTRAP : assignments := for_ 0 16 (fun v => [(0x4E40 .| v, H0 TRAP)]).
Definition registerTRAPV : assignments := [(0x4E76, H0 TRAPV)].
Definition registerLINK : assignments := for_ 0 8 (fun an => [(0x4E50 .| an, H0 LINK)]).
Definition registerUNLK : assignments := for_ 0 8 (fun an => [(0x4E58 .| an, H0 UNLK)]).

Definition registerMoveToFromSR : assignments :=
  registerUnsized 0x40C0 1 MOVEfromSR ++
  registerUnsized 0x44C0 4 MOVEtoCCR ++
  registerUnsized 0x46C0 4 MOVEtoSR ++
  for_ 0 8 (fun an => [(0x4E60 .| an, H0 MOVEtoUSP); (0x4E68 .| an, H0 MOVEfromUSP)]).

Definition registerAndiOriEoriSRCCR : assignments :=
  [(0x023C, H0 ANDItoCCR); (0x027C, H0 ANDItoSR);
   (0x003C, H0 ORItoCCR); (0x007C, H0 ORItoSR);
   (0x0A3C, H0 EORItoCCR); (0x0A7C, H0 EORItoSR)].

Definition init_ctrl : assignments :=
  registerNOP ++ registerSTOP ++ registerRESET ++ registerTRAP ++ registerTRAPV ++
  registerLINK ++ registerUNLK ++ registerMoveToFromSR ++ registerAndiOriEoriSRCCR.

(** *** ops_logic.go *)

Definition registerAndOr (base : Z) (toReg toEA : op3) : assignments :=
  for_ 0 8 (fun dn => for_ 0 3 (fun szBits =>
    for_ 0 8 (fun mode => skip (mode =? 1) (for_ 0 8 (fun reg =>
      skip ((mode =? 7) && (4 <? reg))
      [(base .| dn .<< 9 .| szBits .<< 6 .| mode .<< 3 .| reg, H3 toReg dn mode reg)]))) ++
    for_ 2 8 (fun mode => for_ 0 8 (fun reg =>
      skip ((mode =? 7) && (1 <? reg))
      [(base .| dn .<< 9 .| (szBits + 4) .<< 6 .| mode .<< 3 .| reg, H3 toEA dn mode reg)])))).

Definition registerAND : assignments := registerAndOr 0xC000 ANDtoReg ANDtoEA.
Definition registerOR : assignments := registerAndOr 0x8000 ORtoReg ORtoEA.
Definition registerANDI : assignments := registerSized 0x0200 ANDI.
Definition registerORI : assignments := registerSized 0x0000 ORI.
Definition registerEORI : assignments := registerSized 0x0A00 EORI.
Definition registerNOT : assignments := registerSized 0x4600 NOT.
Definition registerTST : assignments := registerSized 0x4A00 TST.
Definition registerTAS : assignments := registerUnsized 0x4AC0 1 TAS.

Definition registerEOR : assignments :=
  for_ 0 8 (fun dn => for_ 0 3 (fun szBits => for_ 0 8 (fun mode =>
    skip (mode =? 1) (for_ 0 8 (fun reg =>
      skip ((mode =? 7) && (1 <? reg))
      [(0xB000 .| dn .<< 9 .| (szBits + 4) .<< 6 .| mode .<< 3 .| reg,
        H3 EOR dn mode reg)]))))).

Definition registerShifts : assignments :=
  for_ 0 8 (fun cnt => for_ 0 2 (fun dir => for_ 0 3 (fun szBits =>
    for_ 0 2 (fun i => for_ 0 4 (fun typ => for_ 0 8 (fun dreg =>
      [(0xE000 .| cnt .<< 9 .| dir .<< 8 .| szBits .<< 6 .| i .<< 5 .| typ .<< 3 .| dreg,
        H0 ShiftReg)])))))) ++
  for_ 0 2 (fun dir => for_ 0 4 (fun typ =>
    for_ 2 8 (fun mode => for_ 0 8 (fun reg =>
      skip ((mode =? 7) && (1 <? reg))
      [(0xE0C0 .| typ .<< 9 .| dir .<< 8 .| mode .<< 3 .| reg, H2 ShiftMem mode reg)])))).

Definition init_logic : assignments :=
  registerAND ++ registerANDI ++ registerOR ++ registerORI ++ registerEOR ++
  registerEORI ++ registerNOT ++ registerTST ++ registerTAS ++ registerShifts.

(** *** ops_move.go *)

Definition registerMOVE : assignments :=
  flat_map (fun szBits =>
    for_ 0 8 (fun dstMode => skip (dstMode =? 1) (for_ 0 8 (fun dstReg =>
      skip ((dstMode =? 7) && (1 <? dstReg)) (
      for_ 0 8 (fun srcMode => for_ 0 8 (fun srcReg =>
        skip ((srcMode =? 7) && (4 <? srcReg))
        [(szBits .| dstReg .<< 9 .| dstMode .<< 6 .| srcMode .<< 3 .| srcReg,
          HMOVE srcMode srcReg dstMode dstReg)])))))))
    [0x1000; 0x2000; 0x3000].

Definition registerMOVEA : assignments :=
  flat_map (fun szBits => for_ 0 8 (fun dstReg =>
    for_ 0 8 (fun srcMode => for_ 0 8 (fun srcReg =>
      skip ((srcMode =? 7) && (4 <? srcReg))
      [(szBits .| dstReg .<< 9 .| 1 .<< 6 .| srcMode .<< 3 .| srcReg,
        H3 MOVEA dstReg srcMode srcReg)]))))
    [0x2000; 0x3000].

Definition registerMOVEQ : assignments :=
  for_ 0 8 (fun dn => for_ 0 256 (fun data => [(0x7000 .| dn .<< 9 .| data, H0 MOVEQ)])).

Definition registerMOVEP : assignments :=
  for_ 0 8 (fun dn => for_ 0 8 (fun an =>
    [(0x0108 .| dn .<< 9 .| an, H0 MOVEP); (0x0148 .| dn .<< 9 .| an, H0 MOVEP);
     (0x0188 .| dn .<< 9 .| an, H0 MOVEP); (0x01C8 .| dn .<< 9 .| an, H0 MOVEP)])).

Definition registerLEA : assignments :=
  for_ 0 8 (fun an => for_ 2 8 (fun srcMode =>
    skip ((srcMode =? 3) || (srcMode =? 4)) (for_ 0 8 (fun srcReg =>
      skip ((srcMode =? 7) && (3 <? srcReg))
      [(0x41C0 .| an .<< 9 .| srcMode .<< 3 .| srcReg, H3 LEA an srcMode srcReg)])))).

Definition registerPEA : assignments := registerControl 0x4840 PEA.

Definition registerMOVEM : assignments :=
  for_ 0 2 (fun dir => for_ 0 2 (fun szBit => for_ 2 8 (fun mode =>
    skip ((dir =? 0) && (mode =? 3)) (
    skip ((dir =? 1) && (mode =? 4)) (
    skip (mode =? 1) (for_ 0 8 (fun reg =>
      skip ((mode =? 7) && (((dir =? 0) && (1 <? reg)) || ((dir =? 1) && (3 <? reg))))
      [(0x4880 .| dir .<< 10 .| szBit .<< 6 .| mode .<< 3 .| reg, H0 MOVEM)]))))))).

Definition registerEXG : assignments :=
  for_ 0 8 (fun rx => for_ 0 8 (fun ry =>
    [(0xC100 .| rx .<< 9 .| 0x40 .| ry, H0 EXG);
     (0xC100 .| rx .<< 9 .| 0x48 .| ry, H0 EXG);
     (0xC100 .| rx .<< 9 .| 0x88 .| ry, H0 EXG)])).

Definition registerSWAP : assignments := for_ 0 8 (fun dn => [(0x4840 .| dn, H0 SWAP)]).

Definition init_move : assignments :=
  registerMOVE ++ registerMOVEA ++ registerMOVEQ ++ registerMOVEP ++ registerLEA ++
  registerPEA ++ registerMOVEM ++ registerEXG ++ registerSWAP.

(** *** The table

    The [init] functions run in the order the files are given to the compiler;
    the order does not matter, as shown below. *)

Definition registrations : assignments :=
  init_arith ++ init_bcd ++ init_bit ++ init_branch ++ init_ctrl ++ init_logic ++ init_move.

(** The array after a sequence of assignments: the last write to an index stays. *)
Definition assign (t : gmap Z handler) (a : Z * handler) : gmap Z handler :=
  <[a.1 := a.2]> t.

Definition fill (l : assignments) : gmap Z handler := foldl assign ∅ l.

Definition opcodeTable : gmap Z handler := fill registrations.

(** ** A reference decoder

    The instruction word by fields: line (15-12), the register field (11-9),
    bit 8, the size field (7-6), the opmode (8-6), and the effective address
    (mode 5-3, reg 2-0).  Addressing-mode categories as in the manual. *)

Definition ea_any (mode reg : Z) : bool := (mode <? 7) || (reg <=? 4).
Definition ea_data (mode reg : Z) : bool := negb (mode =? 1) && ea_any mode reg.
Definition ea_alterable (mode reg : Z) : bool := (mode <? 7) || (reg <=? 1).
Definition ea_dataAlt (mode reg : Z) : bool := negb (mode =? 1) && ea_alterable mode reg.
Definition ea_memAlt (mode reg : Z) : bool := (2 <=? mode) && ea_alterable mode reg.
Definition ea_control (mode reg : Z) : bool :=
  (mode =? 2) || (mode =? 5) || (mode =? 6) || ((mode =? 7) && (reg <=? 3)).

Definition only (b : bool) (h : handler) : option handler := if b then Some h else None.

(** Line 0: immediates, static and dynamic bit operations, MOVEP. *)
Definition decode0 (op f9 ss mode reg : Z) (b8 : bool) : option handler :=
  let imm (o : op2) (ccr sr : op0) :=
    if (ss =? 0) && (mode =? 7) && (reg =? 4) then Some (H0 ccr)
    else if (ss =? 1) && (mode =? 7) && (reg =? 4) then Some (H0 sr)
    else only ((ss <? 3) && ea_dataAlt mode reg) (H2 o mode reg) in
  if b8 then
    if mode =? 1 then Some (H0 MOVEP)
    else match ss with
         | 0 => only (ea_data mode reg) (H3 BTSTdyn f9 mode reg)
         | 1 => only (ea_dataAlt mode reg) (H3 BCHGdyn f9 mode reg)
         | 2 => only (ea_dataAlt mode reg) (H3 BCLRdyn f9 mode reg)
         | _ => only (ea_dataAlt mode reg) (H3 BSETdyn f9 mode reg)
         end
  else
    match f9 with
    | 0 => imm ORI ORItoCCR ORItoSR
    | 1 => imm ANDI ANDItoCCR ANDItoSR
    | 2 => only ((ss <? 3) && ea_dataAlt mode reg) (H2 SUBI mode reg)
    | 3 => only ((ss <? 3) && ea_dataAlt mode reg) (H2 ADDI mode reg)
    | 4 => match ss with
           | 0 => only (ea_data mode reg && negb ((mode =? 7) && (reg =? 4)))
                    (H2 BTSTstatic mode reg)
           | 1 => only (ea_dataAlt mode reg) (H2 BCHGstatic mode reg)
           | 2 => only (ea_dataAlt mode reg) (H2 BCLRstatic mode reg)
           | _ => only (ea_dataAlt mode reg) (H2 BSETstatic mode reg)
           end
    | 5 => imm EORI EORItoCCR EORItoSR
    | 6 => only ((ss <? 3) && ea_dataAlt mode reg) (H2 CMPI mode reg)
    | _ => None
    end.

(** Lines 1-3: MOVE and MOVEA; the destination is (mode 8-6, reg 11-9). *)
Definition decodeMove (line f9 om mode reg : Z) : option handler :=
  if om =? 1 then only (negb (line =? 1) && ea_any mode reg) (H3 MOVEA f9 mode reg)
  else only (ea_any mode reg && ea_alterable om f9) (HMOVE mode reg om f9).

(** Line 4: 0100 1110 .... .... *)
Definition decode4E (ss mode reg : Z) : option handler :=
  match ss with
  | 1 => match mode with
         | 0 | 1 => Some (H0 TRAP)
         | 2 => Some (H0 LINK)
         | 3 => Some (H0 UNLK)
         | 4 => Some (H0 MOVEtoUSP)
         | 5 => Some (H0 MOVEfromUSP)
         | 6 => match reg with
                | 0 => Some (H0 RESET)
                | 1 => Some (H0 NOP)
                | 2 => Some (H0 STOP)
                | 3 => Some (H0 RTE)
                | 5 => Some (H0 RTS)
                | 6 => Some (H0 TRAPV)
                | 7 => Some (H0 RTR)
                | _ => None
                end
         | _ => None
         end
  | 2 => only (ea_control mode reg) (H2 JSR mode reg)
  | 3 => only (ea_control mode reg) (H2 JMP mode reg)
  | _ => None
  end.

Definition decode4 (f9 ss om mode reg : Z) (b8 : bool) : option handler :=
  if b8 then
    match ss with
    | 2 => only (ea_data mode reg) (H3 CHK f9 mode reg)
    | 3 => only (ea_control mode reg) (H3 LEA f9 mode reg)
    | _ => None
    end
  else
    match f9 with
    | 0 => if ss =? 3 then only (ea_dataAlt mode reg) (H2 MOVEfromSR mode reg)
           else only (ea_dataAlt mode reg) (H2 NEGX mode reg)
    | 1 => only ((ss <? 3) && ea_dataAlt mode reg) (H2 CLR mode reg)
    | 2 => if ss =? 3 then only (ea_data mode reg) (H2 MOVEtoCCR mode reg)
           else only (ea_dataAlt mode reg) (H2 NEG mode reg)
    | 3 => if ss =? 3 then only (ea_data mode reg) (H2 MOVEtoSR mode reg)
           else only (ea_dataAlt mode reg) (H2 NOT mode reg)
    | 4 => match ss with
           | 0 => only (ea_dataAlt mode reg) (H2 NBCD mode reg)
           | 1 => if mode =? 0 then Some (H0 SWAP)
                  else only (ea_control mode reg) (H2 PEA mode reg)
           | _ => if mode =? 0 then Some (H0 (if ss =? 2 then EXTW else EXTL))
                  else only ((mode =? 4) || (ea_control mode reg && ea_alterable mode reg))
                         (H0 MOVEM)
           end
    | 5 => if ss =? 3 then only (ea_dataAlt mode reg) (H2 TAS mode reg)
           else only (ea_dataAlt mode reg) (H2 TST mode reg)
    | 6 => only ((2 <=? ss) && ((mode =? 3) || ea_control mode reg)) (H0 MOVEM)
    | _ => decode4E ss mode reg
    end.

Definition decode5 (f9 ss mode reg : Z) (b8 : bool) : option handler :=
  if ss =? 3 then
    if mode =? 1 then Some (H0 DBcc)
    else only (ea_dataAlt mode reg) (H2 Scc mode reg)
  else
    only (ea_alterable mode reg && negb ((mode =? 1) && (ss =? 0)))
      (H3 (if b8 then SUBQ else ADDQ) f9 mode reg).

(** Lines 9 and D: ADD and SUB with their X and A forms. *)
Definition decodeAddSub (toReg toEA addr : op3) (xreg xmem : op0)
    (f9 ss mode reg : Z) (b8 : bool) : option handler :=
  if ss =? 3 then only (ea_any mode reg) (H3 addr f9 mode reg)
  else if b8 then
    match mode with
    | 0 => Some (H0 xreg)
    | 1 => Some (H0 xmem)
    | _ => only (ea_memAlt mode reg) (H3 toEA f9 mode reg)
    end
  else only (ea_any mode reg && negb ((mode =? 1) && (ss =? 0))) (H3 toReg f9 mode reg).

Definition decode8 (f9 ss mode reg : Z) (b8 : bool) : option handler :=
  if ss =? 3 then only (ea_data mode reg) (H3 (if b8 then DIVS else DIVU) f9 mode reg)
  else if b8 then
    if (mode <=? 1) then
      only (ss =? 0) (H0 (if mode =? 0 then SBCDreg else SBCDmem))
    else only (ea_memAlt mode reg) (H3 ORtoEA f9 mode reg)
  else only (ea_data mode reg) (H3 ORtoReg f9 mode reg).

Definition decodeB (f9 ss mode reg : Z) (b8 : bool) : option handler :=
  if ss =? 3 then only (ea_any mode reg) (H3 CMPA f9 mode reg)
  else if b8 then
    if mode =? 1 then Some (H0 CMPM) else only (ea_dataAlt mode reg) (H3 EOR f9 mode reg)
  else only (ea_any mode reg && negb ((mode =? 1) && (ss =? 0))) (H3 CMP f9 mode reg).

Definition decodeC (f9 ss mode reg : Z) (b8 : bool) : option handler :=
  if ss =? 3 then only (ea_data mode reg) (H3 (if b8 then MULS else MULU) f9 mode reg)
  else if b8 then
    match mode with
    | 0 => match ss with 0 => Some (H0 ABCDreg) | 1 => Some (H0 EXG) | _ => None end
    | 1 => match ss with 0 => Some (H0 ABCDmem) | _ => Some (H0 EXG) end
    | _ => only (ea_memAlt mode reg) (H3 ANDtoEA f9 mode reg)
    end
  else only (ea_data mode reg) (H3 ANDtoReg f9 mode reg).

Definition decodeE (f9 ss mode reg : Z) : option handler :=
  if ss =? 3 then only ((f9 <? 4) && ea_memAlt mode reg) (H2 ShiftMem mode reg)
  else Some (H0 ShiftReg).

Definition decode (op : Z) : option handler :=
  let f9 := Z.land (Z.shiftr op 9) 7 in
  let ss := Z.land (Z.shiftr op 6) 3 in
  let om := Z.land (Z.shiftr op 6) 7 in
  let b8 := Z.testbit op 8 in
  let mode := Z.land (Z.shiftr op 3) 7 in
  let reg := Z.land op 7 in
  match Z.shiftr op 12 with
  | 0 => decode0 op f9 ss mode reg b8
  | 1 => decodeMove 1 f9 om mode reg
  | 2 => decodeMove 2 f9 om mode reg
  | 3 => decodeMove 3 f9 om mode reg
  | 4 => decode4 f9 ss om mode reg b8
  | 5 => decode5 f9 ss mode reg b8
  | 6 => Some (H0 (if f9 =? 0 then (if b8 then BSR else BRA) else Bcc))
  | 7 => only (negb b8) (H0 MOVEQ)
  | 8 => decode8 f9 ss mode reg b8
  | 9 => decodeAddSub SUBtoReg SUBtoEA SUBA SUBXreg SUBXmem f9 ss mode reg b8
  | 11 => decodeB f9 ss mode reg b8
  | 12 => decodeC f9 ss mode reg b8
  | 13 => decodeAddSub ADDtoReg ADDtoEA ADDA ADDXreg ADDXmem f9 ss mode reg b8
  | 14 => decodeE f9 ss mode reg
  | _ => None
  end.

(** ** The table implements the decoder *)

(** [p] holds of every [n]-bit extension of [z]. *)
Fixpoint all_bits (n : nat) (p : Z -> bool) (z : Z) : bool :=
  match n with
  | O => p z
  | S n => if all_bits n p (2 * z) then all_bits n p (2 * z + 1) else false
  end.

Lemma all_bits_spec n p z :
  all_bits n p z = true -> forall x, z * 2 ^ Z.of_nat n <= x < (z + 1) * 2 ^ Z.of_nat n -> p x = true.
Proof.
  revert z. induction n as [|n IH]; intros z Hall x Hx; simpl in Hall.
  - replace x with z by lia. done.
  - destruct (all_bits n p (2 * z)) eqn:E; [|done].
    rewrite Nat2Z.inj_succ, Z.pow_succ_r in Hx by lia.
    destruct (Z_lt_le_dec x ((2 * z + 1) * 2 ^ Z.of_nat n)).
    + apply (IH _ E). lia.
    + apply (IH _ Hall). lia.
Qed.

Lemma table_decode_all :
  all_bits 16 (fun op => bool_decide (opcodeTable !! op = decode op)) 0 = true.
Proof. vm_compute. reflexivity. Qed.

Lemma fill_snoc l a : fill (l ++ [a]) = assign (fill l) a.
Proof. unfold fill. by rewrite foldl_app. Qed.

(** When every assignment agrees with one function of the opcode, the table
    after them is that function restricted to the assigned opcodes, whatever
    the order. *)
Lemma fill_lookup (f : Z -> option handler) l op h :
  Forall (fun a => f a.1 = Some a.2) l -> fill l !! op = Some h <-> (op, h) ∈ l.
Proof.
  intros Hl. induction l as [|[op' h'] l IH] using rev_ind.
  - unfold fill. simpl. rewrite lookup_empty, elem_of_nil. done.
  - apply Forall_app in Hl as [Hl Hx]. specialize (IH Hl).
    apply Forall_cons in Hx as [Hx _]. simpl in Hx.
    rewrite fill_snoc, elem_of_app, list_elem_of_singleton. unfold assign. simpl.
    destruct (decide (op' = op)) as [->|Hne].
    + rewrite lookup_insert_eq. split; [intros [= ->]; by right|].
      intros [Hin|[= ->]]; [|done]. rewrite Forall_forall in Hl.
      apply Hl in Hin. simpl in Hin. congruence.
    + rewrite lookup_insert_ne by done. rewrite IH. split; [by left|].
      intros [?|[= -> ->]]; done.
Qed.

(** What is checked of one assignment: the index is inside the array and the
    handler is the one the reference decoder gives. *)
Definition assignment_ok (a : Z * handler) : bool :=
  (0 <=? a.1) && (a.1 <? 0x10000) && bool_decide (decode a.1 = Some a.2).

Lemma registrations_ok : forallb assignment_ok registrations = true.
Proof. vm_compute. reflexivity. Qed.

Lemma registrations_decode : Forall (fun a => decode a.1 = Some a.2) registrations.
Proof.
  apply Forall_forall. intros a Ha.
  pose proof (proj1 (forallb_forall _ _) registrations_ok a) as Hok.
  apply list_elem_of_In in Ha. specialize (Hok Ha). unfold assignment_ok in Hok.
  rewrite !andb_true_iff in Hok. destruct Hok as [_ Hok]. by apply bool_decide_eq_true in Hok.
Qed.

Lemma opcodeTable_lookup op : is_u16 op -> opcodeTable !! op = decode op.
Proof.
  intros [H0 H1].
  pose proof (all_bits_spec 16 _ 0 table_decode_all op) as Hop.
  change (2 ^ Z.of_nat 16) with 0x10000 in Hop.
  apply (proj1 (bool_decide_eq_true _)). apply Hop. lia.
Qed.

(** ** Properties *)

(** C3: the opcode table is the decoder.  After the registration functions have
    run, the entry of every 16-bit instruction word is the handler, with the
    operands, that decoding its bit fields gives; words the decoder rejects
    have no entry. *)
Theorem opcodeTable_correct op : is_u16 op -> opcodeTable !! op = decode op.
Proof. apply opcodeTable_lookup. Qed.

Lemma opcodeTable_correct_witness : opcodeTable !! 0x4E71 = Some (H0 NOP).
Proof. rewrite opcodeTable_correct; [reflexivity|unfold is_u16; lia]. Defined.

(** C39: start-up order is irrelevant.  Go runs the [init] functions of a
    package in the order the files are presented; in whatever order the
    registrations are performed they stay inside the array and give the same
    table, so no registration overwrites another with a different handler. *)
Theorem registration_order_irrelevant l :
  l ≡ₚ registrations ->
  fill l = opcodeTable /\ Forall (fun a => is_u16 a.1) l.
Proof.
  intros Hl. split.
  - apply map_eq. intros op. apply option_eq. intros h. unfold opcodeTable.
    rewrite !(fill_lookup decode); [by rewrite Hl|exact registrations_decode|].
    rewrite Hl. exact registrations_decode.
  - rewrite Hl. apply Forall_forall. intros a Ha.
    pose proof (proj1 (forallb_forall _ _) registrations_ok a) as Hok.
    apply list_elem_of_In in Ha. specialize (Hok Ha). unfold assignment_ok in Hok.
    unfold is_u16. lia.
Qed.

(** With the file that is registered last moved to the front. *)
Lemma registration_order_irrelevant_witness :
  fill (init_move ++ init_arith ++ init_bcd ++ init_bit ++ init_branch ++ init_ctrl ++ init_logic) =
  opcodeTable.
Proof.
  apply registration_order_irrelevant. unfold registrations.
  rewrite Permutation_app_comm, <- !app_assoc. reflexivity.
Defined.
