(* ===== verification/Step.v ===== *)
(** * Step and StepCycles (cpu.go)

    The fetch-decode-execute loop body, and the budgeted variant that carries
    an instruction's excess cost over to later calls. *)

From S2P Require Import Prelude Monad Cpu Flags Exception Timing Ea Decode.

Section step.
Context {B : Type} `{!Bus B}.

(** [handler := opcodeTable[c.ir]], nil entries being illegal instructions. *)
Definition execute (ir : Z) : M (CPU B) unit :=
  match opcodeTable !! ir with
  | None =>
      match Z.shiftr ir 12 with
      | 0xA => exception vecLineA
      | 0xF => exception vecLineF
      | _ => exception vecIllegalInstruction
      end
  | Some h => run h
  end.

(** The part of [Step] after the interrupt check and the odd-PC test. *)
Definition executeNext : M (CPU B) unit :=
  pc <- getPC ;;
  modify (with_prevPC pc) ;;
  w <- fetchPC ;;
  modify (with_ir w) ;;
  ir <- getir ;;
  modify (on_reg (with_IR ir)) ;;
  execute ir ;;
  h <- gets halted ;;
  pc <- getPC ;;
  when (negb h && tstb pc 1) (setHalted true).

Definition Step : M (CPU B) Z :=
  h <- gets halted ;;
  if (h : bool) then ret 0
  else
    before <- gets cycles ;;
    st <- gets stopped ;;
    if (st : bool) then
      AddCycles 4 ;;
      checkInterrupt ;;
      after <- gets cycles ;;
      ret (s64 (u64 (after - before)))
    else
      checkInterrupt ;;
      pc <- getPC ;;
      if tstb pc 1 then setHalted true ;; ret 0
      else
        executeNext ;;
        after <- gets cycles ;;
        ret (s64 (u64 (after - before))).

Definition StepCycles (budget : Z) : M (CPU B) Z :=
  h <- gets halted ;;
  if (h : bool) then ret 0
  else
    d <- gets deficit ;;
    if 0 <? d then
      if d <=? budget then
        modify (with_deficit 0) ;; ret d
      else
        modify (with_deficit (s64 (d - budget))) ;; ret budget
    else
      cost <- Step ;;
      if cost <=? budget then ret cost
      else modify (with_deficit (s64 (cost - budget))) ;; ret budget.
End step.
