(* ===== verification/Serialize.v ===== *)
(** * Saving and restoring the state (serialize.go)

    [Serialize] writes a 104-byte big-endian image into the caller's buffer;
    [Deserialize] reads one back.  A buffer is a list of bytes; an access
    outside it is a panic ([None]), the two error returns are values. *)

From S2P Require Import Prelude Monad Cpu Ram.

Inductive serror : Type := ErrTooSmall | ErrVersion.

Definition cpuSerializeVersion : Z := 1.
Definition SerializeSize : Z := 104.

(** ** encoding/binary's BigEndian *)

(** The [n] bytes of [v], most significant first. *)
Fixpoint be_bytes (n : nat) (v : Z) : list Z :=
  match n with
  | O => []
  | S n => u8 (Z.shiftr v (8 * Z.of_nat n)) :: be_bytes n v
  end.

Definition be_value (bs : list Z) : Z := foldl (fun acc b => acc * 256 + b) 0 bs.

(** [copy] of [bs] at offset [off]; panics when it does not fit. *)
Definition putBytes (off : Z) (bs : list Z) (buf : list Z) : option (list Z) :=
  if (off <? 0) || (Z.of_nat (length buf) <? off + Z.of_nat (length bs)) then None
  else Some (take (Z.to_nat off) buf ++ bs ++ drop (Z.to_nat off + length bs) buf).

Definition getBytes (off : Z) (n : nat) (buf : list Z) : option (list Z) :=
  if (off <? 0) || (Z.of_nat (length buf) <? off + Z.of_nat n) then None
  else Some (take n (drop (Z.to_nat off) buf)).

(** A writer keeps (buffer, offset); [be.PutUintN(buf[off:], v); off += n]. *)
Definition W : Type := M (list Z * Z) unit.

Definition emit (bs : list Z) : W :=
  st <- get ;;
  b <- of_option (putBytes (snd st) bs (fst st)) ;;
  put (b, snd st + Z.of_nat (length bs)).

Definition emit8 (v : Z) : W := emit [v].
Definition emit16 (v : Z) : W := emit (be_bytes 2 v).
Definition emit32 (v : Z) : W := emit (be_bytes 4 v).
Definition emit64 (v : Z) : W := emit (be_bytes 8 v).

Definition boolByte (b : bool) : Z := if b then 1 else 0.

(** A reader consumes from (buffer, offset). *)
Definition take_bytes (n : nat) : M (list Z * Z) Z :=
  st <- get ;;
  bs <- of_option (getBytes (snd st) n (fst st)) ;;
  put (fst st, snd st + Z.of_nat n) ;;
  ret (be_value bs).

(** [for i := 0; i < 8; i++ { be.PutUint32(buf[off:], l[i]); off += 4 }] *)
Definition emitRegs (l : list Z) : W :=
  foldM (fun _ i => v <- index l i ;; emit32 v) (zrange 0 8) tt.

Definition takeRegs : M (list Z * Z) (list Z) :=
  foldM (fun acc _ => v <- take_bytes 4 ;; ret (acc ++ [v])) (zrange 0 8) [].

Section serialize.
Context {B : Type}.

Definition writeState (c : CPU B) : W :=
  let r := reg c in
  emit8 cpuSerializeVersion ;;
  emitRegs (rD r) ;;
  emitRegs (rA r) ;;
  emit32 (rPC r) ;;
  emit16 (rSR r) ;;
  emit32 (rUSP r) ;;
  emit32 (rSSP r) ;;
  emit16 (rIR r) ;;
  emit64 (cycles c) ;;
  emit16 (ir c) ;;
  emit8 (boolByte (stopped c)) ;;
  emit8 (boolByte (halted c)) ;;
  emit32 (prevPC c) ;;
  emit8 (pendingIPL c) ;;
  (match pendingVec c with
   | Some v => emit [1; v]
   | None => emit [0; 0]
   end) ;;
  emit32 (u32 (s32 (deficit c))).

(** Returns the error, if any, and the buffer afterwards. *)
Definition Serialize (c : CPU B) (buf : list Z) : option (option serror * list Z) :=
  if Z.of_nat (length buf) <? SerializeSize then Some (Some ErrTooSmall, buf)
  else
    match writeState c (buf, 0) with
    | Some (_, (buf', _)) => Some (None, buf')
    | None => None
    end.

Definition readState (c : CPU B) : M (list Z * Z) (CPU B) :=
  d <- takeRegs ;;
  a <- takeRegs ;;
  pc <- take_bytes 4 ;;
  sr <- take_bytes 2 ;;
  usp <- take_bytes 4 ;;
  ssp <- take_bytes 4 ;;
  rir <- take_bytes 2 ;;
  cyc <- take_bytes 8 ;;
  i <- take_bytes 2 ;;
  st <- take_bytes 1 ;;
  h <- take_bytes 1 ;;
  ppc <- take_bytes 4 ;;
  ipl <- take_bytes 1 ;;
  hasVec <- take_bytes 1 ;;
  vec <- take_bytes 1 ;;
  def <- take_bytes 4 ;;
  ret (mkCPU (mkRegisters d a pc sr usp ssp rir) (bus c) cyc i
         (negb (st =? 0)) (negb (h =? 0)) ppc ipl
         (if negb (hasVec =? 0) then Some vec else None)
         (s32 def)).

Definition Deserialize (buf : list Z) (c : CPU B) : option (option serror * CPU B) :=
  if Z.of_nat (length buf) <? SerializeSize then Some (Some ErrTooSmall, c)
  else
    match arr_get buf 0 with
    | None => None
    | Some v =>
        if negb (v =? cpuSerializeVersion) then Some (Some ErrVersion, c)
        else
          match readState c (buf, 1) with
          | Some (c', _) => Some (None, c')
          | None => None
          end
    end.
End serialize.

(** ** Big-endian numbers *)

Lemma length_be_bytes n v : length (be_bytes n v) = n.
Proof. induction n; simpl; congruence. Qed.

Lemma be_value_app a b :
  be_value (a ++ b) = be_value a * 256 ^ Z.of_nat (length b) + be_value b.
Proof.
  induction b as [|x b IH] using rev_ind; [rewrite app_nil_r; unfold be_value; simpl; lia|].
  unfold be_value in *. rewrite app_assoc, (foldl_app _ (a ++ b) [x] 0), (foldl_app _ b [x] 0), IH.
  rewrite length_app, Nat2Z.inj_add, Z.pow_add_r by lia. change (256 ^ Z.of_nat (length [x])) with 256.
  simpl. lia.
Qed.

Lemma be_value_cons x b : be_value (x :: b) = x * 256 ^ Z.of_nat (length b) + be_value b.
Proof. exact (be_value_app [x] b). Qed.

Lemma be_value_bytes n v : be_value (be_bytes n v) = v mod 256 ^ Z.of_nat n.
Proof.
  induction n as [|n IH]; [by rewrite Z.mod_1_r|].
  simpl be_bytes. rewrite be_value_cons, length_be_bytes, IH.
  unfold u8. rewrite Z.shiftr_div_pow2 by lia.
  replace (2 ^ (8 * Z.of_nat n)) with (256 ^ Z.of_nat n)
    by (rewrite Z.pow_mul_r by lia; done).
  rewrite Nat2Z.inj_succ, Z.pow_succ_r by lia.
  assert (0 < 256 ^ Z.of_nat n) by (apply Z.pow_pos_nonneg; lia).
  rewrite (Z.mul_comm 256), Z.rem_mul_r by lia. lia.
Qed.

Lemma be_bytes_range n v : Forall is_u8 (be_bytes n v).
Proof. induction n; simpl; constructor; [apply u8_range|done]. Qed.

Lemma be_value_range bs : Forall is_u8 bs -> 0 <= be_value bs < 256 ^ Z.of_nat (length bs).
Proof.
  induction 1 as [|x bs Hx Hbs IH]; [simpl; unfold be_value; simpl; lia|].
  rewrite be_value_cons, length_cons, Nat2Z.inj_succ, Z.pow_succ_r by lia.
  unfold is_u8 in Hx. nia.
Qed.

(** ** Writers and readers on a buffer *)

(** [m] writes exactly [bs] at the offset, leaving the rest of the buffer. *)
Definition emits (m : W) (bs : list Z) : Prop :=
  forall pre rest, (length bs <= length rest)%nat ->
    m (pre ++ rest, Z.of_nat (length pre)) =
    Some (tt, (pre ++ bs ++ drop (length bs) rest, Z.of_nat (length pre + length bs))).

Lemma emits_emit bs : emits (emit bs) bs.
Proof.
  intros pre rest Hl. unfold emit, get, put, bind, of_option, putBytes. simpl.
  destruct (Z.ltb_spec (Z.of_nat (length pre)) 0); [lia|].
  destruct (Z.ltb_spec (Z.of_nat (length (pre ++ rest))) (Z.of_nat (length pre) + Z.of_nat (length bs)));
    [rewrite length_app in *; lia|]. simpl. unfold ret. rewrite Nat2Z.id, take_app_length, Nat2Z.inj_add.
  by rewrite drop_app_add.
Qed.

Lemma emits_bind m (k : unit -> W) bs bs' :
  emits m bs -> emits (k tt) bs' -> emits (x <- m ;; k x) (bs ++ bs').
Proof.
  intros H1 H2 pre rest Hl. rewrite length_app in Hl. unfold bind. rewrite H1 by lia.
  rewrite app_assoc. rewrite <- length_app, H2 by (rewrite length_drop; lia).
  rewrite drop_drop, !length_app, Nat.add_assoc. by rewrite <- !app_assoc.
Qed.

(** [m] reads exactly [bs] at the offset and returns [a]. *)
Definition takes {A} (m : M (list Z * Z) A) (bs : list Z) (a : A) : Prop :=
  forall pre rest,
    m (pre ++ bs ++ rest, Z.of_nat (length pre)) =
    Some (a, (pre ++ bs ++ rest, Z.of_nat (length pre + length bs))).

Lemma takes_bytes bs : takes (take_bytes (length bs)) bs (be_value bs).
Proof.
  intros pre rest. unfold take_bytes, get, put, bind, of_option, getBytes. simpl.
  destruct (Z.ltb_spec (Z.of_nat (length pre)) 0); [lia|].
  destruct (Z.ltb_spec (Z.of_nat (length (pre ++ bs ++ rest)))
    (Z.of_nat (length pre) + Z.of_nat (length bs))); [rewrite !length_app in *; lia|].
  simpl. unfold ret. rewrite Nat2Z.id, drop_app_length, take_app_length. by rewrite Nat2Z.inj_add.
Qed.

Lemma takes_ret {A} (a : A) : takes (ret a) [] a.
Proof. intros pre rest. unfold ret. by rewrite Nat.add_0_r. Qed.

Lemma takes_bind {A C} (m : M (list Z * Z) A) (k : A -> M (list Z * Z) C) bs bs' a r :
  takes m bs a -> takes (k a) bs' r -> takes (x <- m ;; k x) (bs ++ bs') r.
Proof.
  intros H1 H2 pre rest. unfold bind. rewrite <- app_assoc, H1.
  rewrite app_assoc, <- length_app, H2. by rewrite <- !app_assoc, !length_app, Nat.add_assoc.
Qed.

Lemma emits_ret : emits (ret tt) [].
Proof. intros pre rest _. unfold ret. simpl. by rewrite drop_0, Nat.add_0_r. Qed.

Lemma takes_be n v :
  0 <= v < 256 ^ Z.of_nat n -> takes (take_bytes n) (be_bytes n v) v.
Proof.
  intros Hv. pose proof (takes_bytes (be_bytes n v)) as H.
  by rewrite length_be_bytes, be_value_bytes, Z.mod_small in H by done.
Qed.

Lemma takes_byte v : takes (take_bytes 1) [v] v.
Proof. apply (takes_bytes [v]). Qed.

Definition regsImage (l : list Z) : list Z := concat (be_bytes 4 <$> l).

Lemma length_regsImage l : length (regsImage l) = (4 * length l)%nat.
Proof.
  induction l as [|v l IH]; [done|].
  change (regsImage (v :: l)) with (be_bytes 4 v ++ regsImage l).
  rewrite length_app, length_be_bytes, IH, length_cons. lia.
Qed.

Lemma emits_emitRegs l : length l = 8%nat -> emits (emitRegs l) (regsImage l).
Proof.
  intros Hl. do 8 (destruct l as [|? l]; [done|]). destruct l; [|done].
  unfold emitRegs, regsImage. simpl foldM. cbn [concat fmap list_fmap].
  repeat (apply (emits_bind _ _ (be_bytes 4 _)); [apply emits_emit|]). apply emits_ret.
Qed.

Lemma takes_takeRegs l :
  length l = 8%nat -> Forall is_u32 l -> takes takeRegs (regsImage l) l.
Proof.
  intros Hl HF. unfold takeRegs.
  assert (forall (ix l : list Z) acc, length ix = length l -> Forall is_u32 l ->
    takes (foldM (fun acc _ => v <- take_bytes 4 ;; ret (acc ++ [v])) ix acc)
      (regsImage l) (acc ++ l)) as H.
  { clear. intros ix. induction ix as [|i ix IH]; intros [|v l] acc Hl HF; try done.
    - rewrite app_nil_r. apply takes_ret.
    - apply Forall_cons in HF as [Hv HF]. injection Hl as Hl.
      apply (takes_bind _ _ (be_bytes 4 v) (regsImage l) (acc ++ [v])).
      + rewrite <- (app_nil_r (be_bytes 4 v)). eapply takes_bind; [by apply takes_be|apply takes_ret].
      + replace (acc ++ v :: l) with ((acc ++ [v]) ++ l) by (by rewrite <- app_assoc). by apply IH. }
  by apply (H (zrange 0 8) l []).
Qed.

(** ** The image *)

Section image.
Context {B : Type}.
Implicit Types c : CPU B.

Definition vecImage (v : option Z) : list Z :=
  match v with Some v => [1; v] | None => [0; 0] end.

(** The image without its version byte. *)
Definition body c : list Z :=
  let r := reg c in
  regsImage (rD r) ++ regsImage (rA r) ++ be_bytes 4 (rPC r) ++ be_bytes 2 (rSR r) ++
  be_bytes 4 (rUSP r) ++ be_bytes 4 (rSSP r) ++ be_bytes 2 (rIR r) ++ be_bytes 8 (cycles c) ++
  be_bytes 2 (ir c) ++ [boolByte (stopped c)] ++ [boolByte (halted c)] ++ be_bytes 4 (prevPC c) ++
  [pendingIPL c] ++ vecImage (pendingVec c) ++ be_bytes 4 (u32 (s32 (deficit c))).

Definition image c : list Z := [cpuSerializeVersion] ++ body c.

Lemma length_image c : WF c -> Z.of_nat (length (image c)) = SerializeSize.
Proof.
  intros Hwf. unfold image, body. rewrite !length_app, !length_be_bytes, !length_regsImage.
  rewrite (wf_D_length c Hwf), (wf_A_length c Hwf). by destruct (pendingVec c).
Qed.

Lemma image_bytes c : WF c -> Forall is_u8 (image c).
Proof.
  intros Hwf. assert (forall l, Forall is_u8 (regsImage l)) as Hr.
  { intros l. apply Forall_concat, Forall_fmap, Forall_true. intros v. apply be_bytes_range. }
  pose proof (wf_IPL c Hwf) as Hi. pose proof (wf_vec c Hwf) as Hv. unfold image, body.
  rewrite !Forall_app, !Forall_singleton.
  assert (forall b, is_u8 (boolByte b)) as Hb by (by intros []).
  assert (Forall is_u8 (vecImage (pendingVec c))) as HV.
  { destruct (pendingVec c) as [v|]; simpl; rewrite !Forall_cons; [|done].
    split; [done|]. split; [by apply Hv|done]. }
  repeat (split; [first [apply be_bytes_range | apply Hr | apply Hb | done]|]). apply be_bytes_range.
Qed.

Lemma emits_writeState c : WF c -> emits (writeState c) (image c).
Proof.
  intros Hwf. unfold writeState, image, body. cbv zeta.
  repeat first
    [ apply emits_emit | apply emits_emitRegs; apply Hwf
    | apply emits_bind; [first [apply emits_emit | apply emits_emitRegs; apply Hwf
                               | destruct (pendingVec c); apply emits_emit]|] ].
Qed.

(** What a state becomes when it is saved and restored: the deficit is stored
    as an [int32]. *)
Definition restored (b : B) c : CPU B := with_deficit (s32 (deficit c)) (with_bus b c).

Lemma takes_readState c c0 : WF c -> takes (readState c0) (body c) (restored (bus c0) c).
Proof.
  intros Hwf. pose proof Hwf as Hwf'. destruct Hwf'. unfold readState, body. cbv zeta.
  apply (takes_bind _ _ _ _ (rD (reg c))); [by apply takes_takeRegs|].
  apply (takes_bind _ _ _ _ (rA (reg c))); [by apply takes_takeRegs|].
  apply (takes_bind _ _ _ _ (rPC (reg c))); [by apply takes_be|].
  apply (takes_bind _ _ _ _ (rSR (reg c))); [by apply takes_be|].
  apply (takes_bind _ _ _ _ (rUSP (reg c))); [by apply takes_be|].
  apply (takes_bind _ _ _ _ (rSSP (reg c))); [by apply takes_be|].
  apply (takes_bind _ _ _ _ (rIR (reg c))); [by apply takes_be|].
  apply (takes_bind _ _ _ _ (cycles c)); [by apply takes_be|].
  apply (takes_bind _ _ _ _ (ir c)); [by apply takes_be|].
  apply (takes_bind _ _ _ _ (boolByte (stopped c))); [by apply takes_byte|].
  apply (takes_bind _ _ _ _ (boolByte (halted c))); [by apply takes_byte|].
  apply (takes_bind _ _ _ _ (prevPC c)); [by apply takes_be|].
  apply (takes_bind _ _ _ _ (pendingIPL c)); [by apply takes_byte|].
  set (hv := match pendingVec c with Some _ => 1 | None => 0 end).
  set (vb := match pendingVec c with Some v => v | None => 0 end).
  replace (vecImage (pendingVec c)) with ([hv] ++ [vb]) by (unfold hv, vb; by destruct (pendingVec c)).
  rewrite <- app_assoc.
  apply (takes_bind _ _ _ _ hv); [by apply takes_byte|].
  apply (takes_bind _ _ _ _ vb); [by apply takes_byte|].
  rewrite <- (app_nil_r (be_bytes 4 (u32 _))).
  apply (takes_bind _ _ _ _ (u32 (s32 (deficit c)))); [apply takes_be, u32_range|].
  unfold restored. replace (s32 (u32 (s32 (deficit c)))) with (s32 (deficit c)) by wordlia.
  destruct c as [[] ? ? ? [] [] ? ? [] ?]; apply takes_ret.
Qed.

Lemma Serialize_image c buf :
  WF c -> SerializeSize <= Z.of_nat (length buf) ->
  Serialize c buf = Some (None, image c ++ drop (length (image c)) buf).
Proof.
  intros Hwf Hbuf. pose proof (length_image c Hwf) as Hlen. unfold Serialize.
  destruct (Z.ltb_spec (Z.of_nat (length buf)) SerializeSize); [lia|].
  pose proof (emits_writeState c Hwf [] buf ltac:(lia)) as E.
  change (Z.of_nat (length [])) with 0 in E. simpl ([] ++ _) in E. by rewrite E.
Qed.

Lemma Deserialize_image c c0 rest :
  WF c -> Deserialize (image c ++ rest) c0 = Some (None, restored (bus c0) c).
Proof.
  intros Hwf. pose proof (length_image c Hwf) as Hlen. unfold Deserialize.
  destruct (Z.ltb_spec (Z.of_nat (length (image c ++ rest))) SerializeSize) as [Hlt|_];
    [rewrite length_app in Hlt; lia|].
  change (arr_get (image c ++ rest) 0) with (Some cpuSerializeVersion). simpl (negb _). cbv iota.
  pose proof (takes_readState c c0 Hwf [cpuSerializeVersion] rest) as E.
  change (Z.of_nat (length [cpuSerializeVersion])) with 1 in E.
  unfold image. rewrite <- app_assoc. by rewrite E.
Qed.

(** C10: saving and restoring a state.  Into any buffer of at least 104 bytes
    [Serialize] succeeds, writes only the first 104 bytes, and [Deserialize]
    of that buffer into any processor gives back the saved state: every field
    but the bus, which stays the target's, and the deficit, which is cut to an
    [int32] (it is unchanged when it fits). *)
Theorem serialize_roundtrip c c0 buf :
  WF c -> SerializeSize <= Z.of_nat (length buf) ->
  exists buf',
    Serialize c buf = Some (None, buf') /\
    length buf' = length buf /\ drop 104 buf' = drop 104 buf /\
    Deserialize buf' c0 = Some (None, with_deficit (s32 (deficit c)) (with_bus (bus c0) c)) /\
    (- 0x80000000 <= deficit c < 0x80000000 ->
     Deserialize buf' c0 = Some (None, with_bus (bus c0) c)).
Proof.
  intros Hwf Hbuf. pose proof (length_image c Hwf) as Hlen. unfold SerializeSize in *.
  eexists. split; [by apply Serialize_image|]. rewrite length_app, length_drop. split; [lia|].
  rewrite Deserialize_image by done. split; [|split; [done|]].
  - replace 104%nat with (length (image c) + 0)%nat by lia. by rewrite drop_app_add, Nat.add_0_r, drop_0.
  - intros Hd. unfold restored. replace (s32 (deficit c)) with (deficit c) by wordlia.
    by destruct c.
Qed.

(** [m] reads [n] bytes of any buffer that has them, and what it returns
    satisfies [V]. *)
Definition reads {A} (m : M (list Z * Z) A) (n : Z) (V : A -> Prop) : Prop :=
  forall buf off, Forall is_u8 buf -> 0 <= off -> 0 <= n -> off + n <= Z.of_nat (length buf) ->
    exists a, m (buf, off) = Some (a, (buf, off + n)) /\ V a.

Lemma reads_ret {A} (a : A) (V : A -> Prop) : V a -> reads (ret a) 0 V.
Proof. intros Ha buf off _ _ _ _. exists a. by rewrite Z.add_0_r. Qed.

Lemma reads_bind {A C} (m : M (list Z * Z) A) (k : A -> M (list Z * Z) C) n n' V W :
  0 <= n -> 0 <= n' -> reads m n V -> (forall a, V a -> reads (k a) n' W) ->
  reads (x <- m ;; k x) (n + n') W.
Proof.
  intros Hn Hn' Hm Hk buf off Hb Hoff Hnn Hlen.
  destruct (Hm buf off) as (a & E & Ha); [done|done|done|lia|].
  destruct (Hk a Ha buf (off + n)) as (r & E' & Hr); [done|lia|done|lia|].
  exists r. unfold bind. by rewrite E, E', Z.add_assoc.
Qed.

Lemma reads_bytes n : reads (take_bytes n) (Z.of_nat n) (fun v => 0 <= v < 256 ^ Z.of_nat n).
Proof.
  intros buf off Hb Hoff _ Hn. unfold take_bytes, get, put, bind, of_option, getBytes, ret. simpl.
  destruct (Z.ltb_spec off 0); [lia|].
  destruct (Z.ltb_spec (Z.of_nat (length buf)) (off + Z.of_nat n)); [lia|]. simpl.
  eexists. split; [done|].
  replace n with (length (take n (drop (Z.to_nat off) buf))) at 3
    by (rewrite length_take, length_drop; lia).
  apply be_value_range, Forall_take, Forall_drop, Hb.
Qed.

Lemma reads_takeRegs : reads takeRegs 32 (fun l => length l = 8%nat /\ Forall is_u32 l).
Proof.
  assert (forall (ix acc : list Z), Forall is_u32 acc ->
    reads (foldM (fun acc _ => v <- take_bytes 4 ;; ret (acc ++ [v])) ix acc)
      (4 * Z.of_nat (length ix))
      (fun l => length l = (length acc + length ix)%nat /\ Forall is_u32 l)) as H.
  { intros ix. induction ix as [|i ix IH]; intros acc Hacc.
    - apply reads_ret. split; [simpl; lia|done].
    - rewrite length_cons, Nat2Z.inj_succ.
      replace (4 * Z.succ (Z.of_nat (length ix))) with (4 + 4 * Z.of_nat (length ix)) by lia.
      apply (reads_bind _ _ _ _
        (fun l => length l = (length acc + 1)%nat /\ Forall is_u32 l)); [lia|lia| |].
      + apply (reads_bind _ _ 4 0 is_u32); [done|done|apply (reads_bytes 4)|].
        intros v Hv. apply reads_ret. rewrite length_app. split; [done|].
        by apply Forall_app_2; [|constructor].
      + intros l [Hl HF]. replace (length acc + S (length ix))%nat with (length l + length ix)%nat
          by lia. by apply IH. }
  by apply (H (zrange 0 8) []).
Qed.

(** The range a field of [n] bytes is read in. *)
Lemma reads_field {A} n (V : Z -> Prop) (k : Z -> M (list Z * Z) A) n' W :
  0 <= n' -> (forall v, 0 <= v < 256 ^ Z.of_nat n -> V v) ->
  (forall v, V v -> reads (k v) n' W) -> reads (x <- take_bytes n ;; k x) (Z.of_nat n + n') W.
Proof. intros Hn' HV Hk. eapply reads_bind; [lia|done|apply reads_bytes|]. auto. Qed.

Lemma reads_readState c : reads (readState c) 103 (fun c' => WF c' /\ bus c' = bus c).
Proof.
  unfold readState.
  apply (reads_bind _ _ 32 71 _ _ ltac:(lia) ltac:(lia) reads_takeRegs). intros d [Hd HD].
  apply (reads_bind _ _ 32 39 _ _ ltac:(lia) ltac:(lia) reads_takeRegs). intros a [Ha HA].
  apply (reads_field 4 is_u32 _ 35); [lia|done|]. intros pc Hpc.
  apply (reads_field 2 is_u16 _ 33); [lia|done|]. intros sr Hsr.
  apply (reads_field 4 is_u32 _ 29); [lia|done|]. intros usp Husp.
  apply (reads_field 4 is_u32 _ 25); [lia|done|]. intros ssp Hssp.
  apply (reads_field 2 is_u16 _ 23); [lia|done|]. intros rir Hrir.
  apply (reads_field 8 is_u64 _ 15); [lia|done|]. intros cyc Hcyc.
  apply (reads_field 2 is_u16 _ 13); [lia|done|]. intros i Hi.
  apply (reads_field 1 is_u8 _ 12); [lia|done|]. intros st _.
  apply (reads_field 1 is_u8 _ 11); [lia|done|]. intros h _.
  apply (reads_field 4 is_u32 _ 7); [lia|done|]. intros ppc Hppc.
  apply (reads_field 1 is_u8 _ 6); [lia|done|]. intros ipl Hipl.
  apply (reads_field 1 is_u8 _ 5); [lia|done|]. intros hv _.
  apply (reads_field 1 is_u8 _ 4); [lia|done|]. intros vec Hvec.
  apply (reads_field 4 is_u32 _ 0); [lia|done|]. intros def Hdef.
  apply reads_ret. split; [|done]. constructor; simpl; auto.
  - intros v Hv. destruct (negb (hv =? 0)); by simplify_eq.
  - wordlia.
Qed.

Lemma Deserialize_WF buf c :
  Forall is_u8 buf -> WF c -> exists e c', Deserialize buf c = Some (e, c') /\ WF c'.
Proof.
  intros Hb Hwf. unfold Deserialize, SerializeSize.
  destruct (Z.ltb_spec (Z.of_nat (length buf)) 104); [eauto|].
  destruct buf as [|v buf]; [done|]. change (arr_get (v :: buf) 0) with (Some v). cbv iota.
  case_if; [eauto|].
  destruct (reads_readState c (v :: buf) 1) as (c' & E & HW & _); [done|lia|lia|lia|].
  rewrite E. eauto.
Qed.

Lemma Serialize_total c buf : WF c -> exists r, Serialize c buf = Some r.
Proof.
  intros Hwf. destruct (Z_lt_le_dec (Z.of_nat (length buf)) SerializeSize) as [Hlt|Hge].
  - unfold Serialize. destruct (Z.ltb_spec (Z.of_nat (length buf)) SerializeSize); [eauto|lia].
  - eexists. by apply Serialize_image.
Qed.

(** Fields of an image by their offsets. *)
Definition field (off n : nat) (buf : list Z) : Z := be_value (take n (drop off buf)).

Definition imageSR (buf : list Z) : Z := field 69 2 buf.
Definition imageIPL (buf : list Z) : Z := field 97 1 buf.
Definition imageDeficit (buf : list Z) : Z := s32 (field 100 4 buf).

Lemma take_bytes_at {A} (off n : nat) buf (k : Z -> M (list Z * Z) A) :
  (off + n <= length buf)%nat ->
  bind (take_bytes n) k (buf, Z.of_nat off) = k (field off n buf) (buf, Z.of_nat (off + n)).
Proof.
  intros Hl. apply bind_eval. unfold take_bytes, get, put, bind, of_option, getBytes. simpl.
  destruct (Z.ltb_spec (Z.of_nat off) 0); [lia|].
  destruct (Z.ltb_spec (Z.of_nat (length buf)) (Z.of_nat off + Z.of_nat n)); [lia|].
  simpl. unfold ret. by rewrite Nat2Z.id, Nat2Z.inj_add.
Qed.

Lemma takeRegs_at {A} (off : nat) buf (k : list Z -> M (list Z * Z) A) :
  (off + 32 <= length buf)%nat ->
  exists l, bind takeRegs k (buf, Z.of_nat off) = k l (buf, Z.of_nat (off + 32)).
Proof.
  intros Hl. unfold takeRegs. eexists.
  change (zrange 0 8) with [0; 1; 2; 3; 4; 5; 6; 7]. cbn [foldM].
  do 8 (rewrite !bind_assoc, take_bytes_at by lia; rewrite bind_ret).
  rewrite bind_ret. do 3 f_equal. lia.
Qed.

(** What [Deserialize] takes from those fields. *)
Lemma Deserialize_fields buf c c' :
  Deserialize buf c = Some (None, c') ->
  rSR (reg c') = imageSR buf /\ pendingIPL c' = imageIPL buf /\ deficit c' = imageDeficit buf.
Proof.
  unfold Deserialize, SerializeSize.
  destruct (Z.ltb_spec (Z.of_nat (length buf)) 104); [done|]. destruct (arr_get buf 0); [|done].
  case_if; [done|]. unfold readState. change 1 with (Z.of_nat 1).
  match goal with |- context [bind takeRegs ?k (buf, _)] =>
    destruct (takeRegs_at 1 buf k) as [d ->]; [lia|] end. change (1 + 32)%nat with 33%nat.
  match goal with |- context [bind takeRegs ?k (buf, _)] =>
    destruct (takeRegs_at 33 buf k) as [a ->]; [lia|] end.
  change (33 + 32)%nat with 65%nat. do 14 (rewrite take_bytes_at by lia; simpl (_ + _)%nat).
  by intros [= <-].
Qed.

(** C40: [Deserialize] on any buffer.  It never runs off the buffer; a short
    buffer or a wrong version byte is reported and leaves the processor as it
    was; any other content gives a well-formed state and keeps the bus. *)
Theorem deserialize_total buf c :
  Forall is_u8 buf ->
  (Z.of_nat (length buf) < SerializeSize /\ Deserialize buf c = Some (Some ErrTooSmall, c)) \/
  (SerializeSize <= Z.of_nat (length buf) /\ buf !! 0%nat <> Some cpuSerializeVersion /\
   Deserialize buf c = Some (Some ErrVersion, c)) \/
  (SerializeSize <= Z.of_nat (length buf) /\ buf !! 0%nat = Some cpuSerializeVersion /\
   exists c', Deserialize buf c = Some (None, c') /\ WF c' /\ bus c' = bus c).
Proof.
  intros Hb. unfold Deserialize, SerializeSize.
  destruct (Z.ltb_spec (Z.of_nat (length buf)) 104); [by left|right].
  destruct buf as [|v buf]; [done|]. change (arr_get (v :: buf) 0) with (Some v). cbv iota.
  destruct (Z.eqb_spec v cpuSerializeVersion) as [->|Hne]; simpl (negb _); cbv iota.
  - right. split; [done|]. split; [done|].
    destruct (reads_readState c (cpuSerializeVersion :: buf) 1) as (c' & E & HW & Hbus);
      [done|lia|lia|lia|]. exists c'. by rewrite E.
  - left. split; [done|]. split; [|done]. simpl. congruence.
Qed.
End image.

Lemma serialize_roundtrip_witness :
  exists buf', Serialize (cpuAt 0x1000 0x2700 0 0x8000 ram0) (replicate 104 0) = Some (None, buf') /\
    Deserialize buf' (zeroCPU ram0) = Some (None, cpuAt 0x1000 0x2700 0 0x8000 ram0).
Proof.
  destruct (serialize_roundtrip (cpuAt 0x1000 0x2700 0 0x8000 ram0) (zeroCPU ram0) (replicate 104 0))
    as (buf' & E & _ & _ & _ & H); [apply cpuAt_WF; wordlia|vm_compute; congruence|].
  exists buf'. split; [exact E|]. apply H. simpl. lia.
Defined.

Lemma deserialize_total_witness :
  exists c' : CPU unit, Deserialize (1 :: replicate 103 0) (zeroCPU tt) = Some (None, c') /\ WF c'.
Proof.
  destruct (deserialize_total (1 :: replicate 103 0) (zeroCPU tt))
    as [[H _]|[(_ & H & _)|(_ & _ & c' & E & HW & _)]].
  - apply Forall_cons. split; [wordlia|]. apply Forall_replicate. wordlia.
  - vm_compute in H. discriminate H.
  - destruct H. reflexivity.
  - exists c'. split; [exact E|exact HW].
Defined.
