(* ===== verification/Safety.v ===== *)
(** * Type safety, panic freedom and the bus contract

    [WF] says that every field of the state is in the range of its Go type and
    that the register files have eight entries.  For every computation of the
    emulator this file proves [Safe V m]: from a well-formed state [m] does
    not panic, leaves a well-formed state, returns a value satisfying [V],
    leaves the fields that belong to the fetch loop alone ([keeps]), and
    carries along any property [P] of the bus that respects the bus contract. *)

From S2P Require Import Prelude Monad Cpu Ram Flags Exception Timing Ea.
From S2P Require Import OpsCommon OpsMove OpsArith OpsLogic OpsBit OpsBcd OpsBranch OpsCtrl.
From S2P Require Import Decode Step.

(** The contract of cpu.go's [Bus] comment: 24-bit addresses, word and long
    accesses at even addresses, values in the range of their width.  A
    property of the bus respects the contract when every access allowed by it
    keeps the property. *)
Record bus_contract {B} `{!Bus B} (P : B -> Prop) : Prop := {
  ok_Read8 : forall a b, 0 <= a < 0x1000000 -> P b -> P (snd (Read8 a b));
  ok_Read16 : forall a b, 0 <= a < 0x1000000 -> Z.odd a = false -> P b -> P (snd (Read16 a b));
  ok_Read32 : forall a b, 0 <= a < 0x1000000 -> Z.odd a = false -> P b -> P (snd (Read32 a b));
  ok_Write8 : forall a v b, 0 <= a < 0x1000000 -> is_u8 v -> P b -> P (Write8 a v b);
  ok_Write16 : forall a v b,
    0 <= a < 0x1000000 -> Z.odd a = false -> is_u16 v -> P b -> P (Write16 a v b);
  ok_Write32 : forall a v b,
    0 <= a < 0x1000000 -> Z.odd a = false -> is_u32 v -> P b -> P (Write32 a v b);
  ok_BusReset : forall b, P b -> P (BusReset b)
}.

(** What no instruction touches: the latched opcode, the previous PC, the
    pending interrupt and the deficit; and a halted processor stays halted. *)
Definition keeps {B} (c c' : CPU B) : Prop :=
  ir c' = ir c /\ prevPC c' = prevPC c /\ deficit c' = deficit c /\
  pendingIPL c' = pendingIPL c /\ pendingVec c' = pendingVec c /\
  rIR (reg c') = rIR (reg c) /\ (halted c = true -> halted c' = true).

#[export] Instance keeps_refl {B} : Reflexive (@keeps B).
Proof. intros c. by repeat split. Qed.

#[export] Instance keeps_trans {B} : Transitive (@keeps B).
Proof.
  intros c1 c2 c3 (E1 & E2 & E3 & E4 & E5 & E6 & E7) (F1 & F2 & F3 & F4 & F5 & F6 & F7).
  repeat split; try congruence. auto.
Qed.

(** The modes [makeEAMemAddr] has a closure for. *)
Definition ea_mem (mode reg : Z) : bool := (2 <=? mode) && ((mode <? 7) || (reg <=? 3)).

(** The operand is a data register or an address with a memory closure. *)
Definition regOrMem (mode reg : Z) : bool := (mode =? 0) || ea_mem mode reg.

(** What a handler needs of the operands it is made from, so that the closures
    it calls are not nil. *)
Definition op2_ok (o : op2) (mode reg : Z) : bool :=
  match o with
  | MOVEtoCCR | MOVEtoSR | TST | BTSTstatic => ea_any mode reg
  | JMP | JSR | PEA | ShiftMem => ea_mem mode reg
  | _ => regOrMem mode reg
  end.

Definition op3_ok (o : op3) (mode reg : Z) : bool :=
  match o with
  | ADDtoEA | SUBtoEA | ANDtoEA | ORtoEA | LEA => ea_mem mode reg
  | ADDQ | SUBQ => (mode =? 1) || regOrMem mode reg
  | EOR | BCHGdyn | BCLRdyn | BSETdyn => regOrMem mode reg
  | _ => ea_any mode reg
  end.

Definition field3 (x : Z) : bool := (0 <=? x) && (x <? 8).

Definition handler_ok (op : Z) (h : handler) : bool :=
  match h with
  | H0 ShiftReg => negb (Z.land (Z.shiftr op 6) 3 =? 3)
  | H0 _ => true
  | H2 o mode reg => field3 mode && field3 reg && op2_ok o mode reg
  | H3 o x mode reg => field3 x && field3 mode && field3 reg && op3_ok o mode reg
  | HMOVE sm sr dm dr =>
      field3 sm && field3 sr && field3 dm && field3 dr && ea_any sm sr && regOrMem dm dr
  end.

Create HintDb safe discriminated.
#[export] Hint Constants Opaque : safe.

Section safety.
Context {B : Type} `{!Bus B, !BusTyped B} (P : B -> Prop) (HP : bus_contract P) (op : Z).

(** The invariant during the execution of the instruction word [op]. *)
Definition Inv (c : CPU B) : Prop := WF c /\ P (bus c) /\ ir c = op.

Definition Safe {A} (V : A -> Prop) (m : M (CPU B) A) : Prop := Pres Inv keeps V m.

Definition T {A} : A -> Prop := fun _ => True.

Lemma safe_ret {A} (V : A -> Prop) a : V a -> Safe V (ret a).
Proof. apply pres_ret, _. Qed.

Lemma safe_bind {A C} (V : A -> Prop) (W : C -> Prop) m (k : A -> M (CPU B) C) :
  Safe V m -> (forall a, V a -> Safe W (k a)) -> Safe W (bind m k).
Proof. apply pres_bind, _. Qed.

Lemma safe_weaken {A} (V W : A -> Prop) m : Safe V m -> (forall a, V a -> W a) -> Safe W m.
Proof. apply pres_weaken. Qed.

Lemma safe_T {A} (V : A -> Prop) m : Safe V m -> Safe T m.
Proof. intros. by eapply safe_weaken. Qed.

Lemma safe_when (b : bool) m : Safe T m -> Safe T (when b m).
Proof. destruct b; [done|]. intros _. by apply safe_ret. Qed.

(** A pure update of the state. *)
Lemma safe_modify (f : CPU B -> CPU B) :
  (forall c, WF c -> P (bus c) -> WF (f c) /\ P (bus (f c)) /\ keeps c (f c)) ->
  Safe T (modify f).
Proof.
  intros Hf c (Hwf & Hp & Hir). apply wp_modify.
  destruct (Hf c Hwf Hp) as (? & ? & Hk). split; [|done].
  split; [done|]. split; [done|]. by rewrite (proj1 Hk).
Qed.

Lemma safe_gets {A} (V : A -> Prop) (f : CPU B -> A) :
  (forall c, WF c -> V (f c)) -> Safe V (gets f).
Proof. intros Hf c Hc. apply wp_gets. split; [done|]. split; [done|]. apply Hf, Hc. Qed.

Lemma safe_get_bind {C} (W : C -> Prop) (k : CPU B -> M (CPU B) C) :
  (forall c, Inv c -> wp (k c) (fun a c' => Inv c' /\ keeps c c' /\ W a) c) ->
  Safe W (bind get k).
Proof. intros Hk c Hc. apply wp_bind, wp_get. by apply Hk. Qed.

(** ** Field accesses *)

Ltac wf_update :=
  apply safe_modify; intros c Hwf Hp; split; [|by split; [|repeat split]];
  destruct Hwf; constructor; simpl; auto.

Lemma safe_getD i : 0 <= i < 8 -> Safe is_u32 (getD i).
Proof.
  intros Hi. apply safe_get_bind. intros c Hc. unfold index.
  destruct Hc as (Hwf & Hp & Hir).
  destruct (arr_get_in (rD (reg c)) i) as (v & -> & Hv); [rewrite (wf_D_length c Hwf); lia|].
  apply wp_ret. split; [done|]. split; [done|].
  pose proof (wf_D c Hwf) as HD. rewrite Forall_forall in HD. auto.
Qed.

Lemma safe_getA i : 0 <= i < 8 -> Safe is_u32 (getA i).
Proof.
  intros Hi. apply safe_get_bind. intros c Hc. unfold index.
  destruct Hc as (Hwf & Hp & Hir).
  destruct (arr_get_in (rA (reg c)) i) as (v & -> & Hv); [rewrite (wf_A_length c Hwf); lia|].
  apply wp_ret. split; [done|]. split; [done|].
  pose proof (wf_A c Hwf) as HA. rewrite Forall_forall in HA. auto.
Qed.

Lemma safe_setD i v : 0 <= i < 8 -> is_u32 v -> Safe T (setD i v).
Proof.
  intros Hi Hv. apply safe_get_bind. intros c (Hwf & Hp & Hir).
  rewrite arr_set_in by (rewrite (wf_D_length c Hwf); lia).
  apply wp_bind, wp_ret, wp_modify. split; [|by repeat split].
  split; [|done]. destruct Hwf. constructor; simpl; auto.
  - by rewrite length_insert.
  - by apply Forall_insert.
Qed.

Lemma safe_setA i v : 0 <= i < 8 -> is_u32 v -> Safe T (setA i v).
Proof.
  intros Hi Hv. apply safe_get_bind. intros c (Hwf & Hp & Hir).
  rewrite arr_set_in by (rewrite (wf_A_length c Hwf); lia).
  apply wp_bind, wp_ret, wp_modify. split; [|by repeat split].
  split; [|done]. destruct Hwf. constructor; simpl; auto.
  - by rewrite length_insert.
  - by apply Forall_insert.
Qed.

Lemma safe_getPC : Safe is_u32 getPC.
Proof. apply safe_gets. intros c Hwf. apply Hwf. Qed.

Lemma safe_getSR : Safe is_u16 getSR.
Proof. apply safe_gets. intros c Hwf. apply Hwf. Qed.

Lemma safe_getUSP : Safe is_u32 getUSP.
Proof. apply safe_gets. intros c Hwf. apply Hwf. Qed.

Lemma safe_getSSP : Safe is_u32 getSSP.
Proof. apply safe_gets. intros c Hwf. apply Hwf. Qed.

Lemma safe_prevPC : Safe is_u32 (gets prevPC).
Proof. apply safe_gets. intros c Hwf. apply Hwf. Qed.

Lemma safe_halted : Safe T (gets halted).
Proof. by apply safe_gets. Qed.

Lemma safe_getir : Safe (fun v => v = op) getir.
Proof. intros c Hc. apply wp_gets. split; [done|]. split; [done|]. apply Hc. Qed.

Lemma safe_setPC v : is_u32 v -> Safe T (setPC v).
Proof. intros. wf_update. Qed.

Lemma safe_putSR v : is_u16 v -> Safe T (putSR v).
Proof. intros. wf_update. Qed.

Lemma safe_setUSP v : is_u32 v -> Safe T (setUSP v).
Proof. intros. wf_update. Qed.

Lemma safe_setSSP v : is_u32 v -> Safe T (setSSP v).
Proof. intros. wf_update. Qed.

Lemma safe_halt : Safe T (setHalted true).
Proof. wf_update. Qed.

Lemma safe_setStopped v : Safe T (setStopped v).
Proof. wf_update. Qed.

Lemma safe_AddCycles n : Safe T (AddCycles n).
Proof. wf_update. apply u64_range. Qed.

#[local] Hint Resolve safe_getD safe_getA safe_setD safe_setA safe_getPC safe_getSR
  safe_getUSP safe_getSSP safe_prevPC safe_halted safe_getir safe_setPC safe_putSR
  safe_setUSP safe_setSSP safe_halt safe_setStopped safe_AddCycles safe_when : safe.
#[local] Hint Extern 1 (T _) => exact I : safe.

(** One step of the symbolic walk over a computation: a bind whose head is
    covered by a hint, a final value, or a case split on a condition. *)
Ltac side := solve [eauto 3 with safe word | done | lia].

Ltac safe_step :=
  lazymatch goal with
  | |- Safe _ (let x := _ in _) => cbv zeta
  | |- Safe _ (let '(_, _) := ?p in _) => destruct p
  | |- Safe _ (bind (bind _ _) _) => fail
  | |- Safe _ (bind (if _ then _ else _) _) => apply (safe_bind T); [|intros ? _]
  | |- Safe _ (bind (when _ _) _) => apply (safe_bind T); [apply safe_when|intros ? _]
  | |- Safe _ (bind _ _) => eapply safe_bind; [side | cbv beta; intros; simplify_eq]
  | |- Safe _ (when _ _) => apply safe_when
  | |- Safe _ (ret _) => apply safe_ret; cbv beta; side
  | |- Safe _ (if ?b then _ else _) => destruct b eqn:?
  | |- Safe _ (match ?b with _ => _ end) => destruct b
  | |- Safe T _ => first [side | eapply safe_T; side]
  | |- Safe _ _ => side
  end.

Ltac safe := intros; repeat safe_step.

Lemma safe_clrSR f : Safe T (clrSR f).
Proof. unfold clrSR. safe. Qed.

Lemma safe_orSR f : is_u16 f -> Safe T (orSR f).
Proof. unfold orSR. safe. Qed.

#[local] Hint Resolve safe_clrSR safe_orSR : safe.

(** ** Bus accesses *)

Lemma addr24_range addr : 0 <= Z.land addr 0xFFFFFF < 0x1000000.
Proof. rewrite land_FFFFFF. zlia. Qed.

Lemma addr24_even addr : tstb addr 1 = false -> Z.odd (Z.land addr 0xFFFFFF) = false.
Proof. rewrite tstb_1, <- !Z.bit0_odd, Z.land_spec. by intros ->. Qed.

Lemma safe_busRead (V : Z -> Prop) (rd : Z -> B -> Z * B) addr :
  (forall b, V (fst (rd addr b))) -> (forall b, P b -> P (snd (rd addr b))) ->
  Safe V (busRead rd addr).
Proof.
  intros HV Hb. apply safe_get_bind. intros c (Hwf & Hp & Hir).
  specialize (HV (bus c)). specialize (Hb (bus c) Hp).
  destruct (rd addr (bus c)) as [v b]. simpl in *.
  apply wp_bind, wp_modify, wp_ret. split; [|by repeat split].
  split; [|done]. destruct Hwf. by constructor.
Qed.

Lemma safe_busWrite (wr : Z -> Z -> B -> B) addr val :
  (forall b, P b -> P (wr addr val b)) -> Safe T (busWrite wr addr val).
Proof.
  intros Hb. apply safe_modify. intros c Hwf Hp. split; [|by split; [apply Hb|repeat split]].
  destruct Hwf. by constructor.
Qed.

Lemma safe_readBus sz addr : Safe is_u32 (readBus sz addr).
Proof.
  pose proof (addr24_range addr) as Ha. unfold readBus.
  eapply safe_bind; [apply safe_halted|intros h _].
  destruct h; [by apply safe_ret|].
  destruct (negb (sz =? sizeByte) && tstb addr 1) eqn:Ht.
  { eapply safe_bind; [apply safe_halt|intros _ _]. by apply safe_ret. }
  destruct (sz =? sizeByte) eqn:E1; simpl in Ht.
  { eapply safe_weaken; [|by apply is_u8_u32].
    apply safe_busRead; [apply Read8_range|]. intros. by apply ok_Read8. }
  pose proof (addr24_even addr Ht) as He.
  destruct (sz =? sizeWord).
  { eapply safe_weaken; [|by apply is_u16_u32].
    apply safe_busRead; [apply Read16_range|]. intros. by apply ok_Read16. }
  destruct (sz =? sizeLong); [|by apply safe_ret].
  apply safe_busRead; [apply Read32_range|]. intros. by apply ok_Read32.
Qed.

Lemma safe_writeBus sz addr val : is_u32 val -> Safe T (writeBus sz addr val).
Proof.
  intros Hv. pose proof (addr24_range addr) as Ha. unfold writeBus.
  eapply safe_bind; [apply safe_halted|intros h _].
  destruct h; [by apply safe_ret|].
  destruct (negb (sz =? sizeByte) && tstb addr 1) eqn:Ht; [apply safe_halt|].
  destruct (sz =? sizeByte) eqn:E1; simpl in Ht.
  { apply safe_busWrite. intros. apply ok_Write8; auto with word. }
  pose proof (addr24_even addr Ht) as He.
  destruct (sz =? sizeWord) eqn:E2.
  { apply safe_busWrite. intros. apply ok_Write16; auto with word. }
  destruct (sz =? sizeLong) eqn:E3; [|by apply safe_ret].
  apply safe_busWrite. intros. apply ok_Write32; auto.
  unfold Mask. rewrite E1, E2, E3. auto with word.
Qed.

#[local] Hint Resolve safe_readBus safe_writeBus : safe.

Lemma safe_fetchPC : Safe is_u16 fetchPC.
Proof. unfold fetchPC. safe. Qed.

#[local] Hint Resolve safe_fetchPC : safe.

Lemma safe_fetchPCLong : Safe is_u32 fetchPCLong.
Proof. unfold fetchPCLong. safe. Qed.

Lemma safe_pushWord v : is_u32 v -> Safe T (pushWord v).
Proof. unfold pushWord. safe. Qed.

Lemma safe_pushLong v : is_u32 v -> Safe T (pushLong v).
Proof. unfold pushLong. safe. Qed.

Lemma safe_popWord : Safe is_u16 popWord.
Proof. unfold popWord. safe. Qed.

Lemma safe_popLong : Safe is_u32 popLong.
Proof. unfold popLong. safe. Qed.

Lemma safe_supervisor : Safe T supervisor.
Proof. unfold supervisor. safe. Qed.

Lemma safe_setSR sr : is_u16 sr -> Safe T (setSR sr).
Proof. unfold setSR. safe. Qed.

Lemma safe_setCCR ccr : is_u8 ccr -> Safe T (setCCR ccr).
Proof. unfold setCCR. safe. Qed.

#[local] Hint Resolve safe_fetchPCLong safe_pushWord safe_pushLong safe_popWord
  safe_popLong safe_supervisor safe_setSR safe_setCCR : safe.

(** ** Flags and exceptions *)

Lemma safe_setFlagsAdd s d r sz : Safe T (setFlagsAdd s d r sz).
Proof. unfold setFlagsAdd. safe. Qed.

Lemma safe_setFlagsSub s d r sz : Safe T (setFlagsSub s d r sz).
Proof. unfold setFlagsSub. safe. Qed.

Lemma safe_setFlagsCmp s d r sz : Safe T (setFlagsCmp s d r sz).
Proof. unfold setFlagsCmp. safe. Qed.

Lemma safe_setFlagsLogical r sz : Safe T (setFlagsLogical r sz).
Proof. unfold setFlagsLogical. safe. Qed.

Lemma safe_testCondition cc : Safe T (testCondition cc).
Proof. unfold testCondition. safe. Qed.

Lemma safe_enterSupervisor : Safe T enterSupervisor.
Proof. unfold enterSupervisor. safe. Qed.

#[local] Hint Resolve safe_setFlagsAdd safe_setFlagsSub safe_setFlagsCmp
  safe_setFlagsLogical safe_testCondition safe_enterSupervisor : safe.

Lemma safe_exception vector : Safe T (exception vector).
Proof.
  unfold exception. safe_step. safe_step. safe_step. safe_step.
  eapply safe_bind; [apply safe_pushLong; by case_if|intros]. safe.
Qed.

#[local] Hint Resolve safe_exception : safe.

(** ** Effective addresses *)

Lemma safe_calcIndex base ext : Safe is_u32 (calcIndex base ext).
Proof.
  unfold calcIndex. apply (safe_bind T); [|intros idx _; safe].
  case_if; safe; eapply safe_weaken; safe.
Qed.

#[local] Hint Resolve safe_calcIndex : safe.

(** What a resolved operand carries: a register number and words in range. *)
Definition ea_ok (e : ea) : Prop :=
  0 <= ea_reg e < 8 /\ is_u32 (ea_addr e) /\ is_u32 (ea_imm e).

Lemma safe_resolveEA mode reg sz :
  0 <= mode < 8 -> 0 <= reg < 8 -> Safe ea_ok (resolveEA mode reg sz).
Proof.
  intros Hm Hr. unfold resolveEA.
  assert (forall a, is_u32 a -> ea_ok (mkEa eaMemory 0 a 0)) as Hmem
    by (intros; repeat split; simpl; first [apply H | lia]).
  assert (forall v, is_u32 v -> ea_ok (mkEa eaImmediate 0 0 v)) as Himm
    by (intros; repeat split; simpl; first [apply H | lia]).
  assert (forall k, ea_ok (mkEa k reg 0 0) /\ ea_ok (mkEa k 0 0 0)) as Hreg
    by (intros; repeat split; simpl; lia).
  enum_upto mode 8%nat; cbv beta iota zeta;
    [..|enum_upto reg 8%nat; cbv beta iota zeta].
  all: repeat first [apply safe_ret; first [apply Hreg | apply Hmem | apply Himm]; urange
                    | safe_step].
  all: apply safe_ret, Hreg.
Qed.

Lemma safe_ea_read e sz : ea_ok e -> Safe is_u32 (ea_read e sz).
Proof. intros (Hr & Ha & Hi). unfold ea_read. safe. Qed.

Lemma safe_ea_write e sz val : ea_ok e -> is_u32 val -> Safe T (ea_write e sz val).
Proof. intros (Hr & Ha & Hi) Hv. unfold ea_write. safe. Qed.

#[local] Hint Resolve safe_resolveEA safe_ea_read safe_ea_write : safe.

(** The closures exist for the modes they are registered with. *)
Lemma safe_read mode reg sz :
  0 <= mode < 8 -> 0 <= reg < 8 -> ea_any mode reg = true ->
  Safe is_u32 (call (makeEARead mode reg) sz).
Proof.
  intros Hm Hr Hany. enum_upto mode 8%nat; [..|enum_upto reg 8%nat; try discriminate Hany];
    cbn [makeEARead]; try case_if; cbn [call]; safe.
Qed.

Lemma safe_memAddr mode reg sz :
  0 <= mode < 8 -> 0 <= reg < 8 -> ea_mem mode reg = true ->
  Safe is_u32 (call (makeEAMemAddr mode reg) sz).
Proof.
  intros Hm Hr Hmem. enum_upto mode 8%nat; try discriminate Hmem;
    [..|enum_upto reg 8%nat; try discriminate Hmem];
    cbn [makeEAMemAddr]; try case_if; cbn [call]; safe.
Qed.

#[local] Hint Resolve safe_read safe_memAddr : safe.

(** ** The idioms of OpsCommon *)

Lemma safe_irSize : Safe (fun v => v = sizeEncoding (Z.land (Z.shiftr op 6) 3)) irSize.
Proof. unfold irSize. safe. Qed.

Lemma safe_irSizeHi : Safe T irSizeHi.
Proof. unfold irSizeHi. safe. Qed.

Lemma safe_irSizeAddr : Safe T irSizeAddr.
Proof. unfold irSizeAddr. safe. Qed.

Lemma safe_loadD r sz : 0 <= r < 8 -> Safe is_u32 (loadD r sz).
Proof. unfold loadD. safe. Qed.

Lemma safe_storeD r sz v : 0 <= r < 8 -> is_u32 v -> Safe T (storeD r sz v).
Proof. unfold storeD. safe. Qed.

Lemma safe_fetchImm sz : Safe is_u32 (fetchImm sz).
Proof. unfold fetchImm. safe. Qed.

Lemma safe_extendBit : Safe (fun x => x = 0 \/ x = 1) extendBit.
Proof. unfold extendBit. safe. apply safe_ret. case_if; auto. Qed.

Lemma safe_chargeSize sz l s : Safe T (chargeSize sz l s).
Proof. unfold chargeSize. safe. Qed.

Lemma safe_chargeToReg sz b l m : Safe T (chargeToReg sz b l m).
Proof. unfold chargeToReg. safe. Qed.

Lemma safe_keepZ r sz z : is_u16 z -> Safe T (keepZ r sz z).
Proof. unfold keepZ. safe. Qed.

#[local] Hint Resolve safe_irSize safe_irSizeHi safe_irSizeAddr safe_loadD safe_storeD
  safe_fetchImm safe_extendBit safe_chargeSize safe_chargeToReg safe_keepZ : safe.

(** ** Arithmetic *)

Ltac op_safe :=
  intros; repeat match goal with H : regOrMem ?mode _ = true |- _ =>
    unfold regOrMem in H; destruct (mode =? 0) eqn:?; simpl in H end; safe.

Lemma safe_makeADDtoReg dn mode reg : 0 <= dn < 8 -> 0 <= mode < 8 -> 0 <= reg < 8 -> ea_any mode reg = true -> Safe T (makeADDtoReg dn mode reg).
Proof. unfold makeADDtoReg. op_safe. Qed.

Lemma safe_makeSUBtoReg dn mode reg : 0 <= dn < 8 -> 0 <= mode < 8 -> 0 <= reg < 8 -> ea_any mode reg = true -> Safe T (makeSUBtoReg dn mode reg).
Proof. unfold makeSUBtoReg. op_safe. Qed.

Lemma safe_makeADDA dn mode reg : 0 <= dn < 8 -> 0 <= mode < 8 -> 0 <= reg < 8 -> ea_any mode reg = true -> Safe T (makeADDA dn mode reg).
Proof. unfold makeADDA. op_safe. Qed.

Lemma safe_makeSUBA dn mode reg : 0 <= dn < 8 -> 0 <= mode < 8 -> 0 <= reg < 8 -> ea_any mode reg = true -> Safe T (makeSUBA dn mode reg).
Proof. unfold makeSUBA. op_safe. Qed.

Lemma safe_makeCMP dn mode reg : 0 <= dn < 8 -> 0 <= mode < 8 -> 0 <= reg < 8 -> ea_any mode reg = true -> Safe T (makeCMP dn mode reg).
Proof. unfold makeCMP. op_safe. Qed.

Lemma safe_makeCMPA dn mode reg : 0 <= dn < 8 -> 0 <= mode < 8 -> 0 <= reg < 8 -> ea_any mode reg = true -> Safe T (makeCMPA dn mode reg).
Proof. unfold makeCMPA. op_safe. Qed.

Lemma safe_makeMULU dn mode reg : 0 <= dn < 8 -> 0 <= mode < 8 -> 0 <= reg < 8 -> ea_any mode reg = true -> Safe T (makeMULU dn mode reg).
Proof. unfold makeMULU. op_safe. Qed.

Lemma safe_makeMULS dn mode reg : 0 <= dn < 8 -> 0 <= mode < 8 -> 0 <= reg < 8 -> ea_any mode reg = true -> Safe T (makeMULS dn mode reg).
Proof. unfold makeMULS. op_safe. Qed.

Lemma safe_makeCHK dn mode reg : 0 <= dn < 8 -> 0 <= mode < 8 -> 0 <= reg < 8 -> ea_any mode reg = true -> Safe T (makeCHK dn mode reg).
Proof. unfold makeCHK. op_safe. Qed.

Lemma safe_makeADDtoEA dn mode reg : 0 <= dn < 8 -> 0 <= mode < 8 -> 0 <= reg < 8 -> ea_mem mode reg = true -> Safe T (makeADDtoEA dn mode reg).
Proof. unfold makeADDtoEA. op_safe. Qed.

Lemma safe_makeSUBtoEA dn mode reg : 0 <= dn < 8 -> 0 <= mode < 8 -> 0 <= reg < 8 -> ea_mem mode reg = true -> Safe T (makeSUBtoEA dn mode reg).
Proof. unfold makeSUBtoEA. op_safe. Qed.

Lemma safe_makeADDI mode reg : 0 <= mode < 8 -> 0 <= reg < 8 -> regOrMem mode reg = true -> Safe T (makeADDI mode reg).
Proof. unfold makeADDI. op_safe. Qed.

Lemma safe_makeSUBI mode reg : 0 <= mode < 8 -> 0 <= reg < 8 -> regOrMem mode reg = true -> Safe T (makeSUBI mode reg).
Proof. unfold makeSUBI. op_safe. Qed.

Lemma safe_makeCMPI mode reg : 0 <= mode < 8 -> 0 <= reg < 8 -> regOrMem mode reg = true -> Safe T (makeCMPI mode reg).
Proof. unfold makeCMPI. op_safe. Qed.

Lemma safe_makeNEG mode reg : 0 <= mode < 8 -> 0 <= reg < 8 -> regOrMem mode reg = true -> Safe T (makeNEG mode reg).
Proof. unfold makeNEG. op_safe. Qed.

Lemma safe_makeNEGX mode reg : 0 <= mode < 8 -> 0 <= reg < 8 -> regOrMem mode reg = true -> Safe T (makeNEGX mode reg).
Proof. unfold makeNEGX. op_safe. Qed.

Lemma safe_makeCLR mode reg : 0 <= mode < 8 -> 0 <= reg < 8 -> regOrMem mode reg = true -> Safe T (makeCLR mode reg).
Proof. unfold makeCLR. op_safe. Qed.

Lemma safe_opADDXreg : Safe T opADDXreg.
Proof. unfold opADDXreg. op_safe. Qed.

Lemma safe_opADDXmem : Safe T opADDXmem.
Proof. unfold opADDXmem. op_safe. Qed.

Lemma safe_opSUBXreg : Safe T opSUBXreg.
Proof. unfold opSUBXreg. op_safe. Qed.

Lemma safe_opSUBXmem : Safe T opSUBXmem.
Proof. unfold opSUBXmem. op_safe. Qed.

Lemma safe_opCMPM : Safe T opCMPM.
Proof. unfold opCMPM. op_safe. Qed.

Lemma safe_opEXTW : Safe T opEXTW.
Proof. unfold opEXTW. op_safe. Qed.

Lemma safe_opEXTL : Safe T opEXTL.
Proof. unfold opEXTL. op_safe. Qed.

#[local] Hint Resolve safe_makeADDtoReg safe_makeSUBtoReg safe_makeADDA safe_makeSUBA safe_makeCMP safe_makeCMPA safe_makeMULU safe_makeMULS safe_makeCHK safe_makeADDtoEA safe_makeSUBtoEA safe_makeADDI safe_makeSUBI safe_makeCMPI safe_makeNEG safe_makeNEGX safe_makeCLR safe_opADDXreg safe_opADDXmem safe_opSUBXreg safe_opSUBXmem safe_opCMPM safe_opEXTW safe_opEXTL : safe.

Lemma safe_makeADDQ data mode reg :
  0 <= mode < 8 -> 0 <= reg < 8 -> (mode =? 1) || regOrMem mode reg = true ->
  Safe T (makeADDQ data mode reg).
Proof.
  unfold makeADDQ, regOrMem. intros Hm Hr Hok.
  destruct (mode =? 0), (mode =? 1); simpl in Hok; safe.
Qed.

Lemma safe_makeSUBQ data mode reg :
  0 <= mode < 8 -> 0 <= reg < 8 -> (mode =? 1) || regOrMem mode reg = true ->
  Safe T (makeSUBQ data mode reg).
Proof.
  unfold makeSUBQ, regOrMem. intros Hm Hr Hok.
  destruct (mode =? 0), (mode =? 1); simpl in Hok; safe.
Qed.

(** A division reached with a non-zero divisor does not panic. *)
Lemma safe_goDiv a b : (b =? 0) = false -> Safe T (goDiv a b).
Proof. unfold goDiv. intros ->. safe. Qed.

Lemma safe_goMod a b : (b =? 0) = false -> Safe T (goMod a b).
Proof. unfold goMod. intros ->. safe. Qed.

#[local] Hint Resolve safe_makeADDQ safe_makeSUBQ safe_goDiv safe_goMod : safe.

Lemma safe_makeDIVU dn mode reg :
  0 <= dn < 8 -> 0 <= mode < 8 -> 0 <= reg < 8 -> ea_any mode reg = true ->
  Safe T (makeDIVU dn mode reg).
Proof. unfold makeDIVU. op_safe. Qed.

Lemma safe_makeDIVS dn mode reg :
  0 <= dn < 8 -> 0 <= mode < 8 -> 0 <= reg < 8 -> ea_any mode reg = true ->
  Safe T (makeDIVS dn mode reg).
Proof. unfold makeDIVS. op_safe. Qed.

(** ** Shifts and logic *)

Definition shift_ok (st : Z * Z) : Prop := is_u32 (fst st) /\ is_u16 (snd st).

Lemma iter_ok {A} (Q : A -> Prop) (f : A -> A) n a :
  (forall x, Q x -> Q (f x)) -> Q a -> Q (Nat.iter n f a).
Proof. intros Hf Ha. induction n; simpl; auto. Qed.

Lemma putFlag_range b f sr : is_u16 f -> is_u16 sr -> is_u16 (putFlag b f sr).
Proof. intros. unfold putFlag. urange. Qed.

Lemma aslStep_ok msb mask st : shift_ok st -> shift_ok (aslStep msb mask st).
Proof. destruct st as [r sr]. intros [Hr Hs]. split; simpl; urange. Qed.

Lemma roxlStep_ok msb mask st : is_u32 mask -> shift_ok st -> shift_ok (roxlStep msb mask st).
Proof. destruct st as [r sr]. intros ? [Hr Hs]. split; simpl; simpl in *; urange. Qed.

Lemma roxrStep_ok bits st : shift_ok st -> shift_ok (roxrStep bits st).
Proof. destruct st as [r sr]. intros [Hr Hs]. split; simpl; simpl in *; urange. Qed.

Lemma asrStep_ok sign r : is_u32 sign -> is_u32 r -> is_u32 (asrStep sign r).
Proof. intros. unfold asrStep. urange. Qed.

Lemma shiftAS_ok dir val count sz sr :
  is_u32 val -> is_u16 sr -> shift_ok (shiftAS dir val count sz sr).
Proof.
  intros Hv Hs. unfold shiftAS. case_if.
  - assert (shift_ok (Nat.iter (Z.to_nat count) (aslStep (MSB sz) (Mask sz))
      (val, Z.ldiff sr flagV))) as Hok.
    { apply iter_ok; [apply aslStep_ok|]. split; simpl; urange. }
    destruct (Nat.iter _ _ _) as [r sr']. destruct Hok. split; simpl in *; [done|].
    apply putFlag_range; urange.
  - split; simpl.
    + apply is_u32_land_r. urange.
    + apply is_u16_ldiff, putFlag_range; urange.
Qed.

Lemma shiftLS_ok dir val count sz sr :
  0 <= count -> is_u32 val -> is_u16 sr -> shift_ok (shiftLS dir val count sz sr).
Proof.
  intros Hc Hv Hs. unfold shiftLS.
  case_if; (split; simpl; [urange | apply is_u16_ldiff, putFlag_range; urange]).
Qed.

Lemma shiftROX_ok dir val count sz sr :
  is_u32 val -> is_u16 sr -> shift_ok (shiftROX dir val count sz sr).
Proof.
  intros Hv Hs. unfold shiftROX. case_if.
  - pose proof (iter_ok shift_ok (roxlStep (MSB sz) (Mask sz)) (Z.to_nat count) (val, sr)) as Hok.
    destruct (Nat.iter _ _ _) as [r sr'].
    destruct Hok; [intros; apply roxlStep_ok; [urange|done] | done |].
    split; simpl in *; urange.
  - pose proof (iter_ok shift_ok (roxrStep (Bits sz)) (Z.to_nat count) (val, sr)) as Hok.
    destruct (Nat.iter _ _ _) as [r sr']. destruct Hok; [apply roxrStep_ok | done |].
    split; simpl in *; urange.
Qed.

Lemma shiftRO_ok dir val count sz sr :
  is_u32 val -> is_u16 sr -> shift_ok (shiftRO dir val count sz sr).
Proof.
  intros Hv Hs. unfold shiftRO. split; simpl.
  - destruct (dir =? 1); apply is_u32_land_r; urange.
  - apply is_u16_ldiff. destruct (dir =? 1); apply putFlag_range; urange.
Qed.

Lemma shiftCore_ok val count dir typ sz sr :
  0 <= count -> is_u32 val -> is_u16 sr -> shift_ok (shiftCore val count dir typ sz sr).
Proof.
  intros Hc Hv Hs. unfold shiftCore.
  match goal with |- shift_ok (let '(_, _) := ?e in _) => assert (shift_ok e) as Hok end.
  { destruct (Z.eq_dec typ 0) as [->|]; [by apply shiftAS_ok|].
    destruct (Z.eq_dec typ 1) as [->|]; [by apply shiftLS_ok|].
    destruct (Z.eq_dec typ 2) as [->|]; [by apply shiftROX_ok|].
    destruct (Z.eq_dec typ 3) as [->|]; [by apply shiftRO_ok|].
    destruct typ as [|[[?|?|]|[?|?|]|]|]; try lia; split; simpl; urange. }
  destruct (match typ with 0 => _ | _ => _ end) as [r sr']. destruct Hok.
  split; simpl in *; urange.
Qed.

Lemma safe_doShift val count dir typ sz :
  0 <= count -> is_u32 val -> (typ =? 3) && (Bits sz =? 0) = false ->
  Safe is_u32 (doShift val count dir typ sz).
Proof.
  intros Hc Hv Hbits. unfold doShift. rewrite Hbits. case_if; [safe|].
  eapply safe_bind; [apply safe_getSR|]. intros sr Hsr.
  pose proof (shiftCore_ok val count dir typ sz sr Hc Hv Hsr) as [Hr Hs].
  destruct (shiftCore val count dir typ sz sr) as [r sr']. simpl in *. safe.
Qed.

#[local] Hint Resolve safe_makeDIVU safe_makeDIVS safe_doShift : safe.

Lemma sizeEncoding_Bits ss : 0 <= ss < 3 -> (Bits (sizeEncoding ss) =? 0) = false.
Proof. intros. by enum_upto ss 3%nat. Qed.

Lemma safe_opShiftReg : Z.land (Z.shiftr op 6) 3 <> 3 -> Safe T opShiftReg.
Proof.
  intros Hss. assert ((Bits (sizeEncoding (Z.land (Z.shiftr op 6) 3)) =? 0) = false) as HB.
  { apply sizeEncoding_Bits. rewrite (land_mask 2) in * by lia. change (2 ^ 2) with 4 in *. zlia. }
  unfold opShiftReg. safe_step. safe_step.
  apply (safe_bind (fun n => 0 <= n)).
  { case_if; safe; apply safe_ret.
    - apply is_u32_nonneg. urange.
    - pose proof (land_7_range (Z.shiftr op 9)). case_if; lia. }
  cbv beta. intros count Hc. safe_step.
  eapply safe_bind; [apply safe_doShift; [done|done|by rewrite HB, andb_false_r]|].
  intros. safe.
Qed.

Lemma safe_makeShiftMem mode reg :
  0 <= mode < 8 -> 0 <= reg < 8 -> ea_mem mode reg = true -> Safe T (makeShiftMem mode reg).
Proof.
  intros. unfold makeShiftMem. safe_step. safe_step. safe_step. safe_step.
  eapply safe_bind; [apply safe_doShift; [lia|done|apply andb_false_r]|]. intros. safe.
Qed.

Lemma safe_logicToReg f dn mode reg :
  (forall x y, is_u32 x -> is_u32 y -> is_u32 (f x y)) ->
  0 <= dn < 8 -> 0 <= mode < 8 -> 0 <= reg < 8 -> ea_any mode reg = true ->
  Safe T (logicToReg f dn mode reg).
Proof. unfold logicToReg. op_safe. Qed.

Lemma safe_logicToEA f dn mode reg :
  (forall x y, is_u32 x -> is_u32 y -> is_u32 (f x y)) ->
  0 <= dn < 8 -> 0 <= mode < 8 -> 0 <= reg < 8 -> ea_mem mode reg = true ->
  Safe T (logicToEA f dn mode reg).
Proof. unfold logicToEA. op_safe. Qed.

Lemma safe_logicImm f mode reg :
  (forall x y, is_u32 x -> is_u32 y -> is_u32 (f x y)) ->
  0 <= mode < 8 -> 0 <= reg < 8 -> regOrMem mode reg = true ->
  Safe T (logicImm f mode reg).
Proof. unfold logicImm. op_safe. Qed.

Lemma land_closed x y : is_u32 x -> is_u32 y -> is_u32 (Z.land x y).
Proof. intros. urange. Qed.

Lemma lor_closed x y : is_u32 x -> is_u32 y -> is_u32 (Z.lor x y).
Proof. intros. urange. Qed.

Lemma lxor_closed x y : is_u32 x -> is_u32 y -> is_u32 (Z.lxor x y).
Proof. intros. urange. Qed.

Lemma ldiff_closed x y : is_u32 x -> is_u32 y -> is_u32 (Z.ldiff x y).
Proof. intros. urange. Qed.

#[local] Hint Resolve land_closed lor_closed lxor_closed ldiff_closed safe_logicToReg
  safe_logicToEA safe_logicImm safe_opShiftReg safe_makeShiftMem : safe.

Lemma safe_makeEOR dn mode reg :
  0 <= dn < 8 -> 0 <= mode < 8 -> 0 <= reg < 8 -> regOrMem mode reg = true ->
  Safe T (makeEOR dn mode reg).
Proof. unfold makeEOR. op_safe. Qed.

Lemma safe_makeNOT mode reg :
  0 <= mode < 8 -> 0 <= reg < 8 -> regOrMem mode reg = true ->
  Safe T (makeNOT mode reg).
Proof. unfold makeNOT. op_safe. Qed.

Lemma safe_makeTAS mode reg :
  0 <= mode < 8 -> 0 <= reg < 8 -> regOrMem mode reg = true ->
  Safe T (makeTAS mode reg).
Proof. unfold makeTAS. op_safe. Qed.

Lemma safe_makeTST mode reg :
  0 <= mode < 8 -> 0 <= reg < 8 -> ea_any mode reg = true ->
  Safe T (makeTST mode reg).
Proof. unfold makeTST. op_safe. Qed.

(** ** Bit operations *)

Lemma safe_setZbit v m : Safe T (setZbit v m).
Proof. unfold setZbit. op_safe. Qed.

Lemma safe_fetchBit m : Safe T (fetchBit m).
Proof. unfold fetchBit. safe. Qed.

#[local] Hint Resolve safe_setZbit safe_fetchBit : safe.

Lemma safe_makeBTSTdyn dn mode reg :
  0 <= dn < 8 -> 0 <= mode < 8 -> 0 <= reg < 8 -> ea_any mode reg = true ->
  Safe T (makeBTSTdyn dn mode reg).
Proof. unfold makeBTSTdyn. op_safe. Qed.

Lemma safe_makeBTSTstatic mode reg :
  0 <= mode < 8 -> 0 <= reg < 8 -> ea_any mode reg = true ->
  Safe T (makeBTSTstatic mode reg).
Proof. unfold makeBTSTstatic. op_safe. Qed.

Lemma safe_bitDyn f lo hi dn mode reg :
  (forall x y, is_u32 x -> is_u32 y -> is_u32 (f x y)) ->
  0 <= dn < 8 -> 0 <= mode < 8 -> 0 <= reg < 8 -> regOrMem mode reg = true ->
  Safe T (bitDyn f lo hi dn mode reg).
Proof.
  unfold bitDyn. intros Hf. pose proof is_u32_shl32. op_safe.
Qed.

Lemma safe_bitStatic f n mode reg :
  (forall x y, is_u32 x -> is_u32 y -> is_u32 (f x y)) ->
  0 <= mode < 8 -> 0 <= reg < 8 -> regOrMem mode reg = true ->
  Safe T (bitStatic f n mode reg).
Proof.
  unfold bitStatic. intros Hf. pose proof is_u32_shl32. op_safe.
Qed.

(** ** Packed decimal *)

Lemma bcdAddCore_range s d x : is_u8 (fst (fst (bcdAddCore s d x))).
Proof. unfold bcdAddCore. repeat case_if; simpl; urange. Qed.

Lemma bcdSubCore_range s d x : is_u8 (fst (fst (bcdSubCore s d x))).
Proof. unfold bcdSubCore. simpl. urange. Qed.

Lemma safe_bcdFlags r c v : Safe T (bcdFlags r c v).
Proof. unfold bcdFlags. safe. Qed.

Lemma safe_bcdAdd s d : Safe is_u8 (bcdAdd s d).
Proof.
  unfold bcdAdd. eapply safe_bind; [apply safe_extendBit|]. intros x _.
  pose proof (bcdAddCore_range s d x). destruct (bcdAddCore s d x) as [[r c] v].
  eapply safe_bind; [apply safe_bcdFlags|]. intros _ _. by apply safe_ret.
Qed.

Lemma safe_bcdSub s d : Safe is_u8 (bcdSub s d).
Proof.
  unfold bcdSub. eapply safe_bind; [apply safe_extendBit|]. intros x _.
  pose proof (bcdSubCore_range s d x). destruct (bcdSubCore s d x) as [[r c] v].
  eapply safe_bind; [apply safe_bcdFlags|]. intros _ _. by apply safe_ret.
Qed.

#[local] Hint Resolve safe_bcdAdd safe_bcdSub : safe.

Lemma safe_bcdReg f : (forall s d, Safe is_u8 (f s d)) -> Safe T (bcdReg f).
Proof. unfold bcdReg. op_safe. Qed.

Lemma safe_bcdMem f : (forall s d, Safe is_u8 (f s d)) -> Safe T (bcdMem f).
Proof. unfold bcdMem. op_safe. Qed.

Lemma safe_makeNBCD mode reg :
  0 <= mode < 8 -> 0 <= reg < 8 -> regOrMem mode reg = true ->
  Safe T (makeNBCD mode reg).
Proof. unfold makeNBCD. op_safe. Qed.

(** ** Branches *)

Lemma safe_branchDisp i : Safe T (branchDisp i).
Proof. unfold branchDisp. safe. Qed.

#[local] Hint Resolve safe_branchDisp : safe.

Lemma safe_opBcc : Safe T opBcc.
Proof. unfold opBcc. op_safe. Qed.

Lemma safe_opBRA : Safe T opBRA.
Proof. unfold opBRA. op_safe. Qed.

Lemma safe_opBSR : Safe T opBSR.
Proof. unfold opBSR. op_safe. Qed.

Lemma safe_opDBcc : Safe T opDBcc.
Proof. unfold opDBcc. op_safe. Qed.

Lemma safe_opRTS : Safe T opRTS.
Proof. unfold opRTS. op_safe. Qed.

Lemma safe_opRTE : Safe T opRTE.
Proof. unfold opRTE. op_safe. Qed.

Lemma safe_opRTR : Safe T opRTR.
Proof. unfold opRTR. op_safe. Qed.

Lemma safe_makeJMP mode reg :
  0 <= mode < 8 -> 0 <= reg < 8 -> ea_mem mode reg = true ->
  Safe T (makeJMP mode reg).
Proof. unfold makeJMP. op_safe. Qed.

Lemma safe_makeJSR mode reg :
  0 <= mode < 8 -> 0 <= reg < 8 -> ea_mem mode reg = true ->
  Safe T (makeJSR mode reg).
Proof. unfold makeJSR. op_safe. Qed.

Lemma safe_makePEA mode reg :
  0 <= mode < 8 -> 0 <= reg < 8 -> ea_mem mode reg = true ->
  Safe T (makePEA mode reg).
Proof. unfold makePEA. op_safe. Qed.

Lemma safe_makeScc mode reg :
  0 <= mode < 8 -> 0 <= reg < 8 -> regOrMem mode reg = true ->
  Safe T (makeScc mode reg).
Proof. unfold makeScc. op_safe. Qed.

(** ** System control *)

Lemma safe_privileged m : Safe T m -> Safe T (privileged m).
Proof. unfold privileged. safe. Qed.

Lemma safe_busReset : Safe T (modify (fun c => with_bus (BusReset (bus c)) c)).
Proof.
  apply safe_modify. intros c Hwf Hp.
  split; [|by split; [apply ok_BusReset|repeat split]]. destruct Hwf. by constructor.
Qed.

#[local] Hint Resolve safe_busReset : safe.

Lemma safe_opSTOP : Safe T opSTOP.
Proof. apply safe_privileged. op_safe. Qed.

Lemma safe_opRESET : Safe T opRESET.
Proof. apply safe_privileged. op_safe. Qed.

Lemma safe_opMOVEtoUSP : Safe T opMOVEtoUSP.
Proof. apply safe_privileged. op_safe. Qed.

Lemma safe_opMOVEfromUSP : Safe T opMOVEfromUSP.
Proof. apply safe_privileged. op_safe. Qed.

Lemma safe_makeMOVEtoSR mode reg :
  0 <= mode < 8 -> 0 <= reg < 8 -> ea_any mode reg = true -> Safe T (makeMOVEtoSR mode reg).
Proof. intros. unfold makeMOVEtoSR. safe_step. apply safe_privileged. op_safe. Qed.

Lemma safe_immToCCR f :
  (forall x y, is_u8 x -> is_u8 y -> is_u8 (f x y)) -> Safe T (immToCCR f).
Proof. unfold immToCCR. intros Hf. pose proof u8_range. op_safe. Qed.

Lemma safe_immToSR f :
  (forall x y, is_u16 x -> is_u16 y -> is_u16 (f x y)) -> Safe T (immToSR f).
Proof. intros Hf. apply safe_privileged. op_safe. Qed.

Lemma safe_opNOP : Safe T opNOP.
Proof. unfold opNOP. op_safe. Qed.

Lemma safe_opTRAP : Safe T opTRAP.
Proof. unfold opTRAP. op_safe. Qed.

Lemma safe_opTRAPV : Safe T opTRAPV.
Proof. unfold opTRAPV. op_safe. Qed.

Lemma safe_opLINK : Safe T opLINK.
Proof. unfold opLINK. op_safe. Qed.

Lemma safe_opUNLK : Safe T opUNLK.
Proof. unfold opUNLK. op_safe. Qed.

Lemma safe_makeMOVEfromSR mode reg :
  0 <= mode < 8 -> 0 <= reg < 8 -> regOrMem mode reg = true ->
  Safe T (makeMOVEfromSR mode reg).
Proof. unfold makeMOVEfromSR. op_safe. Qed.

Lemma safe_makeMOVEtoCCR mode reg :
  0 <= mode < 8 -> 0 <= reg < 8 -> ea_any mode reg = true ->
  Safe T (makeMOVEtoCCR mode reg).
Proof. unfold makeMOVEtoCCR. op_safe. Qed.

(** ** Data movement *)

Lemma land_3_range x : 0 <= Z.land x 3 < 4.
Proof. rewrite (land_mask 2) by lia. change (2 ^ 2) with 4. zlia. Qed.

Lemma safe_moveSize : Safe T moveSize.
Proof.
  unfold moveSize. safe_step. pose proof (land_3_range (Z.shiftr op 12)) as Hr.
  unfold index. enum_upto (Z.land (Z.shiftr op 12) 3) 4%nat; by apply safe_ret.
Qed.

#[local] Hint Resolve safe_moveSize : safe.

Lemma safe_makeMOVE sm sr dm dr :
  0 <= sm < 8 -> 0 <= sr < 8 -> 0 <= dm < 8 -> 0 <= dr < 8 ->
  ea_any sm sr = true -> regOrMem dm dr = true -> Safe T (makeMOVE sm sr dm dr).
Proof. unfold makeMOVE. op_safe. Qed.

Lemma safe_makeMOVEA an mode reg :
  0 <= an < 8 -> 0 <= mode < 8 -> 0 <= reg < 8 -> ea_any mode reg = true ->
  Safe T (makeMOVEA an mode reg).
Proof. unfold makeMOVEA. op_safe. Qed.

Lemma safe_opMOVEQ : Safe T opMOVEQ.
Proof. unfold opMOVEQ. op_safe. Qed.

Lemma safe_makeLEA an mode reg :
  0 <= an < 8 -> 0 <= mode < 8 -> 0 <= reg < 8 -> ea_mem mode reg = true ->
  Safe T (makeLEA an mode reg).
Proof. unfold makeLEA. op_safe. Qed.

Lemma safe_getReg16 i : 0 <= i < 16 -> Safe is_u32 (getReg16 i).
Proof. intros Hi. unfold getReg16. destruct (Z.ltb_spec i 8); safe. Qed.

Lemma safe_setReg16 i v : 0 <= i < 16 -> is_u32 v -> Safe T (setReg16 i v).
Proof. intros Hi Hv. unfold setReg16. destruct (Z.ltb_spec i 8); safe. Qed.

#[local] Hint Resolve safe_getReg16 safe_setReg16 : safe.
#[local] Hint Extern 0 (0 <= _ < 16) => lia : safe.

(** The three MOVEM loops visit the sixteen list bits. *)
Lemma safe_movem_loop (body : Z -> Z -> M (CPU B) Z) addr :
  (forall a i, is_u32 a -> 0 <= i < 16 -> Safe is_u32 (body a i)) ->
  is_u32 addr -> Safe is_u32 (foldM body (zrange 0 16) addr).
Proof.
  intros Hb Ha. eapply pres_foldM with (P := fun i => 0 <= i < 16); [apply _..| |done|].
  - apply Forall_forall. intros i Hi. by apply elem_of_zrange.
  - intros. by apply Hb.
Qed.

Lemma safe_movemStorePredec sz mask addr :
  is_u32 addr -> Safe is_u32 (movemStorePredec sz mask addr).
Proof. intros. apply safe_movem_loop; [|done]. intros. safe. Qed.

Lemma safe_movemStore sz mask addr : is_u32 addr -> Safe is_u32 (movemStore sz mask addr).
Proof. intros. apply safe_movem_loop; [|done]. intros. safe. Qed.

Lemma safe_movemLoad sz mask addr : is_u32 addr -> Safe is_u32 (movemLoad sz mask addr).
Proof. intros. apply safe_movem_loop; [|done]. intros. safe. Qed.

#[local] Hint Resolve safe_movemStorePredec safe_movemStore safe_movemLoad : safe.

Lemma ea_ok_address e : ea_ok e -> is_u32 (ea_address e).
Proof. by intros (? & ? & ?). Qed.

#[local] Hint Resolve ea_ok_address : wordleaf.

Lemma safe_opMOVEM : Safe T opMOVEM.
Proof.
  unfold opMOVEM. safe_step.
  generalize (u8_land_7_range (Z.shiftr op 3)), (u8_land_7_range op).
  generalize (u8 (Z.land (Z.shiftr op 3) 7)), (u8 (Z.land op 7)).
  generalize (if negb (Z.land (Z.shiftr op 6) 1 =? 0) then sizeLong else sizeWord).
  intros sz mode reg Hm Hr. safe.
Qed.

Lemma safe_opEXG : Safe T opEXG.
Proof.
  unfold opEXG. safe_step. apply (safe_bind T); [|safe].
  destruct (Z.land (Z.shiftr op 3) 31) as [|p|p]; [safe| |safe].
  repeat (destruct p as [p|p|]; safe).
Qed.

Lemma safe_opSWAP : Safe T opSWAP.
Proof. unfold opSWAP. op_safe. Qed.

Lemma safe_opMOVEP : Safe T opMOVEP.
Proof.
  unfold opMOVEP. do 3 safe_step. pose proof (land_7_range (Z.shiftr op 6)) as Hm.
  enum_upto (Z.land (Z.shiftr op 6) 7) 8%nat; safe.
Qed.

(** ** Every handler the table can hold *)

#[local] Hint Resolve safe_makeEOR safe_makeNOT safe_makeTAS safe_makeTST
  safe_makeBTSTdyn safe_makeBTSTstatic safe_bitDyn safe_bitStatic safe_bcdReg safe_bcdMem
  safe_makeNBCD safe_opBcc safe_opBRA safe_opBSR safe_opDBcc safe_opRTS safe_opRTE safe_opRTR
  safe_makeJMP safe_makeJSR safe_makePEA safe_makeScc safe_opSTOP safe_opRESET
  safe_opMOVEtoUSP safe_opMOVEfromUSP safe_makeMOVEtoSR safe_immToCCR safe_immToSR
  safe_opNOP safe_opTRAP safe_opTRAPV safe_opLINK safe_opUNLK safe_makeMOVEfromSR
  safe_makeMOVEtoCCR safe_makeMOVE safe_makeMOVEA safe_opMOVEQ safe_makeLEA safe_opMOVEM
  safe_opEXG safe_opSWAP safe_opMOVEP : safe.
#[local] Hint Resolve is_u8_land_l is_u8_lor is_u8_lxor is_u16_land_l is_u16_lor
  is_u16_lxor : safe.

Lemma safe_run0 o : (o = ShiftReg -> Z.land (Z.shiftr op 6) 3 <> 3) -> Safe T (run0 o).
Proof.
  intros Ho. destruct o; cbn [run0];
    unfold opABCDreg, opABCDmem, opSBCDreg, opSBCDmem, opANDItoCCR, opANDItoSR,
      opORItoCCR, opORItoSR, opEORItoCCR, opEORItoSR;
    eauto 4 with safe.
Qed.

Lemma safe_run2 o mode reg :
  0 <= mode < 8 -> 0 <= reg < 8 -> op2_ok o mode reg = true -> Safe T (run2 o mode reg).
Proof.
  intros Hm Hr Hok. destruct o; cbn [run2 op2_ok] in *;
    unfold makeANDI, makeORI, makeEORI, makeBCHGstatic, makeBCLRstatic, makeBSETstatic;
    eauto 4 with safe.
Qed.

Lemma safe_run3 o x mode reg :
  0 <= x < 8 -> 0 <= mode < 8 -> 0 <= reg < 8 -> op3_ok o mode reg = true ->
  Safe T (run3 o x mode reg).
Proof.
  intros Hx Hm Hr Hok. destruct o; cbn [run3 op3_ok] in *;
    unfold makeANDtoReg, makeANDtoEA, makeORtoReg, makeORtoEA, makeBCHGdyn,
      makeBCLRdyn, makeBSETdyn;
    eauto 4 with safe.
Qed.

Lemma safe_run h : handler_ok op h = true -> Safe T (run h).
Proof.
  unfold field3. destruct h as [o|o mode reg|o x mode reg|sm sr dm dr]; cbn [handler_ok run].
  - intros Ho. apply safe_run0. intros ->. simpl in Ho. lia.
  - unfold field3. intros Ho. apply safe_run2; destruct (op2_ok _ _ _); lia.
  - unfold field3. intros Ho. apply safe_run3; destruct (op3_ok _ _ _); lia.
  - unfold field3. intros Ho. apply safe_makeMOVE; destruct (ea_any _ _), (regOrMem _ _); lia.
Qed.
End safety.

(** ** The table only holds such handlers *)

Lemma decode_ok_all :
  all_bits 16 (fun op => match decode op with Some h => handler_ok op h | None => true end) 0
  = true.
Proof. vm_compute. reflexivity. Qed.

Lemma decode_ok op h : is_u16 op -> decode op = Some h -> handler_ok op h = true.
Proof.
  intros [? ?] Hd. pose proof (all_bits_spec 16 _ 0 decode_ok_all op) as Hop.
  change (2 ^ Z.of_nat 16) with 0x10000 in Hop. cbv beta in Hop. rewrite Hd in Hop.
  apply Hop. lia.
Qed.

Section step.
Context {B : Type} `{!Bus B, !BusTyped B} (P : B -> Prop) (HP : bus_contract P).

Lemma safe_execute op : is_u16 op -> Safe P op T (execute op).
Proof.
  intros Hop. unfold execute. rewrite opcodeTable_lookup by done.
  destruct (decode op) as [h|] eqn:Hd.
  - apply safe_run; [done|]. by apply decode_ok.
  - destruct (Z.shiftr op 12) as [|p|p]; try by apply safe_exception.
    repeat (destruct p as [p|p|]; try by apply safe_exception).
Qed.

(** Well-formedness with the bus property, across a whole step. *)
Definition Good (c : CPU B) : Prop := WF c /\ P (bus c).

(** [Step] itself never touches the deficit. *)
Definition outer (c c' : CPU B) : Prop := deficit c' = deficit c.

#[local] Instance outer_refl : Reflexive outer.
Proof. done. Qed.

#[local] Instance outer_trans : Transitive outer.
Proof. unfold outer. intros c1 c2 c3. congruence. Qed.

Lemma safe_wp {A} (V : A -> Prop) m c :
  Good c -> Safe P (ir c) V m -> wp m (fun a c' => Good c' /\ keeps c c' /\ V a) c.
Proof.
  intros [Hwf Hp] Hm. eapply wp_mono; [by apply (Hm c)|].
  intros a c' ((? & ? & _) & ? & ?). done.
Qed.

Lemma safe_pres {A} (V : A -> Prop) (m : M (CPU B) A) :
  (forall op, Safe P op V m) -> Pres Good outer V m.
Proof.
  intros Hm c Hc. eapply wp_mono; [by apply (safe_wp V)|].
  intros a c' (? & (_ & _ & Hd & _) & ?). done.
Qed.

Lemma step_modify (f : CPU B -> CPU B) :
  (forall c, WF c -> WF (f c)) -> (forall c, bus (f c) = bus c) ->
  (forall c, deficit (f c) = deficit c) -> Pres Good outer T (modify f).
Proof.
  intros Hf Hb Hd c [Hwf Hp]. apply wp_modify. split; [|by split; [apply Hd|]].
  split; [auto|by rewrite Hb].
Qed.

Lemma step_gets {A} (V : A -> Prop) (f : CPU B -> A) :
  (forall c, WF c -> V (f c)) -> Pres Good outer V (gets f).
Proof. intros Hf c Hc. apply wp_gets. split; [done|]. split; [done|]. apply Hf, Hc. Qed.

Lemma step_processInterrupt : Pres Good outer T processInterrupt.
Proof.
  unfold processInterrupt.
  eapply pres_bind; [apply _|apply (step_gets is_u8); intros c Hwf; apply Hwf|]. intros level Hl.
  eapply pres_bind; [apply _|apply (step_gets (fun o => forall v, o = Some v -> is_u8 v));
    intros c Hwf; apply Hwf|]. intros vec Hvec.
  eapply pres_bind; [apply _|apply step_modify; [|done|done]|].
  { intros c Hwf. destruct Hwf. constructor; simpl; auto; [urange|done]. }
  intros _ _. apply safe_pres. intros op.
  eapply safe_bind; [by apply safe_getSR|]. intros oldSR HoldSR.
  eapply safe_bind; [by apply safe_enterSupervisor|]. intros _ _.
  eapply safe_bind; [by apply safe_getSR|]. intros sr Hsr.
  eapply safe_bind; [apply safe_putSR; urange|]. intros _ _.
  eapply safe_bind; [by apply safe_getPC|]. intros pc Hpc.
  eapply safe_bind; [by apply safe_pushLong|]. intros _ _.
  eapply safe_bind; [apply safe_pushWord; [done|urange]|]. intros _ _.
  eapply safe_bind; [by apply safe_readBus|]. intros addr Haddr.
  apply (safe_bind _ _ is_u32).
  { case_if; [by apply safe_readBus|by apply safe_ret]. }
  intros addr' Haddr'.
  eapply safe_bind; [by apply safe_setPC|]. intros _ _.
  eapply safe_bind; [by apply safe_setStopped|]. intros _ _.
  apply safe_AddCycles.
Qed.

Lemma step_checkInterrupt : Pres Good outer T checkInterrupt.
Proof.
  unfold checkInterrupt. eapply pres_bind; [apply _|by apply (step_gets T)|]. intros p _.
  case_if; [by apply pres_ret|].
  eapply pres_bind; [apply _|apply safe_pres; intros; by apply safe_getSR|]. intros sr _.
  case_if; [apply step_processInterrupt|by apply pres_ret].
Qed.

Lemma step_executeNext : Pres Good outer T executeNext.
Proof.
  unfold executeNext.
  eapply pres_bind; [apply _|apply safe_pres; intros; by apply safe_getPC|]. intros pc Hpc.
  eapply pres_bind; [apply _|apply step_modify; [|done|done]|].
  { intros c Hwf. destruct Hwf. by constructor. }
  intros _ _. eapply pres_bind; [apply _|apply safe_pres; intros; by apply safe_fetchPC|]. intros w Hw.
  intros c [Hwf Hp].
  apply wp_bind, wp_modify, wp_bind, wp_gets, wp_bind, wp_modify, wp_bind.
  eapply wp_mono.
  { apply (safe_wp T); [|apply safe_execute, Hw].
    split; [|done]. destruct Hwf. by constructor. }
  intros [] c' (Hc' & (_ & _ & Hd & _) & _).
  apply wp_bind, wp_gets, wp_bind, wp_gets.
  eapply wp_mono; [apply (safe_wp T); [done|apply safe_when, safe_halt]|].
  intros [] c'' (? & (_ & _ & Hd' & _) & _). unfold outer. simpl in *. split; [done|].
  split; [congruence|done].
Qed.

Lemma step_Step : Pres Good outer T Step.
Proof.
  unfold Step. eapply pres_bind; [apply _|by apply (step_gets T)|]. intros h _.
  destruct h; [by apply pres_ret|].
  eapply pres_bind; [apply _|by apply (step_gets T)|]. intros before _.
  eapply pres_bind; [apply _|by apply (step_gets T)|]. intros st _.
  destruct st.
  - eapply pres_bind; [apply _|apply safe_pres; intros; by apply safe_AddCycles|]. intros _ _.
    eapply pres_bind; [apply _|apply step_checkInterrupt|]. intros _ _.
    eapply pres_bind; [apply _|by apply (step_gets T)|]. intros after _. by apply pres_ret.
  - eapply pres_bind; [apply _|apply step_checkInterrupt|]. intros _ _.
    eapply pres_bind; [apply _|apply safe_pres; intros; by apply safe_getPC|]. intros pc _.
    case_if.
    { eapply pres_bind; [apply _|apply safe_pres; intros; by apply safe_halt|]. intros _ _. by apply pres_ret. }
    eapply pres_bind; [apply _|apply step_executeNext|]. intros _ _.
    eapply pres_bind; [apply _|by apply (step_gets T)|]. intros after _. by apply pres_ret.
Qed.
End step.

(** ** The bus traffic of a step *)

(** An access as the bus sees it. *)
Inductive access : Type :=
| ARead (sz addr : Z)
| AWrite (sz addr val : Z)
| AReset.

(** The accesses the [Bus] comment allows: 24-bit addresses, even ones for
    words and longs, values of the width. *)
Definition valid_access (a : access) : Prop :=
  match a with
  | ARead sz addr => valid_size sz /\ 0 <= addr < 0x1000000 /\ (sz = sizeByte \/ Z.odd addr = false)
  | AWrite sz addr val =>
      valid_size sz /\ 0 <= addr < 0x1000000 /\ (sz = sizeByte \/ Z.odd addr = false) /\ is_sz sz val
  | AReset => True
  end.

(** A bus that keeps the list of its accesses, latest first. *)
Definition Traced (B : Type) : Type := B * list access.

Definition traceRead {B} (rd : Z -> B -> Z * B) (sz addr : Z) (b : Traced B) : Z * Traced B :=
  let '(v, b') := rd addr (fst b) in (v, (b', ARead sz addr :: snd b)).

Definition traceWrite {B} (wr : Z -> Z -> B -> B) (sz addr val : Z) (b : Traced B) : Traced B :=
  (wr addr val (fst b), AWrite sz addr val :: snd b).

#[export] Instance Traced_Bus B `{!Bus B} : Bus (Traced B) := {
  Read8 := traceRead Read8 sizeByte;
  Read16 := traceRead Read16 sizeWord;
  Read32 := traceRead Read32 sizeLong;
  Write8 := traceWrite Write8 sizeByte;
  Write16 := traceWrite Write16 sizeWord;
  Write32 := traceWrite Write32 sizeLong;
  BusReset b := (BusReset (fst b), AReset :: snd b)
}.

#[export] Instance Traced_Typed B `{!Bus B, !BusTyped B} : BusTyped (Traced B).
Proof.
  constructor; intros a b; simpl; unfold traceRead.
  - pose proof (Read8_range a (fst b)). by destruct (Read8 a (fst b)).
  - pose proof (Read16_range a (fst b)). by destruct (Read16 a (fst b)).
  - pose proof (Read32_range a (fst b)). by destruct (Read32 a (fst b)).
Qed.

Lemma traceRead_log {B} (rd : Z -> B -> Z * B) sz a (b : Traced B) :
  snd (snd (traceRead rd sz a b)) = ARead sz a :: snd b.
Proof. unfold traceRead. by destruct (rd a (fst b)). Qed.

Lemma traced_contract B `{!Bus B} : bus_contract (fun b : Traced B => Forall valid_access (snd b)).
Proof.
  constructor; intros; cbn [Read8 Read16 Read32 Write8 Write16 Write32 BusReset Traced_Bus];
    rewrite ?traceRead_log; simpl; constructor; try done; simpl;
    unfold valid_size, is_sz; naive_solver.
Qed.

(** ** Properties *)

Section properties.
Context {B : Type} `{!Bus B, !BusTyped B}.

(** C1: type safety and panic freedom of an instruction step.  From any
    well-formed state, whatever the memory and devices behind the bus return,
    [Step] returns (no nil closure is called, no array index is out of range,
    no division by zero happens) and leaves a well-formed state with the same
    deficit; and every property of the bus that its documented accesses
    preserve still holds. *)
Theorem step_safe (P : B -> Prop) (c : CPU B) :
  bus_contract P -> WF c -> P (bus c) ->
  exists n c', Step c = Some (n, c') /\ WF c' /\ P (bus c') /\ deficit c' = deficit c.
Proof.
  intros HP Hwf Hp. pose proof (step_Step P HP c (conj Hwf Hp)) as H.
  apply wp_elim in H as (n & c' & E & [Hwf' Hp'] & Hd & _). eauto 6.
Qed.

(** C7: the bus contract.  Run on a bus that records its traffic, a step makes
    only accesses the [Bus] interface documents: addresses of 24 bits, word
    and long accesses at even addresses, and values within their width. *)
Theorem step_accesses_valid (c : CPU (Traced B)) :
  WF c -> Forall valid_access (snd (bus c)) ->
  exists n c', Step c = Some (n, c') /\ Forall valid_access (snd (bus c')).
Proof.
  intros Hwf Hlog.
  pose proof (step_Step _ (traced_contract B) c (conj Hwf Hlog)) as H.
  apply wp_elim in H as (n & c' & E & [_ Hlog'] & _). eauto.
Qed.
End properties.

(** A NOP at 0x1000, and a MOVE.L D0,-(A7). *)
Lemma step_safe_witness :
  exists n c', Step (cpuAt 0x1000 0x2700 0 0x8000 (poke 0x1000 [0x4E; 0x71] ram0)) = Some (n, c') /\
    WF c'.
Proof.
  destruct (step_safe (fun _ : Ram => True)
    (cpuAt 0x1000 0x2700 0 0x8000 (poke 0x1000 [0x4E; 0x71] ram0))) as (n & c' & E & HW & _).
  - by constructor.
  - apply cpuAt_WF; wordlia.
  - done.
  - exists n, c'. split; [exact E|exact HW].
Defined.

Definition traced (c : CPU Ram) : CPU (Traced Ram) :=
  mkCPU (reg c) (bus c, []) (cycles c) (ir c) (stopped c) (halted c) (prevPC c) (pendingIPL c)
    (pendingVec c) (deficit c).

Lemma step_accesses_valid_witness :
  exists n c', Step (traced (cpuAt 0x1000 0x2700 0 0x8000 (poke 0x1000 [0x2F; 0x00] ram0))) =
    Some (n, c') /\ Forall valid_access (snd (bus c')).
Proof.
  destruct (step_accesses_valid
    (traced (cpuAt 0x1000 0x2700 0 0x8000 (poke 0x1000 [0x2F; 0x00] ram0)))) as (n & c' & E & H).
  - destruct (cpuAt_WF 0x1000 0x2700 0 0x8000 (poke 0x1000 [0x2F; 0x00] ram0)); try wordlia.
    by constructor.
  - constructor.
  - exists n, c'. split; [exact E|exact H].
Defined.
