(* ===== verification/Run.v ===== *)
(** * Running instructions from memory

    [Step] on a processor that executes from plain memory: when no interrupt
    is pending it runs the handler the decoder gives for the word at PC, or
    traps when there is none.  [steps] is a sequence of steps; the block copy
    loop is followed through it instruction by instruction. *)

From S2P Require Import Prelude Monad Cpu Ram Flags Exception Timing Ea.
From S2P Require Import OpsCommon OpsMove OpsArith OpsLogic OpsBit OpsBcd OpsBranch OpsCtrl.
From S2P Require Import Exec Frames Decode Step.

Lemma execute_decode {B} `{!Bus B} op h :
  is_u16 op -> decode op = Some h -> execute (B := B) op = run h.
Proof. intros Hop Hd. unfold execute. by rewrite opcodeTable_lookup, Hd by done. Qed.

Local Opaque opcodeTable execute.

Section run.
Context {B : Type} `{!Bus B} {region : Z -> Prop} {HM : BusMemory B region}.
Implicit Types c : CPU B.

(** Neither halted nor stopped, and no interrupt requested. *)
Definition running c : Prop := halted c = false /\ stopped c = false /\ pendingIPL c = 0.

(** The word at PC is in memory. *)
Definition fetchable c (w : Z) : Prop :=
  accessible region sizeWord (rPC (reg c)) /\ mem sizeWord (bus c) (rPC (reg c)) = w.

(** The state a handler starts from. *)
Definition fetch_state (w : Z) c : CPU B :=
  on_reg (with_IR w) (with_ir w
    (on_reg (with_PC (u32 (rPC (reg c) + 2))) (with_prevPC (rPC (reg c)) c))).

Lemma fetchable_even c w : fetchable c w -> tstb (rPC (reg c)) 1 = false.
Proof. intros [[[Hb|Ho] _] _]; [done|]. by rewrite tstb_1. Qed.

Lemma fetchable_u16 c w : fetchable c w -> is_u16 w.
Proof. intros [_ <-]. apply (mem_range sizeWord), size_word. Qed.

(** The check at the end of an instruction. *)
Definition settle c : CPU B :=
  if negb (halted c) && tstb (rPC (reg c)) 1 then with_halted true c else c.

Lemma executeNext_run c w :
  halted c = false -> fetchable c w ->
  executeNext c = bind (execute w) (fun _ => modify settle) (fetch_state w c).
Proof.
  intros Hh [Hacc Hw]. unfold executeNext. generalize (execute (B := B)). intros ex. exec.
  erewrite bind_eval by (by apply (fetchPC_mem (region := region))). simpl. rewrite Hw.
  do 3 exec1. apply bind_ext; [reflexivity|]. intros _ c1 _. exec.
  unfold modify, settle. destruct (halted c1), (tstb (rPC (reg c1)) 1); reflexivity.
Qed.

(** A step of a running processor at an even PC. *)
Lemma Step_running c :
  running c -> tstb (rPC (reg c)) 1 = false ->
  Step c = bind executeNext
    (fun _ => bind (gets cycles) (fun after => ret (s64 (u64 (after - cycles c))))) c.
Proof.
  intros (Hh & Hst & Hp) Hpc. unfold Step. generalize (executeNext (B := B)). intros ex.
  rewrite (bind_eval _ _ c false c) by (unfold gets; by rewrite Hh).
  rewrite (bind_eval _ _ c (cycles c) c eq_refl).
  rewrite (bind_eval _ _ c false c) by (unfold gets; by rewrite Hst).
  rewrite (bind_eval checkInterrupt _ c tt c)
    by (unfold checkInterrupt, bind, gets; by rewrite Hp).
  by rewrite (bind_eval _ _ c (rPC (reg c)) c eq_refl), Hpc.
Qed.

(** A step up to the end of the instruction. *)
Lemma Step_fetch c w c1 :
  running c -> fetchable c w -> execute w (fetch_state w c) = Some (tt, c1) ->
  Step c = Some (s64 (u64 (cycles c1 - cycles c)), settle c1).
Proof.
  intros Hr Hf E. pose proof (eq_trans (executeNext_run c w (proj1 Hr) Hf)
    (bind_eval _ _ _ _ _ E)) as En.
  refine (eq_trans (Step_running c Hr (fetchable_even c w Hf)) (eq_trans (bind_eval _ _ _ _ _ En) _)).
  clear. unfold bind, gets, ret, settle. destruct (negb (halted c1) && _); reflexivity.
Qed.

(** The word decodes, and its handler leaves a running processor. *)
Lemma Step_run c w h c1 :
  running c -> fetchable c w -> decode w = Some h -> run h (fetch_state w c) = Some (tt, c1) ->
  halted c1 = false -> tstb (rPC (reg c1)) 1 = false ->
  Step c = Some (s64 (u64 (cycles c1 - cycles c)), c1).
Proof.
  intros Hr Hf Hd E Hh Hpc. rewrite <- (execute_decode w h) in E by (done || by eapply fetchable_u16).
  rewrite (Step_fetch c w c1 Hr Hf E). unfold settle. rewrite Hpc, andb_false_r. reflexivity.
Qed.

(** A run of [n] instructions. *)
Fixpoint steps (n : nat) : M (CPU B) unit :=
  match n with
  | O => ret tt
  | S n => Step ;; steps n
  end.

Lemma steps_add n m c c1 :
  steps n c = Some (tt, c1) -> steps (n + m) c = steps m c1.
Proof.
  revert c. induction n as [|n IH]; intros c; simpl; [by intros [= ->]|].
  intros (k & d & E & E')%bind_Some. rewrite (bind_eval _ _ _ _ _ E). by apply IH.
Qed.
End run.
Arguments fetchable {_ _} _ {_} _ _.
