(* ===== verification/Copy.v ===== *)
(** * A program: the block copy loop

    [loop: MOVE.B (A0)+,(A1)+ ; DBF D0,loop] executed from memory.  The
    theorem composes instruction fetch, decoding, addressing modes, flags, the
    loop instruction and the clock: started with a count in D0, the loop copies
    count + 1 bytes, leaves everything else alone and takes a known number of
    instructions and cycles. *)

From S2P Require Import Prelude Monad Cpu Ram Flags Exception Timing Ea.
From S2P Require Import OpsCommon OpsMove OpsArith OpsLogic OpsBit OpsBcd OpsBranch OpsCtrl.
From S2P Require Import Exec Frames Decode Step Run.

Local Opaque opcodeTable execute.

Section copy.
Context {B : Type} `{!Bus B} {region : Z -> Prop} {HM : BusMemory B region}.
Implicit Types c : CPU B.

(** A byte address as the 24-bit bus has it, in memory. *)
Definition byte_at (a : Z) : Prop := 0 <= a < 0xFFFFFF /\ region a.

Lemma byte_accessible a : byte_at a -> accessible region sizeByte a.
Proof.
  intros [Ha Hr]. split; [by left|]. intros i Hi. unfold sizeByte in Hi.
  rewrite land_FFFFFF, Z.mod_small by lia. by replace (a + i) with a by lia.
Qed.

Lemma byte_mem a (b : B) : byte_at a -> mem sizeByte b a = peek b a.
Proof. intros [Ha _]. unfold mem. simpl. by rewrite land_FFFFFF, Z.mod_small by lia. Qed.

Lemma byte_store a v (b : B) : byte_at a -> store sizeByte a v b = Write8 a v b.
Proof. intros [Ha _]. unfold store. simpl. by rewrite land_FFFFFF, Z.mod_small by lia. Qed.

(** MOVE.B (A0)+,(A1)+ *)
Lemma move_run c :
  sized c -> halted c = false -> ir c = 0x12D8 -> byte_at (areg c 0) -> byte_at (areg c 1) ->
  exists sr, makeMOVE 3 0 3 1 c =
    Some (tt, with_cycles (u64 (cycles c + 12)) (on_reg (with_SR sr)
      (with_bus (Write8 (areg c 1) (peek (bus c) (areg c 0)) (bus c))
        (put_A 1 (areg c 1 + 1) (put_A 0 (areg c 0 + 1) c))))).
Proof.
  intros Hs Hh Hir H0 H1. unfold makeMOVE. cbn [eaFetchConst eaWriteConst Z.eqb].
  rewrite (bind_eval moveSize _ c sizeByte c)
    by (unfold moveSize, getir, gets, bind; by rewrite Hir).
  cbn [call makeEARead makeEAMemAddr Z.eqb Pos.eqb]. exec. change (u32 sizeByte) with 1.
  rewrite (u32_small (areg c 0 + 1)) by (destruct H0; wordlia).
  erewrite bind_eval by (apply (readBus_mem (region := region));
    [done|by left|by apply byte_accessible]).
  rewrite byte_mem by done. exec.
  rewrite !areg_put_A by first [state_side | lia]. simpl (_ =? _). cbv iota.
  change (u32 sizeByte) with 1. rewrite (u32_small (areg c 1 + 1)) by (destruct H1; wordlia).
  pose proof (peek_range (bus c) (areg c 0)) as Hv.
  erewrite bind_eval by (apply (writeBus_mem (region := region));
    [done|by left|by apply byte_accessible|apply Hv]).
  rewrite byte_store by done. rewrite (bind_eval _ _ _ _ _ (setFlagsLogical_run _ _ _)).
  eexists. reflexivity.
Qed.

Lemma set_low_word D x :
  is_u32 D -> Z.lor (Z.land D 0xFFFF0000) (u16 x) = D - D mod 0x10000 + u16 x.
Proof. intros HD. apply (set_low 16); [lia|done|apply u16_range]. Qed.

(** DBF D0,-4 *)
Lemma dbf_run c :
  sized c -> halted c = false -> ir c = 0x51C8 -> is_u32 (rPC (reg c)) ->
  accessible region sizeWord (rPC (reg c)) -> mem sizeWord (bus c) (rPC (reg c)) = 0xFFFC ->
  is_u32 (dreg c 0) ->
  let v := dreg c 0 mod 0x10000 in
  opDBcc c =
  Some (tt, with_cycles (u64 (cycles c + (if v =? 0 then 14 else 10)))
    (on_reg (with_PC (if v =? 0 then u32 (rPC (reg c) + 2) else u32 (rPC (reg c) - 4)))
      (put_D 0 (dreg c 0 - v + (v - 1) mod 0x10000) c))).
Proof.
  intros Hs Hh Hir Hpc Hacc Hm Hd v. unfold opDBcc. exec. rewrite Hir.
  erewrite bind_eval by (by apply (fetchPC_mem (region := region))). rewrite Hm.
  change (Z.land (Z.shiftr 0x51C8 8) 0xF) with 1. change (Z.land 0x51C8 7) with 0.
  rewrite (bind_eval (testCondition 1) _ _ false _ eq_refl). exec.
  change (dreg (on_reg _ c) 0) with (dreg c 0). set (D := dreg c 0) in *.
  rewrite land_FFFF, set_low_word by done. fold v.
  assert (u16 (s16 (s16 v - 1)) = (v - 1) mod 0x10000) as -> by (subst v; wordlia).
  replace (s16 (s16 v - 1) =? -1) with (v =? 0) by (subst v; cmp_cases; (done || wordlia)).
  case_if; [done|]. exec. simpl. change (s16 0xFFFC) with (-4).
  replace (u32 (s32 _)) with (u32 (rPC (reg c) - 4)) by wordlia. done.
Qed.

(** The loop at address [p], with the byte at [d] not part of it. *)
Definition code_at (p : Z) (b : B) : Prop :=
  Z.odd p = false /\ 0 <= p < 0xFFFFF8 /\ (forall i, 0 <= i < 6 -> region (p + i)) /\
  mem sizeWord b p = 0x12D8 /\ mem sizeWord b (p + 2) = 0x51C8 /\ mem sizeWord b (p + 4) = 0xFFFC.

Lemma code_accessible p b k :
  code_at p b -> k = 0 \/ k = 2 \/ k = 4 -> accessible region sizeWord (p + k).
Proof.
  intros (Ho & Hp & Hr & _) Hk. split.
  - right. rewrite Z.odd_add, Ho. by destruct Hk as [->|[->| ->]].
  - intros i Hi. unfold sizeWord in Hi. rewrite land_FFFFFF, Z.mod_small by lia.
    rewrite <- Z.add_assoc. apply Hr. lia.
Qed.

Lemma code_kept p b a v :
  code_at p b -> byte_at a -> a < p \/ p + 6 <= a -> is_u8 v -> code_at p (Write8 a v b).
Proof.
  intros (Ho & Hp & Hr & M0 & M2 & M4) Ha Hout Hv.
  assert (forall k, 0 <= k <= 4 -> mem sizeWord (Write8 a v b) (p + k) = mem sizeWord b (p + k)) as Hk.
  { intros k Hk. rewrite <- (byte_store a v b Ha).
    apply (mem_store_disjoint (region := region)); [by left|by apply byte_accessible|done|apply size_word|].
    rewrite !land_FFFFFF, !Z.mod_small by (destruct Ha; lia). unfold sizeWord, sizeByte. lia. }
  pose proof (Hk 0 ltac:(lia)) as H0. rewrite Z.add_0_r in H0.
  repeat split; try done; [lia|lia|by rewrite H0|by rewrite Hk by lia|by rewrite Hk by lia].
Qed.

Lemma code_fetchable p k c w :
  code_at p (bus c) -> rPC (reg c) = p + k -> k = 0 \/ k = 2 \/ k = 4 ->
  mem sizeWord (bus c) (p + k) = w -> fetchable region c w.
Proof. intros Hcode HPC Hk Hw. split; rewrite HPC; [by eapply code_accessible|done]. Qed.

Lemma even_offset p k b : code_at p b -> Z.odd k = false -> tstb (p + k) 1 = false.
Proof. intros (Ho & _) Hk. by rewrite tstb_1, Z.odd_add, Ho, Hk. Qed.

(** The two instructions of the loop. *)
Lemma move_step p c :
  running c -> sized c -> rPC (reg c) = p + 0 -> code_at p (bus c) ->
  byte_at (areg c 0) -> byte_at (areg c 1) ->
  exists n c', Step c = Some (n, c') /\ running c' /\ sized c' /\
    bus c' = Write8 (areg c 1) (peek (bus c) (areg c 0)) (bus c) /\
    areg c' 0 = areg c 0 + 1 /\ areg c' 1 = areg c 1 + 1 /\
    (forall i, 2 <= i < 8 -> areg c' i = areg c i) /\ rD (reg c') = rD (reg c) /\
    rPC (reg c') = p + 2 /\ cycles c' = u64 (cycles c + 12).
Proof.
  intros Hr Hs HPC Hcode H0 H1. pose proof Hcode as (_ & Hp & _ & M0 & _).
  destruct (move_run (fetch_state 0x12D8 c)) as [sr E]; [done|apply Hr|done|done|done|].
  set (c1 := with_cycles _ _) in E.
  assert (rPC (reg c1) = p + 2) as HPC1 by (simpl; rewrite HPC; wordlia).
  exists (s64 (u64 (cycles c1 - cycles c))), c1. split.
  - apply (Step_run (region := region) c 0x12D8 (HMOVE 3 0 3 1) c1);
      [done| |reflexivity|done|apply Hr|rewrite HPC1; by eapply even_offset].
    eapply code_fetchable; [done|done|by left|by rewrite Z.add_0_r].
  - split; [done|]. split; [unfold c1, fetch_state; state_side|]. split; [done|].
    unfold c1. autorewrite with regs. rewrite !areg_put_A by first [lia | state_side]. simpl (_ =? _).
    split; [done|]. split; [done|]. split; [|done].
    intros i Hi. autorewrite with regs. rewrite !areg_put_A by first [lia | state_side].
    destruct (Z.eqb_spec 1 i), (Z.eqb_spec 0 i); done || lia.
Qed.

Lemma dbf_step p c :
  running c -> sized c -> is_u32 (dreg c 0) -> rPC (reg c) = p + 2 -> code_at p (bus c) ->
  let v := dreg c 0 mod 0x10000 in
  exists n c', Step c = Some (n, c') /\ running c' /\ sized c' /\
    bus c' = bus c /\ rA (reg c') = rA (reg c) /\
    dreg c' 0 = dreg c 0 - v + (v - 1) mod 0x10000 /\ (forall i, 1 <= i < 8 -> dreg c' i = dreg c i) /\
    rPC (reg c') = (if v =? 0 then p + 6 else p) /\
    cycles c' = u64 (cycles c + (if v =? 0 then 14 else 10)).
Proof.
  intros Hr Hs HD HPC Hcode v. pose proof Hcode as (Ho & Hp & _ & _ & M2 & M4).
  assert (rPC (reg (fetch_state 0x51C8 c)) = p + 4) as HPC1 by (simpl; rewrite HPC; wordlia).
  pose proof (dbf_run (fetch_state 0x51C8 c) Hs (proj1 Hr) eq_refl) as E. rewrite HPC1 in E.
  specialize (E ltac:(wordlia) ltac:(eapply code_accessible; eauto) M4 HD). cbv zeta in E.
  set (c1 := with_cycles _ _) in E.
  assert (rPC (reg c1) = if v =? 0 then p + 6 else p) as HPC2
    by (change (rPC (reg c1)) with (if v =? 0 then u32 (p + 4 + 2) else u32 (p + 4 - 4));
        destruct (v =? 0); wordlia).
  exists (s64 (u64 (cycles c1 - cycles c))), c1. split.
  - apply (Step_run (region := region) c 0x51C8 (H0 DBcc) c1); [done| |reflexivity|done|apply Hr|].
    + eapply code_fetchable; [done|done|by right; left|done].
    + rewrite HPC2. case_if; [by eapply even_offset|]. by rewrite tstb_1.
  - split; [done|]. split; [unfold c1, fetch_state; state_side|]. split; [done|]. split; [done|].
    unfold c1. change (dreg (with_cycles ?x (on_reg ?y ?z))) with (dreg z).
    rewrite dreg_put_D by first [lia | state_side]. split; [done|]. split; [|done].
    intros i Hi. change (dreg (with_cycles ?x (on_reg ?y ?z))) with (dreg z).
    rewrite dreg_put_D by first [lia | state_side]. destruct (Z.eqb_spec 0 i); done || lia.
Qed.

(** One iteration: the byte is copied, both pointers advance, the low word of
    D0 counts down, and the loop is left when it was zero. *)
Lemma iteration p c :
  running c -> sized c -> is_u32 (dreg c 0) -> rPC (reg c) = p -> code_at p (bus c) ->
  byte_at (areg c 0) -> byte_at (areg c 1) -> areg c 1 < p \/ p + 6 <= areg c 1 ->
  let v := dreg c 0 mod 0x10000 in
  exists c', steps 2 c = Some (tt, c') /\ running c' /\ sized c' /\
    bus c' = Write8 (areg c 1) (peek (bus c) (areg c 0)) (bus c) /\
    areg c' 0 = areg c 0 + 1 /\ areg c' 1 = areg c 1 + 1 /\
    (forall i, 2 <= i < 8 -> areg c' i = areg c i) /\
    dreg c' 0 = dreg c 0 - v + (v - 1) mod 0x10000 /\ (forall i, 1 <= i < 8 -> dreg c' i = dreg c i) /\
    rPC (reg c') = (if v =? 0 then p + 6 else p) /\
    cycles c' = u64 (cycles c + (if v =? 0 then 26 else 22)).
Proof.
  intros Hr Hs HD HPC Hcode H0 H1 Hout v.
  destruct (move_step p c) as (n1 & c1 & S1 & Hr1 & Hs1 & Hb1 & HA0 & HA1 & HA & HD1 & HPC1 & Hc1);
    [done|done|lia|done..|].
  assert (dreg c1 0 = dreg c 0) as HD0 by (unfold dreg; by rewrite HD1).
  destruct (dbf_step p c1) as (n2 & c2 & S2 & Hr2 & Hs2 & Hb2 & HA2 & HD2 & HD' & HPC2 & Hc2);
    [done|done|by rewrite HD0|done| |].
  { rewrite Hb1. apply code_kept; [done..|apply peek_range]. }
  rewrite HD0 in *. exists c2. simpl. rewrite (bind_eval _ _ _ _ _ S1), (bind_eval _ _ _ _ _ S2).
  assert (forall i, areg c2 i = areg c1 i) as HA' by (intros i; unfold areg; by rewrite HA2).
  split; [done|]. split; [done|]. split; [done|]. split; [congruence|].
  rewrite !HA'. split; [done|]. split; [done|].
  split; [intros i Hi; rewrite HA'; by apply HA|]. split; [done|].
  split; [intros i Hi; rewrite HD' by done; unfold dreg; by rewrite HD1|]. split; [done|].
  rewrite Hc2, Hc1. fold v. destruct (v =? 0); wordlia.
Qed.

(** What the loop needs of [n + 1] bytes at [s] and [d]. *)
Definition blocks_ok (p s d n : Z) : Prop :=
  (d <= s \/ s + n < d) /\
  forall i, 0 <= i <= n -> byte_at (s + i) /\ byte_at (d + i) /\ (d + i < p \/ p + 6 <= d + i).

(** The memory after [n + 1] bytes have been copied from [s] to [d]. *)
Definition copied (s d n : Z) (b b' : B) : Prop :=
  forall x, peek b' x = if (d <=? x) && (x <=? d + n) then peek b (s + (x - d)) else peek b x.

Lemma copied_step s d n b b' :
  byte_at d -> (d <= s \/ s + n < d) -> 0 < n ->
  copied (s + 1) (d + 1) (n - 1) (Write8 d (peek b s) b) b' -> copied s d n b b'.
Proof.
  intros [_ Hd] Hov Hn Hc x. rewrite Hc, !peek_Write8 by (done || apply peek_range).
  destruct (Z.eqb_spec x d) as [->|Hne].
  - destruct (Z.leb_spec (d + 1) d); [lia|]. rewrite Z.leb_refl. simpl.
    destruct (Z.leb_spec d (d + n)); [|lia]. f_equal. lia.
  - destruct (Z.leb_spec (d + 1) x), (Z.leb_spec d x); try lia; simpl; [|done].
    replace (d + 1 + (n - 1)) with (d + n) by lia. destruct (Z.leb_spec x (d + n)); [|done].
    destruct (Z.eqb_spec (s + 1 + (x - (d + 1))) d); [lia|]. f_equal. lia.
Qed.

Lemma block_copy_run k p c :
  let n := Z.of_nat k in
  running c -> sized c -> is_u32 (dreg c 0) -> dreg c 0 mod 0x10000 = n ->
  rPC (reg c) = p -> code_at p (bus c) -> blocks_ok p (areg c 0) (areg c 1) n ->
  exists c', steps (2 * (k + 1)) c = Some (tt, c') /\ running c' /\
    copied (areg c 0) (areg c 1) n (bus c) (bus c') /\
    areg c' 0 = areg c 0 + n + 1 /\ areg c' 1 = areg c 1 + n + 1 /\
    (forall i, 2 <= i < 8 -> areg c' i = areg c i) /\
    dreg c' 0 = dreg c 0 - n + 0xFFFF /\ (forall i, 1 <= i < 8 -> dreg c' i = dreg c i) /\
    rPC (reg c') = p + 6 /\ cycles c' = u64 (cycles c + (22 * n + 26)).
Proof.
  revert c. induction k as [|k IH]; intros c n Hr Hs HD Hn HPC Hcode [Hov Hbytes].
  all: destruct (Hbytes 0) as (H0 & H1 & Hout); [lia|]; rewrite Z.add_0_r in *.
  all: destruct (iteration p c) as (c1 & S1 & Hr1 & Hs1 & Hb1 & HA0 & HA1 & HA & HD0 & HD1 & HPC1 & Hc1);
    [done..|]; rewrite Hn in *.
  - change n with 0 in *. simpl (0 =? 0) in *. cbv iota in *. change ((0 - 1) mod 0x10000) with 0xFFFF in *.
    exists c1. split; [done|]. split; [done|]. split; [|rewrite !Z.add_0_r; done].
    intros x. rewrite Hb1, Z.add_0_r, peek_Write8 by (apply H1 || apply peek_range).
    destruct (Z.eqb_spec x (areg c 1)) as [->|].
    + rewrite Z.leb_refl. simpl. f_equal. lia.
    + destruct (Z.leb_spec (areg c 1) x), (Z.leb_spec x (areg c 1)); done || lia.
  - assert (n <> 0) as Hn0 by (subst n; lia). rewrite (proj2 (Z.eqb_neq n 0) Hn0) in *.
    assert ((n - 1) mod 0x10000 = n - 1) as Hm by zlia. rewrite Hm in HD0.
    destruct (IH c1) as (c2 & S2 & Hr2 & Hcp & HA0' & HA1' & HA' & HD0' & HD1' & HPC2 & Hc2);
      [done|done|rewrite HD0; wordlia|rewrite HD0; subst n; zlia|done| | |].
    { rewrite Hb1. apply code_kept; [done..|apply peek_range]. }
    { rewrite HA0, HA1. split; [lia|]. intros i Hi. destruct (Hbytes (i + 1)) as (? & ? & ?); [lia|].
      replace (areg c 0 + 1 + i) with (areg c 0 + (i + 1)) by lia.
      replace (areg c 1 + 1 + i) with (areg c 1 + (i + 1)) by lia. done. }
    exists c2. replace (2 * (S k + 1))%nat with (2 + 2 * (k + 1))%nat by lia.
    rewrite (steps_add _ _ _ _ S1). split; [done|]. split; [done|].
    assert (Z.of_nat k = n - 1) as Hk by lia. rewrite Hk in *. rewrite HA0, HA1, Hb1 in Hcp.
    split; [by apply copied_step; [..|lia|]|]. rewrite HA0', HA1', HD0', HA0, HA1, HD0.
    split; [lia|]. split; [lia|]. split; [intros i Hi; rewrite HA' by done; by apply HA|].
    split; [lia|]. split; [intros i Hi; rewrite HD1' by done; by apply HD1|]. split; [done|].
    rewrite Hc2, Hc1. wordlia.
Qed.
End copy.

(** ** Properties *)

Section properties.
Context {B : Type} `{!Bus B} {region : Z -> Prop} {HM : BusMemory B region}.

(** C5: a program runs to its end.  With the loop in memory at PC, no
    interrupt pending and a count [n] in the low word of D0, the processor
    executes exactly [2(n + 1)] instructions and leaves the loop behind it;
    [n + 1] bytes are copied from A0 to A1 and no other byte of memory changes,
    A0 and A1 point behind the blocks, D0 counts down to 0xFFFF, all other
    registers keep their values, and the clock advances by [22n + 26] cycles.
    Overlapping blocks are allowed when the copy moves downwards. *)
Theorem block_copy p (c : CPU B) :
  let n := dreg c 0 mod 0x10000 in
  WF c -> running c -> rPC (reg c) = p -> code_at (region := region) p (bus c) ->
  blocks_ok (region := region) p (areg c 0) (areg c 1) n ->
  exists c', steps (2 * (Z.to_nat n + 1)) c = Some (tt, c') /\
    copied (areg c 0) (areg c 1) n (bus c) (bus c') /\
    areg c' 0 = areg c 0 + n + 1 /\ areg c' 1 = areg c 1 + n + 1 /\
    (forall i, 2 <= i < 8 -> areg c' i = areg c i) /\
    dreg c' 0 = dreg c 0 - n + 0xFFFF /\ (forall i, 1 <= i < 8 -> dreg c' i = dreg c i) /\
    rPC (reg c') = p + 6 /\ cycles c' = u64 (cycles c + (22 * n + 26)).
Proof.
  intros n Hwf Hr HPC Hcode Hblocks. assert (0 <= n) by (subst n; zlia).
  destruct (block_copy_run (Z.to_nat n) p c) as (c' & S & _ & Hc);
    [done|by apply WF_sized|by apply WF_dreg|lia|done|done|by rewrite Z2Nat.id|].
  exists c'. rewrite Z2Nat.id in Hc by done. done.
Qed.
End properties.

(** Three bytes from 0x2000 to 0x3000. *)
Definition copy_start : CPU Ram :=
  put_A 0 0x2000 (put_A 1 0x3000 (put_D 0 2 (cpuAt 0x1000 0x2700 0 0x8000
    (poke 0x1000 [0x12; 0xD8; 0x51; 0xC8; 0xFF; 0xFC] (poke 0x2000 [7; 8; 9] ram0))))).

Lemma block_copy_witness :
  exists c', steps 6 copy_start = Some (tt, c') /\
    peek (bus c') 0x3002 = 9 /\ rPC (reg c') = 0x1006 /\ cycles c' = 70.
Proof.
  destruct (block_copy (region := fun _ => True) 0x1000 copy_start)
    as (c' & S & Hcp & _ & _ & _ & _ & _ & HPC & Hcyc).
  - destruct (cpuAt_WF 0x1000 0x2700 0 0x8000
      (poke 0x1000 [0x12; 0xD8; 0x51; 0xC8; 0xFF; 0xFC] (poke 0x2000 [7; 8; 9] ram0))); try wordlia.
    constructor; try done; simpl; repeat constructor; wordlia.
  - by repeat split.
  - reflexivity.
  - repeat split; lia.
  - split; [right; reflexivity|]. intros i Hi.
    change (areg copy_start 0) with 0x2000 in *. change (areg copy_start 1) with 0x3000 in *.
    change (dreg copy_start 0 mod 0x10000) with 2 in *. unfold byte_at. repeat split; lia.
  - exists c'. split; [exact S|]. split; [|split; [exact HPC|exact Hcyc]].
    rewrite (Hcp 0x3002). reflexivity.
Defined.
