(* ===== verification/Traps.v ===== *)
(** * Faulting instructions (cpu.go, exception.go)

    Instruction words without a handler, and privileged instructions in user
    mode: the step that fetches one ends in the exception for it, with the
    address of the instruction itself in the frame. *)

From S2P Require Import Prelude Monad Cpu Ram Flags Exception Timing Ea.
From S2P Require Import OpsCommon OpsMove OpsArith OpsLogic OpsBit OpsBcd OpsBranch OpsCtrl.
From S2P Require Import Exec Frames Decode Step Run.

(** The vector for a word without a handler. *)
Definition unimplementedVector (w : Z) : Z :=
  if Z.shiftr w 12 =? 0xA then vecLineA
  else if Z.shiftr w 12 =? 0xF then vecLineF
  else vecIllegalInstruction.

(** The instructions that need supervisor mode. *)
Definition privilegedHandler (h : handler) : bool :=
  match h with
  | H0 (STOP | RESET | RTE | MOVEtoUSP | MOVEfromUSP | ANDItoSR | ORItoSR | EORItoSR) => true
  | H2 MOVEtoSR _ _ => true
  | _ => false
  end.

(** The exception the word [w] raises in user or supervisor mode, if any. *)
Definition fault (super : bool) (w : Z) : option Z :=
  match decode w with
  | None => Some (unimplementedVector w)
  | Some h => if privilegedHandler h && negb super then Some vecPrivilegeViolation else None
  end.

Lemma fault_vector super w v : fault super w = Some v -> faultVector v = true /\ 0 <= v < 48.
Proof.
  unfold fault, unimplementedVector. intros H. repeat case_match; simplify_eq; done.
Qed.

Section traps.
Context {B : Type} `{!Bus B} {region : Z -> Prop} {HM : BusMemory B region}.
Implicit Types c : CPU B.

Lemma execute_unimplemented w :
  is_u16 w -> decode w = None -> execute (B := B) w = exception (unimplementedVector w).
Proof.
  intros Hw Hd. unfold execute, unimplementedVector. rewrite opcodeTable_lookup, Hd by done.
  destruct (Z.eqb_spec (Z.shiftr w 12) 0xA) as [->|HA]; [done|].
  destruct (Z.eqb_spec (Z.shiftr w 12) 0xF) as [->|HF]; [done|].
  generalize dependent (Z.shiftr w 12). intros k HA HF.
  repeat case_match; done || lia.
Qed.

Local Opaque opcodeTable execute.

Lemma run_privileged h c :
  privilegedHandler h = true -> inS c = false -> run h c = exception vecPrivilegeViolation c.
Proof.
  intros Hh HS.
  assert (forall m : opFunc B, privileged m c = exception vecPrivilegeViolation c) as Hp.
  { intros m. unfold privileged. rewrite (bind_eval supervisor _ c (inS c) c eq_refl), HS. done. }
  destruct h as [o|o mode reg| |]; [destruct o|destruct o|..]; try done; cbn [run run0 run2]; apply Hp
    || (unfold makeMOVEtoSR; destruct (eaFetchConst mode reg); apply Hp).
Qed.

Lemma execute_fault c w v :
  is_u16 w -> fault (inS c) w = Some v -> execute w c = exception v c.
Proof.
  intros Hw. unfold fault. destruct (decode w) as [h|] eqn:Hd.
  - destruct (privilegedHandler h) eqn:Hh, (inS c) eqn:HS; simpl; intros [= <-].
    exact (eq_trans (f_equal (fun f => f c) (execute_decode w h Hw Hd)) (run_privileged h c Hh HS)).
  - intros [= <-]. exact (f_equal (fun f => f c) (execute_unimplemented w Hw Hd)).
Qed.

Lemma fetch_state_WF c w : WF c -> is_u16 w -> WF (fetch_state w c).
Proof. intros [] Hw. constructor; simpl; try done. apply u32_range. Qed.

(** C8: a faulting instruction traps and can be examined.  When the word at PC
    has no handler, or is privileged and the processor is in user mode, the
    step that fetches it executes nothing of it: it takes 34 cycles, keeps the
    data and address registers, the user stack pointer and all memory below
    the frame, saves the SR and the address of the faulting instruction itself
    on the supervisor stack, and continues in supervisor mode at the handler
    for line A, line F, illegal instructions or privilege violations. *)
Theorem faults_trap c w v :
  WF c -> running c -> fetchable region c w -> fault (inS c) w = Some v ->
  vectors_ok (region := region) -> frame_ok (region := region) (lssp c) ->
  target v (bus c) <> 0 -> Z.even (target v (bus c)) = true ->
  exists c', Step c = Some (34, c') /\
    rPC (reg c') = target v (bus c) /\ halted c' = false /\
    rSR (reg c') = Z.ldiff (Z.lor (rSR (reg c)) flagS) flagT /\
    mem sizeWord (bus c') (u32 (lssp c - 6)) = rSR (reg c) /\
    mem sizeLong (bus c') (u32 (lssp c - 4)) = rPC (reg c) /\
    (forall x, x < frame (lssp c) \/ frame (lssp c) + 6 <= x -> peek (bus c') x = peek (bus c) x) /\
    lusp c' = lusp c /\ rD (reg c') = rD (reg c) /\ (forall i, 0 <= i < 7 -> areg c' i = areg c i).
Proof.
  intros Hwf Hr Hf Hv Hvec Hfr Ht Hev. pose proof (fetchable_u16 c w Hf) as Hw.
  destruct (fault_vector _ _ _ Hv) as [Hfv Hrange].
  destruct (exception_run v (fetch_state w c)) as (c' & E & Hent & HSR & Hend);
    [by apply fetch_state_WF|apply Hr|lia|done|done|].
  pose proof (Step_fetch c w c' Hr Hf
    (eq_trans (execute_fault (fetch_state w c) w v Hw Hv) E)) as ES.
  change (bus (fetch_state w c)) with (bus c) in *.
  rewrite (proj2 (Z.eqb_neq _ _) Ht) in Hend. destruct Hend as (Hh & HPC & Hcyc).
  destruct Hent as (_ & HS & _ & HU & Hbus & HD & HA).
  unfold savedPC in Hbus. rewrite Hfv in Hbus.
  change (bus c' = framed (lssp c) (rPC (reg c)) (rSR (reg c)) (bus c)) in Hbus.
  pose proof (wf_SR c Hwf) as Hsr. pose proof (wf_PC c Hwf) as Hpc.
  rewrite Hcyc in ES.
  assert (settle c' = c') as Hset.
  { unfold settle. rewrite HPC, tstb_1, <- Z.negb_even, Hev. by rewrite andb_false_r. }
  rewrite Hset in ES. exists c'. split.
  { rewrite ES. do 2 f_equal. simpl cycles. rewrite <- (s64_small 34) by lia. f_equal. wordlia. }
  unfold lusp at 1. rewrite HS, Hbus, framed_word, framed_long by done.
  do 5 (split; [done|]). split; [intros x Hx; by apply framed_outside|done].
Qed.
End traps.

(** STOP at 0x1000 in user mode, the privilege violation handler at 0x2000. *)
Definition user_stop : CPU Ram :=
  cpuAt 0x1000 0x0015 0x4000 0x8000
    (poke (vecPrivilegeViolation * 4) [0; 0; 0x20; 0] (poke 0x1000 [0x4E; 0x72] ram0)).

Lemma faults_trap_witness :
  exists c', Step user_stop = Some (34, c') /\ rPC (reg c') = 0x2000 /\
    mem sizeLong (bus c') 0x7FFC = 0x1000 /\ mem sizeWord (bus c') 0x7FFA = 0x0015.
Proof.
  destruct (faults_trap (region := fun _ => True) user_stop 0x4E72 vecPrivilegeViolation)
    as (c' & E & HPC & _ & _ & HSR & Hret & _).
  - apply cpuAt_WF; wordlia.
  - by repeat split.
  - split; [|reflexivity]. split; [by right|done].
  - reflexivity.
  - exact sample_vectors.
  - exact frame_ok_8000.
  - discriminate.
  - reflexivity.
  - exists c'. split; [exact E|]. split; [exact HPC|]. split; [exact Hret|exact HSR].
Defined.
