(* ===== verification/Outcome.v ===== *)
(** * What one instruction does to the system state and to the clock

    Every handler of ops_*.go has the same shape: it works on data registers,
    memory, PC and condition codes ([quiet] steps), and then either charges its
    cycles, or raises an exception, or, in supervisor mode only, changes the
    system state and charges its cycles.  [outcome] states this of a handler's
    result, with bounds on the cycles; [ends_execute] proves it of every
    instruction word.  Timing, privilege and the shape of SR follow from it. *)

From S2P Require Import Prelude Monad Cpu Ram Flags Exception Timing Ea.
From S2P Require Import OpsCommon OpsMove OpsArith OpsLogic OpsBit OpsBcd OpsBranch OpsCtrl.
From S2P Require Import Exec Frames Decode Step Safety.

Section outcome.
Context {B : Type}.
Implicit Types c : CPU B.

(** SR without the bits the processor does not implement. *)
Definition implemented (sr : Z) : Prop := Z.land sr 0xA71F = sr.

(** The state only the operating system may change: the system byte of SR, the
    saved stack pointers and the stopped state; and the bookkeeping that no
    instruction touches. *)
Definition system c : Z * Z * Z * bool :=
  (Z.land (rSR (reg c)) 0xFF00, rUSP (reg c), rSSP (reg c), stopped c).

Definition latches c : Z * Z * Z * option Z * Z :=
  (ir c, prevPC c, pendingIPL c, pendingVec c, deficit c).

(** The clock and the latches stay, SR keeps its form, and a halted processor
    stays halted. *)
Definition loud c c' : Prop :=
  cycles c' = cycles c /\ latches c' = latches c /\
  (implemented (rSR (reg c)) -> implemented (rSR (reg c'))) /\
  (halted c = true -> halted c' = true).

Definition quiet c c' : Prop := loud c c' /\ system c' = system c.

#[export] Instance loud_refl : Reflexive loud.
Proof. by intros c. Qed.

#[export] Instance loud_trans : Transitive loud.
Proof.
  intros c1 c2 c3 (E1 & E2 & E3 & E4) (F1 & F2 & F3 & F4).
  repeat split; try congruence; auto.
Qed.

#[export] Instance quiet_refl : Reflexive quiet.
Proof. by intros c. Qed.

#[export] Instance quiet_trans : Transitive quiet.
Proof.
  intros c1 c2 c3 [E1 E2] [F1 F2]. split; [by etrans|congruence].
Qed.

Definition tick (n : Z) c : CPU B := with_cycles (u64 (cycles c + n)) c.

Lemma tick_tick n m c : tick m (tick n c) = tick (n + m) c.
Proof. unfold tick, with_cycles. simpl. f_equal. wordlia. Qed.

(** [Walk R m]: whatever [m] returns, the states before and after are related.
    [Charged R lo hi m]: the same up to a final charge between [lo] and [hi]. *)
Definition Walk {A} (R : CPU B -> CPU B -> Prop) (m : M (CPU B) A) : Prop :=
  forall c a c', m c = Some (a, c') -> R c c'.

Definition charged (R : CPU B -> CPU B -> Prop) (lo hi : Z) c c' : Prop :=
  exists c0 n, R c c0 /\ lo <= n <= hi /\ c' = tick n c0.

Lemma walk_mono {A} (R R' : CPU B -> CPU B -> Prop) (m : M (CPU B) A) :
  (forall c c', R c c' -> R' c c') -> Walk R m -> Walk R' m.
Proof. intros HR Hm c a c' E. eauto. Qed.

Section walk.
Context (R : CPU B -> CPU B -> Prop) {HRr : Reflexive R} {HRt : Transitive R}.

Lemma walk_bind {A C} (m : M (CPU B) A) (k : A -> M (CPU B) C) :
  Walk R m -> (forall a, Walk R (k a)) -> Walk R (bind m k).
Proof.
  intros Hm Hk c a c' (x & c1 & E1 & E2)%bind_Some. etrans; [by eapply Hm|by eapply Hk].
Qed.

Lemma walk_ret {A} (a : A) : Walk R (ret a).
Proof. intros c a' c' [= <- <-]. apply HRr. Qed.

Lemma walk_panic {A} : Walk R (@panic (CPU B) A).
Proof. done. Qed.

Lemma walk_gets {A} (f : CPU B -> A) : Walk R (gets f).
Proof. intros c a' c' [= <- <-]. apply HRr. Qed.

Lemma walk_modify (f : CPU B -> CPU B) : (forall c, R c (f c)) -> Walk R (modify f).
Proof. intros Hf c a c' [= <- <-]. done. Qed.

Lemma walk_get_bind {A} (k : CPU B -> M (CPU B) A) :
  (forall c, Walk R (k c)) -> Walk R (bind get k).
Proof. intros Hk c a c' E. exact (Hk c c a c' E). Qed.

Lemma walk_index l i : Walk R (index l i).
Proof. unfold index. destruct (arr_get l i); [apply walk_ret|done]. Qed.

Lemma walk_of_option {A} (o : option A) : Walk R (of_option o).
Proof. destruct o; [apply walk_ret|done]. Qed.

Lemma walk_when (b : bool) m : Walk R m -> Walk R (when b m).
Proof. destruct b; [done|]. intros _. apply walk_ret. Qed.

Lemma walk_foldM {A X} (body : A -> X -> M (CPU B) A) l acc :
  (forall a x, Walk R (body a x)) -> Walk R (foldM body l acc).
Proof.
  intros Hb. revert acc. induction l as [|x l IH]; intros acc; simpl; [apply walk_ret|].
  by apply walk_bind.
Qed.
End walk.
End outcome.

Create HintDb walk discriminated.
#[export] Hint Constants Opaque : walk.

(** Walk over a computation, closing the primitive accesses with the hints. *)
Ltac walk1 :=
  lazymatch goal with
  | |- Walk _ (let x := _ in _) => cbv zeta
  | |- Walk _ (let '(_, _) := ?p in _) => destruct p
  | |- Walk _ (bind _ _) => apply (walk_bind _); [|intros ?]
  | |- Walk _ (ret _) => apply walk_ret; apply _
  | |- Walk _ panic => apply walk_panic
  | |- Walk _ (gets _) => apply walk_gets; apply _
  | |- Walk _ (when _ _) => apply walk_when; [apply _|]
  | |- Walk _ (foldM _ _ _) => apply walk_foldM; [apply _..|intros ? ?]
  | |- Walk _ (if ?b then _ else _) => destruct b
  | |- Walk _ (match ?b with _ => _ end) => destruct b
  | |- Walk _ _ => solve [auto 3 with walk nocore]
  end.

Ltac walk := intros; repeat walk1.

(** ** Quiet primitives *)

Lemma implemented_spec sr :
  implemented sr <-> forall i, 0 <= i -> Z.testbit 0xA71F i = false -> Z.testbit sr i = false.
Proof.
  unfold implemented. split.
  - intros <- i Hi Hf. by rewrite Z.land_spec, Hf, andb_false_r.
  - intros H. apply Z.bits_inj'. intros i Hi. rewrite Z.land_spec.
    destruct (Z.testbit 0xA71F i) eqn:E; [by rewrite andb_true_r|].
    by rewrite (H i Hi E).
Qed.

(** The status register [sr'] differs from [sr] in condition codes only. *)
Definition ccOnly (sr sr' : Z) : Prop :=
  Z.land sr' 0xFF00 = Z.land sr 0xFF00 /\ (implemented sr -> implemented sr').

#[export] Instance ccOnly_refl : Reflexive ccOnly.
Proof. by intros sr. Qed.

#[export] Instance ccOnly_trans : Transitive ccOnly.
Proof. intros x y z [E1 E2] [F1 F2]. split; [congruence|auto]. Qed.

(** [f] is a set of condition codes. *)
Definition ccBits (f : Z) : Prop := Z.land f 0x1F = f.

Lemma ccBits_high f i : ccBits f -> 0 <= i -> Z.testbit 0x1F i = false -> Z.testbit f i = false.
Proof. intros <- Hi Hf. by rewrite Z.land_spec, Hf, andb_false_r. Qed.

Lemma high_not_cc i : 0 <= i -> Z.testbit 0xFF00 i = true -> Z.testbit 0x1F i = false.
Proof.
  intros Hi Ht. destruct (Z_lt_le_dec i 8); [|by apply (testbit_high 8); [|lia]].
  exfalso. revert Ht. by enum_upto i 8%nat.
Qed.

Lemma unimplemented_not_cc i : 0 <= i -> Z.testbit 0xA71F i = false -> Z.testbit 0x1F i = false.
Proof.
  intros Hi Ht. destruct (Z_lt_le_dec i 8); [|by apply (testbit_high 8); [|lia]].
  revert Ht. by enum_upto i 8%nat.
Qed.

(** Only the bits outside the condition codes matter. *)
Lemma ccOnly_bits sr sr' :
  (forall i, 0 <= i -> Z.testbit 0x1F i = false -> Z.testbit sr' i = Z.testbit sr i) ->
  ccOnly sr sr'.
Proof.
  intros H. split.
  - apply Z.bits_inj'. intros i Hi. rewrite !Z.land_spec.
    destruct (Z.testbit 0xFF00 i) eqn:E; [|by rewrite !andb_false_r].
    by rewrite H by (done || by apply high_not_cc).
  - rewrite !implemented_spec. intros Hs i Hi Hf.
    rewrite H by (done || by apply unimplemented_not_cc). auto.
Qed.

Lemma ccOnly_lor sr f : ccBits f -> ccOnly sr (Z.lor sr f).
Proof.
  intros Hf. apply ccOnly_bits. intros i Hi Hc.
  by rewrite Z.lor_spec, (ccBits_high f), orb_false_r.
Qed.

Lemma ccOnly_ldiff sr f : ccBits f -> ccOnly sr (Z.ldiff sr f).
Proof.
  intros Hf. apply ccOnly_bits. intros i Hi Hc.
  by rewrite Z.ldiff_spec, (ccBits_high f), andb_true_r.
Qed.

Lemma ccOnly_setCCR sr v : ccOnly sr (Z.lor (Z.land sr 0xFF00) (Z.land v 0x1F)).
Proof.
  split.
  - apply Z.bits_inj'. intros i Hi. rewrite Z.land_spec, Z.lor_spec, !Z.land_spec.
    destruct (Z.testbit 0xFF00 i) eqn:E; [|by rewrite !andb_false_r].
    rewrite (high_not_cc i), !andb_true_r by done. by rewrite andb_false_r, orb_false_r.
  - rewrite !implemented_spec. intros Hs i Hi Hf.
    rewrite Z.lor_spec, !Z.land_spec, (Hs i), (unimplemented_not_cc i) by done.
    by rewrite andb_false_r.
Qed.

#[export] Hint Extern 1 (ccBits _) => reflexivity : walk.

Section quiet.
Context {B : Type} `{!Bus B}.
Implicit Types c : CPU B.

Lemma quiet_sr c sr : ccOnly (rSR (reg c)) sr -> quiet c (on_reg (with_SR sr) c).
Proof.
  intros [H1 H2]. split; [by repeat split|]. unfold system. simpl. by rewrite H1.
Qed.

Lemma walk_getD i : Walk quiet (getD (B := B) i).
Proof. apply walk_get_bind. intros c. apply walk_index, _. Qed.

Lemma walk_getA i : Walk quiet (getA (B := B) i).
Proof. apply walk_get_bind. intros c. apply walk_index, _. Qed.

Lemma walk_setD i v : Walk quiet (setD (B := B) i v).
Proof.
  apply walk_get_bind. intros c. apply (walk_bind _); [apply walk_of_option, _|].
  intros l. by apply walk_modify.
Qed.

Lemma walk_setA i v : Walk quiet (setA (B := B) i v).
Proof.
  apply walk_get_bind. intros c. apply (walk_bind _); [apply walk_of_option, _|].
  intros l. by apply walk_modify.
Qed.

Lemma walk_setPC v : Walk quiet (setPC (B := B) v).
Proof. by apply walk_modify. Qed.

Lemma walk_halt : Walk quiet (setHalted (B := B) true).
Proof. by apply walk_modify. Qed.

Lemma walk_clrSR f : ccBits f -> Walk quiet (clrSR (B := B) f).
Proof. intros Hf c a c' [= <- <-]. by apply quiet_sr, ccOnly_ldiff. Qed.

Lemma walk_orSR f : ccBits f -> Walk quiet (orSR (B := B) f).
Proof. intros Hf c a c' [= <- <-]. by apply quiet_sr, ccOnly_lor. Qed.

Lemma walk_setCCR v : Walk quiet (setCCR (B := B) v).
Proof. intros c a c' [= <- <-]. apply quiet_sr, ccOnly_setCCR. Qed.

Lemma walk_busRead rd a : Walk quiet (busRead (B := B) rd a).
Proof.
  apply walk_get_bind. intros c. destruct (rd a (bus c)) as [v b].
  apply (walk_bind _); [by apply walk_modify|intros _; apply walk_ret, _].
Qed.

Lemma walk_busWrite wr a v : Walk quiet (busWrite (B := B) wr a v).
Proof. by apply walk_modify. Qed.
End quiet.

#[export] Hint Resolve walk_getD walk_getA walk_setD walk_setA walk_setPC walk_halt walk_clrSR
  walk_orSR walk_setCCR walk_busRead walk_busWrite : walk.
#[export] Hint Extern 1 (Walk _ getPC) => apply walk_gets; apply _ : walk.
#[export] Hint Extern 1 (Walk _ getSR) => apply walk_gets; apply _ : walk.
#[export] Hint Extern 1 (Walk _ getUSP) => apply walk_gets; apply _ : walk.
#[export] Hint Extern 1 (Walk _ getSSP) => apply walk_gets; apply _ : walk.
#[export] Hint Extern 1 (Walk _ getir) => apply walk_gets; apply _ : walk.

Section quiet2.
Context {B : Type} `{!Bus B}.

Lemma walk_readBus sz a : Walk quiet (readBus (B := B) sz a).
Proof. unfold readBus. walk. Qed.

Lemma walk_writeBus sz a v : Walk quiet (writeBus (B := B) sz a v).
Proof. unfold writeBus. walk. Qed.

#[local] Hint Resolve walk_readBus walk_writeBus : walk.

Lemma walk_fetchPC : Walk quiet (fetchPC (B := B)).
Proof. unfold fetchPC. walk. Qed.

#[local] Hint Resolve walk_fetchPC : walk.

Lemma walk_fetchPCLong : Walk quiet (fetchPCLong (B := B)).
Proof. unfold fetchPCLong. walk. Qed.

Lemma walk_pushWord v : Walk quiet (pushWord (B := B) v).
Proof. unfold pushWord. walk. Qed.

Lemma walk_pushLong v : Walk quiet (pushLong (B := B) v).
Proof. unfold pushLong. walk. Qed.

Lemma walk_popWord : Walk quiet (popWord (B := B)).
Proof. unfold popWord. walk. Qed.

Lemma walk_popLong : Walk quiet (popLong (B := B)).
Proof. unfold popLong. walk. Qed.

#[local] Hint Resolve walk_fetchPCLong walk_pushWord walk_pushLong walk_popWord walk_popLong : walk.

Lemma walk_setFlagsAdd s d r sz : Walk quiet (setFlagsAdd (B := B) s d r sz).
Proof. unfold setFlagsAdd. walk. Qed.

Lemma walk_setFlagsSub s d r sz : Walk quiet (setFlagsSub (B := B) s d r sz).
Proof. unfold setFlagsSub. walk. Qed.

Lemma walk_setFlagsCmp s d r sz : Walk quiet (setFlagsCmp (B := B) s d r sz).
Proof. unfold setFlagsCmp. walk. Qed.

Lemma walk_setFlagsLogical r sz : Walk quiet (setFlagsLogical (B := B) r sz).
Proof. unfold setFlagsLogical. walk. Qed.

Lemma walk_testCondition cc : Walk quiet (testCondition (B := B) cc).
Proof. unfold testCondition. walk. Qed.

Lemma walk_calcIndex b x : Walk quiet (calcIndex (B := B) b x).
Proof. unfold calcIndex. walk. Qed.

#[local] Hint Resolve walk_calcIndex : walk.

Lemma walk_makeEARead mode reg sz : Walk quiet (call (makeEARead (B := B) mode reg) sz).
Proof.
  unfold makeEARead. repeat case_match; unfold call; walk.
Qed.

Lemma walk_makeEAMemAddr mode reg sz : Walk quiet (call (makeEAMemAddr (B := B) mode reg) sz).
Proof.
  unfold makeEAMemAddr. repeat case_match; unfold call; walk.
Qed.
End quiet2.

#[export] Hint Resolve walk_readBus walk_writeBus walk_fetchPC walk_fetchPCLong walk_pushWord
  walk_pushLong walk_popWord walk_popLong walk_setFlagsAdd walk_setFlagsSub walk_setFlagsCmp
  walk_setFlagsLogical walk_testCondition walk_calcIndex walk_makeEARead
  walk_makeEAMemAddr : walk.

(** ** The shifter changes condition codes only *)

Lemma ccOnly_putFlag b f sr sr0 : ccBits f -> ccOnly sr0 sr -> ccOnly sr0 (putFlag b f sr).
Proof.
  intros Hf H. etrans; [done|]. unfold putFlag. destruct b; [by apply ccOnly_lor|by apply ccOnly_ldiff].
Qed.

Lemma ccOnly_clear f sr sr0 : ccBits f -> ccOnly sr0 sr -> ccOnly sr0 (Z.ldiff sr f).
Proof. intros Hf H. etrans; [done|by apply ccOnly_ldiff]. Qed.

Lemma ccOnly_set f sr sr0 : ccBits f -> ccOnly sr0 sr -> ccOnly sr0 (Z.lor sr f).
Proof. intros Hf H. etrans; [done|by apply ccOnly_lor]. Qed.

Ltac cc_only :=
  repeat first
  [ reflexivity | assumption
  | apply ccOnly_putFlag; [done|] | apply ccOnly_clear; [done|] | apply ccOnly_set; [done|]
  | case_if ].

(** A loop whose body changes condition codes only does so. *)
Lemma ccOnly_iter (f : Z * Z -> Z * Z) n st sr0 :
  (forall st, ccOnly sr0 st.2 -> ccOnly sr0 (f st).2) ->
  ccOnly sr0 st.2 -> ccOnly sr0 (Nat.iter n f st).2.
Proof. intros Hf Hst. induction n as [|n IH]; simpl; auto. Qed.

Lemma ccOnly_shiftAS dir v k sz sr : ccOnly sr (shiftAS dir v k sz sr).2.
Proof.
  unfold shiftAS. cbv zeta. destruct (dir =? 1); [|simpl; cc_only].
  destruct (Nat.iter _ _ _) as [r sr'] eqn:E. simpl. apply ccOnly_putFlag; [done|].
  change sr' with (r, sr').2. rewrite <- E. apply ccOnly_iter; [|simpl; cc_only].
  intros [r0 sr0] H. simpl in *. cc_only.
Qed.

Lemma ccOnly_shiftROX dir v k sz sr : ccOnly sr (shiftROX dir v k sz sr).2.
Proof.
  unfold shiftROX. cbv zeta. destruct (dir =? 1); destruct (Nat.iter _ _ _) as [r sr'] eqn:E; simpl;
    (apply ccOnly_clear; [done|]); change sr' with (r, sr').2; rewrite <- E;
    (apply ccOnly_iter; [|done]); intros [r0 sr0] H; simpl in *; cc_only.
Qed.

Lemma ccOnly_shiftCore v k dir typ sz sr : ccOnly sr (shiftCore v k dir typ sz sr).2.
Proof.
  unfold shiftCore.
  assert (forall p, ccOnly sr p.2 -> ccOnly sr
    (let '(result, sr) := p in
     let sr := Z.ldiff sr (Z.lor flagN flagZ) in
     let sr := if tstb result (MSB sz) then Z.lor sr flagN else sr in
     let sr := if Z.land result (Mask sz) =? 0 then Z.lor sr flagZ else sr in (result, sr)).2) as Hp.
  { intros [r sr'] H. simpl in *. cc_only. }
  cbv zeta in *. apply Hp. repeat case_match;
    first [apply ccOnly_shiftAS | apply ccOnly_shiftROX
      | unfold shiftLS, shiftRO; cbv zeta; repeat case_if; simpl; cc_only].
Qed.

Section quiet3.
Context {B : Type} `{!Bus B}.

Lemma walk_doShift v k dir typ sz : Walk quiet (doShift (B := B) v k dir typ sz).
Proof.
  unfold doShift. case_if; [walk|]. case_if; [walk|].
  intros c a c' E. unfold bind, getSR, gets in E.
  pose proof (ccOnly_shiftCore v k dir typ sz (rSR (reg c))) as H.
  destruct (shiftCore _ _ _ _ _ _) as [r sr]. injection E as <- <-. by apply quiet_sr.
Qed.

Lemma walk_resolveEA mode reg sz :
  0 <= mode < 7 \/ mode = 7 /\ 0 <= reg <= 3 -> Walk quiet (resolveEA (B := B) mode reg sz).
Proof.
  intros [H|[-> H]].
  - enum_upto mode 7%nat; unfold resolveEA; walk.
  - enum_upto reg 4%nat; unfold resolveEA; walk.
Qed.

Lemma walk_ea_read e sz : Walk quiet (ea_read (B := B) e sz).
Proof. unfold ea_read. walk. Qed.

Lemma walk_ea_write e sz v : Walk quiet (ea_write (B := B) e sz v).
Proof. unfold ea_write. walk. Qed.

Lemma walk_irSize : Walk quiet (irSize (B := B)).
Proof. unfold irSize. walk. Qed.

Lemma walk_irSizeHi : Walk quiet (irSizeHi (B := B)).
Proof. unfold irSizeHi. walk. Qed.

Lemma walk_irSizeAddr : Walk quiet (irSizeAddr (B := B)).
Proof. unfold irSizeAddr. walk. Qed.

Lemma walk_moveSize : Walk quiet (moveSize (B := B)).
Proof. unfold moveSize. walk. apply walk_index, _. Qed.

Lemma walk_loadD r sz : Walk quiet (loadD (B := B) r sz).
Proof. unfold loadD. walk. Qed.

Lemma walk_storeD r sz v : Walk quiet (storeD (B := B) r sz v).
Proof. unfold storeD. walk. Qed.

Lemma walk_fetchImm sz : Walk quiet (fetchImm (B := B) sz).
Proof. unfold fetchImm. walk. Qed.

Lemma walk_extendBit : Walk quiet (extendBit (B := B)).
Proof. unfold extendBit. walk. Qed.

Lemma walk_keepZ r sz sr : Walk quiet (keepZ (B := B) r sz (Z.land sr flagZ)).
Proof.
  unfold keepZ. apply walk_when; [apply _|]. intros c a c' [= <- <-]. apply quiet_sr.
  etrans; [apply (ccOnly_ldiff _ flagZ); done|]. apply ccOnly_lor. unfold ccBits.
  by rewrite <- Z.land_assoc.
Qed.

Lemma walk_bcdAdd s d : Walk quiet (bcdAdd (B := B) s d).
Proof. unfold bcdAdd, extendBit, bcdFlags. walk. Qed.

Lemma walk_bcdSub s d : Walk quiet (bcdSub (B := B) s d).
Proof. unfold bcdSub, extendBit, bcdFlags. walk. Qed.

Lemma walk_setZbit v m : Walk quiet (setZbit (B := B) v m).
Proof. unfold setZbit. walk. Qed.

Lemma walk_fetchBit m : Walk quiet (fetchBit (B := B) m).
Proof. unfold fetchBit. walk. Qed.

Lemma walk_branchDisp w : Walk quiet (branchDisp (B := B) w).
Proof. unfold branchDisp. walk. Qed.

Lemma walk_goDiv a b : Walk quiet (goDiv (B := B) a b).
Proof. unfold goDiv. walk. Qed.

Lemma walk_goMod a b : Walk quiet (goMod (B := B) a b).
Proof. unfold goMod. walk. Qed.

Lemma walk_movemStorePredec sz mask a : Walk quiet (movemStorePredec (B := B) sz mask a).
Proof. unfold movemStorePredec, getReg16. walk. Qed.

Lemma walk_movemStore sz mask a : Walk quiet (movemStore (B := B) sz mask a).
Proof. unfold movemStore, getReg16. walk. Qed.

Lemma walk_movemLoad sz mask a : Walk quiet (movemLoad (B := B) sz mask a).
Proof. unfold movemLoad, setReg16. walk. Qed.
End quiet3.

#[export] Hint Resolve walk_doShift walk_ea_read walk_ea_write walk_irSize walk_irSizeHi
  walk_irSizeAddr walk_moveSize walk_loadD walk_storeD walk_fetchImm walk_extendBit walk_keepZ
  walk_bcdAdd walk_bcdSub walk_setZbit walk_fetchBit walk_branchDisp walk_goDiv walk_goMod
  walk_movemStorePredec walk_movemStore walk_movemLoad : walk.
#[export] Hint Extern 2 (Walk _ (resolveEA 3 _ _)) => apply walk_resolveEA; lia : walk.
#[export] Hint Extern 2 (Walk _ (resolveEA 4 _ _)) => apply walk_resolveEA; lia : walk.

(** ** How an instruction ends *)

Section ends.
Context {B : Type} `{!Bus B} (op : Z).
Implicit Types c : CPU B.

(** The three ways an instruction can end: with its charge after quiet work;
    with an exception raised after quiet work; or, in supervisor mode, with its
    charge after work on the system state. *)
Definition outcome (lo hi : Z) c c' : Prop :=
  charged quiet lo hi c c' \/
  (exists v c0, 0 <= v < 48 /\ quiet c c0 /\ exception v c0 = Some (tt, c')) \/
  (inS c = true /\ charged loud lo hi c c').

(** The handler [m] of the instruction word [op] ends so. *)
Definition Ends (lo hi : Z) (m : opFunc B) : Prop :=
  forall c c', ir c = op -> m c = Some (tt, c') -> outcome lo hi c c'.

Definition Privileged (lo hi : Z) (m : opFunc B) : Prop :=
  forall c c', ir c = op -> m c = Some (tt, c') -> charged loud lo hi c c'.

Lemma system_inS c c' : system c' = system c -> inS c' = inS c.
Proof.
  intros Hs. injection Hs as Hs _ _ _. unfold inS, tstb.
  replace (Z.land (rSR (reg c')) flagS) with (Z.land (Z.land (rSR (reg c')) 0xFF00) flagS)
    by (rewrite <- Z.land_assoc; done).
  rewrite Hs, <- Z.land_assoc. done.
Qed.

Lemma quiet_inS c c' : quiet c c' -> inS c' = inS c.
Proof. intros [_ Hs]. by apply system_inS. Qed.

Lemma quiet_loud c c' : quiet c c' -> loud c c'.
Proof. by intros []. Qed.

Lemma loud_ir c c' : loud c c' -> ir c' = ir c.
Proof. intros (_ & E & _). by injection E. Qed.

Lemma charged_after R `{!Transitive R} lo hi c c1 c' :
  R c c1 -> charged R lo hi c1 c' -> charged R lo hi c c'.
Proof. intros HR (c0 & n & H & Hn & ->). exists c0, n. split; [by etrans|done]. Qed.

Lemma outcome_after lo hi c c1 c' : quiet c c1 -> outcome lo hi c1 c' -> outcome lo hi c c'.
Proof.
  intros Hq [H|[(v & c0 & Hv & H & E)|[HS H]]].
  - left. by eapply charged_after, H; [apply _|].
  - right; left. exists v, c0. split; [done|]. split; [by etrans|done].
  - right; right. rewrite <- (quiet_inS _ _ Hq). split; [done|].
    eapply charged_after, H; [apply _|by apply quiet_loud].
Qed.

Lemma ends_bind {A} lo hi (m : M (CPU B) A) (k : A -> opFunc B) :
  Walk quiet m -> (forall a, Ends lo hi (k a)) -> Ends lo hi (bind m k).
Proof.
  intros Hm Hk c c' Hir (a & c1 & E1 & E2)%bind_Some. apply Hm in E1.
  eapply outcome_after; [done|]. eapply Hk; [|done].
  by rewrite (loud_ir c c1 (quiet_loud _ _ E1)).
Qed.

Lemma ends_getir lo hi (k : Z -> opFunc B) : Ends lo hi (k op) -> Ends lo hi (bind getir k).
Proof. intros Hk c c' <- E. by apply Hk. Qed.

Lemma ends_assoc {A C} lo hi (m : M (CPU B) A) (f : A -> M (CPU B) C) (k : C -> opFunc B) :
  Ends lo hi (bind m (fun a => bind (f a) k)) -> Ends lo hi (bind (bind m f) k).
Proof. intros H c c' Hir E. rewrite bind_assoc in E. by apply H. Qed.

Lemma ends_ret {A} lo hi (a : A) (k : A -> opFunc B) :
  Ends lo hi (k a) -> Ends lo hi (bind (ret a) k).
Proof. done. Qed.

Lemma ends_charge lo hi n : lo <= n <= hi -> Ends lo hi (AddCycles n).
Proof. intros Hn c c' Hir [= <-]. left. exists c, n. done. Qed.

Lemma ends_charge2 lo hi n (b : bool) m :
  lo <= n <= hi -> (b = true -> lo <= n + m <= hi) ->
  Ends lo hi (AddCycles n ;; when b (AddCycles m)).
Proof.
  intros Hn Hm c c' Hir E. left. destruct b.
  - injection E as <-. exists c, (n + m). split; [done|]. split; [auto|]. apply tick_tick.
  - injection E as <-. by exists c, n.
Qed.

Lemma ends_exception lo hi v : 0 <= v < 48 -> Ends lo hi (exception v).
Proof. intros Hv c c' Hir E. right; left. by exists v, c. Qed.

Lemma ends_privileged lo hi m : Privileged lo hi m -> Ends lo hi (privileged m).
Proof.
  intros Hm c c' Hir E. unfold privileged in E.
  change (supervisor c) with (Some (inS c, c)) in E.
  rewrite (bind_eval supervisor _ c (inS c) c eq_refl) in E.
  destruct (inS c) eqn:HS; simpl in E.
  - right; right. split; [done|]. by apply Hm.
  - refine (ends_exception lo hi vecPrivilegeViolation _ c c' Hir E). unfold vecPrivilegeViolation. lia.
Qed.

Lemma privileged_bind {A} lo hi (m : M (CPU B) A) (k : A -> opFunc B) :
  Walk loud m -> (forall a, Privileged lo hi (k a)) -> Privileged lo hi (bind m k).
Proof.
  intros Hm Hk c c' Hir (a & c1 & E1 & E2)%bind_Some. apply Hm in E1.
  eapply charged_after; [apply _|done|]. eapply Hk; [|done]. by rewrite (loud_ir c c1).
Qed.

Lemma privileged_charge lo hi n : lo <= n <= hi -> Privileged lo hi (AddCycles n).
Proof. intros Hn c c' Hir [= <-]. by exists c, n. Qed.

Lemma walk_loud {A} (m : M (CPU B) A) : Walk quiet m -> Walk loud m.
Proof. apply walk_mono. apply quiet_loud. Qed.

#[local] Hint Extern 2 (Walk loud _) => simple apply walk_loud : walk.

Lemma walk_setUSP v : Walk loud (setUSP (B := B) v).
Proof. by apply walk_modify. Qed.

Lemma walk_setSSP v : Walk loud (setSSP (B := B) v).
Proof. by apply walk_modify. Qed.

Lemma walk_setStopped v : Walk loud (setStopped (B := B) v).
Proof. by apply walk_modify. Qed.

#[local] Hint Resolve walk_setUSP walk_setSSP : walk.

Lemma walk_setSR v : Walk loud (setSR (B := B) v).
Proof.
  unfold setSR. apply (walk_bind _); [walk|]. intros old. cbv zeta.
  apply (walk_bind _); [walk|]. intros _. apply walk_modify. intros c. repeat split; [|done].
  unfold implemented. simpl. intros _. by rewrite <- Z.land_assoc.
Qed.
End ends.

#[export] Hint Resolve walk_setUSP walk_setSSP walk_setStopped walk_setSR : walk.
#[export] Hint Extern 2 (Walk loud _) => simple apply walk_loud : walk.

(** ** Cycle tables *)

Lemma eaFetchConst_range mode reg :
  0 <= (eaFetchConst mode reg).1 <= 12 /\ 0 <= (eaFetchConst mode reg).2 <= 4.
Proof. unfold eaFetchConst. repeat case_match; simpl; lia. Qed.

Lemma eaWriteConst_range mode reg :
  0 <= (eaWriteConst mode reg).1 <= 12 /\ 0 <= (eaWriteConst mode reg).2 <= 4.
Proof. unfold eaWriteConst. repeat case_match; simpl; lia. Qed.

Lemma OnesCount16_range x : 0 <= OnesCount16 x <= 16.
Proof.
  unfold OnesCount16. pose proof (length_filter (fun i => Z.testbit x i = true) (zrange 0 16)) as H.
  change (length (zrange 0 16)) with 16%nat in H. lia.
Qed.

Lemma controlCycles_range lo hi mode reg c2 c5 c6 c70 c71 c73 :
  0 <= reg < 8 -> ea_control mode reg = true ->
  Forall (fun n => lo <= n <= hi) [c2; c5; c6; c70; c71; c73] ->
  lo <= controlCycles mode reg c2 c5 c6 c70 c71 c73 <= hi.
Proof.
  intros Hr Hc Hall. rewrite !Forall_cons in Hall.
  destruct Hall as (H2 & H5 & H6 & H70 & H71 & H73 & _). unfold ea_control in Hc.
  rewrite !orb_true_iff, andb_true_iff, !Z.eqb_eq, Z.leb_le in Hc.
  destruct Hc as [[[->| ->]| ->]|[-> Hc]]; [done..|]. by enum_upto reg 4%nat.
Qed.

Lemma land_15_range x : 0 <= Z.land x 0xF < 16.
Proof. change 0xF with (Z.ones 4). rewrite Z.land_ones by lia. zlia. Qed.

Lemma land_63_range x : 0 <= Z.land x 63 < 64.
Proof. change 63 with (Z.ones 6). rewrite Z.land_ones by lia. zlia. Qed.

(** Walk through a handler to its charge. *)
Ltac const_ranges :=
  repeat match goal with
  | |- context [eaFetchConst ?m ?r] =>
      pose proof (eaFetchConst_range m r); destruct (eaFetchConst m r); cbn [fst snd] in *
  | |- context [eaWriteConst ?m ?r] =>
      pose proof (eaWriteConst_range m r); destruct (eaWriteConst m r); cbn [fst snd] in *
  end.

Ltac ends1 :=
  lazymatch goal with
  | |- Ends _ _ _ (let x := _ in _) => cbv zeta
  | |- Ends _ _ _ (bind getir _) => apply ends_getir; cbv zeta
  | |- Ends _ _ _ (bind (bind _ _) _) => apply ends_assoc
  | |- Ends _ _ _ (bind (ret _) _) => apply ends_ret
  | |- Ends _ _ _ (bind (if ?b then _ else _) _) => destruct b eqn:?
  | |- Ends _ _ _ (bind (AddCycles _) (fun _ => when _ _)) =>
      apply ends_charge2; [lia|intros Hb; first [lia | discriminate Hb]]
  | |- Ends _ _ _ (bind _ _) => apply ends_bind; [solve [walk]|intros ?]
  | |- Ends _ _ _ (AddCycles _) => apply ends_charge; lia
  | |- Ends _ _ _ (exception _) => apply ends_exception; solve [reg_index | unfold vecDivideByZero, vecCHK, vecTRAPV; lia]
  | |- Ends _ _ _ (if ?b then _ else _) => destruct b eqn:?
  | |- Ends _ _ _ _ => solve [eauto 2 with ends]
  end.

Create HintDb ends discriminated.
#[export] Hint Constants Opaque : ends.
#[export] Hint Extern 2 (_ <= _) => lia : ends.
#[export] Hint Extern 2 (_ <= _ <= _) => lia : ends.

Ltac ends := intros; const_ranges; repeat ends1.

Section handlers.
Context {B : Type} `{!Bus B} (op : Z).

Lemma ends_chargeSize lo hi sz long short :
  lo <= long <= hi -> lo <= short <= hi -> Ends (B := B) op lo hi (chargeSize sz long short).
Proof. unfold chargeSize. ends. Qed.

Lemma ends_chargeToReg lo hi sz eaBase eaLong mem :
  lo <= 4 -> 0 <= eaBase -> 0 <= eaLong -> 8 + eaBase + eaLong <= hi ->
  Ends (B := B) op lo hi (chargeToReg sz eaBase eaLong mem).
Proof. unfold chargeToReg. ends. Qed.

#[local] Hint Resolve ends_chargeSize ends_chargeToReg : ends.

Abbreviation ends_ok := (Ends (B := B) op 4 170).
Lemma ends_ADDtoReg dn mode reg : ends_ok (makeADDtoReg dn mode reg).
Proof. unfold makeADDtoReg. ends. Qed.

Lemma ends_ADDtoEA dn mode reg : ends_ok (makeADDtoEA dn mode reg).
Proof. unfold makeADDtoEA. ends. Qed.

Lemma ends_ADDA dn mode reg : ends_ok (makeADDA dn mode reg).
Proof. unfold makeADDA. ends. Qed.

Lemma ends_ADDQ dn mode reg : ends_ok (makeADDQ dn mode reg).
Proof. unfold makeADDQ. ends. Qed.

Lemma ends_SUBtoReg dn mode reg : ends_ok (makeSUBtoReg dn mode reg).
Proof. unfold makeSUBtoReg. ends. Qed.

Lemma ends_SUBtoEA dn mode reg : ends_ok (makeSUBtoEA dn mode reg).
Proof. unfold makeSUBtoEA. ends. Qed.

Lemma ends_SUBA dn mode reg : ends_ok (makeSUBA dn mode reg).
Proof. unfold makeSUBA. ends. Qed.

Lemma ends_SUBQ dn mode reg : ends_ok (makeSUBQ dn mode reg).
Proof. unfold makeSUBQ. ends. Qed.

Lemma ends_CMP dn mode reg : ends_ok (makeCMP dn mode reg).
Proof. unfold makeCMP. ends. Qed.

Lemma ends_CMPA dn mode reg : ends_ok (makeCMPA dn mode reg).
Proof. unfold makeCMPA. ends. Qed.

Lemma ends_MULU dn mode reg : ends_ok (makeMULU dn mode reg).
Proof. unfold makeMULU. ends. Qed.

Lemma ends_MULS dn mode reg : ends_ok (makeMULS dn mode reg).
Proof. unfold makeMULS. ends. Qed.

Lemma ends_DIVU dn mode reg : ends_ok (makeDIVU dn mode reg).
Proof. unfold makeDIVU. ends. Qed.

Lemma ends_DIVS dn mode reg : ends_ok (makeDIVS dn mode reg).
Proof. unfold makeDIVS. ends. Qed.

Lemma ends_CHK dn mode reg : ends_ok (makeCHK dn mode reg).
Proof. unfold makeCHK. ends. Qed.

Lemma ends_ADDI mode reg : ends_ok (makeADDI mode reg).
Proof. unfold makeADDI. ends. Qed.

Lemma ends_SUBI mode reg : ends_ok (makeSUBI mode reg).
Proof. unfold makeSUBI. ends. Qed.

Lemma ends_CMPI mode reg : ends_ok (makeCMPI mode reg).
Proof. unfold makeCMPI. ends. Qed.

Lemma ends_NEG mode reg : ends_ok (makeNEG mode reg).
Proof. unfold makeNEG. ends. Qed.

Lemma ends_NEGX mode reg : ends_ok (makeNEGX mode reg).
Proof. unfold makeNEGX. ends. Qed.

Lemma ends_CLR mode reg : ends_ok (makeCLR mode reg).
Proof. unfold makeCLR. ends. Qed.

Lemma ends_ADDXreg : ends_ok opADDXreg.
Proof. unfold opADDXreg. ends. Qed.

Lemma ends_ADDXmem : ends_ok opADDXmem.
Proof. unfold opADDXmem. ends. Qed.

Lemma ends_SUBXreg : ends_ok opSUBXreg.
Proof. unfold opSUBXreg. ends. Qed.

Lemma ends_SUBXmem : ends_ok opSUBXmem.
Proof. unfold opSUBXmem. ends. Qed.

Lemma ends_CMPM : ends_ok opCMPM.
Proof. unfold opCMPM. ends. Qed.

Lemma ends_EXTW : ends_ok opEXTW.
Proof. unfold opEXTW. ends. Qed.

Lemma ends_EXTL : ends_ok opEXTL.
Proof. unfold opEXTL. ends. Qed.

Lemma ends_logicToReg f dn mode reg : ends_ok (logicToReg f dn mode reg).
Proof. unfold logicToReg. ends. Qed.

Lemma ends_logicToEA f dn mode reg : ends_ok (logicToEA f dn mode reg).
Proof. unfold logicToEA. ends. Qed.

Lemma ends_logicImm f mode reg : ends_ok (logicImm f mode reg).
Proof. unfold logicImm. ends. Qed.

#[local] Hint Resolve ends_logicToEA : ends.

Lemma ends_EOR dn mode reg : ends_ok (makeEOR dn mode reg).
Proof. unfold makeEOR. ends. Qed.

Lemma ends_NOT mode reg : ends_ok (makeNOT mode reg).
Proof. unfold makeNOT. ends. Qed.

Lemma ends_TST mode reg : ends_ok (makeTST mode reg).
Proof. unfold makeTST. ends. Qed.

Lemma ends_TAS mode reg : ends_ok (makeTAS mode reg).
Proof. unfold makeTAS. ends. Qed.

Lemma ends_ShiftMem mode reg : ends_ok (makeShiftMem mode reg).
Proof. unfold makeShiftMem. ends. Qed.

Lemma ends_ShiftReg : ends_ok opShiftReg.
Proof.
  unfold opShiftReg. pose proof (land_7_range (Z.shiftr op 9)) as Hc.
  ends; match goal with |- context [Z.land ?d 63] => pose proof (land_63_range d) | _ => idtac end.
  all: apply ends_charge2; [|intros _]; try case_if; lia.
Qed.

Lemma ends_BTSTdyn dn mode reg : ends_ok (makeBTSTdyn dn mode reg).
Proof. unfold makeBTSTdyn. ends. Qed.

Lemma ends_BTSTstatic mode reg : ends_ok (makeBTSTstatic mode reg).
Proof. unfold makeBTSTstatic. ends. Qed.

Lemma ends_bitDyn f a b dn mode reg : 4 <= a <= 10 -> 4 <= b <= 10 -> ends_ok (bitDyn f a b dn mode reg).
Proof. unfold bitDyn. ends. Qed.

Lemma ends_bitStatic f a mode reg : 4 <= a <= 14 -> ends_ok (bitStatic f a mode reg).
Proof. unfold bitStatic. ends. Qed.

Lemma ends_ABCDreg : ends_ok opABCDreg.
Proof. unfold opABCDreg, bcdReg, bcdMem. ends. Qed.

Lemma ends_ABCDmem : ends_ok opABCDmem.
Proof. unfold opABCDmem, bcdReg, bcdMem. ends. Qed.

Lemma ends_SBCDreg : ends_ok opSBCDreg.
Proof. unfold opSBCDreg, bcdReg, bcdMem. ends. Qed.

Lemma ends_SBCDmem : ends_ok opSBCDmem.
Proof. unfold opSBCDmem, bcdReg, bcdMem. ends. Qed.

Lemma ends_NBCD mode reg : ends_ok (makeNBCD mode reg).
Proof. unfold makeNBCD. ends. Qed.

Lemma ends_MOVE sm sr dm dr : ends_ok (makeMOVE sm sr dm dr).
Proof. unfold makeMOVE. ends. Qed.

Lemma ends_MOVEA an mode reg : ends_ok (makeMOVEA an mode reg).
Proof. unfold makeMOVEA. ends. Qed.

Lemma ends_MOVEQ : ends_ok opMOVEQ.
Proof. unfold opMOVEQ. ends. Qed.

Lemma ends_SWAP : ends_ok opSWAP.
Proof. unfold opSWAP. ends. Qed.

Lemma ends_EXG : ends_ok opEXG.
Proof. unfold opEXG. ends. Qed.

Lemma ends_Bcc : ends_ok opBcc.
Proof. unfold opBcc. ends. Qed.

Lemma ends_BRA : ends_ok opBRA.
Proof. unfold opBRA. ends. Qed.

Lemma ends_BSR : ends_ok opBSR.
Proof. unfold opBSR. ends. Qed.

Lemma ends_DBcc : ends_ok opDBcc.
Proof. unfold opDBcc. ends. Qed.

Lemma ends_RTS : ends_ok opRTS.
Proof. unfold opRTS. ends. Qed.

Lemma ends_RTR : ends_ok opRTR.
Proof. unfold opRTR. ends. Qed.

Lemma ends_NOP : ends_ok opNOP.
Proof. unfold opNOP. ends. Qed.

Lemma ends_TRAP : ends_ok opTRAP.
Proof.
  unfold opTRAP. apply ends_getir, ends_exception. pose proof (land_15_range op).
  unfold vecTrap0. lia.
Qed.

Lemma ends_TRAPV : ends_ok opTRAPV.
Proof. unfold opTRAPV. ends. Qed.

Lemma ends_LINK : ends_ok opLINK.
Proof. unfold opLINK. ends. Qed.

Lemma ends_UNLK : ends_ok opUNLK.
Proof. unfold opUNLK. ends. Qed.

Lemma ends_Scc mode reg : ends_ok (makeScc mode reg).
Proof. unfold makeScc. ends. Qed.

Lemma ends_MOVEfromSR mode reg : ends_ok (makeMOVEfromSR mode reg).
Proof. unfold makeMOVEfromSR. ends. Qed.

Lemma ends_MOVEtoCCR mode reg : ends_ok (makeMOVEtoCCR mode reg).
Proof. unfold makeMOVEtoCCR. ends. Qed.

Lemma ends_immToCCR f : ends_ok (immToCCR f).
Proof. unfold immToCCR. ends. Qed.

(** *** Handlers that change the system state *)

Ltac privileged1 :=
  lazymatch goal with
  | |- Privileged _ _ _ (let x := _ in _) => cbv zeta
  | |- Privileged _ _ _ (bind (AddCycles _) (fun _ => when (sizeWord =? sizeLong) _)) =>
      refine (privileged_charge _ _ _ _ _); lia
  | |- Privileged _ _ _ (bind _ _) => apply privileged_bind; [solve [walk]|intros ?]
  | |- Privileged _ _ _ (AddCycles _) => apply privileged_charge; lia
  end.

Ltac privileged := intros; const_ranges; apply ends_privileged; repeat privileged1.

Lemma ends_STOP : ends_ok opSTOP.
Proof. unfold opSTOP. privileged. Qed.

Lemma ends_RESET : ends_ok opRESET.
Proof.
  unfold opRESET. apply ends_privileged, privileged_bind; [by apply walk_modify|].
  intros _. repeat privileged1.
Qed.

Lemma ends_MOVEtoSR mode reg : ends_ok (makeMOVEtoSR mode reg).
Proof. unfold makeMOVEtoSR. privileged. Qed.

Lemma ends_MOVEtoUSP : ends_ok opMOVEtoUSP.
Proof. unfold opMOVEtoUSP. privileged. Qed.

Lemma ends_MOVEfromUSP : ends_ok opMOVEfromUSP.
Proof. unfold opMOVEfromUSP. privileged. Qed.

Lemma ends_immToSR f : ends_ok (immToSR f).
Proof. unfold immToSR. privileged. Qed.

Lemma ends_RTE : ends_ok opRTE.
Proof.
  change opRTE with (privileged (B := B)
    (sr <- popWord ;; pc <- popLong ;; setSR sr ;; setPC pc ;; AddCycles 20)).
  privileged.
Qed.

(** *** Handlers whose cost depends on the addressing mode *)

Lemma ends_LEA an mode reg :
  0 <= reg < 8 -> ea_control mode reg = true -> ends_ok (makeLEA an mode reg).
Proof.
  intros Hr Hc. unfold makeLEA. cbv zeta. do 2 (apply ends_bind; [walk|intros ?]).
  apply ends_charge, controlCycles_range; [done..|]. repeat constructor; lia.
Qed.

Lemma ends_PEA mode reg :
  0 <= reg < 8 -> ea_control mode reg = true -> ends_ok (makePEA mode reg).
Proof.
  intros Hr Hc. unfold makePEA. cbv zeta. do 2 (apply ends_bind; [walk|intros ?]).
  apply ends_charge, controlCycles_range; [done..|]. repeat constructor; lia.
Qed.

Lemma ends_JMP mode reg :
  0 <= reg < 8 -> ea_control mode reg = true -> ends_ok (makeJMP mode reg).
Proof.
  intros Hr Hc. unfold makeJMP. cbv zeta. do 2 (apply ends_bind; [walk|intros ?]).
  apply ends_charge, controlCycles_range; [done..|]. repeat constructor; lia.
Qed.

Lemma ends_JSR mode reg :
  0 <= reg < 8 -> ea_control mode reg = true -> ends_ok (makeJSR mode reg).
Proof.
  intros Hr Hc. unfold makeJSR. cbv zeta. do 4 (apply ends_bind; [walk|intros ?]).
  apply ends_charge, controlCycles_range; [done..|]. repeat constructor; lia.
Qed.

Lemma ends_MOVEP : 4 <= Z.land (Z.shiftr op 6) 7 -> ends_ok opMOVEP.
Proof.
  intros Hm. unfold opMOVEP. pose proof (land_7_range (Z.shiftr op 6)).
  apply ends_getir. cbv zeta. do 2 (apply ends_bind; [walk|intros ?]).
  revert Hm. generalize dependent (Z.land (Z.shiftr op 6) 7). intros m Hr Hm.
  enum_upto m 8%nat; first [lia | ends].
Qed.

(** The direction, mode and register of a MOVEM word: there is a cost for them
    and [resolveEA] accepts them. *)
Definition movem_ok : bool :=
  let mode := u8 (Z.land (Z.shiftr op 3) 7) in
  let reg := u8 (Z.land op 7) in
  let base := movemBase (Z.land (Z.shiftr op 10) 1) mode reg in
  (8 <=? base) && (base <=? 20) && ((mode <? 7) || (mode =? 7) && (reg <=? 3)).

Lemma ends_MOVEM : movem_ok = true -> ends_ok opMOVEM.
Proof.
  unfold movem_ok. intros Hok. cbv zeta in Hok.
  rewrite !andb_true_iff, !Z.leb_le in Hok. destruct Hok as [Hbase Hmode].
  pose proof (u8_land_7_range (Z.shiftr op 3)). pose proof (u8_land_7_range op).
  unfold opMOVEM. apply ends_getir. cbv zeta. apply ends_bind; [walk|intros mask].
  apply ends_bind; [walk; apply walk_resolveEA; lia|intros _].
  pose proof (OnesCount16_range mask).
  apply ends_charge. destruct (_ =? sizeLong); lia.
Qed.

(** ** Every instruction *)

(** What the cost of a handler relies on, as a check of its operands. *)
Definition cost_ok (h : handler) : bool :=
  match h with
  | H0 MOVEP => 4 <=? Z.land (Z.shiftr op 6) 7
  | H0 MOVEM => movem_ok
  | H2 (JMP | JSR | PEA) mode reg | H3 LEA _ mode reg => field3 reg && ea_control mode reg
  | _ => true
  end.

#[local] Hint Resolve ends_ABCDmem ends_ABCDreg ends_ADDA ends_ADDI ends_ADDQ ends_ADDXmem
  ends_ADDXreg ends_ADDtoEA ends_ADDtoReg ends_BRA ends_BSR ends_BTSTdyn
  ends_BTSTstatic ends_Bcc ends_CHK ends_CLR ends_CMP ends_CMPA ends_CMPI
  ends_CMPM ends_DBcc ends_DIVS ends_DIVU ends_EOR ends_EXG ends_EXTL
  ends_EXTW ends_LINK ends_MOVE ends_MOVEA ends_MOVEQ ends_MOVEfromSR
  ends_MOVEfromUSP ends_MOVEtoCCR ends_MOVEtoSR ends_MOVEtoUSP ends_MULS
  ends_MULU ends_NBCD ends_NEG ends_NEGX ends_NOP ends_NOT ends_RESET
  ends_RTE ends_RTR ends_RTS ends_SBCDmem ends_SBCDreg ends_STOP ends_SUBA
  ends_SUBI ends_SUBQ ends_SUBXmem ends_SUBXreg ends_SUBtoEA ends_SUBtoReg
  ends_SWAP ends_Scc ends_ShiftMem ends_ShiftReg ends_TAS ends_TRAP
  ends_TRAPV ends_TST ends_UNLK ends_bitDyn ends_bitStatic ends_immToCCR
  ends_immToSR ends_logicImm ends_logicToReg : ends.

Lemma ends_run h : cost_ok h = true -> ends_ok (run h).
Proof.
  unfold cost_ok, field3. intros Hok.
  destruct h as [o|o mode reg|o x mode reg|sm sr dm dr]; cbn [run]; [destruct o..|];
    cbn [run0 run2 run3];
    unfold opANDItoCCR, opORItoCCR, opEORItoCCR, opANDItoSR, opORItoSR, opEORItoSR,
      makeANDtoReg, makeANDtoEA, makeANDI, makeORtoReg, makeORtoEA, makeORI, makeEORI,
      makeBCHGdyn, makeBCHGstatic, makeBCLRdyn, makeBCLRstatic, makeBSETdyn, makeBSETstatic;
    try solve [eauto 3 with ends].
  - by apply ends_MOVEM.
  - apply ends_MOVEP. lia.
  - apply andb_true_iff in Hok as [? ?]. apply ends_JMP; [lia|done].
  - apply andb_true_iff in Hok as [? ?]. apply ends_JSR; [lia|done].
  - apply andb_true_iff in Hok as [? ?]. apply ends_PEA; [lia|done].
  - apply andb_true_iff in Hok as [? ?]. apply ends_LEA; [lia|done].
Qed.
End handlers.

Lemma decode_cost_all :
  all_bits 16 (fun op => match decode op with Some h => cost_ok op h | None => true end) 0
  = true.
Proof. vm_compute. reflexivity. Qed.

Lemma decode_cost op h : is_u16 op -> decode op = Some h -> cost_ok op h = true.
Proof.
  intros [? ?] Hd. pose proof (all_bits_spec 16 _ 0 decode_cost_all op) as Hop.
  change (2 ^ Z.of_nat 16) with 0x10000 in Hop. cbv beta in Hop. rewrite Hd in Hop.
  apply Hop. lia.
Qed.

Lemma ends_execute {B} `{!Bus B} op : is_u16 op -> Ends (B := B) op 4 170 (execute op).
Proof.
  intros Hop. unfold execute. rewrite opcodeTable_lookup by done.
  destruct (decode op) as [h|] eqn:Hd; [by apply ends_run, decode_cost|].
  repeat case_match; apply ends_exception; unfold vecLineA, vecLineF, vecIllegalInstruction; lia.
Qed.
