(* ===== verification/ArithSpec.v ===== *)
(** * What the arithmetic instructions compute (ops_arith.go, ops_logic.go)

    Instruction handlers against integer arithmetic: the two-operand
    instructions with a data register destination for any source operand,
    multiplication, division with its overflow and divide-by-zero cases, and
    ADDX and SUBX as multi-word addition and subtraction. *)

From S2P Require Import Prelude Monad Cpu Ram Flags Exception Timing Ea.
From S2P Require Import OpsCommon OpsMove OpsArith OpsLogic OpsBit OpsBcd OpsBranch OpsCtrl.
From S2P Require Import Exec Decode Step Safety Outcome.

(** ** Operands *)

(** Whatever [m] returns satisfies [V]. *)
Definition Gives {B A} (V : A -> Prop) (m : M (CPU B) A) : Prop :=
  forall c a c', m c = Some (a, c') -> V a.

Section gives.
Context {B : Type} `{!Bus B, !BusTyped B}.

Lemma gives_bind {A C} (V : C -> Prop) (m : M (CPU B) A) (k : A -> M (CPU B) C) :
  (forall a, Gives V (k a)) -> Gives V (bind m k).
Proof. intros Hk c a c' (x & c1 & _ & E)%bind_Some. by eapply Hk. Qed.

Lemma gives_bind_l {A C} (U : A -> Prop) (V : C -> Prop) (m : M (CPU B) A) (k : A -> M (CPU B) C) :
  Gives U m -> (forall a, U a -> Gives V (k a)) -> Gives V (bind m k).
Proof. intros Hm Hk c a c' (x & c1 & E1 & E)%bind_Some. eapply Hk, E. by eapply Hm. Qed.

Lemma gives_ret {A} (V : A -> Prop) (a : A) : V a -> Gives (B := B) V (ret a).
Proof. by intros Ha c a' c' [= <- <-]. Qed.

Lemma gives_busRead (V : Z -> Prop) (rd : Z -> B -> Z * B) a :
  (forall b, V (fst (rd a b))) -> Gives V (busRead rd a).
Proof.
  intros Hrd c v c'. unfold busRead, get, bind. pose proof (Hrd (bus c)) as Hv.
  destruct (rd a (bus c)) as [x b]. by intros [= <- <-].
Qed.

Lemma zero_sz sz : valid_size sz -> is_sz sz 0.
Proof. intros Hsz. pose proof (MSB_pos sz Hsz). unfold is_sz, Modulus. lia. Qed.

Lemma gives_readBus sz a : valid_size sz -> Gives (is_sz sz) (readBus (B := B) sz a).
Proof.
  intros Hsz. pose proof (zero_sz sz Hsz). unfold readBus. apply gives_bind. intros h.
  destruct h; [by apply gives_ret|]. case_if; [apply gives_bind; intros _; by apply gives_ret|].
  cbv zeta. destruct Hsz as [->|[->| ->]]; simpl.
  - apply gives_busRead. intros b. apply Read8_range.
  - apply gives_busRead. intros b. apply Read16_range.
  - apply gives_busRead. intros b. apply Read32_range.
Qed.

Lemma gives_fetchPC : Gives is_u16 (fetchPC (B := B)).
Proof. unfold fetchPC. repeat (apply gives_bind; intros ?). apply gives_ret, u16_range. Qed.

Lemma gives_fetchPCLong : Gives is_u32 (fetchPCLong (B := B)).
Proof.
  unfold fetchPCLong. apply gives_bind. intros hi.
  eapply gives_bind_l; [apply gives_fetchPC|]. intros lo Hlo. apply gives_ret. urange.
Qed.

Lemma land_Mask_is_sz sz v : valid_size sz -> is_sz sz (Z.land v (Mask sz)).
Proof. intros Hsz. rewrite land_Mask by done. by apply is_sz_mod. Qed.

Lemma gives_read mode reg sz :
  valid_size sz -> Gives (is_sz sz) (call (makeEARead (B := B) mode reg) sz).
Proof.
  intros Hsz. unfold makeEARead.
  repeat case_match; unfold call; cbv beta zeta; try done;
    repeat lazymatch goal with |- Gives _ (bind _ _) => apply gives_bind; intros ? end;
    try solve [by apply gives_readBus | by apply gives_ret, land_Mask_is_sz].
  destruct (Z.eqb_spec sz sizeLong) as [->|]; [apply gives_fetchPCLong|].
  apply gives_bind. intros w. by apply gives_ret, land_Mask_is_sz.
Qed.

(** Fetching a source operand: it succeeds, the value has the operand's size,
    and the state stays well-formed. *)
Lemma operand mode reg sz (c : CPU B) :
  WF c -> 0 <= mode < 8 -> 0 <= reg < 8 -> ea_any mode reg = true -> valid_size sz ->
  exists s c1, call (makeEARead mode reg) sz c = Some (s, c1) /\ WF c1 /\ is_sz sz s /\
    quiet c c1.
Proof.
  intros Hwf Hm Hr Hea Hsz.
  assert (bus_contract (fun _ : B => True)) as HP by (by constructor).
  pose proof (safe_read _ HP (ir c) mode reg sz Hm Hr Hea c (conj Hwf (conj I eq_refl))) as H.
  apply wp_elim in H as (s & c1 & E & (Hwf1 & _) & _).
  exists s, c1. split; [done|]. split; [done|].
  split; [by eapply gives_read|by eapply walk_makeEARead].
Qed.
End gives.

(** ** Register operands *)

Section registers.
Context {B : Type} `{!Bus B}.
Implicit Types c : CPU B.

Lemma loadD_run c r sz :
  sized c -> 0 <= r < 8 -> valid_size sz -> loadD r sz c = Some (dreg c r mod Modulus sz, c).
Proof. intros Hs Hr Hsz. unfold loadD. exec. by rewrite land_Mask. Qed.

(** The low part of a register is replaced, the rest kept. *)
Definition low_part (sz D v : Z) : Z := D - D mod Modulus sz + v mod Modulus sz.

Lemma not32_Mask sz :
  valid_size sz -> not32 (Mask sz) = Z.shiftl (Z.ones (32 - Bits sz)) (Bits sz).
Proof. by intros [->|[->| ->]]. Qed.

Lemma storeD_run c r sz v :
  sized c -> 0 <= r < 8 -> valid_size sz -> is_u32 (dreg c r) ->
  storeD r sz v c = Some (tt, put_D r (low_part sz (dreg c r) v) c).
Proof.
  intros Hs Hr Hsz HD. unfold storeD. cbv zeta. exec. rewrite setD_run by done.
  pose proof (is_sz_mod sz v Hsz) as Hv. unfold is_sz in Hv. rewrite Modulus_pow2 in Hv by done.
  rewrite land_Mask, not32_Mask by done. unfold low_part. rewrite Modulus_pow2 by done.
  rewrite set_low; [done| |done|done]. by destruct Hsz as [->|[->| ->]].
Qed.

Lemma low_part_mod sz D v : valid_size sz -> low_part sz D v mod Modulus sz = v mod Modulus sz.
Proof.
  intros Hsz. pose proof (MSB_pos sz Hsz). unfold low_part, Modulus.
  set (m := 2 * MSB sz). assert (0 < m) by lia.
  replace (D - D mod m + v mod m) with (v mod m + (D / m) * m)
    by (pose proof (Z.div_mod D m ltac:(lia)); lia).
  by rewrite Z.mod_add, Z.mod_mod by lia.
Qed.

Lemma irSize_run c : irSize c = Some (sizeEncoding (Z.land (Z.shiftr (ir c) 6) 3), c).
Proof. done. Qed.

Lemma chargeToReg_run sz b l m c : exists n, chargeToReg sz b l m c = Some (tt, tick n c).
Proof. unfold chargeToReg. repeat case_if; eauto. Qed.

Lemma chargeSize_run sz l s c : exists n, chargeSize sz l s c = Some (tt, tick n c).
Proof. unfold chargeSize. case_if; eauto. Qed.
End registers.

(** ** ADD, SUB, CMP, AND, OR with a data register *)

Inductive alu : Type := AluADD | AluSUB | AluCMP | AluAND | AluOR.

(** The value left in the register. *)
Definition aluResult (o : alu) (sz s d : Z) : Z :=
  match o with
  | AluADD => (d + s) mod Modulus sz
  | AluSUB => (d - s) mod Modulus sz
  | AluCMP => d
  | AluAND => Z.land d s
  | AluOR => Z.lor d s
  end.

(** X, N, Z, V, C, from X before. *)
Definition aluFlags (o : alu) (sz s d : Z) (x : bool) : bool * bool * bool * bool * bool :=
  let nz t := (signed sz (t mod Modulus sz) <? 0, t mod Modulus sz =? 0) in
  match o with
  | AluADD => let c := Modulus sz <=? d + s in
      (c, fst (nz (d + s)), snd (nz (d + s)), negb (in_signed sz (signed sz d + signed sz s)), c)
  | AluSUB => let c := d <? s in
      (c, fst (nz (d - s)), snd (nz (d - s)), negb (in_signed sz (signed sz d - signed sz s)), c)
  | AluCMP =>
      (x, fst (nz (d - s)), snd (nz (d - s)), negb (in_signed sz (signed sz d - signed sz s)), d <? s)
  | AluAND => (x, fst (nz (Z.land d s)), snd (nz (Z.land d s)), false, false)
  | AluOR => (x, fst (nz (Z.lor d s)), snd (nz (Z.lor d s)), false, false)
  end.

Section alu.
Context {B : Type} `{!Bus B}.
Implicit Types c : CPU B.

Definition aluRun (o : alu) : Z -> Z -> Z -> opFunc B :=
  match o with
  | AluADD => makeADDtoReg
  | AluSUB => makeSUBtoReg
  | AluCMP => makeCMP
  | AluAND => makeANDtoReg
  | AluOR => makeORtoReg
  end.

(** The flag setter each of them calls. *)
Definition aluSet (o : alu) (s d sz : Z) : M (CPU B) unit :=
  match o with
  | AluADD => setFlagsAdd s d (u32 (s + d)) sz
  | AluSUB => setFlagsSub s d (u32 (d - s)) sz
  | AluCMP => setFlagsCmp s d (u32 (d - s)) sz
  | AluAND => setFlagsLogical (Z.land s d) sz
  | AluOR => setFlagsLogical (Z.lor s d) sz
  end.

Lemma lor_is_sz sz s d : valid_size sz -> is_sz sz s -> is_sz sz d -> is_sz sz (Z.lor s d).
Proof.
  intros Hsz. unfold is_sz. rewrite Modulus_pow2 by done. intros Hs Hd.
  apply lor_below; [|done|done]. by destruct Hsz as [->|[->| ->]].
Qed.

Lemma land_is_sz sz s d : valid_size sz -> is_sz sz s -> is_sz sz (Z.land s d).
Proof.
  intros Hsz. unfold is_sz. rewrite Modulus_pow2 by done. intros Hs.
  apply land_below; [|done]. by destruct Hsz as [->|[->| ->]].
Qed.

Lemma diff_zero sz s d :
  valid_size sz -> is_sz sz s -> is_sz sz d -> (d =? s) = ((d - s) mod Modulus sz =? 0).
Proof.
  intros Hsz Hs Hd. unfold is_sz in *. rewrite mod_once by (done || lia). cmp_cases; lia || done.
Qed.

Lemma aluSet_run o s d sz c :
  valid_size sz -> is_sz sz s -> is_sz sz d ->
  exists sr, aluSet o s d sz c = Some (tt, on_reg (with_SR sr) c) /\
    XNZVC sr = aluFlags o sz s d (tstb (rSR (reg c)) flagX) /\
    Z.ldiff sr 0x1F = Z.ldiff (rSR (reg c)) 0x1F.
Proof.
  intros Hsz Hs Hd. destruct o; unfold aluSet, aluFlags; cbv zeta; cbn [fst snd].
  - rewrite <- (Z.add_0_r (s + d)), setFlagsAdd_spec by (done || lia).
    eexists. split; [reflexivity|]. unfold addCCR. cbv zeta. rewrite !Z.add_0_r.
    rewrite (Z.add_comm d s), (Z.add_comm (signed sz d)). apply XNZVC_ccr.
  - rewrite <- (Z.sub_0_r (d - s)), setFlagsSub_spec by (done || lia).
    eexists. split; [reflexivity|]. unfold subCCR. cbv zeta. rewrite !Z.sub_0_r, Z.add_0_r.
    apply XNZVC_ccr.
  - rewrite setFlagsCmp_spec by done. eexists. split; [reflexivity|].
    rewrite <- diff_zero by done. apply XNZVC_ccr.
  - rewrite (Z.land_comm d s), Z.mod_small by (by apply land_is_sz).
    rewrite setFlagsLogical_spec by (done || by apply land_is_sz).
    eexists. split; [reflexivity|]. apply XNZVC_ccr.
  - rewrite (Z.lor_comm d s), Z.mod_small by (by apply lor_is_sz).
    rewrite setFlagsLogical_spec by (done || by apply lor_is_sz).
    eexists. split; [reflexivity|]. apply XNZVC_ccr.
Qed.

Lemma put_D_same c i : sized c -> 0 <= i < 8 -> put_D i (dreg c i) c = c.
Proof.
  intros [Hl _] Hi. unfold put_D, dreg, on_reg, with_D.
  destruct (lookup_lt_is_Some_2 (rD (reg c)) (Z.to_nat i)) as [v Hv]; [lia|]. rewrite Hv. simpl.
  rewrite list_insert_id by done. by destruct c as [[] ? ? ? ? ? ? ? ? ?].
Qed.

Lemma low_part_same sz D : valid_size sz -> low_part sz D (D mod Modulus sz) = D.
Proof.
  intros Hsz. unfold low_part. pose proof (is_sz_mod sz D Hsz) as H. unfold is_sz in H.
  rewrite (Z.mod_small (D mod _)) by done. lia.
Qed.

Lemma low_part_wrap sz D v : valid_size sz -> low_part sz D (u32 v) = low_part sz D v.
Proof.
  intros Hsz. unfold low_part. f_equal. by rewrite <- (land_Mask sz (u32 v)), land_Mask_u32.
Qed.

Lemma low_part_mod_r sz D v : valid_size sz -> low_part sz D (v mod Modulus sz) = low_part sz D v.
Proof.
  intros Hsz. unfold low_part. pose proof (is_sz_mod sz v Hsz) as H. unfold is_sz in H.
  by rewrite (Z.mod_small (v mod _)).
Qed.

(** The handlers, on a source operand [s] that leaves the state [c1]. *)
Lemma alu_run o dn mode r s c c1 :
  let sz := sizeEncoding (Z.land (Z.shiftr (ir c) 6) 3) in
  call (makeEARead mode r) sz c = Some (s, c1) ->
  valid_size sz -> WF c1 -> is_sz sz s -> 0 <= dn < 8 ->
  let d := dreg c1 dn mod Modulus sz in
  exists n sr,
    aluRun o dn mode r c =
    Some (tt, tick n (put_D dn (low_part sz (dreg c1 dn) (aluResult o sz s d)) (on_reg (with_SR sr) c1))) /\
    XNZVC sr = aluFlags o sz s d (tstb (rSR (reg c1)) flagX) /\
    Z.ldiff sr 0x1F = Z.ldiff (rSR (reg c1)) 0x1F.
Proof.
  intros sz E Hsz Hwf1 Hs Hdn d. pose proof (WF_sized c1 Hwf1) as Hs1.
  pose proof (is_sz_mod sz (dreg c1 dn) Hsz) as Hd. fold d in Hd.
  destruct (aluSet_run o s d sz c1) as (sr & Eset & Hfl & Hrest); [done..|].
  assert (forall v, storeD dn sz v (on_reg (with_SR sr) c1) =
    Some (tt, put_D dn (low_part sz (dreg c1 dn) v) (on_reg (with_SR sr) c1))) as Hst.
  { intros v. rewrite storeD_run; [done|done|done|done|exact (WF_dreg c1 dn Hwf1)]. }
  enough (exists n, aluRun o dn mode r c = Some (tt, tick n
    (put_D dn (low_part sz (dreg c1 dn) (aluResult o sz s d)) (on_reg (with_SR sr) c1)))) as [n Hn]
    by eauto.
  destruct o; unfold aluRun, makeADDtoReg, makeSUBtoReg, makeCMP, makeANDtoReg, makeORtoReg, logicToReg;
    cbv zeta; destruct (eaFetchConst mode r) as [b l];
    rewrite (bind_eval _ _ _ _ _ (irSize_run c)); fold sz; rewrite (bind_eval _ _ _ _ _ E);
    rewrite (bind_eval _ _ _ _ _ (loadD_run c1 dn sz Hs1 Hdn Hsz)); fold d;
    unfold aluSet in Eset; rewrite (bind_eval _ _ _ _ _ Eset);
    rewrite ?(bind_eval _ _ _ _ _ (Hst _)); unfold aluResult;
    rewrite ?low_part_mod_r, ?low_part_wrap by done;
    rewrite 1?Z.add_comm, 1?Z.land_comm, 1?Z.lor_comm.
  all: try apply chargeToReg_run.
  subst d. rewrite low_part_same by done.
  change (dreg c1 dn) with (dreg (on_reg (with_SR sr) c1) dn). rewrite put_D_same by done.
  apply chargeSize_run.
Qed.
End alu.

(** ** Multiplication and division *)

Section muldiv.
Context {B : Type} `{!Bus B}.
Implicit Types c : CPU B.

Lemma s16_signed v : is_sz sizeWord v -> s16 v = signed sizeWord v.
Proof.
  unfold is_sz, signed. change (Modulus sizeWord) with 0x10000. change (MSB sizeWord) with 0x8000.
  intros Hv. cmp_cases; wordlia.
Qed.

Lemma s32_signed v : is_u32 v -> s32 v = signed sizeLong v.
Proof.
  unfold signed. change (Modulus sizeLong) with 0x100000000. change (MSB sizeLong) with 0x80000000.
  intros Hv. cmp_cases; wordlia.
Qed.

Lemma signed_word_range v : is_sz sizeWord v -> -0x8000 <= signed sizeWord v < 0x8000.
Proof.
  unfold is_sz, signed. change (Modulus sizeWord) with 0x10000. change (MSB sizeWord) with 0x8000.
  intros Hv. cmp_cases; lia.
Qed.

Lemma word_mod x : is_sz sizeWord (x mod 0x10000).
Proof. apply (is_sz_mod sizeWord), size_word. Qed.

(** N and Z of a result, V and C cleared, X kept. *)
Definition logicalFlags (sz r : Z) (x : bool) : bool * bool * bool * bool * bool :=
  (x, signed sz r <? 0, r =? 0, false, false).

Lemma logical_run sz r c :
  valid_size sz -> is_sz sz r ->
  exists sr, setFlagsLogical r sz c = Some (tt, on_reg (with_SR sr) c) /\
    XNZVC sr = logicalFlags sz r (tstb (rSR (reg c)) flagX) /\
    Z.ldiff sr 0x1F = Z.ldiff (rSR (reg c)) 0x1F.
Proof.
  intros Hsz Hr. rewrite setFlagsLogical_spec by done. eexists. split; [reflexivity|].
  apply XNZVC_ccr.
Qed.

(** The product is written to the register and sets the flags. *)
Lemma mulu_run dn mode r s c c1 :
  call (makeEARead mode r) sizeWord c = Some (s, c1) -> is_sz sizeWord s -> sized c1 -> 0 <= dn < 8 ->
  let p := s * (dreg c1 dn mod 0x10000) in
  exists n sr, makeMULU dn mode r c = Some (tt, tick n (on_reg (with_SR sr) (put_D dn p c1))) /\
    XNZVC sr = logicalFlags sizeLong p (tstb (rSR (reg c1)) flagX) /\
    Z.ldiff sr 0x1F = Z.ldiff (rSR (reg c1)) 0x1F.
Proof.
  intros E Hs Hs1 Hdn p. unfold is_sz in Hs. change (Modulus sizeWord) with 0x10000 in Hs.
  assert (is_sz sizeLong p) as Hp.
  { pose proof (Z.mod_pos_bound (dreg c1 dn) 0x10000). unfold is_sz.
    change (Modulus sizeLong) with 0x100000000. subst p. nia. }
  destruct (logical_run sizeLong p (put_D dn p c1)) as (sr & Ef & Hf); [apply size_long|done|].
  unfold makeMULU. cbv zeta. destruct (eaFetchConst mode r) as [b l].
  rewrite (bind_eval _ _ _ _ _ E). exec. rewrite land_FFFF. fold p. rewrite (u32_small p Hp).
  rewrite (bind_eval _ _ _ _ _ Ef). exists (70 + b), sr. split; [reflexivity|done].
Qed.

Lemma muls_run dn mode r s c c1 :
  call (makeEARead mode r) sizeWord c = Some (s, c1) -> is_sz sizeWord s -> sized c1 -> 0 <= dn < 8 ->
  let p := signed sizeWord s * signed sizeWord (dreg c1 dn mod 0x10000) in
  exists n sr, makeMULS dn mode r c = Some (tt, tick n (on_reg (with_SR sr) (put_D dn (u32 p) c1))) /\
    signed sizeLong (u32 p) = p /\
    XNZVC sr = logicalFlags sizeLong (u32 p) (tstb (rSR (reg c1)) flagX) /\
    Z.ldiff sr 0x1F = Z.ldiff (rSR (reg c1)) 0x1F.
Proof.
  intros E Hs Hs1 Hdn p. pose proof (signed_word_range s Hs) as H1.
  pose proof (signed_word_range _ (word_mod (dreg c1 dn))) as H2.
  assert (-0x80000000 <= p < 0x80000000) as Hp by (subst p; nia).
  destruct (logical_run sizeLong (u32 p) (put_D dn (u32 p) c1)) as (sr & Ef & Hf);
    [apply size_long|apply u32_range|].
  unfold makeMULS. cbv zeta. destruct (eaFetchConst mode r) as [b l].
  rewrite (bind_eval _ _ _ _ _ E). exec. rewrite land_FFFF, !s16_signed by (done || apply word_mod).
  fold p. replace (s32 p) with p by wordlia. rewrite (bind_eval _ _ _ _ _ Ef).
  exists (70 + b), sr. split; [reflexivity|]. split; [|done].
  rewrite <- s32_signed by apply u32_range. wordlia.
Qed.

(** The remainder above the quotient, as words. *)
Lemma pack_words hi lo : 0 <= hi < 0x10000 -> 0 <= lo < 0x10000 ->
  Z.lor (u32 (Z.shiftl hi 16)) lo = hi * 0x10000 + lo.
Proof.
  intros Hh Hl. rewrite u32_small by (rewrite Z.shiftl_mul_pow2 by lia; change (2 ^ 16) with 0x10000; wordlia).
  apply (lor_shiftl_add 16); [lia|done].
Qed.

Lemma pack_low hi lo : (hi * 0x10000 + lo mod 0x10000) mod 0x10000 = lo mod 0x10000.
Proof. zlia. Qed.

Lemma pack_high hi lo : (hi * 0x10000 + lo mod 0x10000) / 0x10000 = hi.
Proof. zlia. Qed.

Lemma signed_wrap x : -0x8000 <= x < 0x8000 -> signed sizeWord (x mod 0x10000) = x.
Proof.
  intros Hx. unfold signed. change (Modulus sizeWord) with 0x10000. change (MSB sizeWord) with 0x8000.
  cmp_cases; zlia.
Qed.

Lemma wrap_zero x : -0x8000 <= x < 0x8000 -> (x mod 0x10000 =? 0) = (x =? 0).
Proof. intros Hx. cmp_cases; zlia. Qed.

(** The flags of an overflowing division: V and N set, Z and C clear. *)
Lemma overflow_flags sr :
  XNZVC (Z.ldiff (Z.lor sr (Z.lor flagV flagN)) (Z.lor flagC flagZ)) =
    (tstb sr flagX, true, false, true, false) /\
  Z.ldiff (Z.ldiff (Z.lor sr (Z.lor flagV flagN)) (Z.lor flagC flagZ)) 0x1F = Z.ldiff sr 0x1F.
Proof.
  split.
  - unfold XNZVC. change flagX with (2 ^ 4). change flagN with (2 ^ 3). change flagZ with (2 ^ 2).
    change flagV with (2 ^ 1). change flagC with (2 ^ 0). rewrite !tstb_pow2, !Z.ldiff_spec, !Z.lor_spec by lia.
    simpl. by rewrite !orb_false_r, !andb_true_r, !orb_true_r, !andb_false_r.
  - apply Z.bits_inj'. intros i Hi. rewrite !Z.ldiff_spec, Z.lor_spec.
    destruct (Z.testbit 0x1F i) eqn:E; [by rewrite !andb_false_r|].
    assert (Z.testbit (Z.lor flagV flagN) i = false) as -> by (by apply ccBits_high).
    assert (Z.testbit (Z.lor flagC flagZ) i = false) as -> by (by apply ccBits_high).
    by rewrite orb_false_r, !andb_true_r.
Qed.

Lemma divu_run dn mode r s c c1 :
  call (makeEARead mode r) sizeWord c = Some (s, c1) -> is_sz sizeWord s -> WF c1 -> 0 <= dn < 8 ->
  let D := dreg c1 dn in
  makeDIVU dn mode r c =
  if s =? 0 then exception vecDivideByZero c1
  else
    let '(eaBase, _) := eaFetchConst mode r in
    if 0xFFFF <? D / s then
      Some (tt, tick (140 + eaBase) (on_reg (with_SR
        (Z.ldiff (Z.lor (rSR (reg c1)) (Z.lor flagV flagN)) (Z.lor flagC flagZ))) c1))
    else
      bind (setFlagsLogical (D / s) sizeWord) (fun _ => AddCycles (140 + eaBase))
        (put_D dn (D mod s * 0x10000 + D / s) c1).
Proof.
  intros E Hs Hwf Hdn D. pose proof (WF_sized c1 Hwf) as Hs1. pose proof (WF_dreg c1 dn Hwf) as HD.
  fold D in HD. unfold is_sz in Hs. change (Modulus sizeWord) with 0x10000 in Hs. unfold is_u32 in HD.
  unfold makeDIVU. cbv zeta. destruct (eaFetchConst mode r) as [b l].
  rewrite (bind_eval _ _ _ _ _ E). destruct (Z.eqb_spec s 0) as [|Hne]; [done|]. exec. fold D.
  unfold goDiv, goMod. rewrite (proj2 (Z.eqb_neq s 0) Hne).
  rewrite Z.quot_div_nonneg, Z.rem_mod_nonneg by lia. exec.
  pose proof (Z.mod_pos_bound D s ltac:(lia)). assert (0 <= D / s) by (apply Z.div_pos; lia).
  destruct (Z.ltb_spec 0xFFFF (D / s)).
  - reflexivity.
  - rewrite !land_FFFF, (Z.mod_small (D mod s)), (Z.mod_small (D / s)), pack_words by lia. exec.
    apply bind_ext; [done|]. intros _ c' _. reflexivity.
Qed.

(** Only the low word counts for word flags. *)
Lemma logical_wrap v c :
  setFlagsLogical (v mod 0x10000) sizeWord c = setFlagsLogical v sizeWord c.
Proof.
  rewrite !setFlagsLogical_run, !tstb_MSB_bit, !(land_Mask sizeWord) by apply size_word.
  change (Modulus sizeWord) with 0x10000. change (Bits sizeWord - 1) with 15.
  rewrite Z.mod_mod by lia. change 0x10000 with (2 ^ 16) at 1.
  by rewrite Z.mod_pow2_bits_low by lia.
Qed.

Lemma divs_run dn mode r s c c1 :
  call (makeEARead mode r) sizeWord c = Some (s, c1) -> is_sz sizeWord s -> WF c1 -> 0 <= dn < 8 ->
  let D := signed sizeLong (dreg c1 dn) in
  let d := signed sizeWord s in
  makeDIVS dn mode r c =
  if s =? 0 then exception vecDivideByZero c1
  else
    let '(eaBase, _) := eaFetchConst mode r in
    if (32767 <? Z.quot D d) || (Z.quot D d <? -32768) then
      Some (tt, tick (158 + eaBase) (on_reg (with_SR
        (Z.ldiff (Z.lor (rSR (reg c1)) (Z.lor flagV flagN)) (Z.lor flagC flagZ))) c1))
    else
      bind (setFlagsLogical (Z.quot D d mod 0x10000) sizeWord) (fun _ => AddCycles (158 + eaBase))
        (put_D dn (Z.rem D d mod 0x10000 * 0x10000 + Z.quot D d mod 0x10000) c1).
Proof.
  intros E Hs Hwf Hdn D d. pose proof (WF_sized c1 Hwf) as Hs1. pose proof (WF_dreg c1 dn Hwf) as HD.
  assert (-0x80000000 <= D < 0x80000000) as HDr by (subst D; rewrite <- s32_signed by done; wordlia).
  pose proof (signed_word_range s Hs) as Hdr. fold d in Hdr.
  assert ((s =? 0) = (d =? 0)) as Hz.
  { subst d. unfold signed, is_sz in *. change (Modulus sizeWord) with 0x10000 in *.
    change (MSB sizeWord) with 0x8000. cmp_cases; lia. }
  unfold makeDIVS. cbv zeta. destruct (eaFetchConst mode r) as [b l].
  rewrite (bind_eval _ _ _ _ _ E). rewrite s16_signed, Hz by done. fold d.
  destruct (Z.eqb_spec d 0) as [|Hne]; [done|]. exec. rewrite s32_signed by done. fold D.
  unfold goDiv, goMod. rewrite (proj2 (Z.eqb_neq d 0) Hne). exec.
  pose proof (Z.rem_bound_abs D d Hne).
  assert (Z.abs (Z.quot D d) <= 0x80000000) as Hq.
  { rewrite <- Z.quot_abs, Z.quot_div_nonneg by lia. apply Z.div_le_upper_bound; nia. }
  assert ((32767 <? s32 (Z.quot D d)) || (s32 (Z.quot D d) <? -32768) =
          (32767 <? Z.quot D d) || (Z.quot D d <? -32768)) as ->.
  { set (q := Z.quot D d) in *. destruct (Z.eq_dec q 0x80000000) as [->|]; [done|].
    by replace (s32 q) with q by wordlia. }
  destruct ((32767 <? Z.quot D d) || (Z.quot D d <? -32768)) eqn:Hov; [reflexivity|].
  rewrite !land_FFFF.
  assert (u32 (s32 (Z.rem D d) mod 0x10000) = Z.rem D d mod 0x10000) as -> by wordlia.
  assert (u32 (s32 (Z.quot D d)) mod 0x10000 = Z.quot D d mod 0x10000) as Hq16 by wordlia.
  rewrite Hq16, pack_words by (apply Z.mod_pos_bound; lia). exec.
  apply bind_ext; [by rewrite <- (logical_wrap (u32 (s32 (Z.quot D d)))), Hq16|].
  intros _ c' _. reflexivity.
Qed.
End muldiv.

(** ** Multi-word addition and subtraction *)

Section multiword.
Context {B : Type} `{!Bus B}.
Implicit Types c : CPU B.

(** The data registers hold 32-bit values. *)
Definition dregs_ok c : Prop := sized c /\ forall i, is_u32 (dreg c i).

(** ADDX.L Dy,Dx and SUBX.L Dy,Dx, returning Dx. *)
Definition addxLong (rx ry : Z) : M (CPU B) Z :=
  modify (with_ir (0xD180 + rx * 0x200 + ry)) ;; opADDXreg ;; getD rx.
Definition subxLong (rx ry : Z) : M (CPU B) Z :=
  modify (with_ir (0x9180 + rx * 0x200 + ry)) ;; opSUBXreg ;; getD rx.

(** The fields of these words. *)
Lemma extended_fields base rx ry :
  base = 0xD180 \/ base = 0x9180 -> 0 <= rx < 8 -> 0 <= ry < 8 ->
  let w := base + rx * 0x200 + ry in
  Z.land (Z.shiftr w 9) 7 = rx /\ Z.land (Z.shiftr w 6) 3 = 2 /\ Z.land w 7 = ry.
Proof.
  intros [-> | ->] Hx Hy; cbv zeta; enum_upto rx 8%nat; enum_upto ry 8%nat; repeat split; reflexivity.
Qed.

(** Z is only ever cleared. *)
Lemma keepZ_run r sz sr0 c :
  valid_size sz -> is_sz sz r -> tstb (rSR (reg c)) flagZ = (r =? 0) ->
  exists sr, keepZ r sz (Z.land sr0 flagZ) c = Some (tt, on_reg (with_SR sr) c) /\
    tstb sr flagX = tstb (rSR (reg c)) flagX /\
    tstb sr flagZ = tstb sr0 flagZ && (r =? 0).
Proof.
  intros Hsz Hr HZ. unfold keepZ. rewrite land_Mask_small by done.
  destruct (r =? 0) eqn:E; unfold when.
  - eexists. split; [reflexivity|]. change flagX with (2 ^ 4). change flagZ with (2 ^ 2).
    rewrite !tstb_pow2, !Z.lor_spec, !Z.ldiff_spec, !Z.land_spec by lia. simpl.
    by rewrite !andb_false_r, !andb_true_r, orb_false_r.
  - exists (rSR (reg c)). split; [by destruct c as [[]]|]. by rewrite andb_false_r, HZ.
Qed.

(** What ADDX and SUBX do after the flags have been set. *)
Definition extendedTail (rx r sr0 : Z) : M (CPU B) Z :=
  (keepZ r sizeLong (Z.land sr0 flagZ) ;; storeD rx sizeLong r ;;
   AddCycles 4 ;; when (sizeLong =? sizeLong) (AddCycles 4)) ;; getD rx.

Lemma extended_tail rx r sr0 c :
  dregs_ok c -> 0 <= rx < 8 -> is_u32 r -> tstb (rSR (reg c)) flagZ = (r =? 0) ->
  exists c', extendedTail rx r sr0 c = Some (r, c') /\ dregs_ok c' /\
    (forall i, 0 <= i < 8 -> dreg c' i = if i =? rx then r else dreg c i) /\
    tstb (rSR (reg c')) flagX = tstb (rSR (reg c)) flagX /\
    tstb (rSR (reg c')) flagZ = tstb sr0 flagZ && (r =? 0).
Proof.
  intros [Hs HD] Hx Hr HZ.
  destruct (keepZ_run r sizeLong sr0 c) as (sr & Ek & HX & HZ'); [apply size_long|done|done|].
  unfold extendedTail. rewrite bind_assoc, (bind_eval _ _ _ _ _ Ek).
  set (c1 := on_reg (with_SR sr) c).
  assert (storeD rx sizeLong r c1 = Some (tt, put_D rx r c1)) as Est.
  { rewrite storeD_run by (done || apply size_long || apply HD). do 2 f_equal. f_equal.
    unfold low_part. change (Modulus sizeLong) with 0x100000000.
    pose proof (HD rx) as Hd. unfold is_u32 in *. change (dreg c1 rx) with (dreg c rx).
    rewrite !Z.mod_small by lia. lia. }
  rewrite bind_assoc, (bind_eval _ _ _ _ _ Est). simpl (sizeLong =? sizeLong). unfold when.
  assert (forall i, 0 <= i < 8 -> dreg (put_D rx r c1) i = if i =? rx then r else dreg c i) as Hput.
  { intros i Hi. rewrite dreg_put_D, Z.eqb_sym by done. done. }
  exec. rewrite getD_run by first [done | state_side].
  change (dreg (with_cycles ?x (with_cycles ?y ?z)) rx) with (dreg z rx).
  rewrite (Hput rx Hx), Z.eqb_refl. eexists. split; [reflexivity|].
  split; [split; [state_side|]|done]. intros i. unfold dreg. simpl.
  destruct (<[Z.to_nat rx:=r]> (rD (reg c)) !! Z.to_nat i) eqn:E; [|simpl; wordlia]. simpl.
  apply list_lookup_insert_Some in E as [(_ & -> & _)|[_ E]]; [done|].
  specialize (HD i). unfold dreg in HD. by rewrite E in HD.
Qed.

Lemma loadLong_run c r :
  dregs_ok c -> 0 <= r < 8 -> loadD r sizeLong c = Some (dreg c r, c).
Proof.
  intros [Hs HD] Hr. rewrite loadD_run by (done || apply size_long).
  by rewrite Z.mod_small by apply HD.
Qed.

Lemma addCCR_XZ sz sr s d x :
  tstb (Z.lor (Z.ldiff sr 0x1F) (addCCR sz s d x)) flagX = (Modulus sz <=? s + d + x) /\
  tstb (Z.lor (Z.ldiff sr 0x1F) (addCCR sz s d x)) flagZ = ((s + d + x) mod Modulus sz =? 0).
Proof.
  unfold addCCR. cbv zeta. match goal with |- context [ccr ?x ?n ?z ?v ?c] =>
    destruct (flag_reads sr x n z v c) as (-> & _ & -> & _) end. done.
Qed.

Lemma subCCR_XZ sz sr s d x :
  tstb (Z.lor (Z.ldiff sr 0x1F) (subCCR sz s d x)) flagX = (d <? s + x) /\
  tstb (Z.lor (Z.ldiff sr 0x1F) (subCCR sz s d x)) flagZ = ((d - s - x) mod Modulus sz =? 0).
Proof.
  unfold subCCR. cbv zeta. match goal with |- context [ccr ?x ?n ?z ?v ?c] =>
    destruct (flag_reads sr x n z v c) as (-> & _ & -> & _) end. done.
Qed.

Lemma addx_step rx ry c :
  dregs_ok c -> 0 <= rx < 8 -> 0 <= ry < 8 ->
  let t := dreg c rx + dreg c ry + Z.b2z (tstb (rSR (reg c)) flagX) in
  exists r c', addxLong rx ry c = Some (r, c') /\ dregs_ok c' /\ r = t mod 2 ^ 32 /\
    (forall i, 0 <= i < 8 -> dreg c' i = if i =? rx then r else dreg c i) /\
    tstb (rSR (reg c')) flagX = (2 ^ 32 <=? t) /\
    tstb (rSR (reg c')) flagZ = tstb (rSR (reg c)) flagZ && (r =? 0).
Proof.
  intros Hok Hx Hy t. destruct (extended_fields 0xD180 rx ry) as (Fx & Fs & Fy); [by left|done|done|].
  set (c0 := with_ir (0xD180 + rx * 0x200 + ry) c). assert (dregs_ok c0) as Hok0 by done.
  set (x := Z.b2z (tstb (rSR (reg c)) flagX)) in *.
  assert (0 <= x <= 1) as Hx01 by (subst x; by destruct (tstb _ _)).
  pose proof (setFlagsAdd_spec sizeLong (dreg c ry) (dreg c rx) x c0 size_long
    (proj2 Hok ry) (proj2 Hok rx) Hx01) as Ef.
  destruct (addCCR_XZ sizeLong (rSR (reg c)) (dreg c ry) (dreg c rx) x) as [FX FZ].
  replace (dreg c ry + dreg c rx + x) with t in * by (subst t; lia).
  change (Modulus sizeLong) with (2 ^ 32) in *. set (c1 := on_reg _ _) in Ef.
  destruct (extended_tail rx (u32 t) (rSR (reg c)) c1) as (c' & Et & Hok' & Hregs & HX & HZ);
    [done|done|apply u32_range|exact FZ|].
  exists (u32 t), c'. split; [|split; [done|]; split; [done|]; split; [done|]; split; [by rewrite HX|done]].
  unfold addxLong. exec1. unfold opADDXreg. fold c0. exec. change (ir c0) with (0xD180 + rx * 0x200 + ry).
  rewrite Fx, Fy. rewrite (bind_eval _ _ _ _ _ (irSize_run c0)).
  change (ir c0) with (0xD180 + rx * 0x200 + ry). rewrite Fs. change (sizeEncoding 2) with sizeLong.
  rewrite bind_assoc, (bind_eval _ _ _ _ _ (loadLong_run c0 ry Hok0 Hy)).
  rewrite bind_assoc, (bind_eval _ _ _ _ _ (loadLong_run c0 rx Hok0 Hx)).
  rewrite bind_assoc, (bind_eval _ _ _ _ _ (extendBit_run c0)). exec.
  change (dreg c0) with (dreg c). change (rSR (reg c0)) with (rSR (reg c)). fold x.
  replace (u32 (u32 (dreg c rx + dreg c ry) + x)) with (u32 t) by (subst t; wordlia).
  rewrite (bind_eval _ _ _ _ _ Ef). exact Et.
Qed.

Lemma subx_step rx ry c :
  dregs_ok c -> 0 <= rx < 8 -> 0 <= ry < 8 ->
  let t := dreg c rx - dreg c ry - Z.b2z (tstb (rSR (reg c)) flagX) in
  exists r c', subxLong rx ry c = Some (r, c') /\ dregs_ok c' /\ r = t mod 2 ^ 32 /\
    (forall i, 0 <= i < 8 -> dreg c' i = if i =? rx then r else dreg c i) /\
    tstb (rSR (reg c')) flagX = (t <? 0) /\
    tstb (rSR (reg c')) flagZ = tstb (rSR (reg c)) flagZ && (r =? 0).
Proof.
  intros Hok Hx Hy t. destruct (extended_fields 0x9180 rx ry) as (Fx & Fs & Fy); [by right|done|done|].
  set (c0 := with_ir (0x9180 + rx * 0x200 + ry) c). assert (dregs_ok c0) as Hok0 by done.
  set (x := Z.b2z (tstb (rSR (reg c)) flagX)) in *.
  assert (0 <= x <= 1) as Hx01 by (subst x; by destruct (tstb _ _)).
  pose proof (setFlagsSub_spec sizeLong (dreg c ry) (dreg c rx) x c0 size_long
    (proj2 Hok ry) (proj2 Hok rx) Hx01) as Ef.
  destruct (subCCR_XZ sizeLong (rSR (reg c)) (dreg c ry) (dreg c rx) x) as [FX FZ].
  fold t in Ef, FZ.
  change (Modulus sizeLong) with (2 ^ 32) in *. set (c1 := on_reg _ _) in Ef.
  destruct (extended_tail rx (u32 t) (rSR (reg c)) c1) as (c' & Et & Hok' & Hregs & HX & HZ);
    [done|done|apply u32_range|exact FZ|].
  exists (u32 t), c'. split; [|split; [done|]; split; [done|]; split; [done|]; split; [rewrite HX; etrans; [exact FX|]; subst t; cmp_cases; lia || done|done]].
  unfold subxLong. exec1. unfold opSUBXreg. fold c0. exec. change (ir c0) with (0x9180 + rx * 0x200 + ry).
  rewrite Fx, Fy. rewrite (bind_eval _ _ _ _ _ (irSize_run c0)).
  change (ir c0) with (0x9180 + rx * 0x200 + ry). rewrite Fs. change (sizeEncoding 2) with sizeLong.
  rewrite bind_assoc, (bind_eval _ _ _ _ _ (loadLong_run c0 ry Hok0 Hy)).
  rewrite bind_assoc, (bind_eval _ _ _ _ _ (loadLong_run c0 rx Hok0 Hx)).
  rewrite bind_assoc, (bind_eval _ _ _ _ _ (extendBit_run c0)). exec.
  change (dreg c0) with (dreg c). change (rSR (reg c0)) with (rSR (reg c)). fold x.
  replace (u32 (u32 (dreg c rx - dreg c ry) - x)) with (u32 t) by (subst t; wordlia).
  rewrite (bind_eval _ _ _ _ _ Ef). exact Et.
Qed.

(** Registers of a list of pairs (destination, source). *)
Definition pair_ok (p : Z * Z) : Prop := 0 <= fst p < 8 /\ 0 <= snd p < 8.

(** The destinations are distinct registers, none of them a source. *)
Definition pairs_ok (ps : list (Z * Z)) : Prop :=
  Forall pair_ok ps /\ NoDup ps.*1 /\ forall r, r ∈ ps.*1 -> r ∉ ps.*2.

Lemma pairs_ok_cons p ps :
  pairs_ok (p :: ps) ->
  pair_ok p /\ pairs_ok ps /\ (fst p ∉ ps.*1) /\ (fst p ∉ ps.*2).
Proof.
  intros (Hall & Hnd & Hsep). apply Forall_cons in Hall as [Hp Hall].
  rewrite fmap_cons in Hnd. apply NoDup_cons in Hnd as [Hin Hnd].
  setoid_rewrite fmap_cons in Hsep. setoid_rewrite elem_of_cons in Hsep.
  unfold pairs_ok. naive_solver.
Qed.

(** One step of a chain writes its destination only. *)
Lemma dreg_others (f g : Z -> Z) r v l :
  (forall i, 0 <= i < 8 -> g i = if i =? r then v else f i) ->
  Forall (fun i => 0 <= i < 8) l -> r ∉ l -> g <$> l = f <$> l.
Proof.
  intros Hg Hl Hr. apply list_fmap_ext. intros k i Hi.
  pose proof (Forall_lookup_1 _ _ _ _ Hl Hi) as Hi8. simpl in Hi8. rewrite Hg by done.
  destruct (Z.eqb_spec i r) as [->|]; [|done]. destruct Hr. by eapply list_elem_of_lookup_2.
Qed.

Lemma pair_ok_fst ps : Forall pair_ok ps -> Forall (fun i => 0 <= i < 8) ps.*1.
Proof. intros H. apply Forall_fmap. eapply Forall_impl; [done|]. by intros p []. Qed.

Lemma pair_ok_snd ps : Forall pair_ok ps -> Forall (fun i => 0 <= i < 8) ps.*2.
Proof. intros H. apply Forall_fmap. eapply Forall_impl; [done|]. by intros p []. Qed.

(** A sequence of extended operations: [step_ok] is what one of them does to
    [t], the operand sum or difference, with the carry or borrow in X. *)
Section chains.
Context (f : Z -> Z -> M (CPU B) Z) (sign : Z).
Hypothesis sign_ok : sign = 1 \/ sign = -1.
Hypothesis step_ok : forall rx ry c, dregs_ok c -> 0 <= rx < 8 -> 0 <= ry < 8 ->
  let t := dreg c rx + sign * dreg c ry + sign * Z.b2z (tstb (rSR (reg c)) flagX) in
  exists r c', f rx ry c = Some (r, c') /\ dregs_ok c' /\
    r + sign * 2 ^ 32 * Z.b2z (tstb (rSR (reg c')) flagX) = t /\
    (forall i, 0 <= i < 8 -> dreg c' i = if i =? rx then r else dreg c i) /\
    tstb (rSR (reg c')) flagZ = tstb (rSR (reg c)) flagZ && (r =? 0).

Lemma chain_ok ps c :
  dregs_ok c -> pairs_ok ps ->
  exists rs c', chain f ps c = Some (rs, c') /\ dregs_ok c' /\
    num (2 ^ 32) rs + sign * (2 ^ 32) ^ Z.of_nat (length ps) * Z.b2z (tstb (rSR (reg c')) flagX) =
      num (2 ^ 32) (dreg c <$> ps.*1) + sign * num (2 ^ 32) (dreg c <$> ps.*2) +
      sign * Z.b2z (tstb (rSR (reg c)) flagX) /\
    tstb (rSR (reg c')) flagZ = tstb (rSR (reg c)) flagZ && forallb (fun r => r =? 0) rs /\
    (dreg c' <$> ps.*1) = rs /\
    (forall i, 0 <= i < 8 -> i ∉ ps.*1 -> dreg c' i = dreg c i).
Proof.
  revert c. induction ps as [|[rx ry] ps IH]; intros c Hok Hps.
  - exists [], c. split; [done|]. split; [done|]. split; [simpl; lia|]. by rewrite andb_true_r.
  - apply pairs_ok_cons in Hps as ([Hx Hy] & Hps & Hn1 & Hn2). simpl in Hx, Hy, Hn1, Hn2.
    destruct (step_ok rx ry c Hok Hx Hy) as (r & c1 & E1 & Hok1 & Ht & Hregs & HZ).
    destruct (IH c1 Hok1 Hps) as (rs & c' & E & Hok' & Hnum & HZ' & Hrs & Hkeep).
    rewrite (dreg_others (dreg c) (dreg c1) rx r) in Hnum
      by (done || by apply pair_ok_fst, Hps).
    rewrite (dreg_others (dreg c) (dreg c1) rx r) in Hnum
      by (done || by apply pair_ok_snd, Hps).
    exists (r :: rs), c'. split; [by eapply chain_cons|]. split; [done|].
    rewrite !fmap_cons. cbn [num fst snd forallb]. split.
    + rewrite length_cons, Nat2Z.inj_succ, Z.pow_succ_r by lia. nia.
    + split; [by rewrite HZ', HZ, <- andb_assoc|]. split.
      * rewrite Hrs, (Hkeep rx Hx Hn1), (Hregs rx Hx), Z.eqb_refl. done.
      * intros i Hi Hin. rewrite elem_of_cons in Hin. rewrite Hkeep, Hregs by (done || naive_solver).
        destruct (Z.eqb_spec i rx); [naive_solver|done].
Qed.
End chains.

Lemma addx_step_ok rx ry c :
  dregs_ok c -> 0 <= rx < 8 -> 0 <= ry < 8 ->
  let t := dreg c rx + 1 * dreg c ry + 1 * Z.b2z (tstb (rSR (reg c)) flagX) in
  exists r c', addxLong rx ry c = Some (r, c') /\ dregs_ok c' /\
    r + 1 * 2 ^ 32 * Z.b2z (tstb (rSR (reg c')) flagX) = t /\
    (forall i, 0 <= i < 8 -> dreg c' i = if i =? rx then r else dreg c i) /\
    tstb (rSR (reg c')) flagZ = tstb (rSR (reg c)) flagZ && (r =? 0).
Proof.
  intros Hok Hx Hy t. destruct (addx_step rx ry c Hok Hx Hy) as (r & c' & E & Hok' & Hr & Hregs & HX & HZ).
  exists r, c'. split; [done|]. split; [done|]. split; [|done].
  pose proof (proj2 Hok rx). pose proof (proj2 Hok ry). unfold is_u32 in *. subst t.
  rewrite !Z.mul_1_l in *. rewrite HX, Hr. change (2 ^ 32) with 0x100000000.
  set (x := Z.b2z _). assert (0 <= x <= 1) by (subst x; by destruct (tstb _ _)).
  destruct (Z.leb_spec 0x100000000 (dreg c rx + dreg c ry + x)); simpl (Z.b2z _); zlia.
Qed.

Lemma subx_step_ok rx ry c :
  dregs_ok c -> 0 <= rx < 8 -> 0 <= ry < 8 ->
  let t := dreg c rx + -1 * dreg c ry + -1 * Z.b2z (tstb (rSR (reg c)) flagX) in
  exists r c', subxLong rx ry c = Some (r, c') /\ dregs_ok c' /\
    r + -1 * 2 ^ 32 * Z.b2z (tstb (rSR (reg c')) flagX) = t /\
    (forall i, 0 <= i < 8 -> dreg c' i = if i =? rx then r else dreg c i) /\
    tstb (rSR (reg c')) flagZ = tstb (rSR (reg c)) flagZ && (r =? 0).
Proof.
  intros Hok Hx Hy t. destruct (subx_step rx ry c Hok Hx Hy) as (r & c' & E & Hok' & Hr & Hregs & HX & HZ).
  exists r, c'. split; [done|]. split; [done|]. split; [|done].
  pose proof (proj2 Hok rx). pose proof (proj2 Hok ry). unfold is_u32 in *. subst t.
  rewrite HX, Hr. change (2 ^ 32) with 0x100000000.
  set (x := Z.b2z (tstb (rSR (reg c)) flagX)). assert (0 <= x <= 1) by (subst x; by destruct (tstb _ _)).
  destruct (Z.ltb_spec (dreg c rx - dreg c ry - x) 0); simpl (Z.b2z _); zlia.
Qed.

Lemma WF_dregs_ok c : WF c -> dregs_ok c.
Proof. intros Hwf. split; [by apply WF_sized|]. intros i. by apply WF_dreg. Qed.
End multiword.

(** ** Properties *)

Section properties.
Context {B : Type} `{!Bus B, !BusTyped B}.
Implicit Types c : CPU B.

(** C12: ADD, SUB, CMP, AND and OR to a data register.  For every size, every
    source addressing mode and every memory behind the bus, the instruction
    fetches an operand of its size and leaves in the low part of Dn the sum,
    difference or logical combination modulo the size, sets the condition codes
    to those of the operation (carry and overflow as statements about the
    unsigned and signed integers), and keeps the upper part of Dn, the other
    registers, PC and memory as the operand fetch left them. *)
Theorem alu_correct o dn mode r c :
  let sz := sizeEncoding (Z.land (Z.shiftr (ir c) 6) 3) in
  WF c -> 0 <= dn < 8 -> 0 <= mode < 8 -> 0 <= r < 8 -> ea_any mode r = true -> valid_size sz ->
  exists s c1 c2, call (makeEARead mode r) sz c = Some (s, c1) /\ is_sz sz s /\
    aluRun o dn mode r c = Some (tt, c2) /\
    let d := dreg c1 dn mod Modulus sz in
    dreg c2 dn mod Modulus sz = aluResult o sz s d mod Modulus sz /\
    dreg c2 dn - dreg c2 dn mod Modulus sz = dreg c1 dn - d /\
    (forall i, 0 <= i < 8 -> i <> dn -> dreg c2 i = dreg c1 i) /\
    XNZVC (rSR (reg c2)) = aluFlags o sz s d (tstb (rSR (reg c1)) flagX) /\
    Z.ldiff (rSR (reg c2)) 0x1F = Z.ldiff (rSR (reg c1)) 0x1F /\
    rA (reg c2) = rA (reg c1) /\ rPC (reg c2) = rPC (reg c1) /\ bus c2 = bus c1.
Proof.
  intros sz Hwf Hdn Hm Hr Hea Hsz.
  destruct (operand mode r sz c) as (s & c1 & E & Hwf1 & Hs & _); [done..|].
  destruct (alu_run o dn mode r s c c1 E Hsz Hwf1 Hs Hdn) as (n & sr & Erun & Hfl & Hrest).
  fold sz in Erun, Hfl. eexists s, c1, _. split; [done|]. split; [done|]. split; [exact Erun|]. cbv zeta.
  pose proof (WF_sized c1 Hwf1) as Hs1.
  set (v := aluResult o sz s (dreg c1 dn mod Modulus sz)) in *.
  change (dreg (tick ?n ?x)) with (dreg x).
  rewrite dreg_put_D, Z.eqb_refl, low_part_mod by done.
  split; [done|]. split; [unfold low_part; ring|]. split; [|done].
  intros i Hi Hne. change (dreg (tick ?n ?x)) with (dreg x). rewrite dreg_put_D by done.
  destruct (Z.eqb_spec dn i); [by subst|done].
Qed.

(** C18: multiplication.  MULU leaves the 32-bit product of the unsigned words
    in Dn, MULS that of the signed words; N and Z are the product's, V and C
    are clear and X is kept. *)
Theorem mul_correct dn mode r c :
  WF c -> 0 <= dn < 8 -> 0 <= mode < 8 -> 0 <= r < 8 -> ea_any mode r = true ->
  exists s c1 c2 c3, call (makeEARead mode r) sizeWord c = Some (s, c1) /\
    makeMULU dn mode r c = Some (tt, c2) /\ makeMULS dn mode r c = Some (tt, c3) /\
    let d := dreg c1 dn mod 0x10000 in
    let x := tstb (rSR (reg c1)) flagX in
    dreg c2 dn = s * d /\ XNZVC (rSR (reg c2)) = logicalFlags sizeLong (dreg c2 dn) x /\
    signed sizeLong (dreg c3 dn) = signed sizeWord s * signed sizeWord d /\
    XNZVC (rSR (reg c3)) = logicalFlags sizeLong (dreg c3 dn) x.
Proof.
  intros Hwf Hdn Hm Hr Hea.
  destruct (operand mode r sizeWord c) as (s & c1 & E & Hwf1 & Hs & _); [done..|apply size_word|].
  pose proof (WF_sized c1 Hwf1) as Hs1.
  destruct (mulu_run dn mode r s c c1) as (n & sr & Eu & Fu & _); [done..|].
  destruct (muls_run dn mode r s c c1) as (n' & sr' & Es & Hp & Fs & _); [done..|].
  eexists s, c1, _, _. split; [done|]. split; [exact Eu|]. split; [exact Es|]. cbv zeta.
  change (dreg (tick ?n (on_reg (with_SR ?y) ?x))) with (dreg x).
  rewrite !dreg_put_D, Z.eqb_refl by done. done.
Qed.

(** C17: unsigned division.  A zero divisor raises the divide-by-zero
    exception; when the quotient of the 32-bit Dn does not fit a word, V is set
    and Dn is unchanged; otherwise Dn holds the remainder above the quotient. *)
Theorem divu_correct dn mode r c :
  WF c -> 0 <= dn < 8 -> 0 <= mode < 8 -> 0 <= r < 8 -> ea_any mode r = true ->
  exists s c1, call (makeEARead mode r) sizeWord c = Some (s, c1) /\
    let D := dreg c1 dn in
    let x := tstb (rSR (reg c1)) flagX in
    if s =? 0 then makeDIVU dn mode r c = exception vecDivideByZero c1
    else exists c2, makeDIVU dn mode r c = Some (tt, c2) /\
      if D / s <? 0x10000 then
        dreg c2 dn mod 0x10000 = D / s /\ dreg c2 dn / 0x10000 = D mod s /\
        XNZVC (rSR (reg c2)) = logicalFlags sizeWord (D / s) x
      else rD (reg c2) = rD (reg c1) /\ XNZVC (rSR (reg c2)) = (x, true, false, true, false).
Proof.
  intros Hwf Hdn Hm Hr Hea.
  destruct (operand mode r sizeWord c) as (s & c1 & E & Hwf1 & Hs & _); [done..|apply size_word|].
  exists s, c1. split; [done|]. cbv zeta. pose proof (WF_sized c1 Hwf1) as Hs1.
  rewrite (divu_run dn mode r s c c1) by done. destruct (Z.eqb_spec s 0) as [|Hne]; [done|].
  pose proof (WF_dreg c1 dn Hwf1) as HD. unfold is_sz in Hs. change (Modulus sizeWord) with 0x10000 in Hs.
  unfold is_u32 in HD. destruct (eaFetchConst mode r) as [b l].
  assert (0 <= dreg c1 dn / s) by (apply Z.div_pos; lia).
  pose proof (Z.mod_pos_bound (dreg c1 dn) s ltac:(lia)).
  destruct (Z.ltb_spec 0xFFFF (dreg c1 dn / s)), (Z.ltb_spec (dreg c1 dn / s) 0x10000); try lia.
  - eexists. split; [reflexivity|]. split; [done|]. apply overflow_flags.
  - destruct (logical_run sizeWord (dreg c1 dn / s)
      (put_D dn (dreg c1 dn mod s * 0x10000 + dreg c1 dn / s) c1)) as (sr & Ef & Hf & _);
      [apply size_word|by unfold is_sz|].
    rewrite (bind_eval _ _ _ _ _ Ef). eexists. split; [reflexivity|].
    change (dreg (with_cycles ?n (on_reg (with_SR ?y) ?x))) with (dreg x).
    rewrite dreg_put_D, Z.eqb_refl by done. split; [zlia|]. split; [zlia|]. exact Hf.
Qed.

(** C16: signed division.  Likewise with two's-complement operands: the
    quotient is truncated towards zero, the remainder has the sign of the
    dividend, and a quotient outside the signed word range (the most negative
    dividend divided by -1 included) sets V and leaves Dn unchanged. *)
Theorem divs_correct dn mode r c :
  WF c -> 0 <= dn < 8 -> 0 <= mode < 8 -> 0 <= r < 8 -> ea_any mode r = true ->
  exists s c1, call (makeEARead mode r) sizeWord c = Some (s, c1) /\
    let D := signed sizeLong (dreg c1 dn) in
    let d := signed sizeWord s in
    let x := tstb (rSR (reg c1)) flagX in
    if s =? 0 then makeDIVS dn mode r c = exception vecDivideByZero c1
    else exists c2, makeDIVS dn mode r c = Some (tt, c2) /\
      if in_signed sizeWord (Z.quot D d) then
        signed sizeWord (dreg c2 dn mod 0x10000) = Z.quot D d /\
        signed sizeWord (dreg c2 dn / 0x10000) = Z.rem D d /\
        XNZVC (rSR (reg c2)) = (x, Z.quot D d <? 0, Z.quot D d =? 0, false, false)
      else rD (reg c2) = rD (reg c1) /\ XNZVC (rSR (reg c2)) = (x, true, false, true, false).
Proof.
  intros Hwf Hdn Hm Hr Hea.
  destruct (operand mode r sizeWord c) as (s & c1 & E & Hwf1 & Hs & _); [done..|apply size_word|].
  exists s, c1. split; [done|]. cbv zeta. pose proof (WF_sized c1 Hwf1) as Hs1.
  rewrite (divs_run dn mode r s c c1) by done. destruct (Z.eqb_spec s 0) as [|Hne]; [done|].
  set (D := signed sizeLong (dreg c1 dn)). set (d := signed sizeWord s).
  assert (d <> 0 /\ -0x8000 <= d < 0x8000) as [Hd0 Hd].
  { subst d. split; [|by apply signed_word_range]. unfold signed, is_sz in *.
    change (Modulus sizeWord) with 0x10000 in *. change (MSB sizeWord) with 0x8000. case_if; lia. }
  pose proof (Z.rem_bound_abs D d Hd0) as Hrem. destruct (eaFetchConst mode r) as [b l].
  unfold in_signed. change (- MSB sizeWord) with (-0x8000). change (MSB sizeWord) with 0x8000.
  destruct ((32767 <? Z.quot D d) || (Z.quot D d <? -32768)) eqn:Hov.
  - assert ((-0x8000 <=? Z.quot D d) && (Z.quot D d <? 0x8000) = false) as -> by lia.
    eexists. split; [reflexivity|]. split; [done|]. apply overflow_flags.
  - assert ((-0x8000 <=? Z.quot D d) && (Z.quot D d <? 0x8000) = true) as -> by lia.
    destruct (logical_run sizeWord (Z.quot D d mod 0x10000)
      (put_D dn (Z.rem D d mod 0x10000 * 0x10000 + Z.quot D d mod 0x10000) c1)) as (sr & Ef & Hf & _);
      [apply size_word|apply word_mod|].
    rewrite (bind_eval _ _ _ _ _ Ef). eexists. split; [reflexivity|].
    change (dreg (with_cycles ?n (on_reg (with_SR ?y) ?x))) with (dreg x).
    rewrite dreg_put_D, Z.eqb_refl by done. rewrite pack_low, pack_high, !signed_wrap by lia.
    split; [done|]. split; [done|]. etrans; [exact Hf|]. unfold logicalFlags.
    by rewrite signed_wrap, wrap_zero by lia.
Qed.

(** C19: ADDX adds numbers of any length.  A sequence of ADDX.L instructions
    over register pairs, least significant first, adds the two multi-word
    numbers with the incoming extend bit; X ends as the carry out, Z ends set
    only if it was set and every word is zero, the destinations hold the words
    of the sum and no other data register changes.  The destinations are
    distinct registers, and none of them is also a source. *)
Theorem addx_chain ps c :
  WF c -> pairs_ok ps ->
  exists rs c', chain addxLong ps c = Some (rs, c') /\
    num (2 ^ 32) rs + (2 ^ 32) ^ Z.of_nat (length ps) * Z.b2z (tstb (rSR (reg c')) flagX) =
      num (2 ^ 32) (dreg c <$> ps.*1) + num (2 ^ 32) (dreg c <$> ps.*2) +
      Z.b2z (tstb (rSR (reg c)) flagX) /\
    tstb (rSR (reg c')) flagZ = tstb (rSR (reg c)) flagZ && forallb (fun r => r =? 0) rs /\
    (dreg c' <$> ps.*1) = rs /\
    (forall i, 0 <= i < 8 -> i ∉ ps.*1 -> dreg c' i = dreg c i).
Proof.
  intros Hwf Hps. destruct (chain_ok addxLong 1 (or_introl eq_refl) addx_step_ok ps c) as (rs & c' & E & _ & Hn & H);
    [by apply WF_dregs_ok|done|]. exists rs, c'. split; [done|]. split; [lia|done].
Qed.

(** C20: SUBX subtracts numbers of any length.  Likewise for a sequence of
    SUBX.L instructions over such register pairs, with X as the borrow. *)
Theorem subx_chain ps c :
  WF c -> pairs_ok ps ->
  exists rs c', chain subxLong ps c = Some (rs, c') /\
    num (2 ^ 32) rs - (2 ^ 32) ^ Z.of_nat (length ps) * Z.b2z (tstb (rSR (reg c')) flagX) =
      num (2 ^ 32) (dreg c <$> ps.*1) - num (2 ^ 32) (dreg c <$> ps.*2) -
      Z.b2z (tstb (rSR (reg c)) flagX) /\
    tstb (rSR (reg c')) flagZ = tstb (rSR (reg c)) flagZ && forallb (fun r => r =? 0) rs /\
    (dreg c' <$> ps.*1) = rs /\
    (forall i, 0 <= i < 8 -> i ∉ ps.*1 -> dreg c' i = dreg c i).
Proof.
  intros Hwf Hps. destruct (chain_ok subxLong (-1) (or_intror eq_refl) subx_step_ok ps c) as (rs & c' & E & _ & Hn & H);
    [by apply WF_dregs_ok|done|]. exists rs, c'. split; [done|]. split; [lia|done].
Qed.
End properties.

(** D0 = 0xFFFFFFFF, D1 = 1, D2 = 7; the latched word is ADD.L D1,D0. *)
Definition arith_start : CPU Ram :=
  with_ir 0xD081 (put_D 0 0xFFFFFFFF (put_D 1 1 (put_D 2 7 (cpuAt 0x1000 0x2700 0 0x8000 ram0)))).

Lemma arith_start_WF : WF arith_start.
Proof.
  destruct (cpuAt_WF 0x1000 0x2700 0 0x8000 ram0); try wordlia.
  constructor; try done; simpl; try wordlia; repeat constructor; wordlia.
Qed.

Lemma alu_correct_witness :
  exists s c1 c2, call (makeEARead 0 1) sizeLong arith_start = Some (s, c1) /\
    aluRun AluADD 0 0 1 arith_start = Some (tt, c2) /\
    XNZVC (rSR (reg c2)) =
      aluFlags AluADD sizeLong s (dreg c1 0 mod Modulus sizeLong) (tstb (rSR (reg c1)) flagX).
Proof.
  destruct (alu_correct AluADD 0 0 1 arith_start) as (s & c1 & c2 & E & _ & E2 & _ & _ & _ & Hf & _);
    [apply arith_start_WF|lia|lia|lia|reflexivity|by right; right|].
  exists s, c1, c2. split; [exact E|]. split; [exact E2|exact Hf].
Defined.

Lemma mul_correct_witness :
  exists s c1 c2 c3, call (makeEARead 0 2) sizeWord arith_start = Some (s, c1) /\
    makeMULU 0 0 2 arith_start = Some (tt, c2) /\ makeMULS 0 0 2 arith_start = Some (tt, c3) /\
    dreg c2 0 = s * (dreg c1 0 mod 0x10000).
Proof.
  destruct (mul_correct 0 0 2 arith_start) as (s & c1 & c2 & c3 & E & E2 & E3 & H & _);
    [apply arith_start_WF|lia|lia|lia|reflexivity|].
  exists s, c1, c2, c3. split; [exact E|]. split; [exact E2|]. split; [exact E3|exact H].
Defined.

(** 0xFFFFFFFF / 7 does not fit a word. *)
Lemma divu_correct_witness :
  exists c2, makeDIVU 0 0 2 arith_start = Some (tt, c2) /\ rD (reg c2) = rD (reg arith_start) /\
    XNZVC (rSR (reg c2)) = (false, true, false, true, false).
Proof.
  destruct (divu_correct 0 0 2 arith_start) as (s & c1 & E & H);
    [apply arith_start_WF|lia|lia|lia|reflexivity|].
  assert (Some (s, c1) = Some (7, arith_start)) as E' by (rewrite <- E; reflexivity).
  injection E' as -> ->. exact H.
Defined.

(** -1 / 7 is 0 with remainder -1. *)
Lemma divs_correct_witness :
  exists c2, makeDIVS 0 0 2 arith_start = Some (tt, c2) /\
    signed sizeWord (dreg c2 0 mod 0x10000) = 0 /\ signed sizeWord (dreg c2 0 / 0x10000) = -1 /\
    XNZVC (rSR (reg c2)) = (false, false, true, false, false).
Proof.
  destruct (divs_correct 0 0 2 arith_start) as (s & c1 & E & H);
    [apply arith_start_WF|lia|lia|lia|reflexivity|].
  assert (Some (s, c1) = Some (7, arith_start)) as E' by (rewrite <- E; reflexivity).
  injection E' as -> ->. exact H.
Defined.

(** (D0, D2) + (D1, D3): a carry out of the low word. *)
Lemma addx_chain_witness :
  exists rs c', chain addxLong [(0, 1); (2, 3)] arith_start = Some (rs, c') /\
    num (2 ^ 32) rs + (2 ^ 32) ^ 2 * Z.b2z (tstb (rSR (reg c')) flagX) = 8 * 2 ^ 32.
Proof.
  destruct (addx_chain [(0, 1); (2, 3)] arith_start) as (rs & c' & E & H & _);
    [apply arith_start_WF| |].
  - split; [by repeat constructor|]. split; [by apply (bool_decide_unpack _)|].
    intros r Hr. set_solver.
  - exists rs, c'. split; [exact E|exact H].
Defined.

Lemma subx_chain_witness :
  exists rs c', chain subxLong [(3, 1); (2, 0)] arith_start = Some (rs, c') /\
    num (2 ^ 32) rs - (2 ^ 32) ^ 2 * Z.b2z (tstb (rSR (reg c')) flagX) = 7 * 2 ^ 32 - (2 ^ 64 - 2 ^ 32) - 1.
Proof.
  destruct (subx_chain [(3, 1); (2, 0)] arith_start) as (rs & c' & E & H & _);
    [apply arith_start_WF| |].
  - split; [by repeat constructor|]. split; [by apply (bool_decide_unpack _)|].
    intros r Hr. set_solver.
  - exists rs, c'. split; [exact E|exact H].
Defined.
