(* ===== verification/Clock.v ===== *)
(** * The clock: what a step costs, and running in time slices

    From the outcome of every instruction (Outcome.v): a step that does not
    halt the processor takes between 4 and 214 cycles and reports exactly the
    cycles it adds to the clock.  [StepCycles] spends the caller's budget: the
    excess of an instruction is owed as a deficit and paid later.  [drive] is
    the loop of an embedding program that runs the processor for a time slice
    with it. *)

From S2P Require Import Prelude Monad Cpu Ram Flags Exception Timing Ea.
From S2P Require Import OpsCommon OpsMove OpsArith OpsLogic OpsBit OpsBcd OpsBranch OpsCtrl.
From S2P Require Import Exec Frames Decode Step Safety Run Outcome.

Section effects.
Context {B : Type} `{!Bus B}.
Implicit Types c : CPU B.

(** ** Exceptions and interrupts *)

Lemma implemented_supervisor sr :
  implemented sr -> implemented (Z.ldiff (Z.lor sr flagS) flagT).
Proof.
  rewrite !implemented_spec. intros H i Hi Hf.
  rewrite Z.ldiff_spec, Z.lor_spec, (H i Hi Hf). simpl.
  assert (Z.testbit flagS i = false) as ->; [|done].
  destruct (Z_lt_le_dec i 16); [|by apply (testbit_high 16); [|lia]].
  revert Hf. by enum_upto i 16%nat.
Qed.

Lemma walk_enterSupervisor : Walk loud (enterSupervisor (B := B)).
Proof.
  unfold enterSupervisor. apply (walk_bind _); [walk|]. intros sr. apply (walk_bind _); [walk|].
  intros _ c a c' [= <- <-]. repeat split; [|done]. simpl. apply implemented_supervisor.
Qed.

Lemma enterSupervisor_inS c c' : enterSupervisor c = Some (tt, c') -> inS c' = true.
Proof.
  intros (sr & c1 & _ & (u & c2 & _ & E)%bind_Some)%bind_Some. injection E as <-.
  apply tstb_S_lor.
Qed.

(** A quiet computation followed by something known of the rest. *)
Lemma bind_quiet {A C} (m : M (CPU B) A) (k : A -> M (CPU B) C) c a c' :
  Walk quiet m -> bind m k c = Some (a, c') ->
  exists x c1, quiet c c1 /\ k x c1 = Some (a, c').
Proof. intros Hm (x & c1 & E1 & E2)%bind_Some. apply Hm in E1. eauto. Qed.

Lemma bind_loud {A C} (m : M (CPU B) A) (k : A -> M (CPU B) C) c a c' :
  Walk loud m -> bind m k c = Some (a, c') ->
  exists x c1, loud c c1 /\ m c = Some (x, c1) /\ k x c1 = Some (a, c').
Proof. intros Hm (x & c1 & E1 & E2)%bind_Some. pose proof (Hm _ _ _ E1). eauto. Qed.

Ltac quiet_step E :=
  let c := fresh "c" in let H := fresh "Hq" in
  apply bind_quiet in E; [|solve [walk]]; destruct E as (? & c & H & E).

Lemma exception_effect v c c' :
  exception v c = Some (tt, c') ->
  exists c0, loud c c0 /\ inS c0 = true /\ (c' = with_halted true c0 \/ c' = tick 34 c0).
Proof.
  intros E. unfold exception in E. do 3 quiet_step E.
  apply bind_loud in E as ([] & d & Hl & Hent & E); [|apply walk_enterSupervisor].
  apply enterSupervisor_inS in Hent. do 3 quiet_step E.
  assert (loud c c5 /\ inS c5 = true) as [HL HS].
  { split.
    - do 3 (etrans; [by apply quiet_loud|]). etrans; [done|].
      do 2 (etrans; [by apply quiet_loud|]). by apply quiet_loud.
    - by rewrite (quiet_inS _ _ Hq4), (quiet_inS _ _ Hq3), (quiet_inS _ _ Hq2). }
  assert (forall d a, loud c d -> inS d = true -> (setPC a ;; AddCycles 34) d = Some (tt, c') ->
    exists c0, loud c c0 /\ inS c0 = true /\ (c' = with_halted true c0 \/ c' = tick 34 c0)) as Hfin.
  { intros d' a Hd HdS [= <-]. exists (on_reg (with_PC a) d'). split; [|by split; [|right]].
    etrans; [done|]. by repeat split. }
  revert E. case_if; [|by apply Hfin]. intros E. quiet_step E.
  assert (loud c c6) by (etrans; [done|by apply quiet_loud]).
  assert (inS c6 = true) by (by rewrite (quiet_inS _ _ Hq5)).
  revert E. case_if; [|by apply Hfin]. intros [= <-]. exists c6. auto.
Qed.

(** What taking an interrupt does before its charge. *)
Definition interrupted c c' : Prop :=
  cycles c' = cycles c /\ prevPC c' = prevPC c /\ deficit c' = deficit c /\ pendingIPL c' = 0 /\
  stopped c' = false /\ inS c' = true /\ (halted c = true -> halted c' = true) /\
  (0 <= pendingIPL c <= 7 -> implemented (rSR (reg c)) -> implemented (rSR (reg c'))).

Lemma implemented_mask sr level :
  0 <= level <= 7 -> implemented sr ->
  implemented (Z.lor (Z.land sr 0xF8FF) (u16 (Z.shiftl level 8))).
Proof.
  rewrite !implemented_spec. intros Hl H i Hi Hf.
  rewrite Z.lor_spec, Z.land_spec, (H i Hi Hf). simpl.
  destruct (Z_lt_le_dec i 16).
  - enum_upto level 8%nat; revert Hf; by enum_upto i 16%nat.
  - apply (testbit_high 16); [|done]. apply u16_range.
Qed.

Lemma inS_mask sr x : tstb sr flagS = true -> tstb (Z.lor (Z.land sr 0xF8FF) x) flagS = true.
Proof.
  change flagS with (2 ^ 13). rewrite !tstb_pow2, Z.lor_spec, Z.land_spec by lia. by intros ->.
Qed.

Lemma processInterrupt_effect c c' :
  processInterrupt c = Some (tt, c') -> exists c0, interrupted c c0 /\ c' = tick 44 c0.
Proof.
  intros E. unfold processInterrupt in E.
  rewrite (bind_eval _ _ c (pendingIPL c) c eq_refl), (bind_eval _ _ c (pendingVec c) c eq_refl) in E.
  rewrite (bind_eval _ _ c tt (with_pending 0 None c) eq_refl) in E. quiet_step E.
  apply bind_loud in E as ([] & d & Hl & Hent & E); [|apply walk_enterSupervisor].
  apply enterSupervisor_inS in Hent.
  rewrite (bind_eval _ _ d (rSR (reg d)) d eq_refl) in E.
  set (sr := Z.lor _ _) in E. rewrite (bind_eval _ _ d tt (on_reg (with_SR sr) d) eq_refl) in E.
  do 4 quiet_step E. cbv zeta in E. quiet_step E.
  assert (quiet (on_reg (with_SR sr) d) c5) as HQ
    by (etrans; [apply Hq0|]; etrans; [apply Hq1|]; etrans; [apply Hq2|]; by etrans; [apply Hq3|]).
  injection E as <-.
  exists (with_stopped false (on_reg (with_PC x4) c5)). split; [|done].
  assert (inS c5 = true) as HS by (rewrite (quiet_inS _ _ HQ); by apply inS_mask).
  destruct HQ as [(Q1 & Q2 & Q3 & Q4) _], Hl as (L1 & L2 & L3 & L4), Hq as [(P1 & P2 & P3 & P4) _].
  unfold latches in *. injection Q2 as ? ? ? ? ?. injection L2 as ? ? ? ? ?. injection P2 as ? ? ? ? ?.
  simpl in *. unfold interrupted. cbn [cycles prevPC deficit pendingIPL stopped halted with_stopped on_reg reg rSR with_PC].
  repeat split; try congruence; auto.
  intros Hp Hi. apply Q3. simpl. apply implemented_mask; auto.
Qed.

Lemma checkInterrupt_effect c c' :
  checkInterrupt c = Some (tt, c') ->
  c' = c \/ (exists c0, interrupted c c0 /\ c' = tick 44 c0).
Proof.
  intros E. unfold checkInterrupt in E. unfold gets, getSR, bind at 1 in E. simpl in E.
  revert E. case_if; [intros [= <-]; by left|]. intros E. unfold gets, bind in E. revert E.
  case_if; [|intros [= <-]; by left]. intros E. right. by apply processInterrupt_effect.
Qed.

(** ** The cost of a step *)

(** The clock advances by at most [hi] cycles, and by at least 4 unless the
    processor halts; SR keeps its form, and requests and deficit stay. *)
Definition spent (hi n : Z) c c' : Prop :=
  0 <= n <= hi /\ cycles c' = u64 (cycles c + n) /\ (halted c' = false -> 4 <= n) /\
  (halted c = true -> halted c' = true) /\
  deficit c' = deficit c /\ pendingIPL c' = pendingIPL c /\
  (implemented (rSR (reg c)) -> implemented (rSR (reg c'))).

Lemma outcome_spent c c' :
  is_u64 (cycles c) -> outcome 4 170 c c' -> exists n, spent 170 n c c'.
Proof.
  intros Hc Ho.
  assert (forall n c0, loud c c0 -> 4 <= n <= 170 -> spent 170 n c (tick n c0)) as Htick.
  { intros n c0 (H1 & H2 & H3 & H4) Hn. injection H2 as ? ? ? ? ?. unfold spent. simpl.
    rewrite H1. repeat split; auto; lia. }
  destruct Ho as [(c0 & n & Hq & Hn & ->)|[(v & c0 & _ & Hq & E)|[_ (c0 & n & Hl & Hn & ->)]]].
  - exists n. by apply Htick; [apply quiet_loud|].
  - apply exception_effect in E as (c1 & Hl & _ & Hend).
    assert (loud c c1) as HL by (etrans; [by apply quiet_loud|done]).
    destruct Hend as [-> | ->]; [|exists 34; apply Htick; [done|lia]].
    exists 0. destruct HL as (H1 & H2 & H3 & H4). injection H2 as ? ? ? ? ?. unfold spent. simpl.
    rewrite H1, Z.add_0_r, u64_small by done. repeat split; auto; lia.
  - exists n. by apply Htick.
Qed.

(** The state the handler of the fetched word [w] is run on. *)
Definition fetched (w : Z) c c' : Prop :=
  is_u16 w /\ ir c' = w /\ system c' = system c /\ cycles c' = cycles c /\ prevPC c' = rPC (reg c) /\
  deficit c' = deficit c /\ pendingIPL c' = pendingIPL c /\ (halted c = true -> halted c' = true) /\
  (implemented (rSR (reg c)) -> implemented (rSR (reg c'))).

Lemma executeNext_effect c c' :
  executeNext c = Some (tt, c') ->
  exists w c1 c2, fetched w c c1 /\ outcome 4 170 c1 c2 /\
    (c' = c2 \/ c' = with_halted true c2 /\ tstb (rPC (reg c2)) 1 = true).
Proof.
  intros E. unfold executeNext in E.
  rewrite (bind_eval _ _ c (rPC (reg c)) c eq_refl) in E.
  rewrite (bind_eval _ _ c tt (with_prevPC (rPC (reg c)) c) eq_refl) in E.
  apply bind_Some in E as (w & d & Hw & E).
  pose proof (fetchPC_u16 _ _ _ Hw) as Hu. apply walk_fetchPC in Hw as [Hl Hs].
  rewrite (bind_eval _ _ d tt (with_ir w d) eq_refl) in E.
  rewrite (bind_eval _ _ (with_ir w d) w (with_ir w d) eq_refl) in E.
  rewrite (bind_eval _ _ _ tt (on_reg (with_IR w) (with_ir w d)) eq_refl) in E.
  set (c1 := on_reg _ _) in E. apply bind_Some in E as ([] & c2 & Hx & E).
  apply ends_execute in Hx; [|done|done].
  exists w, c1, c2. split; [|split; [done|]].
  - destruct Hl as (H1 & H2 & H3 & H4). injection H2 as _ Hp Hi _ Hd.
    exact (conj Hu (conj eq_refl (conj Hs (conj H1 (conj Hp (conj Hd (conj Hi (conj H4 H3)))))))).
  - rewrite (bind_eval _ _ c2 (halted c2) c2 eq_refl) in E.
    rewrite (bind_eval _ _ c2 (rPC (reg c2)) c2 eq_refl) in E.
    destruct (halted c2), (tstb (rPC (reg c2)) 1); injection E as <-; auto.
Qed.

Lemma executeNext_spent c c' :
  is_u64 (cycles c) -> executeNext c = Some (tt, c') -> exists n, spent 170 n c c'.
Proof.
  intros Hc (w & c1 & c2 & Hf & Ho & Hend)%executeNext_effect.
  destruct Hf as (_ & _ & _ & F1 & _ & F2 & F3 & F4 & F5).
  apply outcome_spent in Ho as (n & Hn & O1 & O2 & O3 & O4 & O5 & O6); [|by rewrite F1].
  exists n. unfold spent. destruct Hend as [-> | [-> _]]; simpl;
    (split; [done|]); rewrite O1, O4, O5, F1, F2, F3; repeat split; auto; done.
Qed.

(** What a step does to a running processor. *)
Definition stepped (n : Z) c c' : Prop :=
  0 <= n <= 214 /\ (halted c' = false -> 4 <= n /\ cycles c' = u64 (cycles c + n)) /\
  (pendingIPL c' = pendingIPL c \/ pendingIPL c' = 0) /\
  (0 <= pendingIPL c <= 7 -> implemented (rSR (reg c)) -> implemented (rSR (reg c'))).

(** The reported cost is the advance of the clock. *)
Lemma elapsed x n : is_u64 x -> 0 <= n <= 214 -> s64 (u64 (u64 (x + n) - x)) = n.
Proof. wordlia. Qed.

Lemma u64_u64_add x a b : u64 (u64 (x + a) + b) = u64 (x + (a + b)).
Proof. wordlia. Qed.

(** The interrupt check at the start of a step. *)
Lemma checkInterrupt_stepped c c1 :
  is_u64 (cycles c) -> checkInterrupt c = Some (tt, c1) ->
  exists k, 0 <= k <= 44 /\ cycles c1 = u64 (cycles c + k) /\ is_u64 (cycles c1) /\
    (halted c = true -> halted c1 = true) /\
    (pendingIPL c1 = pendingIPL c \/ pendingIPL c1 = 0) /\
    (0 <= pendingIPL c <= 7 -> implemented (rSR (reg c)) -> implemented (rSR (reg c1))).
Proof.
  intros Hc [->|(c0 & Hi & ->)]%checkInterrupt_effect.
  - exists 0. rewrite Z.add_0_r, u64_small by done. repeat split; auto; lia || apply Hc.
  - exists 44. destruct Hi as (H1 & _ & _ & H2 & _ & _ & H3 & H4). simpl. rewrite H1.
    pose proof (u64_range (cycles c + 44)). repeat split; auto; lia || apply H.
Qed.

Lemma Step_effect c n c' :
  is_u64 (cycles c) -> halted c = false -> Step c = Some (n, c') -> stepped n c c'.
Proof.
  intros Hc Hh E. unfold Step in E.
  rewrite (bind_eval _ _ c false c) in E by (unfold gets; by rewrite Hh).
  rewrite (bind_eval _ _ c (cycles c) c eq_refl) in E.
  apply bind_Some in E as (st & c0 & [= <- <-] & E). destruct (stopped c).
  - rewrite (bind_eval _ _ c tt (tick 4 c) eq_refl) in E.
    apply bind_Some in E as ([] & c1 & Hi & E). injection E as <- <-.
    apply checkInterrupt_stepped in Hi as (k & Hk & H1 & _ & _ & H2 & H3); [|apply u64_range].
    simpl in *. rewrite u64_u64_add in H1. rewrite H1. unfold stepped.
    rewrite elapsed by (done || lia). rewrite H1. auto with lia.
  - apply bind_Some in E as ([] & c1 & Hi & E).
    apply checkInterrupt_stepped in Hi as (k & Hk & H1 & Hc1 & _ & H2 & H3); [|done].
    rewrite (bind_eval _ _ c1 (rPC (reg c1)) c1 eq_refl) in E. revert E. case_if.
    + intros [= <- <-]. unfold stepped. simpl. repeat split; auto; lia || done.
    + intros ([] & c2 & Hx & [= <- <-])%bind_Some.
      apply executeNext_spent in Hx as (m & Hm & O1 & O2 & _ & _ & O3 & O4); [|done].
      rewrite H1, u64_u64_add in O1. unfold stepped. rewrite O1, elapsed, O3 by (done || lia).
      split; [lia|]. split; [intros Hf; specialize (O2 Hf); split; [lia|done]|]. auto.
Qed.
End effects.

(** ** Budgets *)

Section budget.
Context {B : Type} `{!Bus B, !BusTyped B}.
Implicit Types c : CPU B.

Lemma step_total c : WF c -> exists n c', Step c = Some (n, c') /\ WF c' /\ deficit c' = deficit c.
Proof.
  intros Hwf. assert (bus_contract (fun _ : B => True)) as HP by (by constructor).
  pose proof (step_Step _ HP c (conj Hwf I)) as H.
  apply wp_elim in H as (n & c' & E & [Hwf' _] & Hd & _). eauto.
Qed.

Lemma WF_deficit c d : WF c -> s64 d = d -> WF (with_deficit d c).
Proof. intros [] Hd. by constructor. Qed.

Lemma with_deficit_same c : with_deficit (deficit c) c = c.
Proof. by destruct c. Qed.

(** [StepCycles] on a running processor, as one expression. *)
Lemma StepCycles_run budget c :
  halted c = false ->
  StepCycles budget c =
  if 0 <? deficit c then
    if deficit c <=? budget then Some (deficit c, with_deficit 0 c)
    else Some (budget, with_deficit (s64 (deficit c - budget)) c)
  else
    match Step c with
    | Some (cost, c1) =>
        if cost <=? budget then Some (cost, c1)
        else Some (budget, with_deficit (s64 (cost - budget)) c1)
    | None => None
    end.
Proof.
  intros Hh. unfold StepCycles. rewrite (bind_eval _ _ c false c) by (unfold gets; by rewrite Hh).
  rewrite (bind_eval _ _ c (deficit c) c eq_refl). case_if; [by case_if|].
  unfold bind. destruct (Step c) as [[cost c1]|]; [by case_if|done].
Qed.

(** The caller has paid for the cycles of the clock that are not owed. *)
Definition paid c : Z := u64 (cycles c - deficit c).

Lemma StepCycles_total budget c :
  WF c -> exists n c', StepCycles budget c = Some (n, c') /\ WF c'.
Proof.
  intros Hwf. destruct (halted c) eqn:Hh.
  { exists 0, c. unfold StepCycles, bind, gets. by rewrite Hh. }
  rewrite StepCycles_run by done.
  destruct (Z.ltb_spec 0 (deficit c)).
  - case_if; (eexists _, _; split; [reflexivity|]); by apply WF_deficit; [|wordlia].
  - destruct (step_total c Hwf) as (n & c1 & E & Hwf1 & _). rewrite E.
    case_if; (eexists _, _; split; [reflexivity|]); [done|].
    apply WF_deficit; [done|]. wordlia.
Qed.

Lemma StepCycles_effect budget c n c' :
  WF c -> halted c = false -> 0 <= deficit c -> 0 < budget < 0x8000000000000000 ->
  StepCycles budget c = Some (n, c') ->
  0 <= n <= budget /\ 0 <= deficit c' <= Z.max (deficit c) 213 /\
  (halted c' = false -> 0 < n /\ paid c' = u64 (paid c + n)).
Proof.
  intros Hwf Hh Hd Hb E. rewrite StepCycles_run in E by done.
  pose proof (wf_deficit c Hwf) as Hs.
  destruct (Z.ltb_spec 0 (deficit c)).
  - destruct (Z.leb_spec (deficit c) budget); injection E as <- <-; unfold paid; simpl.
    + split; [lia|]. split; [lia|]. intros _. split; [lia|]. wordlia.
    + rewrite (s64_small (deficit c - budget)) by wordlia.
      split; [lia|]. split; [lia|]. intros _. split; [lia|]. wordlia.
  - destruct (step_total c Hwf) as (m & c1 & ES & _ & Hd1).
    rewrite ES in E. apply Step_effect in ES as (Hm & Hrun & _); [|apply Hwf|done].
    destruct (Z.leb_spec m budget); injection E as <- <-; unfold paid; simpl.
    + split; [lia|]. split; [lia|]. intros Hf. destruct (Hrun Hf) as [? ->].
      split; [lia|]. rewrite Hd1. wordlia.
    + rewrite s64_small by wordlia. split; [lia|]. split; [lia|]. intros Hf.
      destruct (Hrun Hf) as [? ->]. split; [lia|]. wordlia.
Qed.

(** ** Running for a time slice

    The loop of a program that embeds the processor:
    [for budget > 0 { budget -= cpu.StepCycles(budget); if cpu.Halted() { break } }].
    [fuel] bounds the number of calls; running out of it is a failure. *)
Fixpoint drive (fuel : nat) (budget : Z) : M (CPU B) unit :=
  match fuel with
  | O => panic
  | S fuel =>
      if budget <=? 0 then ret tt
      else
        n <- StepCycles budget ;;
        h <- gets halted ;;
        if (h : bool) then ret tt else drive fuel (budget - n)
  end.

Lemma drive_S fuel budget c n c1 :
  0 < budget -> StepCycles budget c = Some (n, c1) ->
  drive (S fuel) budget c = if halted c1 then Some (tt, c1) else drive fuel (budget - n) c1.
Proof.
  intros Hb E. simpl. destruct (Z.leb_spec budget 0); [lia|].
  rewrite (bind_eval _ _ _ _ _ E), (bind_eval _ _ c1 (halted c1) c1 eq_refl).
  by destruct (halted c1).
Qed.

Lemma drive_total fuel budget c :
  WF c -> halted c = false -> 0 <= deficit c -> 0 <= budget < 0x8000000000000000 ->
  budget < Z.of_nat fuel ->
  exists c', drive fuel budget c = Some (tt, c') /\ WF c' /\
    0 <= deficit c' <= Z.max (deficit c) 213 /\
    (halted c' = false -> paid c' = u64 (paid c + budget)).
Proof.
  revert budget c. induction fuel as [|fuel IH]; intros budget c Hwf Hh Hd Hb Hf; [lia|].
  destruct (Z.eq_dec budget 0) as [->|Hne].
  { exists c. split; [done|]. split; [done|]. split; [lia|]. intros _. unfold paid. wordlia. }
  destruct (StepCycles_total budget c) as (n & c1 & E & Hwf1); [done|].
  destruct (StepCycles_effect budget c n c1) as (Hn & Hd1 & Hrun); [done|done|done|lia|done|].
  rewrite (drive_S fuel budget c n c1) by (done || lia). destruct (halted c1) eqn:Hh1.
  { exists c1. rewrite Hh1. split; [done|]. split; [done|]. split; [lia|done]. }
  destruct (Hrun eq_refl) as [Hpos Hp].
  destruct (IH (budget - n) c1) as (c' & E' & Hwf' & Hd' & Hp'); [done|done|lia|lia|lia|].
  exists c'. split; [done|]. split; [done|]. split; [lia|]. intros Hh'. rewrite (Hp' Hh'), Hp.
  wordlia.
Qed.

Lemma drive_more k fuel budget c r :
  drive fuel budget c = Some r -> drive (fuel + k) budget c = Some r.
Proof.
  revert budget c. induction fuel as [|fuel IH]; intros budget c; simpl; [done|].
  destruct (budget <=? 0); [done|]. rewrite !bind_Some. intros (n & c1 & E & E').
  exists n, c1. split; [done|]. unfold bind, gets in *. destruct (halted c1); [done|]. by apply IH.
Qed.

(** A call with a larger budget does the same, unless the smaller budget was
    spent with a deficit: then it also does the next call's payment. *)
Lemma StepCycles_split a b c n c1 :
  WF c -> halted c = false -> 0 <= deficit c -> 0 < a -> 0 < b -> a + b < 0x8000000000000000 ->
  StepCycles a c = Some (n, c1) -> halted c1 = false ->
  StepCycles (a + b) c = Some (n, c1) \/
  (n = a /\ StepCycles (a + b) c = bind (StepCycles b) (fun k => ret (a + k)) c1).
Proof.
  intros Hwf Hh Hd Ha Hb Hab. pose proof (wf_deficit c Hwf) as Hs.
  intros E Hh1. rewrite StepCycles_run in * by done.
  destruct (Z.ltb_spec 0 (deficit c)).
  - destruct (Z.leb_spec (deficit c) a); injection E as <- <-.
    { left. by destruct (Z.leb_spec (deficit c) (a + b)); [|lia]. }
    right. split; [done|]. unfold bind. rewrite (StepCycles_run b) by done. simpl.
    rewrite (s64_small (deficit c - a)) by wordlia. destruct (Z.ltb_spec 0 (deficit c - a)); [|lia].
    destruct (Z.leb_spec (deficit c) (a + b)), (Z.leb_spec (deficit c - a) b); try lia; unfold ret.
    + by replace (a + (deficit c - a)) with (deficit c) by lia.
    + by replace (deficit c - a - b) with (deficit c - (a + b)) by lia.
  - destruct (step_total c Hwf) as (m & d & ES & _ & Hd1). rewrite ES in *.
    apply Step_effect in ES as (Hm & _); [|apply Hwf|done].
    destruct (Z.leb_spec m a); injection E as <- <-.
    { left. by destruct (Z.leb_spec m (a + b)); [|lia]. }
    right. split; [done|]. unfold bind. rewrite (StepCycles_run b) by done. simpl.
    rewrite (s64_small (m - a)) by wordlia. destruct (Z.ltb_spec 0 (m - a)); [|lia].
    destruct (Z.leb_spec m (a + b)), (Z.leb_spec (m - a) b); try lia; unfold ret.
    + replace (a + (m - a)) with m by lia. do 3 f_equal. rewrite <- (with_deficit_same d) at 1.
      rewrite Hd1. unfold with_deficit. simpl. f_equal. lia.
    + by replace (m - a - b) with (m - (a + b)) by lia.
Qed.

Lemma drive_split f1 f2 a b c c1 c2 :
  WF c -> halted c = false -> 0 <= deficit c -> 0 <= a -> 0 <= b -> a + b < 0x8000000000000000 ->
  drive f1 a c = Some (tt, c1) -> halted c1 = false -> drive f2 b c1 = Some (tt, c2) ->
  drive (f1 + f2) (a + b) c = Some (tt, c2).
Proof.
  intros Hwf Hh Hd Ha Hb Hab E1 Hh1 E2.
  revert a c Hwf Hh Hd Ha Hab E1. induction f1 as [|f1 IH]; intros a c Hwf Hh Hd Ha Hab E1; [done|].
  destruct (Z.eq_dec a 0) as [->|Hne].
  { injection E1 as ->. rewrite Nat.add_comm. simpl (0 + b). by apply drive_more. }
  destruct (StepCycles_total a c) as (n & d & E & Hwfd); [done|].
  destruct (StepCycles_effect a c n d) as (Hn & Hdd & Hrun); [done|done|done|lia|done|].
  rewrite (drive_S f1 a c n d) in E1 by (done || lia).
  destruct (halted d) eqn:Hhd; [injection E1 as ->; congruence|].
  destruct (Z.eq_dec b 0) as [->|Hb0].
  { assert (c2 = c1) as -> by (destruct f2; [done|by injection E2]).
    rewrite Z.add_0_r. apply drive_more. by rewrite (drive_S f1 a c n d), Hhd by (done || lia). }
  destruct (StepCycles_split a b c n d) as [Es|[-> Es]]; [done..|lia|lia|done|done|done| |].
  - simpl (S f1 + f2)%nat. rewrite (drive_S (f1 + f2) (a + b) c n d), Hhd by (done || lia).
    replace (a + b - n) with (a - n + b) by lia. apply IH; (done || lia).
  - assert (c1 = d) as ->. { rewrite Z.sub_diag in E1. destruct f1; [done|by injection E1]. }
    destruct f2 as [|f2]; [done|].
    destruct (StepCycles_total b d) as (k & d2 & E' & Hwf2); [done|].
    rewrite (drive_S f2 b d k d2) in E2 by (done || lia).
    unfold bind at 1 in Es. rewrite E' in Es. simpl (S f1 + S f2)%nat.
    rewrite (drive_S (f1 + S f2) (a + b) c (a + k) d2) by (done || lia).
    destruct (halted d2); [done|]. replace (a + b - (a + k)) with (b - k) by lia.
    replace (f1 + S f2)%nat with (f2 + S f1)%nat by lia. by apply drive_more.
Qed.

(** The step in which the processor halts is the same whatever the budget; only
    the cycles owed for it differ. *)
Lemma StepCycles_halting a b c n c1 :
  halted c = false -> StepCycles a c = Some (n, c1) -> halted c1 = true ->
  exists m d, StepCycles b c = Some (m, with_deficit d c1).
Proof.
  intros Hh E Hh1. rewrite StepCycles_run in * by done. revert E. case_if.
  - case_if; intros [= _ <-]; simpl in Hh1; congruence.
  - destruct (Step c) as [[m c2]|]; [|done]. intros E.
    assert (exists d, c2 = with_deficit d c1) as [d ->].
    { revert E. case_if; intros [= _ <-]; exists (deficit c2); by destruct c2. }
    case_if; eauto.
Qed.

Lemma drive_split_halted fuel a b c c1 :
  WF c -> halted c = false -> 0 <= deficit c -> 0 <= a -> 0 < b -> a + b < 0x8000000000000000 ->
  drive fuel a c = Some (tt, c1) -> halted c1 = true ->
  exists d, drive fuel (a + b) c = Some (tt, with_deficit d c1).
Proof.
  intros Hwf Hh Hd Ha Hb Hab E1 Hh1.
  revert a c Hwf Hh Hd Ha Hab E1. induction fuel as [|fuel IH]; intros a c Hwf Hh Hd Ha Hab E1; [done|].
  destruct (Z.eq_dec a 0) as [->|Hne]; [injection E1 as ->; congruence|].
  destruct (StepCycles_total a c) as (n & d & E & Hwfd); [done|].
  destruct (StepCycles_effect a c n d) as (Hn & Hdd & Hrun); [done|done|done|lia|done|].
  rewrite (drive_S fuel a c n d) in E1 by (done || lia). destruct (halted d) eqn:Hhd.
  - injection E1 as ->. destruct (StepCycles_halting a (a + b) c n c1) as (m & x & Es); [done..|].
    exists x. rewrite (drive_S fuel (a + b) c m (with_deficit x c1)) by (done || lia).
    simpl (halted _). by rewrite Hhd.
  - destruct (StepCycles_split a b c n d) as [Es|[-> Es]]; [done..|lia|lia|done|done|done| |].
    + destruct (IH (a - n) d) as (x & Ex); [done|done|lia|lia|lia|done|]. exists x.
      rewrite (drive_S fuel (a + b) c n d), Hhd by (done || lia).
      by replace (a + b - n) with (a - n + b) by lia.
    + rewrite Z.sub_diag in E1. destruct fuel; [done|]. injection E1 as ->. congruence.
Qed.

Lemma drive_halted fuel budget c : halted c = true -> drive (S fuel) budget c = Some (tt, c).
Proof.
  intros Hh. simpl. case_if; [done|].
  rewrite (bind_eval _ _ c 0 c) by (unfold StepCycles, bind, gets; by rewrite Hh).
  by rewrite (bind_eval _ _ c true c) by (unfold gets; by rewrite Hh).
Qed.

(** More fuel than the budget gives the result that any fuel gives. *)
Lemma drive_enough f fuel budget c c' :
  WF c -> halted c = false -> 0 <= deficit c -> 0 <= budget < 0x8000000000000000 ->
  budget < Z.of_nat fuel -> drive f budget c = Some (tt, c') -> drive fuel budget c = Some (tt, c').
Proof.
  intros Hwf Hh Hd Hb Hf E. destruct (drive_total fuel budget c) as (d & E' & _); [done..|].
  pose proof (drive_more f _ _ _ _ E') as E1.
  pose proof (drive_more fuel _ _ _ _ E) as E2. rewrite Nat.add_comm in E2. congruence.
Qed.
End budget.

(** ** Properties *)

Section properties.
Context {B : Type} `{!Bus B, !BusTyped B}.
Implicit Types c : CPU B.

(** C9: the cost of a step.  Whatever the instruction, the operands and the
    devices, a step of a processor that is not halted reports between 0 and 214
    cycles; unless it halts the processor it takes at least 4, and the clock
    has advanced by exactly the cycles reported. *)
Theorem step_cost c :
  WF c -> halted c = false ->
  exists n c', Step c = Some (n, c') /\ 0 <= n <= 214 /\
    (halted c' = false -> 4 <= n /\ cycles c' = u64 (cycles c + n)).
Proof.
  intros Hwf Hh. destruct (step_total c Hwf) as (n & c' & E & _).
  apply Step_effect in E as Hs; [|apply Hwf|done]. destruct Hs as (Hn & Hr & _). eauto.
Qed.

(** The budget of [StepCycles].  A call never consumes more than its
    budget, and unless the processor halts it consumes something; the cycles it
    consumes are exactly those by which the clock, less the cycles still owed,
    advances; the debt stays below 214 cycles. *)
Theorem stepCycles_accounts budget c :
  WF c -> halted c = false -> 0 <= deficit c <= 213 -> 0 < budget < 0x8000000000000000 ->
  exists n c', StepCycles budget c = Some (n, c') /\ WF c' /\ 0 <= n <= budget /\
    0 <= deficit c' <= 213 /\
    (halted c' = false -> 0 < n /\ paid c' = u64 (paid c + n)).
Proof.
  intros Hwf Hh Hd Hb. destruct (StepCycles_total budget c) as (n & c' & E & Hwf'); [done|].
  destruct (StepCycles_effect budget c n c') as (Hn & Hd' & Hr); [done|done|lia|done|done|].
  exists n, c'. rewrite Z.max_r in Hd' by lia. done.
Qed.

(** C33: a time slice ends.  The loop that calls [StepCycles] until its budget
    is spent or the processor halts returns after at most [budget] calls, in a
    well-formed state; unless it halted, exactly [budget] cycles are paid.  The
    processor may owe up to 213 cycles at the start, the most an instruction
    leaves behind, and owes no more than that at the end. *)
Theorem driver_terminates budget c :
  WF c -> halted c = false -> 0 <= deficit c <= 213 -> 0 <= budget < 0x8000000000000000 ->
  exists c', drive (S (Z.to_nat budget)) budget c = Some (tt, c') /\ WF c' /\
    0 <= deficit c' <= 213 /\
    (halted c' = false -> paid c' = u64 (paid c + budget)).
Proof.
  intros Hwf Hh Hd Hb.
  destruct (drive_total (S (Z.to_nat budget)) budget c) as (c' & E & Hwf' & Hd' & Hp);
    [done|done|lia|done|lia|].
  exists c'. rewrite Z.max_r in Hd' by lia. done.
Qed.

(** C6: time slices compose.  Take a running processor that does not owe a
    negative number of cycles.  Running the loop for [a] cycles, then for [b]
    cycles, and running it once for [a + b] all end.  If the processor is still
    running after the first slice, both ways leave the same state, to the last
    register, byte and owed cycle; if it halts in the first slice they agree on
    everything but the cycles owed, which a halted processor never pays. *)
Theorem time_slices a b c :
  WF c -> halted c = false -> 0 <= deficit c -> 0 <= a -> 0 <= b -> a + b < 0x8000000000000000 ->
  exists c1 c2 c3,
    drive (S (Z.to_nat a)) a c = Some (tt, c1) /\ drive (S (Z.to_nat b)) b c1 = Some (tt, c2) /\
    drive (S (Z.to_nat (a + b))) (a + b) c = Some (tt, c3) /\
    with_deficit 0 c3 = with_deficit 0 c2 /\ (halted c1 = false -> c3 = c2).
Proof.
  intros Hwf Hh Hd Ha Hb Hab.
  destruct (drive_total (S (Z.to_nat a)) a c) as (c1 & E1 & Hwf1 & Hd1 & _); [done|done|done|lia|lia|].
  destruct (halted c1) eqn:Hh1.
  - pose proof (drive_halted (Z.to_nat b) b c1 Hh1) as E2. exists c1, c1.
    destruct (Z.eq_dec b 0) as [->|Hb0]; [exists c1; by rewrite Z.add_0_r|].
    destruct (drive_split_halted _ a b c c1 Hwf Hh Hd Ha ltac:(lia) Hab E1 Hh1) as (d & E3).
    exists (with_deficit d c1). split; [done|]. split; [done|]. split; [|by split; [|congruence]].
    eapply drive_enough; [done|done|done|lia|lia|exact E3].
  - destruct (drive_total (S (Z.to_nat b)) b c1) as (c2 & E2 & _); [done|done|lia|lia|lia|].
    exists c1, c2, c2. split; [done|]. split; [done|]. split; [|done].
    eapply drive_enough; [done|done|done|lia|lia|]. by eapply drive_split.
Qed.
End properties.

(** A processor spinning in [BRA *], ten cycles an instruction. *)
Definition spin : CPU Ram := cpuAt 0x1000 0x2700 0 0x8000 (poke 0x1000 [0x60; 0xFE] ram0).

Lemma spin_WF : WF spin.
Proof. apply cpuAt_WF; wordlia. Qed.

Definition spin1 : CPU Ram := tick 10 (on_reg (with_PC 0x1000) (fetch_state 0x60FE spin)).

Lemma spin_step : Step spin = Some (10, spin1).
Proof.
  apply (Step_run (region := fun _ => True) spin 0x60FE (H0 BRA) spin1); try reflexivity.
  - by repeat split.
  - by split; [split; [right|]|].
Qed.

Lemma step_cost_witness :
  exists n c', Step spin = Some (n, c') /\ 0 <= n <= 214.
Proof.
  destruct (step_cost spin) as (n & c' & E & Hn & _); [apply spin_WF|reflexivity|].
  exists n, c'. split; [exact E|exact Hn].
Defined.

Lemma stepCycles_accounts_witness :
  exists n c', StepCycles 4 spin = Some (n, c') /\ 0 <= n <= 4 /\ 0 <= deficit c' <= 213.
Proof.
  destruct (stepCycles_accounts 4 spin) as (n & c' & E & _ & Hn & Hd & _);
    [apply spin_WF|reflexivity|simpl; lia|lia|].
  exists n, c'. split; [exact E|]. split; [exact Hn|exact Hd].
Defined.

Lemma driver_terminates_witness :
  exists c', drive 101 100 spin = Some (tt, c') /\ WF c'.
Proof.
  destruct (driver_terminates 100 spin) as (c' & E & Hwf & _);
    [apply spin_WF|reflexivity|simpl; lia|lia|].
  exists c'. split; [exact E|exact Hwf].
Defined.

(** Four cycles, then six, are ten. *)
Lemma time_slices_witness :
  exists c1 c2 c3, drive 5 4 spin = Some (tt, c1) /\ drive 7 6 c1 = Some (tt, c2) /\
    drive 11 10 spin = Some (tt, c3) /\ with_deficit 0 c3 = with_deficit 0 c2.
Proof.
  destruct (time_slices 4 6 spin) as (c1 & c2 & c3 & E1 & E2 & E3 & H & _);
    [apply spin_WF|reflexivity|simpl; lia|lia|lia|lia|].
  exists c1, c2, c3. split; [exact E1|]. split; [exact E2|]. split; [exact E3|exact H].
Defined.
