(* ===== verification/Blind.v ===== *)
(** * What an instruction does not see

    The pending interrupt, the owed cycles and the clock are fields of the
    processor that no instruction handler reads.  [Hidden f] says that [f]
    changes such fields only, [Blind f m] that the computation [m] does the
    same whether or not [f] has been applied before it; [blind_execute] proves
    this of every instruction word. *)

From S2P Require Import Prelude Monad Cpu Flags Exception Timing Ea.
From S2P Require Import OpsCommon OpsMove OpsArith OpsLogic OpsBit OpsBcd OpsBranch OpsCtrl.
From S2P Require Import Decode Step Outcome.

Local Opaque opcodeTable.

(** [f] leaves alone what instructions read, and commutes with what they
    write. *)
Class Hidden {B : Type} (f : CPU B -> CPU B) : Prop := {
  hidden_reg c : reg (f c) = reg c;
  hidden_bus c : bus (f c) = bus c;
  hidden_ir c : ir (f c) = ir c;
  hidden_halted c : halted (f c) = halted c;
  hidden_prevPC c : prevPC (f c) = prevPC c;
  hidden_on_reg g c : on_reg g (f c) = f (on_reg g c);
  hidden_with_bus b c : with_bus b (f c) = f (with_bus b c);
  hidden_with_ir v c : with_ir v (f c) = f (with_ir v c);
  hidden_with_halted v c : with_halted v (f c) = f (with_halted v c);
  hidden_with_stopped v c : with_stopped v (f c) = f (with_stopped v c);
  hidden_with_prevPC v c : with_prevPC v (f c) = f (with_prevPC v c);
  hidden_tick n c : tick n (f c) = f (tick n c)
}.

#[export] Instance hidden_pending {B} l v : Hidden (with_pending (B := B) l v).
Proof. by constructor. Qed.

#[export] Instance hidden_deficit {B} d : Hidden (with_deficit (B := B) d).
Proof. by constructor. Qed.

#[export] Instance hidden_clock {B} k : Hidden (tick (B := B) k).
Proof. constructor; try done. intros n c. rewrite !tick_tick. f_equal. lia. Qed.

Section blind.
Context {B : Type} (f : CPU B -> CPU B) {Hf : Hidden f}.

Definition Blind {A} (m : M (CPU B) A) : Prop :=
  forall c, m (f c) = prod_map id f <$> m c.

Lemma blind_ret {A} (a : A) : Blind (ret a).
Proof. done. Qed.

Lemma blind_panic {A} : Blind (@panic (CPU B) A).
Proof. done. Qed.

Lemma blind_bind {A C} (m : M (CPU B) A) (k : A -> M (CPU B) C) :
  Blind m -> (forall a, Blind (k a)) -> Blind (bind m k).
Proof.
  intros Hm Hk c. unfold bind. rewrite Hm. destruct (m c) as [[a c1]|]; [|done]. apply Hk.
Qed.

Lemma blind_gets {A} (g : CPU B -> A) : (forall c, g (f c) = g c) -> Blind (gets g).
Proof. intros Hg c. unfold gets. by rewrite Hg. Qed.

Lemma blind_modify g : (forall c, g (f c) = f (g c)) -> Blind (modify g).
Proof. intros Hg c. unfold modify. by rewrite Hg. Qed.

Lemma blind_of_option {A} (o : option A) : Blind (of_option o).
Proof. by destruct o. Qed.

Lemma blind_index l i : Blind (index l i).
Proof. unfold index. by destruct (arr_get l i). Qed.

Lemma blind_when (b : bool) m : Blind m -> Blind (when b m).
Proof. by destruct b. Qed.

Lemma blind_foldM {A X} (body : A -> X -> M (CPU B) A) l acc :
  (forall a x, Blind (body a x)) -> Blind (foldM body l acc).
Proof.
  intros Hb. revert acc. induction l as [|x l IH]; intros acc; simpl; [apply blind_ret|].
  by apply blind_bind.
Qed.

(** A computation that starts by reading the registers only. *)
Lemma blind_registers {A X} (g : Registers -> X) (k : X -> M (CPU B) A) :
  (forall x, Blind (k x)) -> Blind (c <- get ;; k (g (reg c))).
Proof. intros Hk c. unfold bind, get. rewrite hidden_reg. apply Hk. Qed.

Lemma blind_getD i : Blind (getD i).
Proof. apply (blind_registers rD (fun l => index l i)). intros l. apply blind_index. Qed.

Lemma blind_getA i : Blind (getA i).
Proof. apply (blind_registers rA (fun l => index l i)). intros l. apply blind_index. Qed.

Lemma blind_on_reg g : Blind (modify (on_reg g)).
Proof. apply blind_modify, hidden_on_reg. Qed.

Lemma blind_setD i v : Blind (setD i v).
Proof.
  apply (blind_registers rD (fun l => l <- of_option (arr_set l i v) ;; modify (on_reg (with_D l)))).
  intros l. apply blind_bind; [apply blind_of_option|intros ?; apply blind_on_reg].
Qed.

Lemma blind_setA i v : Blind (setA i v).
Proof.
  apply (blind_registers rA (fun l => l <- of_option (arr_set l i v) ;; modify (on_reg (with_A l)))).
  intros l. apply blind_bind; [apply blind_of_option|intros ?; apply blind_on_reg].
Qed.

Lemma blind_from_reg {A} (g : Registers -> A) : Blind (gets (fun c => g (reg c))).
Proof. apply blind_gets. intros c. by rewrite hidden_reg. Qed.

Lemma blind_getir : Blind getir.
Proof. apply blind_gets, hidden_ir. Qed.

Lemma blind_halted : Blind (gets halted).
Proof. apply blind_gets, hidden_halted. Qed.

Lemma blind_prevPC : Blind (gets prevPC).
Proof. apply blind_gets, hidden_prevPC. Qed.

Lemma blind_setHalted v : Blind (setHalted v).
Proof. apply blind_modify, hidden_with_halted. Qed.

Lemma blind_setStopped v : Blind (setStopped v).
Proof. apply blind_modify, hidden_with_stopped. Qed.

Lemma blind_AddCycles n : Blind (AddCycles n).
Proof. apply blind_modify. exact (hidden_tick n). Qed.

Lemma blind_on_bus (g : B -> B) : Blind (modify (fun c => with_bus (g (bus c)) c)).
Proof. apply blind_modify. intros c. by rewrite hidden_bus, hidden_with_bus. Qed.

Lemma blind_busRead rd a : Blind (busRead rd a).
Proof.
  intros c. unfold busRead, bind, get. rewrite hidden_bus. destruct (rd a (bus c)) as [v b].
  unfold modify, ret. by rewrite hidden_with_bus.
Qed.

Lemma blind_busWrite wr a v : Blind (busWrite wr a v).
Proof. apply blind_on_bus. Qed.
End blind.

Create HintDb blind discriminated.
#[export] Hint Constants Opaque : blind.
#[export] Hint Resolve blind_ret blind_panic blind_of_option blind_index blind_getD blind_getA
  blind_setD blind_setA blind_on_reg blind_from_reg blind_getir blind_halted blind_prevPC
  blind_setHalted blind_setStopped blind_AddCycles blind_on_bus blind_busRead blind_busWrite : blind.

(** The function a computation is a call of. *)
Ltac head t :=
  lazymatch t with
  | ?g _ => head g
  | _ => t
  end.

(** Walk over a computation; a call that has no lemma is unfolded. *)
Ltac blind1 :=
  lazymatch goal with
  | |- Blind _ (let x := _ in _) => cbv zeta
  | |- Blind _ (bind _ _) => apply blind_bind; [|intros ?]
  | |- Blind _ (when _ _) => apply blind_when
  | |- Blind _ (foldM _ _ _) => apply blind_foldM; intros ? ?
  | |- Blind _ (match ?x with _ => _ end) => destruct x
  | |- Blind _ ?m => first
      [ solve [auto 2 with blind nocore typeclass_instances]
      | let h := head m in unfold h ]
  end.

Ltac blind := intros; repeat blind1.

Section instructions.
Context {B : Type} `{!Bus B} (f : CPU B -> CPU B) {Hf : Hidden f}.

Lemma blind_readBus sz a : Blind f (readBus sz a).
Proof. blind. Qed.

Lemma blind_writeBus sz a v : Blind f (writeBus sz a v).
Proof. blind. Qed.

#[local] Hint Resolve blind_readBus blind_writeBus : blind.

Lemma blind_fetchPC : Blind f fetchPC.
Proof. blind. Qed.

#[local] Hint Resolve blind_fetchPC : blind.

Lemma blind_resolveEA mode reg sz : Blind f (resolveEA mode reg sz).
Proof. blind. Qed.

Lemma blind_makeEARead mode reg sz : Blind f (call (makeEARead mode reg) sz).
Proof. unfold makeEARead. repeat case_match; blind. Qed.

Lemma blind_makeEAMemAddr mode reg sz : Blind f (call (makeEAMemAddr mode reg) sz).
Proof. unfold makeEAMemAddr. repeat case_match; blind. Qed.

Lemma blind_exception v : Blind f (exception v).
Proof. blind. Qed.

Lemma blind_setSR v : Blind f (setSR v).
Proof. blind. Qed.

#[local] Hint Resolve blind_resolveEA blind_makeEARead blind_makeEAMemAddr blind_exception
  blind_setSR : blind.

Lemma blind_run h : Blind f (run h).
Proof. destruct h as [o|o mode reg|o x mode reg|sm sr dm dr]; [destruct o..|]; blind. Qed.

(** No instruction reads a hidden field. *)
Lemma blind_execute w : Blind f (execute w).
Proof.
  unfold execute. destruct (opcodeTable !! w) as [h|]; [apply blind_run|]. blind.
Qed.

Lemma blind_executeNext : Blind f executeNext.
Proof.
  unfold executeNext. pose proof blind_execute as Hx. revert Hx.
  generalize (execute (B := B)). intros ex Hx.
  apply blind_bind; [blind|intros pc].
  apply blind_bind; [apply blind_modify, hidden_with_prevPC|intros _].
  apply blind_bind; [blind|intros w].
  apply blind_bind; [apply blind_modify, hidden_with_ir|intros _].
  apply blind_bind; [blind|intros i]. apply blind_bind; [blind|intros _].
  apply blind_bind; [apply Hx|intros _]. blind.
Qed.
End instructions.
