(* ===== verification/Interrupts.v ===== *)
(** * Interrupts and the stopped state, seen from [Step] (cpu.go, interrupt.go, ops_ctrl.go)

    A request that is masked cannot be observed by the program; one that is
    accepted acts between two instructions; STOP waits for one. *)

From S2P Require Import Prelude Monad Cpu Ram Flags Exception Timing Ea.
From S2P Require Import OpsCommon OpsMove OpsArith OpsLogic OpsBit OpsBcd OpsBranch OpsCtrl.
From S2P Require Import Exec Frames Decode Step Safety Run Outcome Clock Blind.

Local Opaque opcodeTable execute.

Section requests.
Context {B : Type} `{!Bus B}.
Implicit Types c : CPU B.

(** A step after its interrupt check. *)
Lemma Step_checked c c1 :
  halted c = false -> stopped c = false -> checkInterrupt c = Some (tt, c1) ->
  Step c = (pc <- getPC ;;
    if tstb pc 1 then setHalted true ;; ret 0
    else executeNext ;; after <- gets cycles ;; ret (s64 (u64 (after - cycles c)))) c1.
Proof.
  intros Hh Hst E. unfold Step. generalize (executeNext (B := B)). intros ex.
  rewrite (bind_eval _ _ c false c) by (unfold gets; by rewrite Hh).
  rewrite (bind_eval _ _ c (cycles c) c eq_refl).
  rewrite (bind_eval _ _ c false c) by (unfold gets; by rewrite Hst).
  by rewrite (bind_eval _ _ _ _ _ E).
Qed.

Lemma Step_stopped c c1 :
  halted c = false -> stopped c = true -> checkInterrupt (tick 4 c) = Some (tt, c1) ->
  Step c = Some (s64 (u64 (cycles c1 - cycles c)), c1).
Proof.
  intros Hh Hst E. unfold Step. generalize (executeNext (B := B)). intros ex.
  rewrite (bind_eval _ _ c false c) by (unfold gets; by rewrite Hh).
  rewrite (bind_eval _ _ c (cycles c) c eq_refl).
  rewrite (bind_eval _ _ c true c) by (unfold gets; by rewrite Hst).
  rewrite (bind_eval _ _ c tt (tick 4 c) eq_refl).
  by rewrite (bind_eval _ _ _ _ _ E).
Qed.

Lemma checkInterrupt_refused c :
  accepts (pendingIPL c) c = false -> checkInterrupt c = Some (tt, c).
Proof. intros Ha. by rewrite checkInterrupt_run, Ha. Qed.

Lemma with_pending_same c : with_pending (pendingIPL c) (pendingVec c) c = c.
Proof. by destruct c. Qed.

(** A request that is not accepted changes nothing but stays. *)
Lemma Step_refused c p v :
  halted c = false -> accepts p c = false ->
  Step (with_pending p v c) = prod_map id (with_pending p v) <$> Step (with_pending 0 None c).
Proof.
  intros Hh Ha. destruct (stopped c) eqn:Hst.
  - assert (forall q w, accepts q c = false -> Step (with_pending q w c) =
      Some (s64 (u64 (cycles (tick 4 c) - cycles c)), with_pending q w (tick 4 c))) as E
      by (intros q w Hq; exact (Step_stopped (with_pending q w c) (with_pending q w (tick 4 c))
            Hh Hst (checkInterrupt_refused (with_pending q w (tick 4 c)) Hq))).
    rewrite (E p v Ha), (E 0 None eq_refl). reflexivity.
  - rewrite (Step_checked (with_pending p v c) (with_pending p v c)) by
      (done || by apply checkInterrupt_refused).
    rewrite (Step_checked (with_pending 0 None c) (with_pending 0 None c)) by
      (done || by apply checkInterrupt_refused).
    assert (Blind (with_pending p v) (executeNext (B := B))) as Hx by apply blind_executeNext, _.
    revert Hx. generalize (executeNext (B := B)). intros ex Hx.
    enough (Blind (with_pending p v) (pc <- getPC ;;
      if tstb pc 1 then setHalted true ;; ret 0
      else ex ;; after <- gets cycles ;; ret (s64 (u64 (after - cycles c))))) as Hm
      by exact (Hm (with_pending 0 None c)).
    apply blind_bind; [blind|intros pc]. case_if; [blind|].
    apply blind_bind; [done|intros _]. apply blind_bind; [by apply blind_gets|blind].
Qed.
End requests.

Section acceptance.
Context {B : Type} `{!Bus B, !BusTyped B}.
Implicit Types c : CPU B.

Lemma processInterrupt_total c : WF c -> exists c', processInterrupt c = Some (tt, c') /\ WF c'.
Proof.
  intros Hwf. assert (bus_contract (fun _ : B => True)) as HP by (by constructor).
  pose proof (step_processInterrupt _ HP c (conj Hwf I)) as H.
  apply wp_elim in H as ([] & c' & E & [Hwf' _] & _). eauto.
Qed.

(** C35: when interrupts are taken, and what a pending one does to a program.
    Take a well-formed processor that is not halted.  A request that is not
    accepted (its level is not above the mask in SR, and not 7) cannot be
    observed: the step does exactly what it does without the request, whatever
    the instruction, and the request stays pending.  A request that is accepted
    by a processor that is not stopped acts between two instructions: the
    interrupt is entered, and the step goes on to execute the first instruction
    of the handler, as a step of its own with 44 more cycles (when the
    handler's address is even and entering did not halt the processor). *)
Theorem interrupt_acceptance c :
  WF c -> halted c = false ->
  if accepts (pendingIPL c) c then
    stopped c = false ->
    exists c1, processInterrupt c = Some (tt, c1) /\
      (halted c1 = false -> Z.even (rPC (reg c1)) = true ->
       exists n c2, Step c1 = Some (n, c2) /\ Step c = Some (44 + n, c2))
  else
    Step c = prod_map id (with_pending (pendingIPL c) (pendingVec c)) <$>
               Step (with_pending 0 None c).
Proof.
  intros Hwf Hh. destruct (accepts (pendingIPL c) c) eqn:Ha.
  - intros Hst. destruct (processInterrupt_total c Hwf) as (c1 & E & Hwf1). exists c1.
    split; [done|]. intros Hh1 Hev.
    destruct (step_total c1 Hwf1) as (n & c2 & ES & _). exists n, c2. split; [exact ES|].
    destruct (processInterrupt_effect c c1 E) as (d & (Hcyc & _ & _ & Hp & Hst1 & _) & ->).
    assert (checkInterrupt c = Some (tt, tick 44 d)) as Ec by (by rewrite checkInterrupt_run, Ha).
    assert (checkInterrupt (tick 44 d) = Some (tt, tick 44 d)) as Ed
      by (apply checkInterrupt_refused; simpl; by rewrite Hp).
    apply Step_effect in ES as Hs; [|apply Hwf1|done]. destruct Hs as [Hn _].
    rewrite (Step_checked _ _ Hh1 Hst1 Ed) in ES. rewrite (Step_checked _ _ Hh Hst Ec).
    assert (tstb (rPC (reg (tick 44 d))) 1 = false) as Hpc
      by (by rewrite tstb_1, <- Z.negb_even, Hev).
    rewrite (bind_eval _ _ (tick 44 d) _ (tick 44 d) eq_refl), Hpc in ES.
    rewrite (bind_eval _ _ (tick 44 d) _ (tick 44 d) eq_refl), Hpc.
    apply bind_Some in ES as ([] & c3 & Ex & ES). injection ES as Hn' <-. rewrite (bind_eval _ _ _ _ _ Ex).
    unfold bind, gets, ret. do 2 f_equal. simpl in Hn'. rewrite Hcyc in Hn'. subst n. wordlia.
  - rewrite <- (with_pending_same c) at 1. by apply Step_refused.
Qed.
End acceptance.

(** ** STOP *)

Section stop.
Context {B : Type} `{!Bus B} {region : Z -> Prop} {HM : BusMemory B region}.
Implicit Types c : CPU B.

(** STOP with the operand [imm] at PC. *)
Definition stop_at c (imm : Z) : Prop :=
  fetchable region c 0x4E72 /\
  accessible region sizeWord (u32 (rPC (reg c) + 2)) /\
  mem sizeWord (bus c) (u32 (rPC (reg c) + 2)) = imm.

(** The processor has stopped with [imm] in SR; only the clock and the
    latches of the fetch loop differ otherwise. *)
Definition waiting (imm : Z) c c1 : Prop :=
  sized c1 /\ stopped c1 = true /\ halted c1 = false /\ pendingIPL c1 = 0 /\
  rSR (reg c1) = Z.land imm 0xA71F /\ rPC (reg c1) = rPC (reg c) /\
  lusp c1 = lusp c /\ lssp c1 = lssp c /\ bus c1 = bus c /\
  rD (reg c1) = rD (reg c) /\ (forall i, 0 <= i < 7 -> areg c1 i = areg c i).

Lemma stop_step c imm :
  WF c -> running c -> inS c = true -> stop_at c imm ->
  exists c1, Step c = Some (4, c1) /\ waiting imm c c1 /\ is_u64 (cycles c1).
Proof.
  intros Hwf Hr HS (Hf & Hacc & Himm). pose proof (WF_sized c Hwf) as Hs.
  set (c0 := fetch_state 0x4E72 c).
  destruct (setSR_run (on_reg (with_PC (u32 (rPC (reg c0) + 2))) c0) imm)
    as (c1 & E1 & Hs1 & HSR & HU & HP & R); [exact Hs|].
  destruct R as (RD & RA & _ & _ & Rbus & Rcyc & _ & _ & Rh & Rpp & RIPL & _).
  set (c2 := tick 4 (on_reg (with_PC (prevPC c1)) (with_stopped true c1))).
  assert (run (H0 STOP) c0 = Some (tt, c2)) as E.
  { cbn [run run0]. unfold opSTOP, privileged. change (inS c) with (inS c0) in HS.
    rewrite (bind_eval supervisor _ c0 (inS c0) c0 eq_refl), HS. simpl (negb _). cbv iota.
    rewrite (bind_eval _ _ _ _ _ (fetchPC_mem c0 (proj1 Hr) Hacc)).
    change (mem sizeWord (bus c0) (rPC (reg c0))) with
      (mem sizeWord (bus c) (u32 (rPC (reg c) + 2))). rewrite Himm.
    by rewrite (bind_eval _ _ _ _ _ E1). }
  exists c2. split.
  - rewrite (Step_run c 0x4E72 (H0 STOP) c2 Hr Hf eq_refl E); [|simpl; rewrite Rh; apply Hr|].
    + unfold c2. simpl. rewrite Rcyc. simpl. pose proof (wf_cycles c Hwf). do 2 f_equal. wordlia.
    + simpl. rewrite Rpp. simpl. by eapply fetchable_even.
  - split; [|apply u64_range]. unfold waiting, c2. simpl.
    repeat split; try done; [apply Hs1|apply Hs1|rewrite Rh; apply Hr|rewrite RIPL; apply Hr].
Qed.

(** Steps of a stopped processor that has no request to accept. *)
Lemma stopped_steps n c :
  halted c = false -> stopped c = true -> is_u64 (cycles c) -> accepts (pendingIPL c) c = false ->
  steps n c = Some (tt, tick (4 * Z.of_nat n) c).
Proof.
  intros Hh Hst Hc Ha. revert c Hh Hst Hc Ha. induction n as [|n IH]; intros c Hh Hst Hc Ha.
  - simpl. unfold ret, tick. rewrite Z.add_0_r, u64_small by done. by destruct c.
  - simpl steps. erewrite bind_eval by (apply Step_stopped, (checkInterrupt_refused (tick 4 c)); done).
    rewrite IH by (done || apply u64_range). rewrite tick_tick. do 3 f_equal. lia.
Qed.

(** C38: STOP waits for an interrupt.  In supervisor mode, with no request
    pending, STOP takes 4 cycles, loads the implemented bits of its operand into
    SR and stops with PC at its own address; data and address registers, both
    stack pointers and memory are kept.  From then on every step takes 4 cycles
    and changes nothing else, however many there are, while no request is
    pending or the pending one is masked by the new SR.  The first step with a
    request that is not masked takes 48 cycles, leaves the stopped state and
    continues at the handler in supervisor mode (with a stack and a vector
    table in memory). *)
Theorem stop_waits c imm :
  WF c -> running c -> inS c = true -> stop_at c imm ->
  exists c1, Step c = Some (4, c1) /\ waiting imm c c1 /\
    forall p v n, 0 <= p <= 7 -> (forall x, v = Some x -> is_u8 x) ->
      let c2 := tick (4 * Z.of_nat n) (with_pending p v c1) in
      if accepts p c1 then
        vectors_ok (region := region) -> frame_ok (region := region) (lssp c) ->
        exists c3, Step c2 = Some (48, c3) /\ stopped c3 = false /\ halted c3 = false /\
          rPC (reg c3) = irqTarget c2 /\ inS c3 = true /\ irqMask c3 = p
      else steps n (with_pending p v c1) = Some (tt, c2).
Proof.
  intros Hwf Hr HS Hstop. destruct (stop_step c imm Hwf Hr HS Hstop) as (c1 & E & Hw & Hc1).
  exists c1. split; [done|]. split; [done|]. intros p v n Hp Hv c2.
  destruct Hw as (Hs & Hst & Hh & _ & HSR & HPC & _ & HP & _).
  destruct (accepts p c1) eqn:Ha; [|by apply (stopped_steps n (with_pending p v c1))].
  intros Hvec Hf. assert (0 <= irqVector (tick 4 c2) < 256) as Hiv.
  { unfold irqVector. simpl. destruct v as [x|]; [by apply Hv|apply u8_range]. }
  destruct (interrupt_run (tick 4 c2)) as (c3 & E3 & Hent & HSR3 & HPC3 & Hcyc & _ & _ & Hst3 & Hh3);
    [done|simpl; rewrite HSR; urange|simpl; rewrite HPC; apply Hwf|done|done|done| |].
  { change (lssp (tick 4 c2)) with (lssp c1). by rewrite HP. }
  assert (checkInterrupt (tick 4 c2) = Some (tt, c3)) as Ec.
  { rewrite checkInterrupt_run. change (accepts _ _) with (accepts p c1). by rewrite Ha. }
  exists c3. rewrite (Step_stopped c2 c3 Hh Hst Ec).
  split; [|split; [done|]; split; [done|]; split; [done|]; split; [apply Hent|]].
  - rewrite Hcyc. do 2 f_equal. simpl. wordlia.
  - unfold irqMask. rewrite HSR3. by apply (irq_SR (rSR (reg c2)) p).
Qed.

(** Where the interrupted program goes on after STOP: the frame holds the
    address of the STOP instruction, so that after RTE in the handler the
    processor executes STOP again. *)
Remark stop_runs_again c imm p v :
  WF c -> running c -> inS c = true -> stop_at c imm -> 0 <= p <= 7 ->
  (forall x, v = Some x -> is_u8 x) -> vectors_ok (region := region) ->
  frame_ok (region := region) (lssp c) ->
  exists c1 c2 c3, Step c = Some (4, c1) /\ processInterrupt (with_pending p v c1) = Some (tt, c2) /\
    opRTE c2 = Some (tt, c3) /\ rPC (reg c3) = rPC (reg c).
Proof.
  intros Hwf Hr HS Hstop Hp Hv Hvec Hf.
  destruct (stop_step c imm Hwf Hr HS Hstop) as (c1 & E & Hw & _).
  destruct Hw as (Hs & _ & Hh & _ & HSR & HPC & _ & HP & _).
  assert (0 <= irqVector (with_pending p v c1) < 256) as Hiv.
  { unfold irqVector. simpl. destruct v as [x|]; [by apply Hv|apply u8_range]. }
  destruct (interrupt_run (with_pending p v c1)) as (c2 & E2 & Hent & _ & _ & _ & _ & _ & _ & Hh2);
    [done|simpl; rewrite HSR; urange|simpl; rewrite HPC; apply Hwf|done|done|done| |].
  { change (lssp (with_pending p v c1)) with (lssp c1). by rewrite HP. }
  destruct Hent as (Hs2 & HS2 & HA2 & _ & Hbus & _).
  change (lssp (with_pending p v c1)) with (lssp c1) in *. rewrite HP in *.
  assert (is_u32 (lssp c)) as Hsp.
  { unfold lssp. case_if; [|apply Hwf]. by apply WF_areg. }
  destruct (rte_run (region := region) (lssp c) c2) as (c3 & E3 & _ & HPC3 & _); [done..|].
  exists c1, c2, c3. split; [done|]. split; [done|]. split; [done|].
  rewrite HPC3, Hbus, framed_long; [done|done|simpl; rewrite HPC; apply Hwf|simpl; rewrite HSR; urange].
Qed.
End stop.

(** ** Witnesses *)

(** With mask 7 a request of level 3 waits while the processor spins; one of
    level 7 is taken at once. *)
Lemma interrupt_acceptance_witness :
  Step (with_pending 3 None spin) = Some (10, with_pending 3 None spin1) /\
  exists c1, processInterrupt (with_pending 7 None spin) = Some (tt, c1) /\
    exists n c2, Step c1 = Some (n, c2) /\ Step (with_pending 7 None spin) = Some (44 + n, c2).
Proof.
  assert (forall p, is_u8 p -> WF (with_pending p None spin)) as Hwf
    by (intros p Hp; destruct spin_WF; by constructor).
  split.
  - refine (eq_trans (interrupt_acceptance (with_pending 3 None spin) (Hwf 3 _) eq_refl) _).
    + unfold is_u8. lia.
    + change (with_pending 0 None (with_pending 3 None spin)) with spin. rewrite spin_step.
      reflexivity.
  - destruct (interrupt_acceptance (with_pending 7 None spin) (Hwf 7 ltac:(unfold is_u8; lia)) eq_refl
      eq_refl) as (c1 & E & H).
    exists c1. split; [exact E|]. vm_compute in E. injection E as <-. exact (H eq_refl eq_refl).
Defined.

(** STOP #$2300 at 0x1000, the handler of autovector 4 at 0x2000. *)
Definition stopper : CPU Ram :=
  cpuAt 0x1000 0x2700 0 0x8000 (poke 0x1000 [0x4E; 0x72; 0x23; 0] sampleRam).

Lemma stop_waits_witness :
  exists c1, Step stopper = Some (4, c1) /\
    steps 5 (with_pending 2 None c1) = Some (tt, tick 20 (with_pending 2 None c1)) /\
    exists c3, Step (tick 20 (with_pending 4 None c1)) = Some (48, c3) /\ rPC (reg c3) = 0x2000.
Proof.
  destruct (stop_waits (region := fun _ => True) stopper 0x2300) as (c1 & E & Hw & H).
  - apply cpuAt_WF; wordlia.
  - by repeat split.
  - reflexivity.
  - split; [by split; [split; [right|]|]|]. split; [by split; [right|]|reflexivity].
  - exists c1. split; [exact E|]. destruct Hw as (_ & _ & _ & _ & HSR & _ & _ & _ & Hbus & _).
    assert (forall p, accepts p c1 = negb (p =? 0) && ((3 <? p) || (p =? 7))) as Ha
      by (intros p; unfold accepts, irqMask; rewrite HSR; reflexivity).
    split.
    + generalize (H 2 None 5%nat ltac:(lia) ltac:(done)). rewrite Ha. exact (fun X => X).
    + generalize (H 4 None 5%nat ltac:(lia) ltac:(done)). rewrite Ha. intros X.
      destruct (X sample_vectors frame_ok_8000) as (c3 & E3 & _ & _ & HPC & _).
      exists c3. split; [exact E3|]. rewrite HPC. unfold irqTarget.
      change (bus (tick _ _)) with (bus c1). rewrite Hbus. reflexivity.
Defined.
