(* ===== verification/Machine.v ===== *)
(** * The processor as its users see it

    A program that embeds the processor makes calls of its exported methods in
    any order (cpu.go, serialize.go).  [method] is such a call with its
    arguments, [invoke] its effect, and [reachable] the relation of the
    processors that sequences of calls lead to from [New]. *)

From S2P Require Import Prelude Monad Cpu Ram Flags Exception Timing Ea.
From S2P Require Import OpsCommon Exec Frames Step Serialize Safety Outcome Clock Blind Interrupts.

Section machine.
Context {B : Type} `{!Bus B, !BusTyped B}.
Implicit Types c : CPU B.

(** Go's types of the arguments. *)
Definition is_int (x : Z) : Prop := - 0x8000000000000000 <= x < 0x8000000000000000.
Definition is_vector (v : option Z) : Prop := forall x, v = Some x -> is_u8 x.

Record is_Registers (r : Registers) : Prop := mkIsRegisters {
  ir_D_length : length (rD r) = 8%nat;
  ir_D : Forall is_u32 (rD r);
  ir_A_length : length (rA r) = 8%nat;
  ir_A : Forall is_u32 (rA r);
  ir_PC : is_u32 (rPC r);
  ir_SR : is_u16 (rSR r);
  ir_USP : is_u32 (rUSP r);
  ir_SSP : is_u32 (rSSP r);
  ir_IR : is_u16 (rIR r)
}.

(** The exported methods that change the processor. *)
Inductive method : Type :=
| CallReset
| CallStep
| CallStepCycles (budget : Z)
| CallRequestInterrupt (level : Z) (vector : option Z)
| CallSetIPL (level : Z) (vector : option Z)
| CallAddCycles (n : Z)
| CallSetState (regs : Registers)
| CallDeserialize (buf : list Z).

Definition typed (m : method) : Prop :=
  match m with
  | CallReset | CallStep => True
  | CallStepCycles budget => is_int budget
  | CallRequestInterrupt level vector | CallSetIPL level vector => is_u8 level /\ is_vector vector
  | CallAddCycles n => is_u64 n
  | CallSetState regs => is_Registers regs
  | CallDeserialize buf => Forall is_u8 buf
  end.

(** A call, for its effect on the processor. *)
Definition invoke (m : method) c : option (CPU B) :=
  match m with
  | CallReset => snd <$> Reset c
  | CallStep => snd <$> Step c
  | CallStepCycles budget => snd <$> StepCycles budget c
  | CallRequestInterrupt level vector => snd <$> RequestInterrupt level vector c
  | CallSetIPL level vector => snd <$> SetIPL level vector c
  | CallAddCycles n => snd <$> AddCycles n c
  | CallSetState regs => snd <$> SetState regs c
  | CallDeserialize buf => snd <$> Deserialize buf c
  end.

(** What a sequence of well-typed calls satisfying [ok] leads to. *)
Inductive reachable (ok : method -> Prop) : CPU B -> Prop :=
| reachable_New b c : New b = Some c -> reachable ok c
| reachable_call m c c' :
    reachable ok c -> typed m -> ok m -> invoke m c = Some c' -> reachable ok c'.

(** ** Every call returns, in a well-formed state *)

Lemma bind_Read32 {A} a (k : Z -> M (CPU B) A) c :
  exists v b, bind (busRead Read32 a) k c = k v (with_bus b c) /\ is_u32 v.
Proof.
  pose proof (Read32_range a (bus c)) as Hv. unfold busRead, get, bind, modify, ret.
  destruct (Read32 a (bus c)) as [v b]. eauto.
Qed.

Lemma Reset_total c : WF c -> exists c', Reset c = Some (tt, c') /\ WF c'.
Proof.
  intros Hwf. unfold Reset. exec.
  match goal with |- context [bind (busRead _ 0) ?k ?s] =>
    destruct (bind_Read32 0 k s) as (ssp & b & -> & Hssp) end. exec.
  match goal with |- context [bind (busRead _ 4) ?k ?s] =>
    destruct (bind_Read32 4 k s) as (pc & b' & -> & Hpc) end.
  eexists. split; [reflexivity|]. destruct Hwf. constructor; simpl; try done; try wordlia.
  - repeat (constructor; [wordlia|]). constructor.
  - repeat (constructor; [wordlia|]). by repeat constructor.
Qed.

Lemma New_total b : exists c, New b = Some c /\ WF c.
Proof.
  destruct (Reset_total (zeroCPU b)) as (c & E & Hwf).
  - constructor; simpl; try done; try wordlia; repeat (constructor; [wordlia|]); constructor.
  - exists c. unfold New. rewrite E. done.
Qed.

Lemma WF_setA i v c : WF c -> is_u32 v -> 0 <= i < 8 -> WF (put_A i v c).
Proof.
  intros [] Hv Hi. constructor; simpl; try done; [by rewrite length_insert|by apply Forall_insert].
Qed.

Lemma SetState_total regs c :
  is_Registers regs -> WF c -> exists c', SetState regs c = Some (tt, c') /\ WF c'.
Proof.
  intros Hr Hwf. unfold SetState. exec.
  match goal with |- context [bind (foldM ?f ?l tt) ?k ?s] => set (c1 := s) end.
  assert (WF c1) as Hwf1 by (destruct Hr, Hwf; constructor; simpl; done || wordlia).
  clearbody c1.
  assert (forall l (d : CPU B), WF d -> Forall (fun i => 0 <= i < 8) l -> exists d',
    foldM (fun _ i => v <- index (rA regs) i ;; setA i v) l tt d = Some (tt, d') /\ WF d') as Hloop.
  { induction l as [|i l IH]; intros d Hd Hl; simpl; [eauto|].
    apply Forall_cons in Hl as [Hi Hl].
    destruct (arr_get_in (rA regs) i) as (v & Ev & Hv); [rewrite (ir_A_length _ Hr); lia|].
    pose proof (proj1 (Forall_forall _ _) (ir_A _ Hr) v Hv) as Hv32.
    erewrite bind_eval by (unfold index, bind; rewrite Ev; unfold ret; by apply setA_run, Hi; apply WF_sized).
    apply IH; [by apply WF_setA|done]. }
  destruct (Hloop (zrange 0 7) c1 Hwf1) as (c2 & E & Hwf2); [by repeat constructor|].
  rewrite (bind_eval _ _ _ _ _ E).
  case_if; rewrite setA_run by (lia || by apply WF_sized); (eexists; split; [reflexivity|]);
    (apply WF_setA; [done|apply Hr|lia]).
Qed.

Lemma invoke_total m c : typed m -> WF c -> exists c', invoke m c = Some c' /\ WF c'.
Proof.
  intros Ht Hwf. destruct m; simpl in *.
  - destruct (Reset_total c Hwf) as (c' & -> & Hwf'). eauto.
  - destruct (step_total c Hwf) as (n & c' & -> & Hwf' & _). eauto.
  - destruct (StepCycles_total budget c Hwf) as (n & c' & -> & Hwf'). eauto.
  - destruct Ht as [Hl Hv]. unfold RequestInterrupt, bind, gets.
    case_if; (eexists; split; [reflexivity|]); [|done]. destruct Hwf. by constructor.
  - destruct Ht as [Hl Hv]. eexists. split; [reflexivity|]. destruct Hwf. by constructor.
  - eexists. split; [reflexivity|]. destruct Hwf. constructor; try done. apply u64_range.
  - destruct (SetState_total regs c Ht Hwf) as (c' & -> & Hwf'). eauto.
  - destruct (Deserialize_WF buf c Ht Hwf) as (e & c' & -> & Hwf'). eauto.
Qed.

Lemma reachable_WF ok c : reachable ok c -> WF c.
Proof.
  induction 1 as [b c E|m c c' _ IH Ht _ E].
  - destruct (New_total b) as (c' & E' & Hwf). congruence.
  - destruct (invoke_total m c Ht IH) as (d & E' & Hwf). congruence.
Qed.

(** ** The status register and the interrupt level *)

(** SR has implemented bits only, the pending level is one of the eight, and
    the cycles owed are not more than an instruction can cost. *)
Definition regular c : Prop :=
  implemented (rSR (reg c)) /\ pendingIPL c <= 7 /\ 0 <= deficit c <= 214.

(** The same of a saved image: its SR, level and deficit fields. *)
Definition regular_image (buf : list Z) : Prop :=
  implemented (imageSR buf) /\ imageIPL buf <= 7 /\ 0 <= imageDeficit buf <= 214.

(** Calls as the documentation has them: levels 0 to 7, budgets that are not
    negative, register states with implemented SR bits only, images of regular
    states. *)
Definition disciplined (m : method) : Prop :=
  match m with
  | CallRequestInterrupt level _ | CallSetIPL level _ => level <= 7
  | CallStepCycles budget => 0 <= budget
  | CallSetState regs => implemented (rSR regs)
  | CallDeserialize buf => regular_image buf
  | _ => True
  end.

Lemma regular_loud c c' : loud c c' -> regular c -> regular c'.
Proof.
  intros (_ & Hl & Hi & _) (H1 & H2 & H3). injection Hl as _ _ Hp _ Hd. split; [auto|lia].
Qed.

Lemma walk_regular (m : M (CPU B) unit) c c' :
  Walk loud m -> regular c -> m c = Some (tt, c') -> regular c'.
Proof. intros Hm Hc E. apply Hm in E. by eapply regular_loud. Qed.

Lemma Reset_regular c c' : Reset c = Some (tt, c') -> regular c'.
Proof. unfold Reset. exec. apply walk_regular; [walk|by repeat split]. Qed.

Lemma SetState_regular regs c c' :
  implemented (rSR regs) -> SetState regs c = Some (tt, c') -> regular c'.
Proof.
  intros Hi. unfold SetState. exec. apply walk_regular; [walk; apply walk_index, _|by repeat split].
Qed.

Lemma Step_regular c n c' : WF c -> regular c -> Step c = Some (n, c') -> regular c'.
Proof.
  intros Hwf (Hi & Hp & Hd) E. destruct (halted c) eqn:Hh.
  - unfold Step, bind, gets in E. rewrite Hh in E. by injection E as _ <-.
  - pose proof (wf_IPL c Hwf) as Hl. unfold is_u8 in Hl.
    destruct (step_total c Hwf) as (m & d & E' & _ & Hd'). rewrite E' in E. injection E as -> ->.
    apply Step_effect in E' as (_ & _ & Hpend & HS); [|apply Hwf|done].
    split; [apply HS; [lia|done]|]. lia.
Qed.

Lemma StepCycles_regular budget c n c' :
  0 <= budget -> WF c -> regular c -> StepCycles budget c = Some (n, c') -> regular c'.
Proof.
  intros Hb Hwf Hc. destruct (halted c) eqn:Hh.
  - unfold StepCycles, bind, gets. rewrite Hh. by intros [= _ <-].
  - rewrite StepCycles_run by done. destruct (Z.ltb_spec 0 (deficit c)).
    + destruct Hc as (Hi & Hp & Hd). destruct (Z.leb_spec (deficit c) budget); intros [= _ <-];
        (split; [done|]); simpl; [lia|]. rewrite s64_small by lia. lia.
    + destruct (Step c) as [[m c1]|] eqn:E; [|done].
      apply Step_effect in E as Hm; [|apply Hwf|done]. destruct Hm as [Hm _].
      apply Step_regular in E as (Hi & Hp & Hd); [|done..].
      destruct (Z.leb_spec m budget); intros [= _ <-]; [done|].
      split; [done|]. simpl. rewrite s64_small by lia. lia.
Qed.

Lemma Deserialize_regular buf c e c' :
  regular_image buf -> regular c -> Deserialize buf c = Some (e, c') -> regular c'.
Proof.
  intros (Hi & Hp & Hd) Hc E. destruct e as [e|].
  - revert E. unfold Deserialize. repeat case_match; intros [= _ <-]; done.
  - apply Deserialize_fields in E as (E1 & E2 & E3). unfold regular. by rewrite E1, E2, E3.
Qed.

(** What a regular processor saves is a regular image. *)
Lemma Serialize_regular c buf buf' :
  WF c -> regular c -> Serialize c buf = Some (None, buf') -> regular_image buf'.
Proof.
  intros Hwf (Hi & Hp & Hd) E. destruct (Z_lt_le_dec (Z.of_nat (length buf)) SerializeSize) as [Hlt|Hge].
  - unfold Serialize in E. destruct (Z.ltb_spec (Z.of_nat (length buf)) SerializeSize); [done|lia].
  - rewrite Serialize_image in E by done.
    assert (buf' = image c ++ drop (length (image c)) buf) as -> by congruence.
    destruct (Deserialize_fields _ _ _ (Deserialize_image c c (drop (length (image c)) buf) Hwf))
      as (E1 & E2 & E3).
    unfold regular_image. rewrite <- E1, <- E2, <- E3. split; [done|]. split; [done|].
    simpl. replace (s32 (deficit c)) with (deficit c) by wordlia. lia.
Qed.

Lemma invoke_regular m c c' :
  WF c -> regular c -> disciplined m -> invoke m c = Some c' -> regular c'.
Proof.
  intros Hwf Hc Hm. destruct m; cbn [invoke disciplined] in *; rewrite fmap_Some;
    intros ([a d] & E & ->); cbn [snd];
    try match type of a with unit => destruct a end.
  - by eapply Reset_regular.
  - by eapply Step_regular.
  - by eapply StepCycles_regular.
  - unfold RequestInterrupt, bind, gets in E. revert E. case_if; intros [= <-]; [|done].
    destruct Hc as (Hi & _ & Hd). by split; [|split].
  - injection E as <-. destruct Hc as (Hi & _ & Hd). by split; [|split].
  - by injection E as <-.
  - by eapply SetState_regular.
  - by eapply Deserialize_regular.
Qed.

(** ** Privilege *)

(** A step that takes no interrupt halts at an odd PC or executes. *)
Lemma Step_executes c n c' :
  Step c = Some (n, c') -> halted c = false -> stopped c = false ->
  checkInterrupt c = Some (tt, c) -> c' = with_halted true c \/ executeNext c = Some (tt, c').
Proof.
  intros E Hh Hst Hi. rewrite (Step_checked c c Hh Hst Hi) in E.
  rewrite (bind_eval _ _ c (rPC (reg c)) c eq_refl) in E.
  revert E. case_if; [intros [= _ <-]; by left|].
  intros ([] & d & E & [= _ <-])%bind_Some. by right.
Qed.

(** ** Halting *)

(** The calls that restart a halted processor. *)
Definition restarts (m : method) : bool :=
  match m with
  | CallReset | CallSetState _ | CallDeserialize _ => true
  | _ => false
  end.

(** ** Interrupt requests *)

Fixpoint request (reqs : list (Z * option Z)) : M (CPU B) unit :=
  match reqs with
  | [] => ret tt
  | r :: reqs => RequestInterrupt (fst r) (snd r) ;; request reqs
  end.

Lemma request_app r1 r2 c c1 :
  request r1 c = Some (tt, c1) -> request (r1 ++ r2) c = request r2 c1.
Proof.
  revert c. induction r1 as [|r r1 IH]; intros c; simpl; [by intros [= ->]|].
  intros ([] & d & E & E')%bind_Some. rewrite (bind_eval _ _ _ _ _ E). auto.
Qed.

(** Requests below a level leave at most that level pending. *)
Lemma request_below reqs l c :
  Forall (fun r => fst r < l) reqs -> pendingIPL c < l ->
  exists p v, request reqs c = Some (tt, with_pending p v c) /\ p < l.
Proof.
  revert c. induction reqs as [|[p v] reqs IH]; intros c Hall Hc; simpl.
  - exists (pendingIPL c), (pendingVec c). split; [by destruct c|done].
  - apply Forall_cons in Hall as [Hp Hall]. simpl in Hp.
    unfold RequestInterrupt at 1, gets, bind. simpl.
    destruct (pendingIPL c <? p); [|by apply IH].
    destruct (IH (with_pending p v c)) as (p' & v' & E & Hp'); [done|done|].
    exists p', v'. split; [|done]. exact E.
Qed.

(** Requests not above the pending level are ignored. *)
Lemma request_ignored reqs c :
  Forall (fun r => fst r <= pendingIPL c) reqs -> request reqs c = Some (tt, c).
Proof.
  induction reqs as [|[p v] reqs IH]; intros Hall; simpl; [done|].
  apply Forall_cons in Hall as [Hp Hall]. simpl in Hp.
  unfold RequestInterrupt at 1, gets, bind. simpl. destruct (Z.ltb_spec (pendingIPL c) p); [lia|].
  by apply IH.
Qed.
End machine.

(** ** Properties *)

Section properties.
Context {B : Type} `{!Bus B, !BusTyped B}.
Implicit Types c : CPU B.

(** C2: the exported interface is total and type-safe.  [New] returns for every
    bus, and in every state that calls of the exported methods can lead to from
    it, in any order and with any arguments of their Go types, every further
    call returns without a panic and leaves a state in which all fields are in
    range; so does [Serialize], into a buffer of any length. *)
Theorem api_safe ok :
  (forall b, exists c, New b = Some c /\ reachable ok c) /\
  (forall m c, reachable ok c -> typed m -> WF c /\ exists c', invoke m c = Some c' /\ WF c') /\
  (forall buf c, reachable ok c -> exists r, Serialize c buf = Some r).
Proof.
  split; [|split].
  - intros b. destruct (New_total b) as (c & E & _). exists c. split; [done|]. by eapply reachable_New.
  - intros m c Hc Hm. pose proof (reachable_WF ok c Hc) as Hwf. split; [done|]. by apply invoke_total.
  - intros buf c Hc. eapply Serialize_total, reachable_WF, Hc.
Qed.

(** C11: calls that follow the documentation keep the state regular.  Let
    callers pass interrupt levels up to 7, budgets that are not negative and SR
    values with implemented bits only, and restore only images whose SR field
    has implemented bits only, whose level is at most 7 and whose deficit is
    between 0 and 214.  Then, whatever code the processor
    executes, every state the calls lead to has an SR with implemented bits
    only, a pending level of at most 7 and between 0 and 214 owed cycles; and
    whatever [Serialize] saves in such a state may be restored. *)
Theorem reachable_regular c :
  reachable disciplined c ->
  regular c /\
  forall buf buf', Serialize c buf = Some (None, buf') -> disciplined (CallDeserialize buf').
Proof.
  intros Hr. assert (regular c) as Hc.
  { induction Hr as [b c E|m c c' Hr IH Ht Hm E].
    - unfold New in E. apply fmap_Some in E as ([[] d] & E & ->). by eapply Reset_regular.
    - eapply invoke_regular; [by eapply reachable_WF|done..]. }
  split; [done|]. intros buf buf' E. eapply Serialize_regular; [by eapply reachable_WF|done..].
Qed.

(** C34: a halted processor stays halted.  Until a reset, a [SetState] or a
    restored image, no call makes it run again: it touches neither the bus nor
    a register. *)
Theorem halted_absorbing m c :
  halted c = true -> restarts m = false ->
  exists c', invoke m c = Some c' /\ halted c' = true /\ bus c' = bus c /\ reg c' = reg c.
Proof.
  intros Hh Hm. destruct m; try done; simpl.
  - exists c. unfold Step, bind, gets. by rewrite Hh.
  - exists c. unfold StepCycles, bind, gets. by rewrite Hh.
  - unfold RequestInterrupt, bind, gets. case_if; (eexists; split; [reflexivity|done]).
  - by eexists.
  - by eexists.
Qed.

(** C4: privilege.  In user mode, when no interrupt is taken, an instruction
    leaves the system state (the system byte of SR, the saved stack pointers
    and the stopped state) as it was, or it ends in an exception raised in that
    same system state: exceptions are the only way into supervisor mode. *)
Theorem user_mode_confined c n c' :
  halted c = false -> stopped c = false -> inS c = false -> checkInterrupt c = Some (tt, c) ->
  Step c = Some (n, c') ->
  system c' = system c \/
  exists v c0 c1, 0 <= v < 48 /\ system c0 = system c /\ exception v c0 = Some (tt, c1) /\
    (c' = c1 \/ c' = with_halted true c1).
Proof.
  intros Hh Hst HS Hi E. destruct (Step_executes c n c' E Hh Hst Hi) as [->|Hx]; [by left|].
  apply executeNext_effect in Hx as (w & c1 & c2 & Hf & Ho & Hend).
  destruct Hf as (_ & _ & Hsys & _).
  assert (inS c1 = false) as HS1 by (by rewrite (system_inS _ _ Hsys)).
  assert (system c' = system c2) as Hc' by (by destruct Hend as [->|[-> _]]).
  destruct Ho as [(c0 & k & Hq & _ & ->)|[(v & c0 & Hv & Hq & Ex)|[HS' _]]]; [left|right|congruence].
  - rewrite Hc'. change (system (tick k c0)) with (system c0). rewrite (proj2 Hq). done.
  - exists v, c0, c2. split; [done|]. split; [by rewrite (proj2 Hq)|]. split; [done|].
    destruct Hend as [->|[-> _]]; auto.
Qed.

(** The highest request wins.  Among requests made one after the other,
    the first one of the highest level, with its vector, is what is pending;
    nothing else changes. *)
Theorem highest_request_wins r1 l v r2 c :
  pendingIPL c < l -> Forall (fun r => fst r < l) r1 -> Forall (fun r => fst r <= l) r2 ->
  request (r1 ++ (l, v) :: r2) c = Some (tt, with_pending l v c).
Proof.
  intros Hc H1 H2. destruct (request_below r1 l c) as (p & w & E & Hp); [done|done|].
  rewrite (request_app _ _ _ _ E). simpl. unfold RequestInterrupt at 1, gets, bind. simpl.
  destruct (Z.ltb_spec p l); [|lia]. by apply (request_ignored r2 (with_pending l v c)).
Qed.
End properties.

(** A processor out of [New], with a stack and a program counter. *)
Definition booted : CPU Ram :=
  cpuAt 0x1000 0x2700 0 0x8000 (poke 0 [0; 0; 0x80; 0; 0; 0; 0x10; 0] ram0).

Lemma booted_reachable ok : reachable ok booted.
Proof.
  apply (reachable_New ok (poke 0 [0; 0; 0x80; 0; 0; 0; 0x10; 0] ram0)). reflexivity.
Qed.

Lemma api_safe_witness : exists c', invoke CallStep booted = Some c' /\ WF c'.
Proof. apply (proj1 (proj2 (api_safe (fun _ => True)))); [apply booted_reachable|exact I]. Defined.

(** A processor that takes a step, saves its state and is restored from it. *)
Lemma reachable_regular_witness :
  exists c buf c', reachable disciplined c /\ regular c /\
    Serialize c (replicate 104 0) = Some (None, buf) /\
    reachable disciplined c' /\ invoke (CallDeserialize buf) c = Some c' /\ regular c'.
Proof.
  destruct (invoke_total CallStep booted) as (c & E & Hwf);
    [exact I|by eapply reachable_WF, (booted_reachable disciplined)|].
  assert (reachable disciplined c) as Hr
    by exact (reachable_call disciplined CallStep booted c (booted_reachable disciplined) I I E).
  clear E. destruct (reachable_regular c Hr) as [Hc Hsave].
  pose proof (Serialize_image c (replicate 104 0) Hwf ltac:(done)) as Es.
  pose proof (Deserialize_image c c (drop (length (image c)) (replicate 104 0)) Hwf) as Ed.
  set (buf := _ ++ _) in Es, Ed.
  assert (invoke (CallDeserialize buf) c = Some (restored (bus c) c)) as Ei by (simpl; by rewrite Ed).
  assert (reachable disciplined (restored (bus c) c)) as Hr'.
  { apply (fun Ht => reachable_call _ (CallDeserialize buf) c _ Hr Ht (Hsave _ _ Es) Ei).
    apply Forall_app. split; [apply image_bytes, Hwf|]. apply Forall_drop, Forall_replicate. unfold is_u8. lia. }
  exists c, buf, (restored (bus c) c). split; [exact Hr|]. split; [exact Hc|]. split; [exact Es|].
  split; [exact Hr'|]. split; [exact Ei|]. apply (reachable_regular _ Hr').
Defined.

Lemma halted_absorbing_witness :
  exists c', invoke CallStep (with_halted true booted) = Some c' /\ halted c' = true.
Proof.
  destruct (halted_absorbing CallStep (with_halted true booted)) as (c' & E & H & _);
    [reflexivity..|]. exists c'. split; [exact E|exact H].
Defined.

(** The user program at 0x1000 executes a STOP. *)
Definition unprivileged : CPU Ram :=
  cpuAt 0x1000 0x0000 0x4000 0x8000 (poke 0x1000 [0x4E; 0x72; 0x27; 0x00] ram0).

Lemma user_mode_confined_witness :
  exists n c', Step unprivileged = Some (n, c') /\
    (system c' = system unprivileged \/
     exists v c0 c1, 0 <= v < 48 /\ system c0 = system unprivileged /\ exception v c0 = Some (tt, c1) /\
       (c' = c1 \/ c' = with_halted true c1)).
Proof.
  destruct (step_total unprivileged) as (n & c' & E & _); [apply cpuAt_WF; wordlia|].
  exists n, c'. split; [exact E|].
  apply (user_mode_confined unprivileged n c'); [reflexivity..|exact E].
Defined.

Lemma highest_request_wins_witness :
  request ([(2, None)] ++ (5, Some 64) :: [(5, None); (3, None)]) booted =
  Some (tt, with_pending 5 (Some 64) booted).
Proof. apply highest_request_wins; repeat constructor; simpl; lia. Defined.
